(** * sersync-plus: a shallow embedding of the change pipeline

    The Python sources under [src/sersync] are embedded as Rocq functions:
    - [core/event_queue.py]            -> [Module EventQueue]
    - [core/sync_engine.py]            -> [Module SyncEngine]
    - [core/faillog_executor.py]       -> [Module FailLogExecutor]
    - [bidirectional/metadata_manager.py]  -> [Module MetadataManager]
    - [bidirectional/conflict_detector.py] -> [Module ConflictDetector]
    - [bidirectional/conflict_resolver.py] -> [Module ConflictResolver]
    - [bidirectional/coordinator.py]       -> [Module Coordinator]
    - [bidirectional/sync_engine.py]   -> [Module BidirectionalSyncEngine]
    - [core/filter.py]                 -> [Module FileFilter]
    - [core/monitor.py]                -> [Module FileMonitor]
    - [core/engine.py]                 -> [Module SersyncEngine]

    Conventions.  A Python [str] is a [string] (one [ascii] per character,
    text is taken to be ASCII); [Optional[T]] is [option T]; an [int] is a
    [Z]; a wall-clock or mtime [float] is an exact rational [Q] (rounding is
    not modelled); a [dict] iterated in insertion order is an association
    list; an exception is a constructor of a result type.  The file system,
    the clock and spawned processes are explicit arguments. *)

From Stdlib Require Import String Ascii List ZArith QArith Qabs Bool Lia.
From Stdlib Require Import DecimalString ListSet Permutation Sorted.
Import ListNotations.

Set Implicit Arguments.

Local Open Scope string_scope.
Local Open Scope list_scope.

(* ===================================================================== *)
(** ** Python built-ins used by the sources *)
(* ===================================================================== *)

Module PyStr.

(** [s.startswith(p)] *)
Definition startswith (s p : string) : bool := String.prefix p s.

(** [sub in s] *)
Fixpoint contains (sub s : string) : bool :=
  String.prefix sub s ||
  match s with
  | EmptyString => false
  | String _ s' => contains sub s'
  end.

(** Characters removed by [str.strip()] and splitting [str.split()] in
    the ASCII range: TAB, LF, VT, FF, CR, FS, GS, RS, US and SPACE. *)
Definition isspace (c : ascii) : bool :=
  let n := nat_of_ascii c in
  ((9 <=? n) && (n <=? 13) || (28 <=? n) && (n <=? 32))%nat.

Fixpoint lstrip (s : string) : string :=
  match s with
  | EmptyString => EmptyString
  | String c s' => if isspace c then lstrip s' else s
  end.

Fixpoint rstrip (s : string) : string :=
  match s with
  | EmptyString => EmptyString
  | String c s' =>
      match rstrip s' with
      | EmptyString => if isspace c then EmptyString else String c EmptyString
      | r => String c r
      end
  end.

Definition strip (s : string) : string := rstrip (lstrip s).

(** [s.split(sep)] for a one-character separator: never empty. *)
Fixpoint split (sep : ascii) (s : string) : list string :=
  match s with
  | EmptyString => [EmptyString]
  | String c s' =>
      if Ascii.eqb c sep then EmptyString :: split sep s'
      else match split sep s' with
           | [] => [String c EmptyString]
           | w :: ws => String c w :: ws
           end
  end.

Definition LF : ascii := ascii_of_nat 10.
Definition NL : string := String LF EmptyString.

(** [s.split('\n')] *)
Definition splitlines (s : string) : list string := split LF s.

(** [sep.join(l)] *)
Fixpoint join (sep : string) (l : list string) : string :=
  match l with
  | [] => EmptyString
  | [x] => x
  | x :: rest => (x ++ sep ++ join sep rest)%string
  end.

(** [s.split()]: maximal runs of non-whitespace characters. *)
Fixpoint split_ws_go (s : string) : string * list string :=
  match s with
  | EmptyString => (EmptyString, [])
  | String c s' =>
      let (w, ws) := split_ws_go s' in
      if isspace c
      then (EmptyString, match w with EmptyString => ws | _ => w :: ws end)
      else (String c w, ws)
  end.

Definition split_ws (s : string) : list string :=
  let (w, ws) := split_ws_go s in
  match w with EmptyString => ws | _ => w :: ws end.

(** [s.replace(old, new)], all non-overlapping occurrences from the left.
    [skip] counts the characters of a matched [old] still to be dropped. *)
Fixpoint replace_go (old new : string) (skip : nat) (s : string) : string :=
  match s with
  | EmptyString => EmptyString
  | String c s' =>
      match skip with
      | S k => replace_go old new k s'
      | O =>
          if String.prefix old s
          then (new ++ replace_go old new (String.length old - 1) s')%string
          else String c (replace_go old new 0 s')
      end
  end.

Fixpoint replace_empty (new s : string) : string :=
  match s with
  | EmptyString => new
  | String c s' => (new ++ String c (replace_empty new s'))%string
  end.

Definition replace (old new s : string) : string :=
  match old with
  | EmptyString => replace_empty new s
  | _ => replace_go old new 0 s
  end.

(** [str(n)] / [f'{n}'] for an [int]. *)
Definition str_of_Z (n : Z) : string := NilZero.string_of_int (Z.to_int n).

(** Truth value of an [Optional[str]]: [None] and [''] are falsy. *)
Definition truthy_str (o : option string) : bool :=
  match o with
  | Some EmptyString | None => false
  | Some _ => true
  end.

(** Truth value of an [Optional[float]]: [None] and [0.0] are falsy. *)
Definition truthy_float (o : option Q) : bool :=
  match o with
  | Some q => negb (Qeq_bool q 0)
  | None => false
  end.

(** [x != y] on [Optional[int]] *)
Definition opt_Z_neq (x y : option Z) : bool :=
  match x, y with
  | Some a, Some b => negb (Z.eqb a b)
  | None, None => false
  | _, _ => true
  end.

(** A text without line break. *)
Definition lf_free (s : string) : Prop := contains NL s = false.

(** A text of blanks only, which [strip] empties. *)
Fixpoint blank (s : string) : bool :=
  match s with
  | EmptyString => true
  | String c s' => isspace c && blank s'
  end.

(** [l.insert(i, x)]: positions past the end append. *)
Definition list_insert {A : Type} (i : nat) (x : A) (l : list A) : list A :=
  firstn i l ++ x :: skipn i l.

(** [d.get(key)] on a dict kept as an association list. *)
Fixpoint dict_lookup {V : Type} (key : string) (d : list (string * V))
    : option V :=
  match d with
  | [] => None
  | (k, v) :: rest => if String.eqb k key then Some v else dict_lookup key rest
  end.

(** [d[key] = v]: a key already present keeps its position. *)
Fixpoint dict_set {V : Type} (key : string) (v : V) (d : list (string * V))
    : list (string * V) :=
  match d with
  | [] => [(key, v)]
  | (k, x) :: rest =>
      if String.eqb k key then (k, v) :: rest else (k, x) :: dict_set key v rest
  end.

(** [set(a.keys()) | set(b.keys())]: every key once.  Python leaves the
    iteration order of a set open; the order of first occurrence stands
    for it. *)
Definition keys_union {V W : Type} (a : list (string * V))
    (b : list (string * W)) : list string :=
  fold_left (fun acc k => set_add string_dec k acc)
    (map fst a ++ map fst b) [].

End PyStr.

(* ===================================================================== *)
(** ** bidirectional/conflict_detector.py *)
(* ===================================================================== *)

Module ConflictDetector.
Import PyStr.

Inductive ConflictType : Type :=
| NO_CONFLICT
| BOTH_MODIFIED
| LOCAL_DELETED_REMOTE_MODIFIED
| REMOTE_DELETED_LOCAL_MODIFIED
| BOTH_CREATED
| MOVE_CONFLICT.

Record FileMetadata : Type := mkFileMetadata {
  path : string;
  exists_ : bool;
  mtime : option Q;
  size : option Z;
  content_hash : option string
}.

(** [ConflictInfo]; [detected_at] (the wall clock at construction) is not
    kept. *)
Record ConflictInfo : Type := mkConflictInfo {
  conflict_type : ConflictType;
  local_meta : FileMetadata;
  remote_meta : FileMetadata;
  base_meta : option FileMetadata;
  details : option string
}.

(** The detector object: [ConflictDetector.__init__]. *)
Record t : Type := mk {
  time_tolerance : Z;
  enable_content_hash : bool
}.

Definition default : t := mk 2 true.

(** [abs(meta1.mtime - meta2.mtime) > self.time_tolerance], evaluated only
    when both mtimes are truthy. *)
Definition mtime_gap_exceeds (self : t) (meta1 meta2 : FileMetadata) : bool :=
  match mtime meta1, mtime meta2 with
  | Some m1, Some m2 =>
      truthy_float (Some m1) && truthy_float (Some m2) &&
      negb (Qle_bool (Qabs (m1 - m2)) (inject_Z (time_tolerance self)))
  | _, _ => false
  end.

Definition _files_identical (self : t) (meta1 meta2 : FileMetadata) : bool :=
  if negb (Bool.eqb (exists_ meta1) (exists_ meta2)) then false
  else if negb (exists_ meta1) && negb (exists_ meta2) then true
  else if opt_Z_neq (size meta1) (size meta2) then false
  else if mtime_gap_exceeds self meta1 meta2
            && negb (enable_content_hash self) then false
  else if enable_content_hash self
            && truthy_str (content_hash meta1)
            && truthy_str (content_hash meta2)
  then match content_hash meta1, content_hash meta2 with
       | Some h1, Some h2 => String.eqb h1 h2
       | _, _ => false
       end
  else true.

(** [base_meta and base_meta.exists] *)
Definition base_exists (base : option FileMetadata) : bool :=
  match base with Some b => exists_ b | None => false end.

(** [base_meta and not base_meta.exists] *)
Definition base_absent (base : option FileMetadata) : bool :=
  match base with Some b => negb (exists_ b) | None => false end.

Definition detect_conflict (self : t) (local remote : FileMetadata)
    (base : option FileMetadata) : option ConflictInfo :=
  if negb (exists_ local) && negb (exists_ remote) then None
  else if exists_ local && negb (exists_ remote) then
    if base_exists base
    then Some (mkConflictInfo REMOTE_DELETED_LOCAL_MODIFIED local remote base
                 (Some "Remote deleted but local modified"))
    else None
  else if negb (exists_ local) && exists_ remote then
    if base_exists base
    then Some (mkConflictInfo LOCAL_DELETED_REMOTE_MODIFIED local remote base
                 (Some "Local deleted but remote modified"))
    else None
  else if base_absent base && negb (_files_identical self local remote)
  then Some (mkConflictInfo BOTH_CREATED local remote base
               (Some "Both sides created different files"))
  else if _files_identical self local remote then None
  else if base_exists base
            && (match base with
                | Some b => negb (_files_identical self local b)
                            && negb (_files_identical self remote b)
                | None => false
                end)
  then Some (mkConflictInfo BOTH_MODIFIED local remote base
               (Some "Both sides modified the file"))
  else None.

(** "Identical" as the specification words it (section 4.8), to be
    compared with [_files_identical]: equal exists-bits; equal sizes; the
    hashes decide when hashing is enabled and both hashes are present;
    otherwise the mtimes, when both are present, must lie within the
    tolerance. *)
Definition identical_as_specified (self : t) (meta1 meta2 : FileMetadata)
    : bool :=
  Bool.eqb (exists_ meta1) (exists_ meta2) &&
  (negb (exists_ meta1) ||
   negb (opt_Z_neq (size meta1) (size meta2)) &&
   match enable_content_hash self, content_hash meta1, content_hash meta2 with
   | true, Some h1, Some h2 => String.eqb h1 h2
   | _, _, _ =>
       match mtime meta1, mtime meta2 with
       | Some m1, Some m2 =>
           Qle_bool (Qabs (m1 - m2)) (inject_Z (time_tolerance self))
       | _, _ => true
       end
   end).

(** Two 20 MiB files of equal size, written 100 seconds apart; files of
    10 MiB and more carry no content hash ([from_local_file]). *)
Definition large_file_at (t0 : Q) : FileMetadata :=
  mkFileMetadata "/w/big.bin" true (Some t0) (Some 20971520%Z) None.

(** The type reported by the detector, [NO_CONFLICT] standing for [None]. *)
Definition detected_type (r : option ConflictInfo) : ConflictType :=
  match r with Some c => conflict_type c | None => NO_CONFLICT end.

(** Mirror image of a conflict type under exchange of the two sides. *)
Definition mirror (c : ConflictType) : ConflictType :=
  match c with
  | LOCAL_DELETED_REMOTE_MODIFIED => REMOTE_DELETED_LOCAL_MODIFIED
  | REMOTE_DELETED_LOCAL_MODIFIED => LOCAL_DELETED_REMOTE_MODIFIED
  | other => other
  end.

(** [FileMetadata(path, exists=False)] *)
Definition missing (p : string) : FileMetadata :=
  mkFileMetadata p false None None None.

(** [files.get(path, FileMetadata(path, exists=False))] *)
Definition get_or_missing (files : list (string * FileMetadata))
    (p : string) : FileMetadata :=
  match dict_lookup p files with Some m => m | None => missing p end.

(** [base_files.get(path) if base_files else None]: an empty dict is
    falsy. *)
Definition base_for (base_files : option (list (string * FileMetadata)))
    (p : string) : option FileMetadata :=
  match base_files with
  | Some (_ :: _ as bf) => dict_lookup p bf
  | _ => None
  end.

Definition batch_detect_conflicts (self : t)
    (local_files remote_files : list (string * FileMetadata))
    (base_files : option (list (string * FileMetadata)))
    : list (string * ConflictInfo) :=
  fold_left
    (fun conflicts p =>
       match detect_conflict self (get_or_missing local_files p)
               (get_or_missing remote_files p) (base_for base_files p) with
       | Some conflict => dict_set p conflict conflicts
       | None => conflicts
       end)
    (keys_union local_files remote_files) [].

(** A small file known with its hash. *)
Definition small_file_at (t0 : Q) : FileMetadata :=
  mkFileMetadata "/w/a.txt" true (Some t0) (Some 3%Z) (Some "abc").

End ConflictDetector.

(* ===================================================================== *)
(** ** pathlib.PurePosixPath, as far as the sources use it *)
(* ===================================================================== *)

Module PosixPath.
Import PyStr.

Definition SLASH : ascii := ascii_of_nat 47.
Definition DOT : ascii := ascii_of_nat 46.

(** A parsed path: [root] is [""], ["/"] or ["//"]; [tail] holds the
    components, none of them empty or ["."]. *)
Record t : Type := mk { root : string; tail : list string }.

(** [posixpath.splitroot]: one or at least three leading slashes give the
    root ["/"], exactly two give ["//"]. *)
Definition splitroot (p : string) : string * string :=
  match p with
  | String c1 r1 =>
      if Ascii.eqb c1 SLASH then
        match r1 with
        | String c2 r2 =>
            if Ascii.eqb c2 SLASH then
              match r2 with
              | String c3 _ =>
                  if Ascii.eqb c3 SLASH then ("/", r1) else ("//", r2)
              | EmptyString => ("//", r2)
              end
            else ("/", r1)
        | EmptyString => ("/", r1)
        end
      else ("", p)
  | EmptyString => ("", p)
  end.

Definition keep_component (x : string) : bool :=
  negb (String.eqb x "") && negb (String.eqb x ".").

(** [Path(s)] *)
Definition parse (s : string) : t :=
  let (r, rel) := splitroot s in
  mk r (filter keep_component (split SLASH rel)).

(** [str(p)] *)
Definition str (p : t) : string :=
  match root p, tail p with
  | EmptyString, [] => "."
  | r, tl => (r ++ join "/" tl)%string
  end.

(** [p.parent] *)
Definition parent (p : t) : t :=
  match tail p with
  | [] => p
  | tl => mk (root p) (removelast tl)
  end.

(** [p.name] *)
Definition name (p : t) : string := last (tail p) "".

(** [s.rfind(c)], [None] for -1 *)
Fixpoint rfind (c : ascii) (s : string) : option nat :=
  match s with
  | EmptyString => None
  | String x s' =>
      match rfind c s' with
      | Some i => Some (S i)
      | None => if Ascii.eqb x c then Some O else None
      end
  end.

(** Position of the dot that starts the suffix: [0 < i < len(name) - 1]. *)
Definition suffix_index (n : string) : option nat :=
  match rfind DOT n with
  | Some i => if ((0 <? i) && (i <? String.length n - 1))%nat
              then Some i else None
  | None => None
  end.

(** [p.suffix] *)
Definition suffix (p : t) : string :=
  let n := name p in
  match suffix_index n with
  | Some i => substring i (String.length n - i) n
  | None => ""
  end.

(** [p.stem] *)
Definition stem (p : t) : string :=
  let n := name p in
  match suffix_index n with
  | Some i => substring 0 i n
  | None => n
  end.

(** [posixpath.join(a, b)] *)
Definition posix_join (a b : string) : string :=
  if startswith b "/" then b
  else match a with
       | EmptyString => b
       | _ => if String.eqb (substring (String.length a - 1) 1 a) "/"
              then (a ++ b)%string else (a ++ "/" ++ b)%string
       end.

(** [p / seg] *)
Definition joinpath (p : t) (seg : string) : t :=
  parse (posix_join (str p) seg).

(** [l1] is a prefix of [l2]; the rest of [l2] when it is. *)
Fixpoint strip_prefix (l1 l2 : list string) : option (list string) :=
  match l1, l2 with
  | [], rest => Some rest
  | x :: l1', y :: l2' => if String.eqb x y then strip_prefix l1' l2' else None
  | _ :: _, [] => None
  end.

(** [p.relative_to(other)]; [None] is the [ValueError] raised when [other]
    is neither [p] nor one of its parents. *)
Definition relative_to (p other : t) : option t :=
  if String.eqb (root p) (root other)
  then match strip_prefix (tail other) (tail p) with
       | Some rest => Some (mk "" rest)
       | None => None
       end
  else None.

End PosixPath.

(* ===================================================================== *)
(** ** bidirectional/conflict_resolver.py *)
(* ===================================================================== *)

Module ConflictResolver.
Import PyStr ConflictDetector.

Inductive ResolutionStrategy : Type :=
| KEEP_NEWER | KEEP_OLDER | KEEP_LARGER | KEEP_LOCAL | KEEP_REMOTE
| BACKUP_BOTH | MANUAL | SKIP.

(** [ResolutionResult]; [resolved_at] (the wall clock) is not kept.
    [backup_paths] is the dict from side name to backup path. *)
Record ResolutionResult : Type := mkResolutionResult {
  success : bool;
  strategy_used : ResolutionStrategy;
  action_taken : string;
  backup_paths : list (string * string);
  error_message : option string
}.

(** The resolver object.  [manual_callback] returns [None] when the
    callback raises. *)
Record t : Type := mk {
  default_strategy : ResolutionStrategy;
  backup_dir : PosixPath.t;
  enable_backup : bool;
  manual_callback : option (ConflictInfo -> option ResolutionStrategy)
}.

(** [ConflictResolver.__init__] (directory creation is not modelled). *)
Definition init (default_strategy : ResolutionStrategy)
    (backup_dir : option string) (enable_backup : bool)
    (manual_callback : option (ConflictInfo -> option ResolutionStrategy)) : t :=
  mk default_strategy
     (if truthy_str backup_dir
      then match backup_dir with
           | Some d => PosixPath.parse d
           | None => PosixPath.parse "/var/sersync/conflicts"
           end
      else PosixPath.parse "/var/sersync/conflicts")
     enable_backup manual_callback.

Section WithEnvironment.
(** [datetime.now().strftime("%Y%m%d_%H%M%S")] at the time of a backup. *)
Variable timestamp : string.
(** [shutil.copy2(src, dst)]: [true] when the copy succeeds, [false]
    when it raises. *)
Variable copy2 : string -> string -> bool.

Definition _backup_file (self : t) (file_meta : FileMetadata)
    (source : string) : option string :=
  if negb (exists_ file_meta) then None
  else
    let file_path := PosixPath.parse (path file_meta) in
    let backup_name :=
      (PosixPath.stem file_path ++ "_" ++ source ++ "_" ++ timestamp
         ++ PosixPath.suffix file_path)%string in
    let backup_path := PosixPath.joinpath (backup_dir self) backup_name in
    if copy2 (PosixPath.str file_path) (PosixPath.str backup_path)
    then Some (PosixPath.str backup_path)
    else None.

(** [{side: backup_path} if backup_path else {}] *)
Definition backup_dict (side : string) (backup_path : option string)
    : list (string * string) :=
  match backup_path with
  | Some p => if truthy_str (Some p) then [(side, p)] else []
  | None => []
  end.

(** [local_meta.mtime > remote_meta.mtime] under both being truthy *)
Definition mtime_gt (a b : option Q) : bool :=
  match a, b with
  | Some x, Some y => negb (Qle_bool x y)
  | _, _ => false
  end.

Definition mtime_lt (a b : option Q) : bool := mtime_gt b a.

Definition _resolve_keep_newer (self : t) (conflict : ConflictInfo)
    : ResolutionResult :=
  let local_meta := local_meta conflict in
  let remote_meta := remote_meta conflict in
  if negb (exists_ local_meta) then
    mkResolutionResult true KEEP_NEWER "Use remote (local deleted)" [] None
  else if negb (exists_ remote_meta) then
    mkResolutionResult true KEEP_NEWER "Use local (remote deleted)" [] None
  else if truthy_float (mtime local_meta) && truthy_float (mtime remote_meta)
  then
    if mtime_gt (mtime local_meta) (mtime remote_meta) then
      let backup_path :=
        if enable_backup self then _backup_file self remote_meta "remote"
        else None in
      mkResolutionResult true KEEP_NEWER "Use local (newer)"
        (backup_dict "remote" backup_path) None
    else
      let backup_path :=
        if enable_backup self then _backup_file self local_meta "local"
        else None in
      mkResolutionResult true KEEP_NEWER "Use remote (newer)"
        (backup_dict "local" backup_path) None
  else
    mkResolutionResult true KEEP_NEWER "Use local (default)" [] None.

Definition _resolve_keep_older (self : t) (conflict : ConflictInfo)
    : ResolutionResult :=
  let local_meta := local_meta conflict in
  let remote_meta := remote_meta conflict in
  if truthy_float (mtime local_meta) && truthy_float (mtime remote_meta)
  then
    if mtime_lt (mtime local_meta) (mtime remote_meta)
    then mkResolutionResult true KEEP_OLDER "Use local (older)" [] None
    else mkResolutionResult true KEEP_OLDER "Use remote (older)" [] None
  else mkResolutionResult true KEEP_OLDER "Use local (default)" [] None.

(** Truth value of an [Optional[int]]. *)
Definition truthy_int (o : option Z) : bool :=
  match o with Some n => negb (Z.eqb n 0) | None => false end.

Definition _resolve_keep_larger (self : t) (conflict : ConflictInfo)
    : ResolutionResult :=
  let local_meta := local_meta conflict in
  let remote_meta := remote_meta conflict in
  match size local_meta, size remote_meta with
  | Some ls, Some rs =>
      if truthy_int (Some ls) && truthy_int (Some rs) then
        if (ls >? rs)%Z
        then mkResolutionResult true KEEP_LARGER
               ("Use local (larger: " ++ str_of_Z ls ++ " bytes)")%string [] None
        else mkResolutionResult true KEEP_LARGER
               ("Use remote (larger: " ++ str_of_Z rs ++ " bytes)")%string [] None
      else mkResolutionResult true KEEP_LARGER "Use local (default)" [] None
  | _, _ => mkResolutionResult true KEEP_LARGER "Use local (default)" [] None
  end.

Definition _resolve_keep_local (self : t) (conflict : ConflictInfo)
    : ResolutionResult :=
  let backup_path :=
    if enable_backup self && exists_ (remote_meta conflict)
    then _backup_file self (remote_meta conflict) "remote" else None in
  mkResolutionResult true KEEP_LOCAL "Use local (policy)"
    (backup_dict "remote" backup_path) None.

Definition _resolve_keep_remote (self : t) (conflict : ConflictInfo)
    : ResolutionResult :=
  let backup_path :=
    if enable_backup self && exists_ (local_meta conflict)
    then _backup_file self (local_meta conflict) "local" else None in
  mkResolutionResult true KEEP_REMOTE "Use remote (policy)"
    (backup_dict "local" backup_path) None.

Definition _resolve_backup_both (self : t) (conflict : ConflictInfo)
    : ResolutionResult :=
  let local_part :=
    if exists_ (local_meta conflict)
    then backup_dict "local" (_backup_file self (local_meta conflict) "local")
    else [] in
  let remote_part :=
    if exists_ (remote_meta conflict)
    then backup_dict "remote"
           (_backup_file self (remote_meta conflict) "remote")
    else [] in
  mkResolutionResult true BACKUP_BOTH
    ("Backed up both versions to " ++ PosixPath.str (backup_dir self))%string
    (local_part ++ remote_part) None.

Definition _resolve_skip (self : t) (conflict : ConflictInfo)
    : ResolutionResult :=
  mkResolutionResult true SKIP "Skipped synchronization" [] None.

(** [resolve] on a strategy other than [MANUAL]. *)
Definition resolve_direct (self : t) (conflict : ConflictInfo)
    (strategy : ResolutionStrategy) : ResolutionResult :=
  match strategy with
  | KEEP_NEWER => _resolve_keep_newer self conflict
  | KEEP_OLDER => _resolve_keep_older self conflict
  | KEEP_LARGER => _resolve_keep_larger self conflict
  | KEEP_LOCAL => _resolve_keep_local self conflict
  | KEEP_REMOTE => _resolve_keep_remote self conflict
  | BACKUP_BOTH | MANUAL => _resolve_backup_both self conflict
  | SKIP => _resolve_skip self conflict
  end.

(** [_resolve_manual]: a callback answer other than [MANUAL] is resolved
    again; no callback, a raising callback or the answer [MANUAL] back
    up both sides. *)
Definition _resolve_manual (self : t) (conflict : ConflictInfo)
    : ResolutionResult :=
  match manual_callback self with
  | Some callback =>
      match callback conflict with
      | Some MANUAL | None => _resolve_backup_both self conflict
      | Some chosen_strategy => resolve_direct self conflict chosen_strategy
      end
  | None => _resolve_backup_both self conflict
  end.

(** [resolve(conflict, strategy)], [strategy or self.default_strategy]. *)
Definition resolve (self : t) (conflict : ConflictInfo)
    (strategy : option ResolutionStrategy) : ResolutionResult :=
  match match strategy with Some s => s | None => default_strategy self end with
  | MANUAL => _resolve_manual self conflict
  | s => resolve_direct self conflict s
  end.

(** [batch_resolve(conflicts, strategy)] *)
Definition batch_resolve (self : t) (conflicts : list (string * ConflictInfo))
    (strategy : option ResolutionStrategy)
    : list (string * ResolutionResult) :=
  fold_left
    (fun results kv => dict_set (fst kv) (resolve self (snd kv) strategy) results)
    conflicts [].

End WithEnvironment.

(** Sample conflict: both sides exist, only the local mtime is known. *)
Definition conflict_remote_mtime_unknown : ConflictInfo :=
  mkConflictInfo BOTH_MODIFIED
    (mkFileMetadata "/w/p" true (Some 100) (Some 5%Z) None)
    (mkFileMetadata "/w/p" true None (Some 7%Z) None)
    None None.

(** Sample conflict of scenario S5: local mtime 100, remote mtime 120. *)
Definition conflict_remote_newer : ConflictInfo :=
  mkConflictInfo BOTH_MODIFIED
    (mkFileMetadata "/w/p" true (Some 100) (Some 5%Z) None)
    (mkFileMetadata "/w/p" true (Some 120) (Some 7%Z) None)
    None None.

Definition sample_resolver : t :=
  init KEEP_NEWER (Some "/var/sersync/bidirectional/conflicts") true None.

(** The strategy [resolve] works with: [strategy or self.default_strategy]. *)
Definition chosen (self : t) (strategy : option ResolutionStrategy)
    : ResolutionStrategy :=
  match strategy with Some s => s | None => default_strategy self end.

(** The strategy that ends up applied: [MANUAL] hands over to the
    callback's answer, and to [BACKUP_BOTH] without a usable answer. *)
Definition applied (self : t) (conflict : ConflictInfo)
    (strategy : option ResolutionStrategy) : ResolutionStrategy :=
  match chosen self strategy with
  | MANUAL =>
      match manual_callback self with
      | Some callback =>
          match callback conflict with
          | Some MANUAL | None => BACKUP_BOTH
          | Some s => s
          end
      | None => BACKUP_BOTH
      end
  | s => s
  end.

(** The metadata of one side of a conflict. *)
Definition side_meta (conflict : ConflictInfo) (side : string)
    : option FileMetadata :=
  if String.eqb side "local" then Some (local_meta conflict)
  else if String.eqb side "remote" then Some (remote_meta conflict)
  else None.

(** An existing file [report.txt] in the directory [dir]. *)
Definition report_in (dir : string) : FileMetadata :=
  mkFileMetadata (dir ++ "/report.txt") true (Some 100) (Some 5%Z) None.

(** A copy that always succeeds. *)
Definition copy_ok (_ _ : string) : bool := true.

End ConflictResolver.

(* ===================================================================== *)
(** ** core/event_queue.py *)
(* ===================================================================== *)

Module EventQueue.
Import PyStr.

(** An event dict: the keys ['type'] and ['path'] given by the engine,
    its optional keyword arguments, ['timestamp'] set by [push] and
    ['merged_count'] set by [_merge_events]. *)
Record Event : Type := mkEvent {
  type : string;
  path : string;
  dest_path : option string;
  is_dir : option bool;
  timestamp : option Q;
  merged_count : option nat
}.

Definition set_timestamp (e : Event) (now : Q) : Event :=
  mkEvent (type e) (path e) (dest_path e) (is_dir e) (Some now)
          (merged_count e).

Definition set_merged_count (e : Event) (n : nat) : Event :=
  mkEvent (type e) (path e) (dest_path e) (is_dir e) (timestamp e) (Some n).

Record Stats : Type := mkStats {
  events_received : nat;
  events_merged : nat;
  events_output : nat;
  events_filtered : nat
}.

(** The queue object.  [pending_events] is the dict from path to the
    events of the current window, in insertion order; [output_queue] is
    the content of the FIFO [asyncio.Queue(maxsize=max_queue_size)],
    oldest first. *)
Record t : Type := mk {
  window_size : Q;
  max_queue_size : Z;
  pending_events : list (string * list Event);
  output_queue : list Event;
  last_flush : Q;
  stats : Stats
}.

Definition init (window_size : Q) (max_queue_size : Z) (now : Q) : t :=
  mk window_size max_queue_size [] [] now (mkStats 0 0 0 0).

(** [priority_order.get(e['type'], 0)] *)
Definition priority_order (ty : string) : Z :=
  if String.eqb ty "DELETE_FILE" then 4
  else if String.eqb ty "DELETE_FOLDER" then 4
  else if String.eqb ty "MOVE" then 3
  else if String.eqb ty "CLOSE_WRITE" then 2
  else if String.eqb ty "MODIFY" then 2
  else if String.eqb ty "CREATE_FILE" then 1
  else if String.eqb ty "CREATE_FOLDER" then 1
  else if String.eqb ty "ATTRIB" then 0
  else 0.

Definition priority (e : Event) : Z := priority_order (type e).

(** [sorted(events, key=..., reverse=True)]: a stable sort by decreasing
    key, elements of equal key keeping their order. *)
Fixpoint insert_desc (x : Event) (sorted : list Event) : list Event :=
  match sorted with
  | [] => [x]
  | y :: rest =>
      if (priority y >? priority x)%Z then y :: insert_desc x rest
      else x :: sorted
  end.

Definition sorted_desc (events : list Event) : list Event :=
  fold_right insert_desc [] events.

(** [_merge_events]: the merged event and the increment of
    [stats['events_merged']]; [None] is the [IndexError] on an empty
    list. *)
Definition _merge_events (events : list Event) : option (Event * nat) :=
  match events with
  | [e] => Some (e, 0%nat)
  | _ =>
      match sorted_desc events with
      | merged :: _ =>
          Some (set_merged_count merged (List.length events),
                (List.length events - 1)%nat)
      | [] => None
      end
  end.

(** [any(e['type'] == 'DELETE_FOLDER' for e in events)] *)
Definition has_delete_folder (events : list Event) : bool :=
  existsb (fun e => String.eqb (type e) "DELETE_FOLDER") events.

(** A Python [set] of paths: a list without repetition. *)
Definition set_add (x : string) (s : list string) : list string :=
  ListSet.set_add string_dec x s.

(** The scan that collects the paths holding a DELETE_FOLDER event into
    the set [acc]. *)
Definition collect_directory_deletes (pending : list (string * list Event))
    (acc : list string) : list string :=
  fold_left
    (fun acc g => if has_delete_folder (snd g) then set_add (fst g) acc else acc)
    pending acc.

(** [file_path.startswith(delete_path + '/') or file_path == delete_path] *)
Definition covered_by (file_path delete_path : string) : bool :=
  startswith file_path (delete_path ++ "/")%string
  || String.eqb file_path delete_path.

(** [_is_filtered_by_parent_delete].  The set passed in is the object the
    method may add to, so its final content is returned with the answer. *)
Definition _is_filtered_by_parent_delete
    (pending : list (string * list Event)) (file_path : string)
    (event : Event) (directory_deletes : option (list string))
    : bool * list string :=
  let deletes_to_check :=
    match directory_deletes with Some d => d | None => [] end in
  if String.eqb (type event) "DELETE_FOLDER" then (false, deletes_to_check)
  else
    let deletes_to_check :=
      match deletes_to_check with
      | [] => collect_directory_deletes pending deletes_to_check
      | _ => deletes_to_check
      end in
    (existsb (covered_by file_path) deletes_to_check, deletes_to_check).

(** [del d[key]] *)
Definition dict_del {V : Type} (key : string) (d : list (string * V))
    : list (string * V) :=
  filter (fun kv => negb (String.eqb (fst kv) key)) d.

(** [d[key].append(v)] on a [defaultdict(list)] *)
Fixpoint dict_append {V : Type} (key : string) (v : V)
    (d : list (string * list V)) : list (string * list V) :=
  match d with
  | [] => [(key, [v])]
  | (k, vs) :: rest =>
      if String.eqb k key then (k, vs ++ [v]) :: rest
      else (k, vs) :: dict_append key v rest
  end.

(** [self.output_queue.full()]: a FIFO whose [maxsize] is zero or negative
    is unbounded. *)
Definition full (max_queue_size : Z) (output : list Event) : bool :=
  (0 <? max_queue_size)%Z
  && (max_queue_size <=? Z.of_nat (List.length output))%Z.

(** What became of an awaited call on the queue: it returned, or it is
    suspended in [output_queue.put(waiting)] on a full FIFO.  In both
    cases [q] is the queue as the call has left it.  What a suspended call
    does once the consumer has freed a slot depends on the calls made in
    between and is not followed here. *)
Inductive Call : Type :=
| Returned (q : t)
| Suspended (q : t) (waiting : Event).

Definition queue_of (c : Call) : t :=
  match c with
  | Returned q => q
  | Suspended q _ => q
  end.

(** State of the loop of [flush]. *)
Record FlushState : Type := mkFlushState {
  fs_pending : list (string * list Event);
  fs_output : list Event;
  fs_stats : Stats;
  fs_deletes : list string
}.

(** One iteration of the second loop of [flush]: the state it leaves and,
    when [output_queue.put] found the FIFO full, the merged event it is
    suspended with.  The merge has then been counted, the group is still
    pending and nothing was put. *)
Definition flush_step (max_queue_size : Z) (st : FlushState)
    (item : string * list Event) : FlushState * option Event :=
  let (file_path, events) := item in
  match events, _merge_events events with
  | [], _ => (st, None)
  | _, None => (st, None)
  | _, Some (merged_event, merged_inc) =>
      let s := fs_stats st in
      let s1 := mkStats (events_received s) (events_merged s + merged_inc)
                        (events_output s) (events_filtered s) in
      let (filtered, deletes) :=
        _is_filtered_by_parent_delete (fs_pending st) file_path merged_event
          (Some (fs_deletes st)) in
      if filtered then
        (mkFlushState (dict_del file_path (fs_pending st)) (fs_output st)
           (mkStats (events_received s1) (events_merged s1)
                    (events_output s1) (events_filtered s1 + 1))
           deletes, None)
      else if full max_queue_size (fs_output st) then
        (mkFlushState (fs_pending st) (fs_output st) s1 deletes,
         Some merged_event)
      else
        (mkFlushState (dict_del file_path (fs_pending st))
           (fs_output st ++ [merged_event])
           (mkStats (events_received s1) (events_merged s1)
                    (events_output s1 + 1) (events_filtered s1))
           deletes, None)
  end.

(** The second loop of [flush] over the items still to visit, up to its
    end or to the first suspension. *)
Fixpoint flush_loop (max_queue_size : Z) (st : FlushState)
    (items : list (string * list Event)) : FlushState * option Event :=
  match items with
  | [] => (st, None)
  | item :: rest =>
      match flush_step max_queue_size st item with
      | (st1, None) => flush_loop max_queue_size st1 rest
      | suspended => suspended
      end
  end.

(** [flush], at clock reading [now].  A flush that is suspended has not
    reached the assignment to [last_flush]. *)
Definition flush (self : t) (now : Q) : Call :=
  match pending_events self with
  | [] => Returned self
  | items =>
      let directory_deletes := collect_directory_deletes items [] in
      match flush_loop (max_queue_size self)
              (mkFlushState items (output_queue self) (stats self)
                            directory_deletes) items with
      | (st, None) =>
          Returned (mk (window_size self) (max_queue_size self)
                       (fs_pending st) (fs_output st) now (fs_stats st))
      | (st, Some waiting) =>
          Suspended (mk (window_size self) (max_queue_size self)
                        (fs_pending st) (fs_output st) (last_flush self)
                        (fs_stats st))
                    waiting
      end
  end.

(** [push], the clock reading [now] at the time of the call. *)
Definition push (self : t) (now : Q) (event : Event) : Call :=
  let event := set_timestamp event now in
  let s := stats self in
  let self1 :=
    mk (window_size self) (max_queue_size self)
       (dict_append (path event) event (pending_events self))
       (output_queue self) (last_flush self)
       (mkStats (events_received s + 1) (events_merged s)
                (events_output s) (events_filtered s)) in
  if Qle_bool (window_size self) (now - last_flush self)
  then flush self1 now else Returned self1.

(** Calls made one after the other, each on the queue the one before has
    returned. *)
Definition then_push (c : Call) (now : Q) (event : Event) : Call :=
  match c with
  | Returned q => push q now event
  | Suspended _ _ => c
  end.

(** *** Vocabulary of the flush properties *)

(** The set [D]: paths with a pending DELETE_FOLDER event. *)
Definition directory_deletes_of (pending : list (string * list Event))
    : list string :=
  collect_directory_deletes pending [].

(** [d] is a strict ancestor of [p]. *)
Definition strict_ancestor (d p : string) : bool :=
  startswith p (d ++ "/")%string.

(** Suppression as the code decides it: the kind is not DELETE_FOLDER and
    the path is in [D] or below a member of [D]. *)
Definition suppressed (D : list string) (p : string) (m : Event) : bool :=
  negb (String.eqb (type m) "DELETE_FOLDER")
  && existsb (fun d => strict_ancestor d p || String.eqb p d) D.

(** Suppression as the specification words it: the kind is not
    DELETE_FOLDER and the path has a strict ancestor in [D]. *)
Definition suppressed_as_specified (D : list string) (p : string)
    (m : Event) : bool :=
  negb (String.eqb (type m) "DELETE_FOLDER")
  && existsb (fun d => strict_ancestor d p) D.

(** What one group contributes to the FIFO: its merged event unless
    suppressed. *)
Definition contribution (D : list string) (g : string * list Event)
    : list Event :=
  match _merge_events (snd g) with
  | Some (m, _) => if suppressed D (fst g) m then [] else [m]
  | None => []
  end.

(** The merged events a flush publishes, in publication order. *)
Definition published (pending : list (string * list Event)) : list Event :=
  flat_map (contribution (directory_deletes_of pending)) pending.

(** The kind selected by the specified merge: the earliest event among
    those of highest priority. *)
Definition first_of_highest_priority (events : list Event) (e : Event)
    : Prop :=
  exists before after,
    events = before ++ e :: after
    /\ (forall x, In x before -> (priority x < priority e)%Z)
    /\ (forall x, In x after -> (priority x <= priority e)%Z).

Definition ev (ty p : string) : Event := mkEvent ty p None None None None.

(** Suppression of one group as the specification words it. *)
Definition contribution_as_specified (D : list string)
    (g : string * list Event) : list Event :=
  match _merge_events (snd g) with
  | Some (m, _) => if suppressed_as_specified D (fst g) m then [] else [m]
  | None => []
  end.

(** The merged events the specified flush publishes. *)
Definition published_as_specified (pending : list (string * list Event))
    : list Event :=
  flat_map (contribution_as_specified (directory_deletes_of pending)) pending.

(** A window in which a file is deleted and a directory of the same name
    is then created and removed: three pushes on a new queue of the
    engine's size, within the window of 5 seconds. *)
Definition window_file_then_dir_deleted : t :=
  queue_of
    (then_push
       (then_push (push (init 5 10000 0) 1 (ev "DELETE_FILE" "/w/d"))
                  2 (ev "CREATE_FOLDER" "/w/d"))
       3 (ev "DELETE_FOLDER" "/w/d")).

(** Scenario S2: a directory is created, a file is created in it and the
    directory is deleted, all within one window. *)
Definition window_S2 : t :=
  queue_of
    (then_push
       (then_push (push (init 5 10000 0) 1 (ev "CREATE_FOLDER" "/w/dir"))
                  2 (ev "CREATE_FILE" "/w/dir/x"))
       3 (ev "DELETE_FOLDER" "/w/dir")).

(** Two files change within one window on a queue whose FIFO holds one
    event. *)
Definition window_two_files_small_fifo : t :=
  queue_of
    (then_push (push (init 5 1 0) 1 (ev "MODIFY" "/w/a"))
               2 (ev "MODIFY" "/w/b")).

(** [get]: the oldest event of the FIFO and the queue without it; [None]
    stands for the consumer waiting on an empty FIFO. *)
Definition get (self : t) : option (Event * t) :=
  match output_queue self with
  | e :: rest =>
      Some (e, mk (window_size self) (max_queue_size self)
                  (pending_events self) rest (last_flush self) (stats self))
  | [] => None
  end.

(** *** Runs of a queue *)

(** The calls made on a queue by its producer ([push]), its timer
    ([flush]) and its consumer ([get]). *)
Inductive Op : Type :=
| OpPush (now : Q) (event : Event)
| OpFlush (now : Q)
| OpGet.

(** One call; the second component collects what [get] delivered. *)
Definition step_op (st : t * list Event) (op : Op) : Call * list Event :=
  match op with
  | OpPush now event => (push (fst st) now event, snd st)
  | OpFlush now => (flush (fst st) now, snd st)
  | OpGet =>
      match get (fst st) with
      | Some (e, q) => (Returned q, snd st ++ [e])
      | None => (Returned (fst st), snd st)
      end
  end.

(** The calls of [ops] one after the other, up to the first one that is
    suspended on a full FIFO. *)
Fixpoint run_from (ops : list Op) (st : t * list Event)
    : Call * list Event :=
  match ops with
  | [] => (Returned (fst st), snd st)
  | op :: rest =>
      match step_op st op with
      | (Returned q, delivered) => run_from rest (q, delivered)
      | suspended => suspended
      end
  end.

Definition run (ops : list Op) (q : t) : Call * list Event :=
  run_from ops (q, []).

(** Number of events waiting in the window. *)
Definition pending_count (pending : list (string * list Event)) : nat :=
  list_sum (map (fun g => List.length (snd g)) pending).

(** The pending dict as [push] builds it: every path once, no empty
    group, every event filed under its own path. *)
Definition well_keyed (pending : list (string * list Event)) : Prop :=
  NoDup (map fst pending) /\
  forall k evs, In (k, evs) pending ->
    evs <> [] /\ forall e, In e evs -> path e = k.

(** Events a flush has dealt with: merged away, published or filtered. *)
Definition handled (s : Stats) : nat :=
  (events_merged s + events_output s + events_filtered s)%nat.

(** The balance of a queue: every event received is still pending or was
    handled by a flush, and every event published is in the FIFO or was
    delivered. *)
Definition balanced (q : t) (delivered : list Event) : Prop :=
  events_received (stats q)
  = (handled (stats q) + pending_count (pending_events q))%nat /\
  events_output (stats q)
  = (List.length (output_queue q) + List.length delivered)%nat.

(** The books of a queue whose flush is suspended with the merged event
    [waiting]: the FIFO is full, the group of [waiting] is still pending,
    and the events of that group which the merge has already counted as
    merged away are counted twice, as merged and as pending. *)
Definition suspended_books (q : t) (waiting : Event)
    (delivered : list Event) : Prop :=
  full (max_queue_size q) (output_queue q) = true /\
  events_output (stats q)
  = (List.length (output_queue q) + List.length delivered)%nat /\
  exists evs,
    In (path waiting, evs) (pending_events q) /\
    (events_received (stats q) + (List.length evs - 1)
     = handled (stats q) + pending_count (pending_events q))%nat.

(** The FIFO has room for [n] more events. *)
Definition has_room (q : t) (n : nat) : Prop :=
  (max_queue_size q <= 0)%Z \/
  (Z.of_nat (List.length (output_queue q) + n) <= max_queue_size q)%Z.

End EventQueue.

(* ===================================================================== *)
(** ** bidirectional/metadata_manager.py *)
(* ===================================================================== *)

Module MetadataManager.
Import PyStr.

(** Outcome of code that may raise. *)
Inductive Result (A : Type) : Type :=
| Ok (a : A)
| ValueError (key path watch : string)
    (** the configuration error of [_generate_safe_paths]; its message is
        built from the offending key, its path and the watched root *)
| OtherError.
Arguments Ok {A} a.
Arguments ValueError {A} key path watch.
Arguments OtherError {A}.

(** [self.metadata_paths]; a key present in the user's dict with value
    [None] yields [None]. *)
Record MetadataPaths : Type := mkMetadataPaths {
  state_dir : option string;
  conflict_dir : option string;
  lock_file : option string
}.

Record t : Type := mk {
  watch_path : string;   (** [str(Path(watch_path).resolve())] *)
  remote_name : string;
  metadata_paths : MetadataPaths;
  node_id : string
}.

(** [d.get(key, default)] on the user's dict (insertion order kept). *)
Fixpoint dict_get (d : list (string * option string)) (key : string)
    (default : option string) : option string :=
  match d with
  | [] => default
  | (k, v) :: rest => if String.eqb k key then v else dict_get rest key default
  end.

Section WithEnvironment.
(** [str(Path(p).resolve())], which depends on the file system (links,
    working directory); [None] when it raises. *)
Variable resolve : string -> option string.
(** [hashlib.md5(s.encode()).hexdigest()] *)
Variable md5_hexdigest : string -> string.
(** [_ensure_directories] followed by [_get_or_create_node_id]: the node
    id, or [None] when a directory or the id file cannot be created. *)
Variable prepare_node_id : MetadataPaths -> option string.

Definition _is_path_inside_watch (watch_path : string) (path : string)
    : bool :=
  match resolve path with
  | Some path_resolved => startswith path_resolved watch_path
  | None => false
  end.

Definition _generate_path_hash (watch_path remote_name : string) : string :=
  substring 0 8 (md5_hexdigest (watch_path ++ ":" ++ remote_name)%string).

Definition _get_default_state_dir (watch_path remote_name : string) : string :=
  ("/var/sersync/bidirectional/"
     ++ _generate_path_hash watch_path remote_name ++ "/state")%string.

Definition _get_default_conflict_dir (watch_path remote_name : string)
    : string :=
  ("/var/sersync/bidirectional/"
     ++ _generate_path_hash watch_path remote_name ++ "/conflicts")%string.

Definition _get_default_lock_file (watch_path remote_name : string) : string :=
  ("/var/sersync/bidirectional/"
     ++ _generate_path_hash watch_path remote_name ++ "/sync.lock")%string.

(** The validation loop: the first entry whose path is truthy and lies
    inside the watched root. *)
Fixpoint first_inside_watch (watch_path : string)
    (items : list (string * option string)) : option (string * string) :=
  match items with
  | [] => None
  | (key, path) :: rest =>
      match path with
      | Some p =>
          if truthy_str (Some p) && _is_path_inside_watch watch_path p
          then Some (key, p)
          else first_inside_watch watch_path rest
      | None => first_inside_watch watch_path rest
      end
  end.

Definition _generate_safe_paths (watch_path remote_name : string)
    (metadata_config : option (list (string * option string)))
    : Result MetadataPaths :=
  match metadata_config with
  | Some ((_ :: _) as cfg) =>
      match first_inside_watch watch_path cfg with
      | Some (key, p) => ValueError key p watch_path
      | None =>
          Ok (mkMetadataPaths
                (dict_get cfg "metadata_dir"
                   (Some (_get_default_state_dir watch_path remote_name)))
                (dict_get cfg "conflict_backup_dir"
                   (Some (_get_default_conflict_dir watch_path remote_name)))
                (dict_get cfg "lock_file"
                   (Some (_get_default_lock_file watch_path remote_name))))
      end
  | _ =>
      Ok (mkMetadataPaths
            (Some (_get_default_state_dir watch_path remote_name))
            (Some (_get_default_conflict_dir watch_path remote_name))
            (Some (_get_default_lock_file watch_path remote_name)))
  end.

(** [MetadataManager.__init__] *)
Definition init (watch_path remote_name : string)
    (metadata_config : option (list (string * option string))) : Result t :=
  match resolve watch_path with
  | None => OtherError
  | Some watch_resolved =>
      match _generate_safe_paths watch_resolved remote_name metadata_config with
      | Ok paths =>
          match prepare_node_id paths with
          | Some nid => Ok (mk watch_resolved remote_name paths nid)
          | None => OtherError
          end
      | ValueError key p w => ValueError key p w
      | OtherError => OtherError
      end
  end.

End WithEnvironment.

(** A file system without links: resolving an absolute path normalises
    it. *)
Definition resolve_plain (p : string) : option string :=
  Some (PosixPath.str (PosixPath.parse p)).

Definition md5_sample (_ : string) : string :=
  "5d41402abc4b2a76b9719d911017c592".

Definition node_id_sample (_ : MetadataPaths) : option string :=
  Some "node-1a2b3c4d".

(** *** The sync state file *)

(** One entry of [state['files']], as [update_file_state] writes it. *)
Record FileState : Type := mkFileState {
  fs_mtime : Q;
  fs_size : Z;
  fs_checksum : option string;
  last_modified_by : string;
  updated_at : string
}.

(** The dict read from the state file: a key that is absent is [None],
    a key that is present holds a value of the expected type.  The keys
    [created] and [last_sync], which nothing reads, are not kept; what
    [json.dump] writes, [json.load] reads back unchanged. *)
Record RawState : Type := mkRawState {
  raw_node_id : option string;
  raw_version : option Z;
  raw_files : option (list (string * FileState));
  raw_last_updated : option string
}.

(** A state that passed [_validate_state_format]. *)
Record SyncState : Type := mkSyncState {
  st_node_id : string;
  st_version : Z;
  st_files : list (string * FileState);
  st_last_updated : option string
}.

(** The state file: absent, present but unreadable ([open] or
    [json.load] raises), or holding a dict. *)
Inductive StateFile : Type :=
| Absent
| Unreadable
| Holding (raw : RawState).

(** [_create_initial_state]; [now] is the clock of the call. *)
Definition _create_initial_state (self : t) (now : string) : SyncState :=
  mkSyncState (node_id self) 1 [] (Some now).

(** [_validate_state_format]: the state when the three required keys
    are present. *)
Definition _validate_state_format (raw : RawState) : option SyncState :=
  match raw_node_id raw, raw_version raw, raw_files raw with
  | Some n, Some v, Some f => Some (mkSyncState n v f (raw_last_updated raw))
  | _, _, _ => None
  end.

Definition load_sync_state (self : t) (now : string) (disk : StateFile)
    : SyncState :=
  match disk with
  | Absent => _create_initial_state self now
  | Unreadable => _create_initial_state self now
  | Holding raw =>
      match _validate_state_format raw with
      | Some state => state
      | None => _create_initial_state self now
      end
  end.

(** [save_sync_state]; [written] tells whether writing the temporary file
    and renaming it succeeded: a failure is logged and leaves the state
    file as it was. *)
Definition save_sync_state (written : bool) (now : string)
    (state : SyncState) (disk : StateFile) : StateFile :=
  if written
  then Holding (mkRawState (Some (st_node_id state))
                  (Some (st_version state + 1)%Z)
                  (Some (st_files state)) (Some now))
  else disk.

(** [update_file_state]; [now] stands for every reading of the clock
    within the call. *)
Definition update_file_state (self : t) (written : bool) (now : string)
    (file_path : string) (mtime : Q) (size : Z) (checksum : option string)
    (disk : StateFile) : StateFile :=
  let state := load_sync_state self now disk in
  let files :=
    dict_set file_path (mkFileState mtime size checksum (node_id self) now)
      (st_files state) in
  save_sync_state written now
    (mkSyncState (st_node_id state) (st_version state) files
       (st_last_updated state))
    disk.

Definition remove_file_state (self : t) (written : bool) (now : string)
    (file_path : string) (disk : StateFile) : StateFile :=
  let state := load_sync_state self now disk in
  match dict_lookup file_path (st_files state) with
  | Some _ =>
      save_sync_state written now
        (mkSyncState (st_node_id state) (st_version state)
           (EventQueue.dict_del file_path (st_files state))
           (st_last_updated state))
        disk
  | None => disk
  end.

Definition get_file_state (self : t) (now : string) (file_path : string)
    (disk : StateFile) : option FileState :=
  dict_lookup file_path (st_files (load_sync_state self now disk)).

(** A state file that [load_sync_state] replaces by a fresh state. *)
Definition unusable (disk : StateFile) : bool :=
  match disk with
  | Absent | Unreadable => true
  | Holding raw =>
      match _validate_state_format raw with Some _ => false | None => true end
  end.

(** A manager of node [node-1a2b3c4d] with the default paths. *)
Definition manager_sample : t :=
  mk "/data/site" "backup"
     (mkMetadataPaths (Some "/var/sersync/bidirectional/5d41402a/state")
        (Some "/var/sersync/bidirectional/5d41402a/conflicts")
        (Some "/var/sersync/bidirectional/5d41402a/sync.lock"))
     "node-1a2b3c4d".

(** *** core/engine.py, [_setup_bidirectional_sync]: the metadata
    configuration built from the three override fields of a remote. *)
Definition remote_metadata_config
    (metadata_dir conflict_backup_dir lock_file : option string)
    : option (list (string * option string)) :=
  if truthy_str metadata_dir || truthy_str conflict_backup_dir
     || truthy_str lock_file
  then Some [("metadata_dir", metadata_dir);
             ("conflict_backup_dir", conflict_backup_dir);
             ("lock_file", lock_file)]
  else None.

(** *** Conflict backups *)

(** [a > b] on the tuples [(st_mtime, path)] that [cleanup_old_backups]
    sorts; the paths are children of one directory and compare by
    name. *)
Definition backup_gt (a b : Q * string) : bool :=
  negb (Qle_bool (fst a) (fst b))
  || (Qeq_bool (fst a) (fst b) && String.ltb (snd b) (snd a)).

(** [backup_files.sort(reverse=True)]: a stable sort, largest first. *)
Fixpoint insert_backup (x : Q * string) (sorted : list (Q * string))
    : list (Q * string) :=
  match sorted with
  | [] => [x]
  | y :: rest =>
      if backup_gt y x then y :: insert_backup x rest else x :: sorted
  end.

Definition sort_backups (backup_files : list (Q * string))
    : list (Q * string) :=
  fold_right insert_backup [] backup_files.

(** [l[n:]] for an [int] [n]: a negative [n] counts from the end. *)
Definition slice_from {A : Type} (n : Z) (l : list A) : list A :=
  if (0 <=? n)%Z then skipn (Z.to_nat n) l
  else skipn (List.length l - Z.to_nat (- n)) l.

(** The removal loop: it ends at the first [unlink] that raises. *)
Fixpoint unlink_all (unlink_ok : string -> bool) (victims : list string)
    : list string :=
  match victims with
  | [] => []
  | p :: rest => if unlink_ok p then p :: unlink_all unlink_ok rest else []
  end.

(** [cleanup_old_backups(max_backups)]: the files removed.  [listing] is
    what the scan of the conflict directory finds, each file with its
    mtime; [None] when the directory is missing or the scan raises. *)
Definition cleanup_old_backups (listing : option (list (Q * string)))
    (unlink_ok : string -> bool) (max_backups : Z) : list string :=
  match listing with
  | None => []
  | Some backup_files =>
      unlink_all unlink_ok
        (map snd (slice_from max_backups (sort_backups backup_files)))
  end.

(** Three backups of one file, taken at 10, 30 and 20. *)
Definition backups_sample : list (Q * string) :=
  [(10, "a.txt.conflict.1.n"); (30, "a.txt.conflict.3.n");
   (20, "a.txt.conflict.2.n")].

Definition unlink_fine (_ : string) : bool := true.

End MetadataManager.

(* ===================================================================== *)
(** ** core/sync_engine.py *)
(* ===================================================================== *)

Module SyncEngine.
Import PyStr.

(** [config/models.py]: the fields the dispatcher reads. *)
Record RsyncConfig : Type := mkRsyncConfig {
  common_params : string;
  auth_enabled : bool;
  auth_users : option string;
  auth_passwordfile : option string;
  custom_port_enabled : bool;
  custom_port : Z;
  timeout_enabled : bool;
  timeout : Z;
  ssh_enabled : bool
}.

Definition default_rsync_config : RsyncConfig :=
  mkRsyncConfig "-artuz" false None None false 874 false 100 false.

Record RemoteConfig : Type := mkRemoteConfig {
  ip : string;
  name : string
}.

(** The failure ledger on disk: its text and whether the user may execute
    it.  [None] stands for a missing file. *)
Record LedgerFile : Type := mkLedgerFile {
  content : string;
  executable : bool
}.

Record Stats : Type := mkStats {
  total_syncs : nat;
  success_syncs : nat;
  failed_syncs : nat;
  bytes_transferred : nat
}.

Record t : Type := mk {
  config : RsyncConfig;
  remotes : list RemoteConfig;
  watch_path : PosixPath.t;
  fail_log_path : string;
  stats : Stats
}.

(** What became of a spawned process: it ran to an exit code with captured
    output (through asyncio or through the [Popen] fallback), the wait timed
    out, or spawning or waiting raised. *)
Inductive ProcResult : Type :=
| Exited (returncode : Z) (stdout stderr : string)
| TimedOut
| Raised (message : string).

(** The result dict of [_rsync_to_remote]; the two failure dicts carry
    neither ['returncode'] nor ['output']. *)
Record Outcome : Type := mkOutcome {
  success : bool;
  returncode : option Z;
  output : option string;
  error : string
}.

(** One entry of [results] in [sync_file]. *)
Record RemoteResult : Type := mkRemoteResult {
  rr_remote : string;
  rr_success : bool;
  rr_output : string;
  rr_error : string
}.

Record SyncResult : Type := mkSyncResult {
  file_path : string;
  event_type : string;
  results : list RemoteResult;
  all_success : bool
}.

Definition is_delete (event_type : string) : bool :=
  startswith event_type "DELETE".

Definition ledger_header : string :=
  join NL ["#!/bin/bash"; "# FailLog retry script - generated by sersync";
           "RETRY_COUNT=0"; "FAILED_COUNT=0"; ""; ""].

(** The twelve lines appended for one failed invocation. *)
Definition failure_entry (timestamp event_type file_path : string)
    (remote : RemoteConfig) (cmd_str : string) : string :=
  (join NL
     ["# Failed at " ++ timestamp ++ " - " ++ event_type ++ " " ++ file_path
        ++ " -> " ++ ip remote ++ "::" ++ name remote;
      "echo 'Retrying: " ++ cmd_str ++ "'";
      cmd_str;
      "RETRY_RESULT=$?";
      "if [ $RETRY_RESULT -eq 0 ]; then";
      "    echo 'SUCCESS: " ++ cmd_str ++ "'";
      "else";
      "    echo 'FAILED: " ++ cmd_str ++ " (exit code: '$RETRY_RESULT')'";
      "    FAILED_COUNT=$((FAILED_COUNT + 1))";
      "fi";
      "RETRY_COUNT=$((RETRY_COUNT + 1))";
      ""] ++ NL)%string.

Section WithEnvironment.
(** [Path(p).exists()] on the watched tree, asked with [str(p)]. *)
Variable fs_exists : string -> bool.
(** [bytes.decode('utf-8', errors='ignore')] *)
Variable decode : string -> string.

Definition path_exists (p : PosixPath.t) : bool := fs_exists (PosixPath.str p).

(** [Path(source).relative_to(self.watch_path)], the name of the source when
    that raises [ValueError]. *)
Definition relative_path (self : t) (source : string) : string :=
  match PosixPath.relative_to (PosixPath.parse source) (watch_path self) with
  | Some rel => PosixPath.str rel
  | None => PosixPath.name (PosixPath.parse source)
  end.

(** The source argument of a delete invocation: the parent directory with a
    trailing slash when the source is gone and its parent is not. *)
Definition delete_source (source : string) : string :=
  let source_path := PosixPath.parse source in
  if negb (path_exists source_path) then
    let parent_dir := PosixPath.parent source_path in
    if path_exists parent_dir
    then (PosixPath.str parent_dir ++ "/")%string
    else source
  else source.

Definition _build_rsync_cmd (self : t) (source : string) (remote : RemoteConfig)
    (event_type : string) : list string :=
  let cfg := config self in
  let cmd := "rsync" :: split_ws (common_params cfg) in
  let cmd := if is_delete event_type then cmd ++ ["--delete"] else cmd in
  let source := if is_delete event_type then delete_source source else source in
  let cmd :=
    match auth_passwordfile cfg with
    | Some pf =>
        if auth_enabled cfg && truthy_str (Some pf)
        then cmd ++ [("--password-file=" ++ pf)%string] else cmd
    | None => cmd
    end in
  let cmd :=
    if timeout_enabled cfg
    then cmd ++ [("--timeout=" ++ str_of_Z (timeout cfg))%string] else cmd in
  let cmd :=
    if custom_port_enabled cfg
    then cmd ++ [("--port=" ++ str_of_Z (custom_port cfg))%string] else cmd in
  if ssh_enabled cfg then
    let dest := (ip remote ++ ":" ++ name remote ++ "/"
                   ++ relative_path self source)%string in
    (cmd ++ ["-e"; "ssh"]) ++ [source; dest]
  else
    let user_prefix :=
      match auth_users cfg with
      | Some u => if truthy_str (Some u) then (u ++ "@")%string else ""
      | None => ""
      end in
    let dest := (user_prefix ++ ip remote ++ "::" ++ name remote ++ "/"
                   ++ relative_path self source)%string in
    cmd ++ [source; dest].

(** Reading of a finished process. *)
Definition interpret (event_type : string) (r : ProcResult) : Outcome :=
  match r with
  | Exited rc stdout stderr =>
      let success := (rc =? 0)%Z in
      let stderr_text := decode stderr in
      let success :=
        if negb success && is_delete event_type && (rc =? 23)%Z
        then if contains "No such file or directory" stderr_text
             then true else success
        else success in
      mkOutcome success (Some rc) (Some (decode stdout)) stderr_text
  | TimedOut => mkOutcome false None None "Timeout"
  | Raised message => mkOutcome false None None message
  end.

(** [_rsync_to_remote]: the commands spawned (none or one) and the result
    dict.  [spawn] tells what becomes of the process started with a given
    argument vector. *)
Definition _rsync_to_remote (spawn : list string -> ProcResult) (self : t)
    (source : string) (remote : RemoteConfig) (event_type : string)
    : list (list string) * Outcome :=
  if is_delete event_type
     && negb (path_exists (PosixPath.parse source))
     && negb (path_exists (PosixPath.parent (PosixPath.parse source)))
  then ([], mkOutcome true (Some 0%Z)
              (Some "Source already deleted, sync skipped") "")
  else
    let cmd := _build_rsync_cmd self source remote event_type in
    ([cmd], interpret event_type (spawn cmd)).

(** [_log_failure], at the formatted clock reading [timestamp], on the
    ledger file [ledger] (reads and writes are taken to succeed). *)
Definition _log_failure (timestamp : string) (self : t) (file_path : string)
    (remote : RemoteConfig) (event_type : string) (ledger : option LedgerFile)
    : option LedgerFile :=
  let cmd_str := join " " (_build_rsync_cmd self file_path remote event_type) in
  let prepared :=
    match ledger with
    | None => mkLedgerFile ledger_header true
    | Some f =>
        if negb (startswith (content f) "#!/bin/bash")
        then mkLedgerFile (ledger_header ++ content f)%string (executable f)
        else if negb (contains "RETRY_COUNT=0" (content f)) then
          let lines := splitlines (content f) in
          let lines :=
            list_insert 2 "# FailLog retry script - generated by sersync" lines in
          let lines := list_insert 3 "RETRY_COUNT=0" lines in
          let lines := list_insert 4 "FAILED_COUNT=0" lines in
          let lines := list_insert 5 "" lines in
          mkLedgerFile (join NL lines) (executable f)
        else f
    end in
  Some (mkLedgerFile
          (content prepared
             ++ failure_entry timestamp event_type file_path remote cmd_str)%string
          (executable prepared)).

(** State threaded through the loop of [sync_file]. *)
Record LoopState : Type := mkLoopState {
  ls_results : list RemoteResult;
  ls_spawned : list (list string);
  ls_ledger : option LedgerFile
}.

Definition opt_default (o : option string) (d : string) : string :=
  match o with Some s => s | None => d end.

(** The loop of [sync_file] over the remotes still to serve; [index] counts
    the remotes served so far and [spawn index] rules the process started
    for the next one. *)
Fixpoint sync_loop (timestamp : string)
    (spawn : nat -> list string -> ProcResult) (self : t)
    (file_path event_type : string) (todo : list RemoteConfig) (index : nat)
    (st : LoopState) : LoopState :=
  match todo with
  | [] => st
  | remote :: rest =>
      let (spawned, result) :=
        _rsync_to_remote (spawn index) self file_path remote event_type in
      let entry :=
        mkRemoteResult (ip remote ++ "::" ++ name remote)%string
          (success result) (opt_default (output result) "") (error result) in
      let ledger :=
        if success result then ls_ledger st
        else _log_failure timestamp self file_path remote event_type
               (ls_ledger st) in
      sync_loop timestamp spawn self file_path event_type rest (S index)
        (mkLoopState (ls_results st ++ [entry]) (ls_spawned st ++ spawned)
                     ledger)
  end.

(** [sync(1 for r in results if test(r))] *)
Definition count (test : RemoteResult -> bool) (l : list RemoteResult) : nat :=
  List.length (filter test l).

(** [sync_file]: the engine with its statistics updated, the ledger, the
    commands spawned and the result dict. *)
Definition sync_file (timestamp : string)
    (spawn : nat -> list string -> ProcResult) (self : t)
    (ledger : option LedgerFile) (file_path event_type : string)
    : t * option LedgerFile * list (list string) * SyncResult :=
  let st :=
    sync_loop timestamp spawn self file_path event_type (remotes self) 0
      (mkLoopState [] [] ledger) in
  let s := stats self in
  let s' :=
    mkStats (total_syncs s + List.length (remotes self))
            (success_syncs s + count rr_success (ls_results st))
            (failed_syncs s + count (fun r => negb (rr_success r)) (ls_results st))
            (bytes_transferred s) in
  (mk (config self) (remotes self) (watch_path self) (fail_log_path self) s',
   ls_ledger st, ls_spawned st,
   mkSyncResult file_path event_type (ls_results st)
     (forallb rr_success (ls_results st))).

End WithEnvironment.

(** *** Full synchronisation of the watched directory *)

(** What became of the process of a full synchronisation, which is
    awaited without time limit: it ran to an exit code, or spawning or
    waiting raised. *)
Inductive FullResult : Type :=
| FullExited (returncode : Z) (stdout stderr : string)
| FullRaised (message : string).

(** One entry of [results] in [sync_full_directory]. *)
Record FullRemoteResult : Type := mkFullRemoteResult {
  fr_remote : string;
  fr_success : bool;
  fr_output : string
}.

(** The argument vector built by [_rsync_full_dir]. *)
Definition full_dir_cmd (self : t) (remote : RemoteConfig)
    (filters : option (list string)) : list string :=
  let cfg := config self in
  let cmd := "rsync" :: split_ws (common_params cfg) in
  let cmd := cmd ++ ["--delete"] in
  let cmd :=
    match auth_passwordfile cfg with
    | Some pf =>
        if auth_enabled cfg && truthy_str (Some pf)
        then cmd ++ [("--password-file=" ++ pf)%string] else cmd
    | None => cmd
    end in
  let cmd :=
    match filters with
    | Some ((_ :: _) as patterns) =>
        cmd ++ map (fun pattern => ("--exclude=" ++ pattern)%string) patterns
    | _ => cmd
    end in
  let cmd :=
    if custom_port_enabled cfg
    then cmd ++ [("--port=" ++ str_of_Z (custom_port cfg))%string] else cmd in
  let source := (PosixPath.str (watch_path self) ++ "/")%string in
  if ssh_enabled cfg then
    let dest := (ip remote ++ ":" ++ name remote ++ "/")%string in
    (cmd ++ ["-e"; "ssh"]) ++ [source; dest]
  else
    let user_prefix :=
      match auth_users cfg with
      | Some u => if truthy_str (Some u) then (u ++ "@")%string else ""
      | None => ""
      end in
    let dest := (user_prefix ++ ip remote ++ "::" ++ name remote ++ "/")%string in
    cmd ++ [source; dest].

(** [_rsync_full_dir]: the result dict. *)
Definition _rsync_full_dir (decode : string -> string)
    (spawn : list string -> FullResult) (self : t) (remote : RemoteConfig)
    (filters : option (list string)) : Outcome :=
  match spawn (full_dir_cmd self remote filters) with
  | FullExited rc stdout stderr =>
      mkOutcome (rc =? 0)%Z (Some rc) (Some (decode stdout)) (decode stderr)
  | FullRaised message => mkOutcome false None None message
  end.

(** The remotes with their position in the list, which selects the
    process spawned for each. *)
Definition numbered (remotes : list RemoteConfig)
    : list (nat * RemoteConfig) :=
  combine (seq 0 (List.length remotes)) remotes.

(** [sync_full_directory]: [results] and [all_success]. *)
Definition sync_full_directory (decode : string -> string)
    (spawn : nat -> list string -> FullResult) (self : t)
    (filters : option (list string)) : list FullRemoteResult * bool :=
  let results :=
    map (fun ir =>
           let result :=
             _rsync_full_dir decode (spawn (fst ir)) self (snd ir) filters in
           mkFullRemoteResult (ip (snd ir) ++ "::" ++ name (snd ir))%string
             (success result) (opt_default (output result) ""))
        (numbered (remotes self)) in
  (results, forallb fr_success results).

(** The first line of a text. *)
Definition first_line (text : string) : string :=
  match splitlines text with
  | l :: _ => l
  | [] => ""
  end.

(** Scenario S1/S2: watched root [/w], one remote [10.0.0.2::data], flags
    [-artuz]. *)
Definition engine_S1 : t :=
  mk default_rsync_config [mkRemoteConfig "10.0.0.2" "data"]
     (PosixPath.parse "/w") "/tmp/rsync_fail_log.sh" (mkStats 0 0 0 0).

(** A tree in which only [/w] and [/w/a.txt] exist. *)
Definition fs_S1 (p : string) : bool :=
  String.eqb p "/w" || String.eqb p "/w/a.txt".

(** A tree in which nothing exists below the root. *)
Definition fs_empty (p : string) : bool := String.eqb p "/".

Definition decode_ascii (s : string) : string := s.

(** A ledger left by hand whose interpreter line carries an option. *)
Definition ledger_with_option : LedgerFile :=
  mkLedgerFile ("#!/bin/bash -x" ++ NL)%string true.

End SyncEngine.

(* ===================================================================== *)
(** ** /bin/bash, as far as the retry scripts need it *)
(* ===================================================================== *)

Module Bash.
Import PyStr.

(** The executor runs the ledger with [/bin/bash].  The shell is outside
    the sources; this module describes the fragment of its language that
    the ledger is written in: comment lines, assignments of a number, of
    [$?] or of a sum or difference, [echo] of words with single and
    double quotes and with [$NAME], [$?] and [$((...))] expanded,
    [if [ $NAME -eq N ]; then ... else ... fi] around such commands,
    [exit N], and [rsync] command lines made of plain words.  Variables
    hold integers.  On a script that leaves the fragment the description
    gives no answer ([None]). *)

Definition TAB : ascii := ascii_of_nat 9.

Definition blank_char (c : ascii) : bool := Ascii.eqb c " " || Ascii.eqb c TAB.

Fixpoint skip_blanks (s : string) : string :=
  match s with
  | EmptyString => EmptyString
  | String c s' => if blank_char c then skip_blanks s' else s
  end.

Fixpoint all_chars (p : ascii -> bool) (s : string) : bool :=
  match s with
  | EmptyString => true
  | String c s' => p c && all_chars p s'
  end.

Fixpoint drop (n : nat) (s : string) : string :=
  match n, s with
  | S k, String _ s' => drop k s'
  | _, _ => s
  end.

Definition is_digit (c : ascii) : bool :=
  let n := nat_of_ascii c in ((48 <=? n) && (n <=? 57))%nat.

Definition is_letter (c : ascii) : bool :=
  let n := nat_of_ascii c in
  ((65 <=? n) && (n <=? 90) || (97 <=? n) && (n <=? 122))%nat.

Definition name_start (c : ascii) : bool := is_letter c || Ascii.eqb c "_".

Definition name_char (c : ascii) : bool := name_start c || is_digit c.

(** Characters that stand for themselves in a word outside quotes. *)
Definition plain_char (c : ascii) : bool :=
  name_char c
  || existsb (Ascii.eqb c) ["%"; "+"; ","; "-"; "."; "/"; ":"; "="; "@"]%char.

(** Text of plain characters and spaces. *)
Definition plain_text (s : string) : bool :=
  all_chars (fun c => plain_char c || Ascii.eqb c " ") s.

Definition is_name (s : string) : bool :=
  match s with
  | EmptyString => false
  | String c s' => name_start c && all_chars name_char s'
  end.

Fixpoint digits (acc : Z) (s : string) : option Z :=
  match s with
  | EmptyString => Some acc
  | String c s' =>
      if is_digit c
      then digits (10 * acc + (Z.of_nat (nat_of_ascii c) - 48))%Z s'
      else None
  end.

(** A decimal numeral. *)
Definition number (s : string) : option Z :=
  match s with
  | EmptyString => None
  | _ => digits 0 s
  end.

(** The variables of the shell. *)
Definition Vars : Type := list (string * Z).

Definition operand (vars : Vars) (w : string) : option Z :=
  match number w with
  | Some n => Some n
  | None => if is_name w then dict_lookup w vars else None
  end.

(** The text between [$((] and [))]: a sum or a difference of two
    operands, each a numeral or the name of a variable that is set. *)
Definition arith (vars : Vars) (expr : string) : option Z :=
  match split_ws expr with
  | [a; op; b] =>
      match operand vars a, operand vars b with
      | Some x, Some y =>
          if String.eqb op "+" then Some (x + y)%Z
          else if String.eqb op "-" then Some (x - y)%Z
          else None
      | _, _ => None
      end
  | _ => None
  end.

(** The right-hand side of an assignment: a numeral, [$?] or
    [$((...))]. *)
Definition value_of (vars : Vars) (status : Z) (rhs : string) : option Z :=
  if String.eqb rhs "$?" then Some status
  else
    match number rhs with
    | Some n => Some n
    | None =>
        if startswith rhs "$(("
           && String.eqb (drop (String.length rhs - 2) rhs) "))"
        then arith vars (substring 3 (String.length rhs - 5) rhs)
        else None
    end.

(** *** Words *)

Inductive Quote : Type := Bare | Single | Double.

(** Where the scan of a command line stands: between two words, inside a
    word, or inside an expansion that began in a word. *)
Inductive Mode : Type :=
| Gap
| Text (q : Quote)
| Dollar (q : Quote)
| VarName (q : Quote) (name : string)
| Paren (q : Quote)
| Arith (q : Quote) (expr : string)
| ArithEnd (q : Quote) (expr : string).

Record Scan : Type := mkScan {
  mode : Mode;
  finished : list string;
  current : string
}.

Definition DQ : ascii := ascii_of_nat 34.
Definition SQ : ascii := ascii_of_nat 39.
Definition BACKSLASH : ascii := ascii_of_nat 92.
Definition BACKQUOTE : ascii := ascii_of_nat 96.

Definition snoc (s : string) (c : ascii) : string :=
  (s ++ String c EmptyString)%string.

(** One character read inside or before a word, in quoting state [q]. *)
Definition text_char (q : Quote) (in_word : bool) (finished : list string)
    (current : string) (c : ascii) : option Scan :=
  match q with
  | Bare =>
      if blank_char c then
        Some (mkScan Gap
                (if in_word then finished ++ [current] else finished) "")
      else if Ascii.eqb c SQ then Some (mkScan (Text Single) finished current)
      else if Ascii.eqb c DQ then Some (mkScan (Text Double) finished current)
      else if Ascii.eqb c "$" then Some (mkScan (Dollar Bare) finished current)
      else if plain_char c
      then Some (mkScan (Text Bare) finished (snoc current c))
      else None
  | Single =>
      if Ascii.eqb c SQ then Some (mkScan (Text Bare) finished current)
      else Some (mkScan (Text Single) finished (snoc current c))
  | Double =>
      if Ascii.eqb c DQ then Some (mkScan (Text Bare) finished current)
      else if Ascii.eqb c "$"
      then Some (mkScan (Dollar Double) finished current)
      else if Ascii.eqb c BACKSLASH || Ascii.eqb c BACKQUOTE then None
      else Some (mkScan (Text Double) finished (snoc current c))
  end.

Definition scan_char (vars : Vars) (status : Z) (sc : Scan) (c : ascii)
    : option Scan :=
  let done := finished sc in
  let cur := current sc in
  match mode sc with
  | Gap => text_char Bare false done "" c
  | Text q => text_char q true done cur c
  | Dollar q =>
      if Ascii.eqb c "?"
      then Some (mkScan (Text q) done (cur ++ str_of_Z status))
      else if Ascii.eqb c "(" then Some (mkScan (Paren q) done cur)
      else if name_start c
      then Some (mkScan (VarName q (String c EmptyString)) done cur)
      else None
  | VarName q name =>
      if name_char c then Some (mkScan (VarName q (snoc name c)) done cur)
      else
        match dict_lookup name vars with
        | Some v => text_char q true done (cur ++ str_of_Z v) c
        | None => None
        end
  | Paren q =>
      if Ascii.eqb c "(" then Some (mkScan (Arith q "") done cur) else None
  | Arith q expr =>
      if Ascii.eqb c ")" then Some (mkScan (ArithEnd q expr) done cur)
      else if name_char c || Ascii.eqb c " " || Ascii.eqb c "+"
              || Ascii.eqb c "-"
      then Some (mkScan (Arith q (snoc expr c)) done cur)
      else None
  | ArithEnd q expr =>
      if Ascii.eqb c ")" then
        match arith vars expr with
        | Some v => Some (mkScan (Text q) done (cur ++ str_of_Z v))
        | None => None
        end
      else None
  end.

(** The end of the line: a quote or an expansion left open reaches into
    the next line, which is outside the fragment. *)
Definition scan_end (vars : Vars) (sc : Scan) : option (list string) :=
  match mode sc with
  | Gap => Some (finished sc)
  | Text Bare => Some (finished sc ++ [current sc])
  | VarName Bare name =>
      match dict_lookup name vars with
      | Some v => Some (finished sc ++ [(current sc ++ str_of_Z v)%string])
      | None => None
      end
  | _ => None
  end.

Fixpoint scan (vars : Vars) (status : Z) (sc : Scan) (s : string)
    : option (list string) :=
  match s with
  | EmptyString => scan_end vars sc
  | String c s' =>
      match scan_char vars status sc c with
      | Some sc' => scan vars status sc' s'
      | None => None
      end
  end.

(** The words of a command line after quote removal and expansion. *)
Definition words (vars : Vars) (status : Z) (s : string)
    : option (list string) :=
  scan vars status (mkScan Gap [] "") s.

(** *** Lines *)

Inductive Stmt : Type :=
| Skip
| If (name : string) (n : Z)
| Else
| Fi
| Exit (n : Z)
| Assign (name rhs : string)
| Echo (args : string)
| Run (line : string).

(** The line is the reserved word [kw], blanks apart. *)
Definition keyword (kw l : string) : bool :=
  startswith l kw && all_chars blank_char (drop (String.length kw) l).

(** [if [ $NAME -eq N ]; then] *)
Definition parse_if (l : string) : option Stmt :=
  match split " " l with
  | [w_if; w_open; String d name; w_eq; n; w_close; w_then] =>
      if String.eqb w_if "if" && String.eqb w_open "[" && Ascii.eqb d "$"
         && is_name name && String.eqb w_eq "-eq" && String.eqb w_close "];"
         && String.eqb w_then "then"
      then option_map (If name) (number n)
      else None
  | _ => None
  end.

Fixpoint span_name (s : string) : string * string :=
  match s with
  | EmptyString => (EmptyString, EmptyString)
  | String c s' =>
      if name_char c
      then let (name, rest) := span_name s' in (String c name, rest)
      else (EmptyString, s)
  end.

(** [NAME=rhs] *)
Definition assignment (l : string) : option (string * string) :=
  let (name, rest) := span_name l in
  match rest with
  | String c rhs =>
      if Ascii.eqb c "=" && is_name name then Some (name, rhs) else None
  | EmptyString => None
  end.

Definition classify (line : string) : option Stmt :=
  let l := skip_blanks line in
  match l with
  | EmptyString => Some Skip
  | String c _ =>
      if Ascii.eqb c "#" then Some Skip
      else if keyword "else" l then Some Else
      else if keyword "fi" l then Some Fi
      else if startswith l "if " then parse_if l
      else if startswith l "exit " then option_map Exit (number (drop 5 l))
      else
        match assignment l with
        | Some (name, rhs) => Some (Assign name rhs)
        | None =>
            if keyword "echo" l then Some (Echo "")
            else if startswith l "echo " then Some (Echo (drop 5 l))
            else if startswith l "rsync " then Some (Run l)
            else None
        end
  end.

(** *** Execution *)

(** The shell while it runs a script: its variables, [$?], the lines
    written to standard output so far and the number of programs
    started. *)
Record Shell : Type := mkShell {
  vars : Vars;
  status : Z;
  written : list string;
  started : nat
}.

Inductive Step : Type :=
| Next (sh : Shell)
| Stop (code : Z) (sh : Shell).

Section WithPrograms.
(** [program k argv]: the exit code and the lines written to standard
    output by the [k]-th program the script starts, called with the
    words [argv]. *)
Variable program : nat -> list string -> Z * list string.

(** A command that is neither [if], [else] nor [fi]. *)
Definition exec_simple (sh : Shell) (stmt : Stmt) : option Step :=
  match stmt with
  | Skip => Some (Next sh)
  | Exit n => Some (Stop (n mod 256)%Z sh)
  | Assign name rhs =>
      match value_of (vars sh) (status sh) rhs with
      | Some v =>
          Some (Next (mkShell (dict_set name v (vars sh)) 0 (written sh)
                              (started sh)))
      | None => None
      end
  | Echo args =>
      match words (vars sh) (status sh) args with
      | Some ws =>
          if match ws with
             | String c _ :: _ => Ascii.eqb c "-"
             | _ => false
             end
          then None
          else Some (Next (mkShell (vars sh) 0 (written sh ++ [join " " ws])
                                   (started sh)))
      | None => None
      end
  | Run line =>
      match words (vars sh) (status sh) line with
      | Some argv =>
          let (code, lines) := program (started sh) argv in
          Some (Next (mkShell (vars sh) (code mod 256)%Z
                              (written sh ++ lines) (S (started sh))))
      | None => None
      end
  | If _ _ | Else | Fi => None
  end.

(** The words of a command that is read but not run scan all the same. *)
Definition scans (sh : Shell) (stmt : Stmt) : bool :=
  match stmt with
  | Echo s | Run s =>
      match words (vars sh) (status sh) s with Some _ => true | None => false end
  | Assign _ rhs =>
      match value_of (vars sh) (status sh) rhs with
      | Some _ => true
      | None => false
      end
  | _ => true
  end.

Definition is_command (stmt : Stmt) : bool :=
  match stmt with
  | Skip => false
  | _ => true
  end.

Fixpoint exec_body (body : list Stmt) (sh : Shell) : option Step :=
  match body with
  | [] => Some (Next sh)
  | stmt :: rest =>
      match exec_simple sh stmt with
      | Some (Next sh') => exec_body rest sh'
      | other => other
      end
  end.

(** Where the reading of the script stands: outside any [if], or inside
    one whose condition came out as [holds], in its [else] part or not,
    with the commands of the branch to run collected in [body];
    [has_command] tells whether the part being read holds a command
    yet. *)
Inductive Frame : Type :=
| Outside
| Inside (holds in_else : bool) (body : list Stmt) (has_command : bool).

(** What became of the lines read: the shell goes on, the script has
    ended with an exit code, or the script leaves the fragment. *)
Inductive Progress : Type :=
| Reading (frame : Frame) (sh : Shell)
| Ended (code : Z) (sh : Shell)
| Unknown.

Definition step_line (frame : Frame) (sh : Shell) (line : string)
    : Progress :=
  match classify line with
  | None => Unknown
  | Some stmt =>
      match frame with
      | Outside =>
          match stmt with
          | If name n =>
              match dict_lookup name (vars sh) with
              | Some v =>
                  Reading (Inside (v =? n)%Z false [] false)
                    (mkShell (vars sh) (if (v =? n)%Z then 0 else 1)
                             (written sh) (started sh))
              | None => Unknown
              end
          | Else | Fi => Unknown
          | _ =>
              match exec_simple sh stmt with
              | Some (Next sh') => Reading Outside sh'
              | Some (Stop code sh') => Ended code sh'
              | None => Unknown
              end
          end
      | Inside holds in_else body has_command =>
          match stmt with
          | If _ _ => Unknown
          | Else =>
              if in_else || negb has_command then Unknown
              else Reading (Inside holds true body false) sh
          | Fi =>
              if negb has_command then Unknown
              else
                match
                  exec_body body
                    (if holds || in_else then sh
                     else mkShell (vars sh) 0 (written sh) (started sh))
                with
                | Some (Next sh') => Reading Outside sh'
                | Some (Stop code sh') => Ended code sh'
                | None => Unknown
                end
          | _ =>
              if scans sh stmt then
                Reading
                  (Inside holds in_else
                     (if xorb holds in_else then body ++ [stmt]
                      else body)
                     (has_command || is_command stmt))
                  sh
              else Unknown
          end
      end
  end.

Fixpoint steps (lines : list string) (frame : Frame) (sh : Shell)
    : Progress :=
  match lines with
  | [] => Reading frame sh
  | line :: rest =>
      match step_line frame sh line with
      | Reading frame' sh' => steps rest frame' sh'
      | other => other
      end
  end.

(** [/bin/bash script]: the exit code and the text written to standard
    output. *)
Definition bash (script : string) : option (Z * string) :=
  match steps (split LF script) Outside (mkShell [] 0 [] 0) with
  | Reading Outside sh => Some (status sh, join NL (written sh ++ [""]))
  | Ended code sh => Some (code, join NL (written sh ++ [""]))
  | _ => None
  end.

End WithPrograms.

End Bash.

(* ===================================================================== *)
(** ** core/faillog_executor.py *)
(* ===================================================================== *)

Module FailLogExecutor.
Import PyStr.
Import SyncEngine(LedgerFile, mkLedgerFile, content, executable).

(** The double quote character, as a string. *)
Definition DQ : string := String (ascii_of_nat 34) EmptyString.

(** What became of [/bin/bash script]: an exit code with the captured
    output, or an exception while spawning or waiting. *)
Inductive RunResult : Type :=
| Exited (returncode : Z) (stdout stderr : string)
| Raised.

(** One parsed failure: [{'command': ..., 'output_line': ...}]. *)
Record FailedCommand : Type := mkFailedCommand {
  command : string;
  output_line : string
}.

Definition is_rsync_line (line : string) : bool :=
  startswith (strip line) "rsync ".

Definition _has_rsync_commands (content : string) : bool :=
  existsb is_rsync_line (splitlines (strip content)).

(** The footer appended before a run. *)
Definition result_check : string :=
  (join NL
     ["";
      "# === FailLog Retry Results ===";
      "echo " ++ DQ ++ "=== FailLog Retry Summary ===" ++ DQ;
      "echo " ++ DQ ++ "Total retry attempts: $RETRY_COUNT" ++ DQ;
      "echo " ++ DQ ++ "Failed attempts: $FAILED_COUNT" ++ DQ;
      "echo " ++ DQ ++ "Successful attempts: $((RETRY_COUNT - FAILED_COUNT))" ++ DQ;
      "";
      "if [ $FAILED_COUNT -eq 0 ]; then";
      "    echo " ++ DQ ++ "All retries successful - clearing failLog" ++ DQ;
      "    exit 0";
      "else";
      "    echo " ++ DQ
        ++ "Some retries failed - will regenerate script with only failed commands"
        ++ DQ;
      "    exit 1";
      "fi";
      ""])%string.

(** The text looked for before appending the footer (it ends with a
    space). *)
Definition result_check_marker : string :=
  ("echo " ++ DQ ++ "=== FailLog Retry Summary ===" ++ DQ ++ " ")%string.

Definition _add_result_check_to_script (f : LedgerFile) : LedgerFile :=
  if contains result_check_marker (content f) then f
  else mkLedgerFile (rstrip (content f) ++ result_check)%string (executable f).

(** [_clear_script] *)
Definition _clear_script (f : LedgerFile) : LedgerFile :=
  mkLedgerFile ("#!/bin/bash" ++ NL)%string (executable f).

(** [_execute_script]: the file after [chmod(0o755)] and whether the run
    ended with exit code 0. *)
Definition _execute_script (run : string -> RunResult) (f : LedgerFile)
    : LedgerFile * bool :=
  let f := mkLedgerFile (content f) true in
  match run (content f) with
  | Exited rc _ _ => (f, (rc =? 0)%Z)
  | Raised => (f, false)
  end.

Definition _execute_script_with_analysis (run : string -> RunResult)
    (f : LedgerFile) : LedgerFile * (bool * string) :=
  let f := mkLedgerFile (content f) true in
  match run (content f) with
  | Exited rc stdout _ => (f, ((rc =? 0)%Z, stdout))
  | Raised => (f, (false, ""))
  end.

(** The loop of [_parse_failed_commands_from_output]. *)
Fixpoint parse_lines (lines : list string) (current_retrying_cmd : option string)
    (failed_commands : list FailedCommand) : list FailedCommand :=
  match lines with
  | [] => failed_commands
  | line :: rest =>
      let line := strip line in
      if startswith line "Retrying: " then
        parse_lines rest (Some (replace "Retrying: " "" line)) failed_commands
      else if startswith line "FAILED: " && truthy_str current_retrying_cmd then
        match current_retrying_cmd with
        | Some failed_cmd =>
            if existsb (String.eqb failed_cmd) (map command failed_commands)
            then parse_lines rest None failed_commands
            else parse_lines rest None
                   (failed_commands ++ [mkFailedCommand failed_cmd line])
        | None => parse_lines rest None failed_commands
        end
      else if startswith line "SUCCESS: " then
        parse_lines rest None failed_commands
      else parse_lines rest current_retrying_cmd failed_commands
  end.

Definition _parse_failed_commands_from_output (output : string)
    : list FailedCommand :=
  parse_lines (splitlines output) None [].

(** The twelve lines generated for the command of index [i]. *)
Definition generated_entry (i : nat) (cmd : string) : list string :=
  [("# Retry command " ++ str_of_Z (Z.of_nat (i + 1)) ++ " (previously failed)")%string;
   ("echo 'Retrying: " ++ cmd ++ "'")%string;
   cmd;
   "RETRY_RESULT=$?";
   "if [ $RETRY_RESULT -eq 0 ]; then";
   ("    echo 'SUCCESS: " ++ cmd ++ "'")%string;
   "else";
   ("    echo 'FAILED: " ++ cmd ++ " (exit code: '$RETRY_RESULT')'")%string;
   "    FAILED_COUNT=$((FAILED_COUNT + 1))";
   "fi";
   "RETRY_COUNT=$((RETRY_COUNT + 1))";
   ""].

Fixpoint generated_entries (i : nat) (cmds : list string) : list string :=
  match cmds with
  | [] => []
  | cmd :: rest => generated_entry i cmd ++ generated_entries (S i) rest
  end.

Definition generated_header : list string :=
  ["#!/bin/bash";
   "# FailLog retry script - generated by sersync (incremental cleanup)";
   "RETRY_COUNT=0";
   "FAILED_COUNT=0";
   ""].

Definition _generate_script_with_commands (commands : list FailedCommand)
    : string :=
  join NL (generated_header ++ generated_entries 0 (map command commands)).

(** [_perform_incremental_cleanup] *)
Definition _perform_incremental_cleanup (run : string -> RunResult)
    (f : LedgerFile) : LedgerFile :=
  let '(f, (success, output)) := _execute_script_with_analysis run f in
  if success then _clear_script f
  else
    match _parse_failed_commands_from_output output with
    | [] => f
    | failed_commands =>
        mkLedgerFile (_generate_script_with_commands failed_commands) true
    end.

(** [_check_and_execute], one tick of the executor: [run1] is the shell on
    the first execution of the script, [run2] on the second one made by the
    incremental cleanup. *)
Definition _check_and_execute (run1 run2 : string -> RunResult)
    (ledger : option LedgerFile) : option LedgerFile :=
  match ledger with
  | None => None
  | Some f =>
      if (String.length (content f) <=? 12)%nat then ledger
      else if negb (_has_rsync_commands (content f)) then ledger
      else
        let f := _add_result_check_to_script f in
        let (f, success) := _execute_script run1 f in
        if success then Some (_clear_script f)
        else Some (_perform_incremental_cleanup run2 f)
  end.

(** *** The shell, as far as the ledger relies on it

    One retried entry of the script: the command line, the exit code of the
    command and the lines the command wrote to its standard output. *)
Record Attempt : Type := mkAttempt {
  att_command : string;
  att_returncode : Z;
  att_stdout : list string
}.

Definition att_failed (a : Attempt) : bool := negb (att_returncode a =? 0)%Z.

(** The echoed [FAILED:] line of an entry. *)
Definition failed_line (cmd code : string) : string :=
  ("FAILED: " ++ cmd ++ " (exit code: " ++ code ++ ")")%string.

(** Standard output of one entry: the echoed [Retrying:] line, the output
    of the command, the echoed [SUCCESS:] or [FAILED:] line. *)
Definition attempt_lines (a : Attempt) : list string :=
  ("Retrying: " ++ att_command a)%string
  :: att_stdout a
  ++ [if att_failed a
      then failed_line (att_command a) (str_of_Z (att_returncode a))
      else ("SUCCESS: " ++ att_command a)%string].

(** Standard output of the footer. *)
Definition summary_lines (attempts : list Attempt) : list string :=
  let total := Z.of_nat (List.length attempts) in
  let failed := Z.of_nat (List.length (filter att_failed attempts)) in
  ["=== FailLog Retry Summary ===";
   ("Total retry attempts: " ++ str_of_Z total)%string;
   ("Failed attempts: " ++ str_of_Z failed)%string;
   ("Successful attempts: " ++ str_of_Z (total - failed))%string;
   if (failed =? 0)%Z
   then "All retries successful - clearing failLog"
   else "Some retries failed - will regenerate script with only failed commands"].

(** The run of a ledger script with one footer, at its end, whose
    entries behave as [attempts]: exit code 0 when no entry failed, 1
    otherwise.  That the shell of [Bash] does run a plain ledger so is
    proved from the text of the script, not taken from here. *)
Definition shell_run (attempts : list Attempt) : RunResult :=
  Exited (if existsb att_failed attempts then 1 else 0)
         (join NL (flat_map attempt_lines attempts ++ summary_lines attempts
                     ++ [""]))
         "".

(** The command lines a script holds: its lines that begin, blanks apart,
    with [rsync ]. *)
Definition recorded_commands (script : string) : list string :=
  map strip (filter is_rsync_line (splitlines script)).

(** The shell ran [script] by retrying the command lines the script
    holds, in order, and ended as [shell_run] tells.  This describes a
    run, not the shell: it holds of the shell on a script with a single
    footer at its end, and fails on a script that kept an earlier
    footer, where the shell stops at the first [exit]. *)
Definition shell_runs (script : string) (attempts : list Attempt)
    (r : RunResult) : Prop :=
  map att_command attempts = recorded_commands script /\ r = shell_run attempts.


(** A command line as [_build_rsync_cmd] joins it, fit for the script: it
    begins with [rsync ], has no line break and no blank at either end,
    holds no single quote (the script echoes it between single quotes) and
    does not contain the text [Retrying: ]. *)
Definition well_formed_command (cmd : string) : bool :=
  startswith cmd "rsync "
  && negb (contains NL cmd)
  && String.eqb (strip cmd) cmd
  && negb (contains "'" cmd)
  && negb (contains "Retrying: " cmd).

(** A line of command output that the parser passes over. *)
Definition neutral_line (line : string) : bool :=
  negb (contains NL line)
  && negb (startswith (strip line) "Retrying: ")
  && negb (startswith (strip line) "FAILED: ")
  && negb (startswith (strip line) "SUCCESS: ").

Definition well_formed_attempt (a : Attempt) : bool :=
  well_formed_command (att_command a) && forallb neutral_line (att_stdout a).

(** The same, unfolded into its consequences. *)
Record wf_command (cmd : string) : Prop := mk_wf_command {
  wf_rsync : startswith cmd "rsync " = true;
  wf_lf_free : contains NL cmd = false;
  wf_lstrip : lstrip cmd = cmd;
  wf_rstrip : rstrip cmd = cmd;
  wf_nonempty : cmd <> "";
  wf_no_marker : contains "Retrying: " cmd = false
}.

(** The run ended with a non-zero exit code, or raised. *)
Definition run_failed (r : RunResult) : Prop :=
  match r with
  | Exited rc _ _ => rc <> 0%Z
  | Raised => True
  end.

Definition stdout_of (r : RunResult) : string :=
  match r with
  | Exited _ stdout _ => stdout
  | Raised => ""
  end.

(** Commands in order of first occurrence, repetitions dropped. *)
Fixpoint dedup (seen cmds : list string) : list string :=
  match cmds with
  | [] => []
  | c :: rest =>
      if existsb (String.eqb c) seen then dedup seen rest
      else c :: dedup (seen ++ [c]) rest
  end.

(** Scenario S4: two failed invocations recorded by the dispatcher. *)
Definition command_a : string := "rsync -artuz /w/a.txt 10.0.0.2::data/a.txt".
Definition command_b : string := "rsync -artuz /w/b.txt 10.0.0.2::data/b.txt".

Definition ledger_S4 : option LedgerFile :=
  SyncEngine._log_failure SyncEngine.fs_S1 "2024-01-01 00:00:05"
    SyncEngine.engine_S1 "/w/b.txt" (SyncEngine.mkRemoteConfig "10.0.0.2" "data")
    "CLOSE_WRITE"
    (SyncEngine._log_failure SyncEngine.fs_S1 "2024-01-01 00:00:00"
       SyncEngine.engine_S1 "/w/a.txt"
       (SyncEngine.mkRemoteConfig "10.0.0.2" "data") "CLOSE_WRITE" None).

Definition ledger_file_S4 : LedgerFile :=
  match ledger_S4 with
  | Some f => f
  | None => mkLedgerFile "" false
  end.

(** A run in which both commands fail with exit code 12, one in which the
    first succeeds and the second fails, one in which both succeed. *)
Definition both_fail : list Attempt :=
  [mkAttempt command_a 12 []; mkAttempt command_b 12 []].
Definition second_fails : list Attempt :=
  [mkAttempt command_a 0 []; mkAttempt command_b 12 []].
Definition both_succeed : list Attempt :=
  [mkAttempt command_a 0 []; mkAttempt command_b 0 []].

(** The text of the ledger, empty when the file is missing. *)
Definition ledger_text (ledger : option LedgerFile) : string :=
  match ledger with Some f => content f | None => "" end.


(** The command [c] was announced by a line of [lines]: the line, blanks
    at its ends apart, begins with [Retrying: ], and [c] is what is left
    of it once every occurrence of that text is removed. *)
Definition announced (lines : list string) (c : string) : Prop :=
  exists line,
    In line lines /\ startswith (strip line) "Retrying: " = true /\
    c = replace "Retrying: " "" (strip line).

(** The line, blanks at its ends apart, reports a failure. *)
Definition reports_failure (line : string) : bool :=
  startswith (strip line) "FAILED: ".

End FailLogExecutor.


(* ===================================================================== *)
(** ** The ledger as a script: what the shell makes of it *)
(* ===================================================================== *)

Module RetryScript.
Import PyStr FailLogExecutor.
Import SyncEngine(LedgerFile, mkLedgerFile, content, executable).

(** The ten lines of a ledger entry that the shell acts on; the
    dispatcher and the executor write them after a comment line and
    before an empty line. *)
Definition entry_core (cmd : string) : list string :=
  [("echo 'Retrying: " ++ cmd ++ "'")%string;
   cmd;
   "RETRY_RESULT=$?";
   "if [ $RETRY_RESULT -eq 0 ]; then";
   ("    echo 'SUCCESS: " ++ cmd ++ "'")%string;
   "else";
   ("    echo 'FAILED: " ++ cmd ++ " (exit code: '$RETRY_RESULT')'")%string;
   "    FAILED_COUNT=$((FAILED_COUNT + 1))";
   "fi";
   "RETRY_COUNT=$((RETRY_COUNT + 1))"].

(** What follows the counter initialisation in a ledger: comment lines
    and blank lines, and entries. *)
Inductive Item : Type :=
| Filler (line : string)
| Entry (cmd : string).

Definition item_lines (i : Item) : list string :=
  match i with
  | Filler line => [line]
  | Entry cmd => entry_core cmd
  end.

(** A line the shell passes over: blank, or a comment; without line
    break and without double quote. *)
Definition filler (line : string) : bool :=
  match Bash.skip_blanks line with
  | EmptyString => true
  | String c _ => Ascii.eqb c "#"
  end
  && negb (contains NL line)
  && negb (contains DQ line).

(** A command line of plain words: well formed, and made of letters,
    digits, the characters [% + , - . / : = @ _] and blanks. *)
Definition plain_command (cmd : string) : bool :=
  well_formed_command cmd
  && Bash.all_chars (fun c => Bash.plain_char c || Ascii.eqb c " ") cmd.

Definition plain_item (i : Item) : bool :=
  match i with
  | Filler line => filler line
  | Entry cmd => plain_command cmd
  end.

Fixpoint commands (items : list Item) : list string :=
  match items with
  | [] => []
  | Filler _ :: rest => commands rest
  | Entry cmd :: rest => cmd :: commands rest
  end.

Definition counters_init : list string := ["RETRY_COUNT=0"; "FAILED_COUNT=0"].

Definition script_lines (top : list string) (items : list Item)
    : list string :=
  top ++ counters_init ++ flat_map item_lines items.

Fixpoint newlines (k : nat) : string :=
  match k with
  | O => EmptyString
  | S k' => String LF (newlines k')
  end.

(** The text of a ledger: the lines of [top], the counter
    initialisation, the items, and [k] line breaks. *)
Definition ledger_text (top : list string) (items : list Item) (k : nat)
    : string :=
  (join NL (script_lines top items) ++ newlines k)%string.

(** The ledgers the theorems speak of: the interpreter line, comment and
    blank lines, the counter initialisation, then comment lines, blank
    lines and plain entries. *)
Record plain_ledger (text : string) (top : list string) (items : list Item)
    (k : nat) : Prop := mk_plain_ledger {
  pl_text : text = ledger_text ("#!/bin/bash" :: top) items k;
  pl_top : forallb filler top = true;
  pl_items : forallb plain_item items = true
}.

(** The last item is an entry. *)
Definition ends_with_entry (items : list Item) : Prop :=
  exists front cmd, items = front ++ [Entry cmd].

(** The lines of the footer, after the line break it begins with. *)
Definition footer_lines : list string :=
  Eval cbv in tl (split LF result_check).

(** What the footer writes when the counters stand at [n] and [m]. *)
Definition summary (n m : Z) : list string :=
  ["=== FailLog Retry Summary ===";
   ("Total retry attempts: " ++ str_of_Z n)%string;
   ("Failed attempts: " ++ str_of_Z m)%string;
   ("Successful attempts: " ++ str_of_Z (n - m))%string;
   if (m =? 0)%Z
   then "All retries successful - clearing failLog"
   else "Some retries failed - will regenerate script with only failed commands"].

(** The variables of the shell while it runs a ledger: the two counters
    and, from the first entry on, the exit code of the last retry. *)
Definition counters (n m : Z) (r : option Z) : Bash.Vars :=
  [("RETRY_COUNT", n); ("FAILED_COUNT", m)]
  ++ match r with
     | Some v => [("RETRY_RESULT", v)]
     | None => []
     end.

(** The attempts of a run of the script on [cmds]: the [k]-th program
    started is called with the words of the [k]-th command. *)
Fixpoint attempts_of (program : nat -> list string -> Z * list string)
    (k : nat) (cmds : list string) : list Attempt :=
  match cmds with
  | [] => []
  | cmd :: rest =>
      mkAttempt cmd (fst (program k (split_ws cmd)) mod 256)%Z
                (snd (program k (split_ws cmd)))
      :: attempts_of program (S k) rest
  end.



(** The run of the shell as described, an exception where the
    description gives no answer. *)
Definition described_run (program : nat -> list string -> Z * list string)
    (script : string) : RunResult :=
  match Bash.bash program script with
  | Some (code, out) => Exited code out ""
  | None => Raised
  end.
















(** The commands recorded in a ledger file, none for a missing one. *)
Definition recorded (ledger : option LedgerFile) : list string :=
  match ledger with
  | Some f => recorded_commands (content f)
  | None => []
  end.

(** A ledger that kept its footer: the shell could not be started on
    the ledger of scenario S4 (both runs raised), and then the
    dispatcher recorded the failure of [/w/c.txt]. *)
Definition command_c : string := "rsync -artuz /w/c.txt 10.0.0.2::data/c.txt".

Definition ledger_kept_footer : option LedgerFile :=
  SyncEngine._log_failure SyncEngine.fs_S1 "2024-01-01 00:00:09"
    SyncEngine.engine_S1 "/w/c.txt"
    (SyncEngine.mkRemoteConfig "10.0.0.2" "data") "CLOSE_WRITE"
    (_check_and_execute (fun _ => Raised) (fun _ => Raised) ledger_S4).

(** Programs of which the third one started fails with exit code 12 and
    the others succeed. *)
Definition only_third_fails (k : nat) (argv : list string)
    : Z * list string :=
  match k with
  | 2%nat => (12%Z, [])
  | _ => (0%Z, [])
  end.

(** The script the executor runs for a ledger. *)
Definition script_of (ledger : option LedgerFile) : string :=
  match ledger with
  | Some f => content (_add_result_check_to_script f)
  | None => ""
  end.

End RetryScript.


(* ===================================================================== *)
(** ** bidirectional/coordinator.py: conflict detection on buffered events *)
(* ===================================================================== *)

Module Coordinator.
Import PyStr ConflictDetector.

(** [SyncEvent]; [timestamp] (the wall clock) is not kept. *)
Record SyncEvent : Type := mkSyncEvent {
  event_type : string;
  file_path : string;
  source : string;
  metadata : option FileMetadata
}.

(** The counters of [self.stats] that the event handler and the sync
    trigger write. *)
Record Stats : Type := mkStats {
  conflicts_detected : Z;
  conflicts_resolved : Z;
  syncs_completed : Z;
  syncs_failed : Z
}.

(** The part of [BidirectionalCoordinator] the event handler reads;
    [unison_engine] tells whether the attribute holds an engine (it is
    [None] when the coordinator was built with Unison disabled). *)
Record t : Type := mk {
  local_root : PosixPath.t;
  conflict_detector : ConflictDetector.t;
  conflict_resolver : ConflictResolver.t;
  enable_unison : bool;
  unison_engine : bool;
  stats : Stats
}.

(** What became of [await self.unison_engine.sync()]: a result object with
    its [success] flag and its count of [conflicts], or an exception. *)
Inductive UnisonRun : Type :=
| Finished (success : bool) (conflicts : Z)
| SyncRaised.

(** The grouping loop: [events_by_path[event.file_path].append(event)]. *)
Definition events_by_path (events : list SyncEvent)
    : list (string * list SyncEvent) :=
  fold_left (fun d e => EventQueue.dict_append (file_path e) e d) events [].

(** [next((e for e in file_events if e.source == src), None)] *)
Definition first_from (src : string) (file_events : list SyncEvent)
    : option SyncEvent :=
  find (fun e => String.eqb (source e) src) file_events.

Definition _detect_conflicts_for_events (self : t) (events : list SyncEvent)
    : list (string * ConflictInfo) :=
  fold_left
    (fun conflicts kv =>
       let file_path := fst kv in
       let file_events := snd kv in
       match first_from "local" file_events,
             first_from "remote" file_events with
       | Some local_event, Some remote_event =>
           let local_meta :=
             match metadata local_event with
             | Some m => m
             | None =>
                 mkFileMetadata
                   (PosixPath.str
                      (PosixPath.joinpath (local_root self) file_path))
                   false None None None
             end in
           let remote_meta :=
             mkFileMetadata file_path
               (negb (String.eqb (event_type remote_event) "DELETE"))
               None None None in
           match detect_conflict (conflict_detector self)
                   local_meta remote_meta None with
           | Some conflict => dict_set file_path conflict conflicts
           | None => conflicts
           end
       | _, _ => conflicts
       end)
    (events_by_path events) [].

Definition with_stats (self : t) (s : Stats) : t :=
  mk (local_root self) (conflict_detector self) (conflict_resolver self)
     (enable_unison self) (unison_engine self) s.

Section WithEnvironment.
Variable timestamp : string.
Variable copy2 : string -> string -> bool.
(** The Unison engine ([bidirectional/unison_engine.py]) is outside the
    embedded sources: [is_available] is the answer of
    [self.unison_engine.is_available()] and [sync] what becomes of
    [self.unison_engine.sync()]. *)
Variable is_available : bool.
Variable sync : UnisonRun.

(** [_resolve_conflicts]: the resolutions and the updated counters. *)
Definition _resolve_conflicts (self : t)
    (conflicts : list (string * ConflictInfo))
    : t * list (string * ConflictResolver.ResolutionResult) :=
  let results :=
    ConflictResolver.batch_resolve timestamp copy2
      (conflict_resolver self) conflicts None in
  let successful :=
    Z.of_nat
      (length (filter (fun r => ConflictResolver.success (snd r)) results)) in
  (with_stats self
     (mkStats (conflicts_detected (stats self))
              (conflicts_resolved (stats self) + successful)%Z
              (syncs_completed (stats self)) (syncs_failed (stats self))),
   results).

(** [_trigger_sync]: the coordinator with its counters updated. *)
Definition _trigger_sync (self : t) : t :=
  if negb (enable_unison self) then self
  else if negb (unison_engine self) || negb is_available then self
  else
    let s := stats self in
    match sync with
    | Finished true conflicts =>
        let s1 :=
          mkStats (conflicts_detected s) (conflicts_resolved s)
                  (syncs_completed s + 1)%Z (syncs_failed s) in
        if (conflicts >? 0)%Z then
          with_stats self
            (mkStats (conflicts_detected s1 + conflicts)%Z
                     (conflicts_resolved s1) (syncs_completed s1)
                     (syncs_failed s1))
        else with_stats self s1
    | Finished false _ | SyncRaised =>
        with_stats self
          (mkStats (conflicts_detected s) (conflicts_resolved s)
                   (syncs_completed s) (syncs_failed s + 1)%Z)
    end.

(** [_handle_buffered_events]: the coordinator afterwards and the
    resolutions made. *)
Definition _handle_buffered_events (self : t) (events : list SyncEvent)
    : t * list (string * ConflictResolver.ResolutionResult) :=
  match events with
  | [] => (self, [])
  | _ =>
      let conflicts := _detect_conflicts_for_events self events in
      let (self1, results) :=
        match conflicts with
        | [] => (self, [])
        | _ =>
            _resolve_conflicts
              (with_stats self
                 (mkStats
                    (conflicts_detected (stats self)
                     + Z.of_nat (length conflicts))%Z
                    (conflicts_resolved (stats self))
                    (syncs_completed (stats self))
                    (syncs_failed (stats self))))
              conflicts
        end in
      (if enable_unison self1 then _trigger_sync self1 else self1, results)
  end.

(** What a call of [_trigger_sync] adds to [stats['conflicts_detected']]:
    the conflicts a successful Unison run reports, when it runs. *)
Definition reported_by_unison (self : t) : Z :=
  if enable_unison self && unison_engine self && is_available then
    match sync with
    | Finished true conflicts => if (conflicts >? 0)%Z then conflicts else 0%Z
    | _ => 0%Z
    end
  else 0%Z.

End WithEnvironment.

End Coordinator.

(* ===================================================================== *)
(** ** bidirectional/sync_engine.py: changes, conflicts and their
       resolution *)
(* ===================================================================== *)

Module BidirectionalSyncEngine.
Import PyStr.

Inductive ConflictType : Type :=
| NO_CONFLICT
| BOTH_MODIFIED
| LOCAL_DELETED_REMOTE_MODIFIED
| REMOTE_DELETED_LOCAL_MODIFIED
| BOTH_CREATED.

Inductive ConflictResolution : Type :=
| KEEP_NEWER | KEEP_OLDER | KEEP_LOCAL | KEEP_REMOTE | BACKUP_BOTH.

(** [FileChange]; [timestamp] is the clock at construction. *)
Record FileChange : Type := mkFileChange {
  file_path : string;
  change_type : string;
  source : string;
  timestamp : Q
}.

(** One entry of the [files] dict of a sync state.  Of its keys only
    [mtime] and [size] are read, and they hold numbers when present;
    [other_keys] tells whether further keys exist, which matters for the
    truth value of the entry. *)
Record FileInfo : Type := mkFileInfo {
  mtime : option Q;
  size : option Z;
  other_keys : bool
}.

(** Truth value of [files.get(file_path)]: [None] and [{}] are falsy. *)
Definition truthy_info (o : option FileInfo) : bool :=
  match o with
  | Some i =>
      match mtime i, size i with
      | None, None => other_keys i
      | _, _ => true
      end
  | None => false
  end.

(** [info.get('mtime', 0)] *)
Definition mtime_of (i : FileInfo) : Q :=
  match mtime i with Some m => m | None => 0 end.

(** [info.get('size', 0)] *)
Definition size_of (i : FileInfo) : Z :=
  match size i with Some n => n | None => 0%Z end.

Definition _is_file_modified (local_info remote_info : FileInfo) : bool :=
  negb (Qeq_bool (mtime_of local_info) (mtime_of remote_info))
  || negb (Z.eqb (size_of local_info) (size_of remote_info)).

Definition _determine_conflict_type (local_change remote_change : FileChange)
    : ConflictType :=
  if String.eqb (change_type local_change) "MODIFY"
     && String.eqb (change_type remote_change) "MODIFY"
  then BOTH_MODIFIED
  else if String.eqb (change_type local_change) "DELETE"
          && String.eqb (change_type remote_change) "MODIFY"
  then LOCAL_DELETED_REMOTE_MODIFIED
  else if String.eqb (change_type local_change) "MODIFY"
          && String.eqb (change_type remote_change) "DELETE"
  then REMOTE_DELETED_LOCAL_MODIFIED
  else if String.eqb (change_type local_change) "CREATE"
          && String.eqb (change_type remote_change) "CREATE"
  then BOTH_CREATED
  else NO_CONFLICT.

(** The grouping loop of [_detect_conflicts]. *)
Definition changes_by_file (changes : list FileChange)
    : list (string * list FileChange) :=
  fold_left (fun d c => EventQueue.dict_append (file_path c) c d) changes [].

Definition from_source (src : string) (file_changes : list FileChange)
    : list FileChange :=
  filter (fun c => String.eqb (source c) src) file_changes.

Definition is_no_conflict (c : ConflictType) : bool :=
  match c with NO_CONFLICT => true | _ => false end.

Definition _detect_conflicts (changes : list FileChange)
    : list (FileChange * FileChange * ConflictType) :=
  flat_map
    (fun kv =>
       let file_changes := snd kv in
       if (1 <? length file_changes)%nat then
         match from_source "local" file_changes,
               from_source "remote" file_changes with
         | local_change :: _, remote_change :: _ =>
             let conflict_type :=
               _determine_conflict_type local_change remote_change in
             if is_no_conflict conflict_type then []
             else [(local_change, remote_change, conflict_type)]
         | _, _ => []
         end
       else [])
    (changes_by_file changes).

Definition _resolve_keep_newer (local_change remote_change : FileChange)
    : list FileChange :=
  if negb (Qle_bool (timestamp local_change) (timestamp remote_change))
  then [local_change] else [remote_change].

Definition _resolve_keep_older (local_change remote_change : FileChange)
    : list FileChange :=
  if negb (Qle_bool (timestamp remote_change) (timestamp local_change))
  then [local_change] else [remote_change].

(** What [_execute_sync_operations] reports. *)
Record SyncResults : Type := mkSyncResults {
  files_synced : Z;
  files_failed : Z;
  operations : list (FileChange * bool)
}.

Section WithEnvironment.
(** [Path.exists] *)
Variable fs_exists : string -> bool.
(** [Path.read_bytes]: [None] when it raises. *)
Variable read_bytes : string -> option string.
(** [metadata_manager.create_conflict_backup(file_path, content)]: [true]
    when the backup is written, [false] when writing it raises. *)
Variable create_conflict_backup : string -> string -> bool.
(** The clock read by the [k]-th [FileChange] built in a call of
    [_detect_changes]. *)
Variable now : nat -> Q.
(** [_sync_local_to_remote] / [_sync_remote_to_local] on one change: the
    [success] entry of the result, [None] when the call raises. *)
Variable transfer : FileChange -> option bool.

Variable watch_path : PosixPath.t.
Variable conflict_strategy : ConflictResolution.

(** One round of the loop of [_detect_changes]: the change type and the
    source of the change appended for [file_path], if any. *)
Definition change_for (local_files remote_files : list (string * FileInfo))
    (file_path : string) : option (string * string) :=
  let local_info := dict_lookup file_path local_files in
  let remote_info := dict_lookup file_path remote_files in
  let file_exists :=
    fs_exists (PosixPath.str (PosixPath.joinpath watch_path file_path)) in
  if truthy_info local_info && truthy_info remote_info then
    match local_info, remote_info with
    | Some li, Some ri =>
        if _is_file_modified li ri then
          if negb (Qle_bool (mtime_of li) (mtime_of ri))
          then Some ("MODIFY", "local")
          else if negb (Qle_bool (mtime_of ri) (mtime_of li))
          then Some ("MODIFY", "remote")
          else None
        else None
    | _, _ => None
    end
  else if truthy_info local_info && negb (truthy_info remote_info) then
    if file_exists then Some ("CREATE", "local") else Some ("DELETE", "local")
  else if negb (truthy_info local_info) && truthy_info remote_info
  then Some ("CREATE", "remote")
  else None.

(** Whether the loop appends a change for [file_path]. *)
Definition changed (local_files remote_files : list (string * FileInfo))
    (file_path : string) : bool :=
  match change_for local_files remote_files file_path with
  | Some _ => true
  | None => false
  end.

(** [_detect_changes] with the files visited in the order [all_files]. *)
Definition detect_changes_over (all_files : list string)
    (local_files remote_files : list (string * FileInfo)) : list FileChange :=
  fold_left
    (fun changes file_path =>
       match change_for local_files remote_files file_path with
       | Some (ct, src) =>
           changes ++ [mkFileChange file_path ct src (now (length changes))]
       | None => changes
       end)
    all_files [].

(** [_detect_changes]; the arguments are the [files] dicts of the two
    states ([state.get('files', {})]). *)
Definition _detect_changes (local_files remote_files : list (string * FileInfo))
    : list FileChange :=
  detect_changes_over (keys_union local_files remote_files)
    local_files remote_files.

(** [_resolve_backup_both]: the file backed up, if any, and the changes
    kept; [None] when reading the local file or writing the backup
    raises. *)
Definition _resolve_backup_both (local_change remote_change : FileChange)
    : option (list string * list FileChange) :=
  let p :=
    PosixPath.str (PosixPath.joinpath watch_path (file_path local_change)) in
  if fs_exists p then
    match read_bytes p with
    | Some content =>
        if create_conflict_backup (file_path local_change) content
        then Some ([file_path local_change], [remote_change])
        else None
    | None => None
    end
  else Some ([], [remote_change]).

(** [_resolve_single_conflict]; the strategy is one of the five of the
    enum, so the fallback for an unknown one does not arise. *)
Definition _resolve_single_conflict (local_change remote_change : FileChange)
    (conflict_type : ConflictType) : option (list string * list FileChange) :=
  match conflict_strategy with
  | KEEP_NEWER => Some ([], _resolve_keep_newer local_change remote_change)
  | KEEP_OLDER => Some ([], _resolve_keep_older local_change remote_change)
  | KEEP_LOCAL => Some ([], [local_change])
  | KEEP_REMOTE => Some ([], [remote_change])
  | BACKUP_BOTH => _resolve_backup_both local_change remote_change
  end.

(** [_resolve_conflicts]: the conflict backups requested and the changes
    kept; a conflict whose resolution raises contributes nothing. *)
Definition _resolve_conflicts
    (conflicts : list (FileChange * FileChange * ConflictType))
    : list string * list FileChange :=
  fold_left
    (fun acc c =>
       match c with
       | (local_change, remote_change, conflict_type) =>
           match _resolve_single_conflict local_change remote_change
                   conflict_type with
           | Some (backups, resolution) =>
               (fst acc ++ backups, snd acc ++ resolution)
           | None => acc
           end
       end)
    conflicts ([], []).

Definition _execute_sync_operations (changes : list FileChange) : SyncResults :=
  fold_left
    (fun results change =>
       match transfer change with
       | Some ok =>
           mkSyncResults
             (if ok then files_synced results + 1 else files_synced results)%Z
             (if ok then files_failed results else files_failed results + 1)%Z
             (operations results ++ [(change, ok)])
       | None =>
           mkSyncResults (files_synced results) (files_failed results + 1)%Z
             (operations results)
       end)
    changes (mkSyncResults 0 0 []).

(** Steps 2 to 4 of [sync_bidirectional]: the changes detected, the
    conflicts among them, the changes kept by the resolution and the
    report of the transfers. *)
Definition sync_steps (local_files remote_files : list (string * FileInfo))
    : list FileChange * list (FileChange * FileChange * ConflictType)
      * list FileChange * SyncResults :=
  let changes := _detect_changes local_files remote_files in
  let conflicts := _detect_conflicts changes in
  let resolved_changes := snd (_resolve_conflicts conflicts) in
  (changes, conflicts, resolved_changes,
   _execute_sync_operations resolved_changes).

End WithEnvironment.

End BidirectionalSyncEngine.

(* ===================================================================== *)
(** ** core/filter.py: the file filter *)
(* ===================================================================== *)

Module FileFilter.
Import PyStr.

(** The regular expressions of [DEFAULT_TEMP_PATTERNS] are written with
    three constructs only: a plain or escaped character, [.*] and [$]. *)
Inductive Token : Type :=
| Lit (c : ascii)
| AnyStar
| EndAnchor.

(** Characters with a meaning of their own in a regular expression. *)
Definition is_meta (c : ascii) : bool :=
  existsb (Ascii.eqb c)
    ["."; "*"; "+"; "?"; "["; "]"; "("; ")"; "{"; "}"; "|"; "^"; "$";
     "\"]%char.

(** [re.compile] on that fragment; [None] on any other expression. *)
Fixpoint compile_simple (s : string) : option (list Token) :=
  match s with
  | EmptyString => Some []
  | String c rest =>
      if Ascii.eqb c "." then
        match rest with
        | String c' rest' =>
            if Ascii.eqb c' "*"
            then option_map (cons AnyStar) (compile_simple rest')
            else None
        | EmptyString => None
        end
      else if Ascii.eqb c "\" then
        match rest with
        | String c' rest' =>
            if Ascii.eqb c' "."
            then option_map (cons (Lit c')) (compile_simple rest')
            else None
        | EmptyString => None
        end
      else if Ascii.eqb c "$" then
        option_map (cons EndAnchor) (compile_simple rest)
      else if is_meta c then None
      else option_map (cons (Lit c)) (compile_simple rest)
  end.

(** [pattern.match(s)], a match at the start of [s], without flags: [.]
    matches any character except a line break, [$] matches at the end of
    the text and before a line break that ends the text. *)
Fixpoint match_here (p : list Token) (s : string) {struct p} : bool :=
  match p with
  | [] => true
  | Lit c :: p' =>
      match s with
      | String c' s' => Ascii.eqb c c' && match_here p' s'
      | EmptyString => false
      end
  | EndAnchor :: p' =>
      (String.eqb s "" || String.eqb s NL) && match_here p' s
  | AnyStar :: p' =>
      (fix star (s : string) : bool :=
         match_here p' s ||
         match s with
         | String c s' => negb (Ascii.eqb c LF) && star s'
         | EmptyString => false
         end) s
  end.

Definition DEFAULT_TEMP_PATTERNS : list string :=
  [".*\.swp$";
   ".*\.swo$";
   ".*~$";
   ".*\.tmp$";
   ".*\.temp$";
   ".*\.bak$";
   "\.DS_Store$";
   "Thumbs\.db$";
   "desktop\.ini$";
   ".*\.crdownload$";
   ".*\.part$";
   ".*\.filepart$"].

(** The default patterns, compiled. *)
Definition default_temp_patterns : list (list Token) :=
  flat_map
    (fun s => match compile_simple s with Some p => [p] | None => [] end)
    DEFAULT_TEMP_PATTERNS.

Section WithRegex.
(** The user's patterns are arbitrary regular expressions: [Regex] is a
    compiled one, [re_compile] is [re.compile] ([None] for [re.error])
    and [re_match r s] tells whether [r.match(s)] finds a match. *)
Variable Regex : Type.
Variable re_compile : string -> option Regex.
Variable re_match : Regex -> string -> bool.

Record t : Type := mk {
  enabled : bool;
  patterns : list Regex;
  temp_patterns : list (list Token)
}.

(** The compilation loop: an invalid pattern is logged and skipped. *)
Definition compile_valid (pattern_strs : list string) : list Regex :=
  flat_map
    (fun s => match re_compile s with Some r => [r] | None => [] end)
    pattern_strs.

(** [FileFilter.__init__(config, enable_auto_temp_filter)] with
    [config.enabled] and [config.patterns]. *)
Definition init (config_enabled : bool) (config_patterns : list string)
    (enable_auto_temp_filter : bool) : t :=
  mk config_enabled
     (if config_enabled then compile_valid config_patterns else [])
     (if enable_auto_temp_filter then default_temp_patterns else []).

(** [Path(file_path).name] *)
Definition filename (file_path : string) : string :=
  PosixPath.name (PosixPath.parse file_path).

Definition _is_temp_file (self : t) (file_path : string) : bool :=
  existsb (fun p => match_here p (filename file_path)) (temp_patterns self).

Definition _matches_user_patterns (self : t) (file_path : string) : bool :=
  existsb
    (fun r => re_match r file_path || re_match r (filename file_path))
    (patterns self).

Definition should_ignore (self : t) (file_path : string) : bool :=
  if _is_temp_file self file_path then true
  else if enabled self && _matches_user_patterns self file_path then true
  else false.

Definition add_pattern (self : t) (pattern_str : string) : t :=
  match re_compile pattern_str with
  | Some r => mk (enabled self) (patterns self ++ [r]) (temp_patterns self)
  | None => self
  end.

End WithRegex.

(** *** Vocabulary of the filter properties *)

(** The name ends with [suffix], after a part without line break and
    before at most one final line break. *)
Definition ends_like (suffix name : string) : Prop :=
  exists x, lf_free x /\
    (name = (x ++ suffix)%string \/ name = (x ++ suffix ++ NL)%string).

(** The name is [w], with at most one final line break. *)
Definition is_like (w name : string) : Prop :=
  name = w \/ name = (w ++ NL)%string.

Definition temp_suffixes : list string :=
  [".swp"; ".swo"; "~"; ".tmp"; ".temp"; ".bak"; ".crdownload"; ".part";
   ".filepart"].

Definition temp_names : list string :=
  [".DS_Store"; "Thumbs.db"; "desktop.ini"].

(** A temporary name, as the default patterns have it. *)
Definition temp_name (name : string) : Prop :=
  (exists suffix, In suffix temp_suffixes /\ ends_like suffix name) \/
  (exists w, In w temp_names /\ is_like w name).

(** A regex engine for samples: every pattern compiles and matches the
    texts that begin with it. *)
Definition sample_compile (s : string) : option string := Some s.
Definition sample_match (r s : string) : bool := String.prefix r s.

End FileFilter.

(* ===================================================================== *)
(** ** core/monitor.py: the pyinotify event handler *)
(* ===================================================================== *)

Module FileMonitor.
Import PyStr.

(** [InotifyConfig] *)
Record InotifyConfig : Type := mkInotifyConfig {
  delete : bool;
  create_folder : bool;
  create_file : bool;
  close_write : bool;
  move_from : bool;
  move_to : bool;
  attrib : bool;
  modify : bool
}.

(** The defaults of the dataclass. *)
Definition default_config : InotifyConfig :=
  mkInotifyConfig true true false true true true false false.

(** The kind of a raw event, which selects the [process_IN_*] method. *)
Inductive Kind : Type :=
| IN_DELETE
| IN_CREATE
| IN_CLOSE_WRITE
| IN_MODIFY
| IN_ATTRIB
| IN_MOVED_FROM
| IN_MOVED_TO.

(** A raw event as pyinotify hands it over. *)
Record RawEvent : Type := mkRawEvent {
  kind : Kind;
  dir : bool;
  pathname : string;
  cookie : Z
}.

(** [self.move_buffer]: cookie to [{'src_path': ..., 'is_dir': ...}]. *)
Definition MoveBuffer : Type := list (Z * (string * bool)).

Fixpoint buffer_get (c : Z) (b : MoveBuffer) : option (string * bool) :=
  match b with
  | [] => None
  | (k, v) :: rest => if (k =? c)%Z then Some v else buffer_get c rest
  end.

(** [self.move_buffer[c] = v] *)
Fixpoint buffer_set (c : Z) (v : string * bool) (b : MoveBuffer) : MoveBuffer :=
  match b with
  | [] => [(c, v)]
  | (k, x) :: rest =>
      if (k =? c)%Z then (k, v) :: rest else (k, x) :: buffer_set c v rest
  end.

(** What is left after [self.move_buffer.pop(c)] *)
Definition buffer_del (c : Z) (b : MoveBuffer) : MoveBuffer :=
  filter (fun kv => negb (fst kv =? c)%Z) b.

(** A call [self.callback(event_type, path)]. *)
Definition call (event_type path : string) : EventQueue.Event :=
  EventQueue.mkEvent event_type path None None None None.

(** A call [self.callback('MOVE', src, dest_path=..., is_dir=...)]. *)
Definition call_move (src dest : string) (is_dir : bool) : EventQueue.Event :=
  EventQueue.mkEvent "MOVE" src (Some dest) (Some is_dir) None None.

(** One raw event through the handler: the move buffer afterwards and
    the callback calls made. *)
Definition process (config : InotifyConfig) (buffer : MoveBuffer)
    (event : RawEvent) : MoveBuffer * list EventQueue.Event :=
  match kind event with
  | IN_DELETE =>
      if negb (delete config) then (buffer, [])
      else (buffer,
            [call (if dir event then "DELETE_FOLDER" else "DELETE_FILE")
                  (pathname event)])
  | IN_CREATE =>
      if dir event && create_folder config
      then (buffer, [call "CREATE_FOLDER" (pathname event)])
      else if negb (dir event) && create_file config
      then (buffer, [call "CREATE_FILE" (pathname event)])
      else (buffer, [])
  | IN_CLOSE_WRITE =>
      if close_write config && negb (dir event)
      then (buffer, [call "CLOSE_WRITE" (pathname event)])
      else (buffer, [])
  | IN_MODIFY =>
      if modify config && negb (dir event)
      then (buffer, [call "MODIFY" (pathname event)])
      else (buffer, [])
  | IN_ATTRIB =>
      if attrib config
      then (buffer, [call "ATTRIB" (pathname event)])
      else (buffer, [])
  | IN_MOVED_FROM =>
      if negb (move_from config) then (buffer, [])
      else (buffer_set (cookie event) (pathname event, dir event) buffer, [])
  | IN_MOVED_TO =>
      if negb (move_to config) then (buffer, [])
      else
        match buffer_get (cookie event) buffer with
        | Some move_from =>
            (buffer_del (cookie event) buffer,
             [call_move (fst move_from) (pathname event) (dir event)])
        | None =>
            (buffer,
             [call (if dir event then "CREATE_FOLDER" else "CREATE_FILE")
                   (pathname event)])
        end
  end.

(** A sequence of raw events through the handler. *)
Definition process_all (config : InotifyConfig) (buffer : MoveBuffer)
    (events : list RawEvent) : MoveBuffer * list EventQueue.Event :=
  fold_left
    (fun st event =>
       let (b, calls) := process config (fst st) event in
       (b, snd st ++ calls))
    events (buffer, []).

(** The raw event is a half of the move with cookie [c]. *)
Definition moves_cookie (c : Z) (event : RawEvent) : bool :=
  match kind event with
  | IN_MOVED_FROM | IN_MOVED_TO => (cookie event =? c)%Z
  | _ => false
  end.

(** The event types the configuration lets the handler report: a moved-in
    file or directory is reported as created also when the creation
    switches are off. *)
Definition permitted (config : InotifyConfig) (e : EventQueue.Event) : bool :=
  let ty := EventQueue.type e in
  if String.eqb ty "DELETE_FILE" || String.eqb ty "DELETE_FOLDER"
  then delete config
  else if String.eqb ty "CREATE_FOLDER"
  then create_folder config || move_to config
  else if String.eqb ty "CREATE_FILE"
  then create_file config || move_to config
  else if String.eqb ty "CLOSE_WRITE" then close_write config
  else if String.eqb ty "MODIFY" then modify config
  else if String.eqb ty "ATTRIB" then attrib config
  else if String.eqb ty "MOVE" then move_from config && move_to config
  else false.

End FileMonitor.

(* ===================================================================== *)
(** ** core/engine.py: the entry of file events *)
(* ===================================================================== *)

Module SersyncEngine.
Import PyStr.

Section WithRegex.
Variable Regex : Type.
Variable re_match : Regex -> string -> bool.

(** The engine, as far as [_on_file_event] touches it; the event loop is
    taken to be running. *)
Record t : Type := mk {
  file_filter : FileFilter.t Regex;
  event_queue : EventQueue.t;
  files_filtered : Z
}.

(** [_on_file_event(event_type, file_path, **kwargs)]; the event carries
    type, path and keyword arguments, [now] is the clock when the
    scheduled push runs.  The push is a task of its own: the queue is
    taken as that task leaves it, returned or suspended. *)
Definition _on_file_event (self : t) (now : Q) (event : EventQueue.Event)
    : t :=
  if FileFilter.should_ignore re_match (file_filter self)
       (EventQueue.path event)
  then mk (file_filter self) (event_queue self) (files_filtered self + 1)%Z
  else mk (file_filter self)
          (EventQueue.queue_of (EventQueue.push (event_queue self) now event))
          (files_filtered self).

(** The callback calls of the monitor, handed to the engine one by one;
    [clock k] is the clock at the [k]-th call. *)
Fixpoint on_file_events (self : t) (clock : nat -> Q) (k : nat)
    (events : list EventQueue.Event) : t :=
  match events with
  | [] => self
  | e :: rest => on_file_events (_on_file_event self (clock k) e) clock (S k) rest
  end.

End WithRegex.

(** The counters of the engine that [_process_event] moves. *)
Record Counters : Type := mkCounters {
  files_synced : Z;
  sync_success : Z;
  sync_failed : Z
}.

(** [_process_event]: the counters, the dispatcher and the ledger
    afterwards.  The dispatcher was built on [config.remotes], so
    [len(self.config.remotes)] is the number of its remotes.  The sync
    log of the database and the notifications are not modelled. *)
Definition _process_event (fs_exists : string -> bool)
    (decode : string -> string) (timestamp : string)
    (spawn : nat -> list string -> SyncEngine.ProcResult)
    (counters : Counters) (sync_engine : SyncEngine.t)
    (ledger : option SyncEngine.LedgerFile) (event : EventQueue.Event)
    : Counters * SyncEngine.t * option SyncEngine.LedgerFile :=
  let r :=
    SyncEngine.sync_file fs_exists decode timestamp spawn sync_engine ledger
      (EventQueue.path event) (EventQueue.type event) in
  let result := snd r in
  let counters :=
    if SyncEngine.all_success result then
      mkCounters (files_synced counters + 1)
        (sync_success counters
         + Z.of_nat (List.length (SyncEngine.remotes sync_engine)))
        (sync_failed counters)
    else
      let failed_remotes :=
        filter (fun r => negb (SyncEngine.rr_success r))
          (SyncEngine.results result) in
      mkCounters (files_synced counters) (sync_success counters)
        (sync_failed counters + Z.of_nat (List.length failed_remotes)) in
  (counters, fst (fst (fst r)), snd (fst (fst r))).

(** One event of a run, with the world it meets: the file system, the
    clock and the behaviour of the processes spawned for it. *)
Record Step : Type := mkStep {
  step_fs : string -> bool;
  step_timestamp : string;
  step_spawn : nat -> list string -> SyncEngine.ProcResult;
  step_event : EventQueue.Event
}.

(** The worker loop on a list of events. *)
Definition process_events (decode : string -> string) (steps : list Step)
    (state : Counters * SyncEngine.t * option SyncEngine.LedgerFile)
    : Counters * SyncEngine.t * option SyncEngine.LedgerFile :=
  fold_left
    (fun s step =>
       _process_event (step_fs step) decode (step_timestamp step)
         (step_spawn step) (fst (fst s)) (snd (fst s)) (snd s)
         (step_event step))
    steps state.

End SersyncEngine.
(* ===================================================================== *)
(** * Properties *)
(* ===================================================================== *)

Module ConflictDetectorProps.
Import PyStr ConflictDetector.

Lemma opt_Z_neq_sym (x y : option Z) : opt_Z_neq x y = opt_Z_neq y x.
Proof.
  destruct x as [a|], y as [b|]; simpl; trivial.
  now rewrite Z.eqb_sym.
Qed.

Lemma mtime_gap_exceeds_sym (d : t) (a b : FileMetadata) :
  mtime_gap_exceeds d a b = mtime_gap_exceeds d b a.
Proof.
  unfold mtime_gap_exceeds.
  destruct (mtime a) as [x|], (mtime b) as [y|]; trivial.
  rewrite (Qabs_Qminus x y).
  now rewrite (andb_comm (truthy_float (Some x))).
Qed.

Lemma files_identical_sym (d : t) (a b : FileMetadata) :
  _files_identical d a b = _files_identical d b a.
Proof.
  unfold _files_identical.
  rewrite (mtime_gap_exceeds_sym d a b), (opt_Z_neq_sym (size a) (size b)).
  destruct (exists_ a), (exists_ b); simpl; trivial.
  destruct (opt_Z_neq (size b) (size a)); trivial.
  destruct (mtime_gap_exceeds d b a && negb (enable_content_hash d)); trivial.
  destruct (enable_content_hash d); simpl; trivial.
  destruct (content_hash a) as [[|c1 h1]|], (content_hash b) as [[|c2 h2]|];
    trivial.
  apply (String.eqb_sym (String c1 h1) (String c2 h2)).
Qed.

(** C9. Exchanging the local and the remote argument of [detect_conflict]
    mirrors the reported type: no conflict stays no conflict,
    LOCAL_DELETED_REMOTE_MODIFIED and REMOTE_DELETED_LOCAL_MODIFIED are
    exchanged, BOTH_MODIFIED and BOTH_CREATED are unchanged. *)
Theorem detect_conflict_swap_mirror (d : t) (local remote : FileMetadata)
    (base : option FileMetadata) :
  detected_type (detect_conflict d remote local base)
  = mirror (detected_type (detect_conflict d local remote base)).
Proof.
  unfold detect_conflict.
  rewrite (files_identical_sym d remote local).
  destruct (exists_ local) eqn:El, (exists_ remote) eqn:Er; simpl.
  - destruct (base_absent base && negb (_files_identical d local remote));
      simpl; trivial.
    destruct (_files_identical d local remote); simpl; trivial.
    destruct base as [b|]; simpl.
    + rewrite (andb_comm (negb (_files_identical d remote b))).
      destruct (exists_ b && _); reflexivity.
    + reflexivity.
  - destruct (base_exists base); reflexivity.
  - destruct (base_exists base); reflexivity.
  - reflexivity.
Qed.

End ConflictDetectorProps.

Module ConflictDetectorBug.
Import PyStr ConflictDetector.

Lemma different_exists_never_identical (d : t) (a b : FileMetadata) :
  exists_ a <> exists_ b -> _files_identical d a b = false.
Proof.
  unfold _files_identical.
  destruct (exists_ a), (exists_ b); simpl; congruence.
Qed.

(** With hashing disabled, or with both hashes at hand, the code and the
    specified predicate agree (mtimes and hashes that are present being
    non-zero and non-empty). *)
Lemma files_identical_as_specified (d : t) (a b : FileMetadata) :
  enable_content_hash d = false
    \/ (truthy_str (content_hash a) = true /\ truthy_str (content_hash b) = true) ->
  (forall m, mtime a = Some m -> truthy_float (Some m) = true) ->
  (forall m, mtime b = Some m -> truthy_float (Some m) = true) ->
  _files_identical d a b = identical_as_specified d a b.
Proof.
  intros Hh Ha Hb.
  unfold _files_identical, identical_as_specified, mtime_gap_exceeds.
  destruct (exists_ a), (exists_ b); cbn [negb andb orb Bool.eqb]; trivial.
  destruct (opt_Z_neq (size a) (size b)); cbn [negb andb orb]; trivial.
  assert (Hm : forall x y, mtime a = Some x -> mtime b = Some y ->
            truthy_float (Some x) && truthy_float (Some y)
            && negb (Qle_bool (Qabs (x - y)) (inject_Z (time_tolerance d)))
            = negb (Qle_bool (Qabs (x - y)) (inject_Z (time_tolerance d)))).
  { intros x y Hx Hy. now rewrite (Ha x Hx), (Hb y Hy). }
  destruct Hh as [Hd | [H1 H2]].
  - rewrite Hd; cbn [negb andb orb].
    destruct (mtime a) as [x|] eqn:Ea, (mtime b) as [y|] eqn:Eb;
      cbn [negb andb orb]; trivial.
    rewrite (Hm x y eq_refl eq_refl), andb_true_r.
    now destruct (Qle_bool _ _).
  - rewrite H1, H2.
    destruct (content_hash a) as [h1|]; [|discriminate].
    destruct (content_hash b) as [h2|]; [|discriminate].
    destruct (enable_content_hash d); cbn [negb andb orb].
    + now rewrite andb_false_r.
    + destruct (mtime a) as [x|] eqn:Ea, (mtime b) as [y|] eqn:Eb;
        cbn [negb andb orb]; trivial.
      rewrite (Hm x y eq_refl eq_refl), andb_true_r.
      now destruct (Qle_bool _ _).
Qed.

(** C7. With hashing enabled but no hash on either side, the code never
    looks at the mtimes: two existing files of equal size written 100
    seconds apart are deemed identical, where the specified predicate
    (tolerance 2 s) says they are not. *)
Theorem files_identical_ignores_mtime_without_hash :
  _files_identical default (large_file_at 100) (large_file_at 200) = true
  /\ identical_as_specified default (large_file_at 100) (large_file_at 200)
     = false.
Proof. split; vm_compute; reflexivity. Qed.

End ConflictDetectorBug.

Module ConflictResolverProps.
Import PyStr ConflictDetector ConflictResolver.

Lemma mtime_gt_iff (x y : Q) : mtime_gt (Some x) (Some y) = true <-> y < x.
Proof.
  unfold mtime_gt. rewrite negb_true_iff.
  split; intro H.
  - apply Qnot_le_lt. intro Hle. apply Qle_bool_iff in Hle. congruence.
  - destruct (Qle_bool x y) eqn:E; trivial.
    apply Qle_bool_iff in E. exfalso. exact (Qlt_not_le _ _ H E).
Qed.

Lemma truthy_float_iff (x : Q) : truthy_float (Some x) = true <-> ~ x == 0.
Proof.
  simpl. rewrite negb_true_iff. split; intro H.
  - intro E. apply Qeq_bool_iff in E. congruence.
  - destruct (Qeq_bool x 0) eqn:E; trivial.
    apply Qeq_bool_iff in E. contradiction.
Qed.

(** C8 (as amended). Under KEEP_NEWER with both sides existing: when both
    mtimes are known (present and non-zero) the local side is kept if its
    mtime is strictly larger and the remote side otherwise, the loser being
    backed up when backup is enabled; the resolver falls back to the local
    side exactly when at least one of the two mtimes is unknown. *)
Theorem keep_newer_both_exist (timestamp : string)
    (copy2 : string -> string -> bool) (self : t) (c : ConflictInfo) :
  exists_ (local_meta c) = true ->
  exists_ (remote_meta c) = true ->
  let r := resolve timestamp copy2 self c (Some KEEP_NEWER) in
  success r = true /\ strategy_used r = KEEP_NEWER /\
  (forall lm rm, mtime (local_meta c) = Some lm -> mtime (remote_meta c) = Some rm ->
     ~ lm == 0 -> ~ rm == 0 ->
     (rm < lm ->
        action_taken r = "Use local (newer)" /\
        backup_paths r =
          backup_dict "remote"
            (if enable_backup self
             then _backup_file timestamp copy2 self (remote_meta c) "remote"
             else None)) /\
     (lm <= rm ->
        action_taken r = "Use remote (newer)" /\
        backup_paths r =
          backup_dict "local"
            (if enable_backup self
             then _backup_file timestamp copy2 self (local_meta c) "local"
             else None))) /\
  (action_taken r = "Use local (default)" <->
     truthy_float (mtime (local_meta c)) = false
     \/ truthy_float (mtime (remote_meta c)) = false).
Proof.
  intros El Er r. subst r.
  unfold resolve, resolve_direct, _resolve_keep_newer.
  rewrite El, Er. cbn [negb].
  destruct (truthy_float (mtime (local_meta c))) eqn:Tl;
    destruct (truthy_float (mtime (remote_meta c))) eqn:Tr; cbn [andb].
  - destruct (mtime_gt (mtime (local_meta c)) (mtime (remote_meta c))) eqn:G;
      cbn [success strategy_used action_taken backup_paths];
      (split; [reflexivity | split; [reflexivity | split]]).
    + intros lm rm Hl Hr _ _. rewrite Hl, Hr in G.
      apply mtime_gt_iff in G. split.
      * intros _. split; reflexivity.
      * intros Hle. exfalso. exact (Qlt_not_le _ _ G Hle).
    + split; [discriminate | intros [?|?]; discriminate].
    + intros lm rm Hl Hr _ _. rewrite Hl, Hr in G. split.
      * intros Hlt. apply mtime_gt_iff in Hlt. congruence.
      * intros _. split; reflexivity.
    + split; [discriminate | intros [?|?]; discriminate].
  - cbn [success strategy_used action_taken backup_paths].
    split; [reflexivity | split; [reflexivity | split]].
    + intros lm rm Hl Hr _ Hnz. exfalso. rewrite Hr in Tr.
      apply truthy_float_iff in Hnz. congruence.
    + split; auto.
  - cbn [success strategy_used action_taken backup_paths].
    split; [reflexivity | split; [reflexivity | split]].
    + intros lm rm Hl Hr Hnz _. exfalso. rewrite Hl in Tl.
      apply truthy_float_iff in Hnz. congruence.
    + split; auto.
  - cbn [success strategy_used action_taken backup_paths].
    split; [reflexivity | split; [reflexivity | split]].
    + intros lm rm Hl Hr Hnz _. exfalso. rewrite Hl in Tl.
      apply truthy_float_iff in Hnz. congruence.
    + split; auto.
Qed.

Lemma keep_newer_both_exist_witness :
  let r := resolve "20240101_000000" (fun _ _ => true) sample_resolver
             conflict_remote_newer (Some KEEP_NEWER) in
  action_taken r = "Use remote (newer)" /\
  backup_paths r
  = [("local", "/var/sersync/bidirectional/conflicts/p_local_20240101_000000")].
Proof.
  pose proof (keep_newer_both_exist "20240101_000000" (fun _ _ => true)
                sample_resolver conflict_remote_newer eq_refl eq_refl) as H.
  destruct H as (_ & _ & H & _).
  destruct (H 100 120 eq_refl eq_refl) as [_ Hr].
  - intro E; vm_compute in E; discriminate.
  - intro E; vm_compute in E; discriminate.
  - destruct Hr as [Ha Hb].
    + intro E; vm_compute in E; discriminate.
    + split; [exact Ha | rewrite Hb; vm_compute; reflexivity].
Defined.

(** C8, as first stated, fails: with the local mtime known and the remote
    mtime unknown the resolver already falls back to the local side, so
    the fallback is not confined to both mtimes being unknown. *)
Lemma keep_newer_fallback_with_one_mtime_known :
  ~ (action_taken (resolve "20240101_000000" (fun _ _ => true) sample_resolver
                     conflict_remote_mtime_unknown (Some KEEP_NEWER))
     = "Use local (default)"
     <-> mtime (local_meta conflict_remote_mtime_unknown) = None
         /\ mtime (remote_meta conflict_remote_mtime_unknown) = None).
Proof.
  intros [H _].
  assert (E : mtime (local_meta conflict_remote_mtime_unknown) = None).
  { apply H. vm_compute. reflexivity. }
  discriminate E.
Qed.

End ConflictResolverProps.

Module EventQueueProps.
Import PyStr EventQueue.

(** *** Merging *)

Lemma sorted_desc_head (events : list Event) :
  events <> [] ->
  exists e rest,
    sorted_desc events = e :: rest /\ first_of_highest_priority events e.
Proof.
  induction events as [|x l IH]; [congruence|]. intros _.
  destruct l as [|y l'].
  - exists x, []. split; [reflexivity|].
    exists [], []. repeat split; intros z Hz; destruct Hz.
  - destruct IH as (e & rest & Hs & b & a & Hl & Hb & Ha); [discriminate|].
    change (sorted_desc (x :: y :: l'))
      with (insert_desc x (sorted_desc (y :: l'))).
    rewrite Hs. cbn [insert_desc].
    destruct (priority e >? priority x)%Z eqn:G.
    + exists e, (insert_desc x rest). split; [reflexivity|].
      exists (x :: b), a. rewrite Hl. split; [reflexivity|]. split.
      * intros z [<-|Hz]; [lia | now apply Hb].
      * exact Ha.
    + exists x, (e :: rest). split; [reflexivity|].
      exists [], (y :: l'). split; [reflexivity|]. split.
      * intros z Hz; destruct Hz.
      * intros z Hz. rewrite Hl in Hz. apply in_app_or in Hz.
        destruct Hz as [Hz|[<-|Hz]].
        -- specialize (Hb z Hz). lia.
        -- lia.
        -- specialize (Ha z Hz). lia.
Qed.

Lemma first_of_highest_priority_single (x e : Event) :
  first_of_highest_priority [x] e -> e = x.
Proof.
  intros (b & a & H & _). destruct b as [|z b].
  - now inversion H.
  - inversion H. now destruct b.
Qed.

Lemma merge_events_defined (events : list Event) :
  events <> [] -> exists m inc, _merge_events events = Some (m, inc).
Proof.
  intros Hne. destruct (sorted_desc_head Hne) as (e & rest & Hs & _).
  destruct events as [|x [|y l]]; [congruence| |].
  - now exists x, 0%nat.
  - unfold _merge_events. rewrite Hs. eauto.
Qed.

(** C2 (as amended). For every non-empty group the merge returns the
    earliest event among those of highest priority, under the order
    DELETE_FILE = DELETE_FOLDER > MOVE > CLOSE_WRITE = MODIFY >
    CREATE_FILE = CREATE_FOLDER > ATTRIB; a group of two or more events is
    annotated with [merged_count], the number of its events, and a group
    of one event is returned as it is. *)
Theorem merge_events_keeps_first_of_highest (events : list Event) :
  events <> [] ->
  (priority_order "DELETE_FILE" = priority_order "DELETE_FOLDER"
   /\ priority_order "DELETE_FOLDER" > priority_order "MOVE"
   /\ priority_order "MOVE" > priority_order "CLOSE_WRITE"
   /\ priority_order "CLOSE_WRITE" = priority_order "MODIFY"
   /\ priority_order "MODIFY" > priority_order "CREATE_FILE"
   /\ priority_order "CREATE_FILE" = priority_order "CREATE_FOLDER"
   /\ priority_order "CREATE_FOLDER" > priority_order "ATTRIB")%Z
  /\ exists e merged inc,
       _merge_events events = Some (merged, inc)
       /\ first_of_highest_priority events e
       /\ type merged = type e
       /\ (List.length events = 1%nat -> merged = e)
       /\ ((2 <= List.length events)%nat ->
           merged = set_merged_count e (List.length events)).
Proof.
  intros Hne. split; [vm_compute; repeat split; congruence|].
  destruct (sorted_desc_head Hne) as (e & rest & Hs & Hf).
  destruct events as [|x [|y l]]; [congruence| |].
  - apply first_of_highest_priority_single in Hf. subst e.
    exists x, x, 0%nat. cbn [_merge_events]. repeat split; trivial.
    + exists [], []. repeat split; intros z Hz; destruct Hz.
    + cbn [List.length]. lia.
  - exists e, (set_merged_count e (List.length (x :: y :: l))),
      (List.length (x :: y :: l) - 1)%nat.
    unfold _merge_events. rewrite Hs. repeat split; trivial.
    cbn [List.length]. lia.
Qed.

Lemma merge_events_keeps_first_of_highest_witness :
  exists e merged inc,
    _merge_events [ev "CREATE_FILE" "/w/a"; ev "MODIFY" "/w/a";
                   ev "DELETE_FILE" "/w/a"] = Some (merged, inc)
    /\ type merged = type e /\ type e = "DELETE_FILE"
    /\ merged_count merged = Some 3%nat.
Proof.
  destruct (@merge_events_keeps_first_of_highest
              [ev "CREATE_FILE" "/w/a"; ev "MODIFY" "/w/a";
               ev "DELETE_FILE" "/w/a"])
    as (_ & e & merged & inc & Hm & _ & Ht & _ & Hc); [discriminate|].
  exists e, merged, inc.
  vm_compute in Hm. injection Hm as <- <-.
  repeat split; trivial.
  rewrite <- Ht. reflexivity.
Defined.

(** C2, as first stated, fails on a group of one event: the event is
    returned without a [merged_count]. *)
Lemma merge_single_event_has_no_merged_count :
  match _merge_events [ev "CLOSE_WRITE" "/w/a.txt"] with
  | Some (merged, _) =>
      merged_count merged <> Some (List.length [ev "CLOSE_WRITE" "/w/a.txt"])
  | None => False
  end.
Proof. vm_compute. discriminate. Qed.

(** *** Flushing *)

Lemma merge_events_some (events : list Event) :
  events <> [] -> exists m inc, _merge_events events = Some (m, inc).
Proof.
  intros Hne.
  destruct (@merge_events_defined events Hne)
    as (m & inc & H). eauto.
Qed.

Lemma collect_spec (pending : list (string * list Event)) :
  forall acc d,
    In d (collect_directory_deletes pending acc) <->
    In d acc \/ exists evs, In (d, evs) pending /\ has_delete_folder evs = true.
Proof.
  unfold collect_directory_deletes.
  induction pending as [|[p evs] rest IH]; intros acc d; cbn [fold_left].
  - split; [auto | intros [H|(evs & [] & _)]; exact H].
  - rewrite IH. cbn [fst snd].
    destruct (has_delete_folder evs) eqn:Hd.
    + split.
      * intros [H|(evs' & Hin & Hh)].
        -- apply ListSet.set_add_iff in H. destruct H as [->|H].
           ++ right. exists evs. split; [now left | exact Hd].
           ++ now left.
        -- right. exists evs'. split; [now right | exact Hh].
      * intros [H|(evs' & [Heq|Hin] & Hh)].
        -- left. apply ListSet.set_add_iff. now right.
        -- inversion Heq; subst. left. apply ListSet.set_add_iff. now left.
        -- right. exists evs'. split; assumption.
    + split.
      * intros [H|(evs' & Hin & Hh)].
        -- now left.
        -- right. exists evs'. split; [now right | exact Hh].
      * intros [H|(evs' & [Heq|Hin] & Hh)].
        -- now left.
        -- inversion Heq; subst. congruence.
        -- right. exists evs'. split; assumption.
Qed.

Lemma collect_sub_nil (items pending : list (string * list Event)) :
  incl pending items ->
  collect_directory_deletes items [] = [] ->
  collect_directory_deletes pending [] = [].
Proof.
  intros Hincl Hnil.
  destruct (collect_directory_deletes pending []) as [|d l] eqn:E; trivial.
  assert (Hd : In d (collect_directory_deletes pending []))
    by (rewrite E; now left).
  apply collect_spec in Hd. destruct Hd as [[]|(evs & Hin & Hh)].
  assert (Hd : In d (collect_directory_deletes items [])).
  { apply collect_spec. right. exists evs. split; [now apply Hincl | exact Hh]. }
  rewrite Hnil in Hd. destruct Hd.
Qed.

Lemma is_filtered_spec (items pending : list (string * list Event))
    (p : string) (m : Event) :
  incl pending items ->
  _is_filtered_by_parent_delete pending p m (Some (directory_deletes_of items))
  = (suppressed (directory_deletes_of items) p m, directory_deletes_of items).
Proof.
  intros Hincl. unfold _is_filtered_by_parent_delete, suppressed.
  destruct (String.eqb (type m) "DELETE_FOLDER"); cbn [negb andb]; trivial.
  destruct (directory_deletes_of items) as [|d D] eqn:E.
  - unfold directory_deletes_of in E.
    rewrite (@collect_sub_nil items pending Hincl E). reflexivity.
  - reflexivity.
Qed.

Lemma dict_del_incl {V : Type} (key : string) (d : list (string * V)) :
  incl (dict_del key d) d.
Proof. intros x Hx. unfold dict_del in Hx. now apply filter_In in Hx. Qed.

Lemma dict_del_not_in {V : Type} (key : string) (v : V)
    (d : list (string * V)) :
  ~ In (key, v) (dict_del key d).
Proof.
  unfold dict_del. intros H. apply filter_In in H. destruct H as [_ H].
  cbn [fst] in H. now rewrite String.eqb_refl in H.
Qed.

Lemma flush_step_spec (max : Z) (items : list (string * list Event))
    (st : FlushState) (g : string * list Event) :
  incl (fs_pending st) items ->
  fs_deletes st = directory_deletes_of items ->
  match flush_step max st g with
  | (st', None) =>
      fs_output st' = fs_output st ++ contribution (directory_deletes_of items) g
      /\ fs_deletes st' = directory_deletes_of items
      /\ incl (fs_pending st') (fs_pending st)
      /\ (snd g <> [] -> forall evs, ~ In (fst g, evs) (fs_pending st'))
  | (st', Some waiting) =>
      contribution (directory_deletes_of items) g = [waiting]
      /\ full max (fs_output st) = true
      /\ fs_output st' = fs_output st
      /\ fs_pending st' = fs_pending st
  end.
Proof.
  intros Hincl HD. destruct g as [p evs]. unfold contribution.
  cbn [fst snd flush_step].
  destruct evs as [|e l].
  - cbn [_merge_events sorted_desc fold_right]. rewrite app_nil_r.
    repeat split; trivial; [apply incl_refl | congruence].
  - destruct (@merge_events_some (e :: l)) as (m & inc & Hm); [discriminate|].
    rewrite Hm, HD, (@is_filtered_spec items (fs_pending st) p m Hincl).
    destruct (suppressed (directory_deletes_of items) p m).
    + cbn [fs_output fs_deletes fs_pending]. rewrite app_nil_r.
      repeat split; trivial; try apply dict_del_incl.
      intros _ evs. apply dict_del_not_in.
    + destruct (full max (fs_output st)) eqn:F.
      * cbn [fs_output fs_pending]. repeat split; trivial.
      * cbn [fs_output fs_deletes fs_pending].
        repeat split; trivial; try apply dict_del_incl.
        intros _ evs. apply dict_del_not_in.
Qed.

Lemma flush_loop_spec (max : Z) (items : list (string * list Event)) :
  forall (todo : list (string * list Event)) (st : FlushState),
    incl (fs_pending st) items ->
    fs_deletes st = directory_deletes_of items ->
    match flush_loop max st todo with
    | (st', None) =>
        fs_output st'
        = fs_output st
          ++ flat_map (contribution (directory_deletes_of items)) todo
        /\ incl (fs_pending st') (fs_pending st)
        /\ (forall p evs evs', In (p, evs) todo -> evs <> [] ->
                               ~ In (p, evs') (fs_pending st'))
    | (st', Some waiting) =>
        exists done g rest,
          todo = done ++ g :: rest
          /\ fs_output st'
             = fs_output st
               ++ flat_map (contribution (directory_deletes_of items)) done
          /\ contribution (directory_deletes_of items) g = [waiting]
          /\ full max (fs_output st') = true
          /\ incl (fs_pending st') (fs_pending st)
    end.
Proof.
  induction todo as [|g todo IH]; intros st Hincl HD; cbn [flush_loop flat_map].
  - rewrite app_nil_r. repeat split; [apply incl_refl | intros ? ? ? []].
  - pose proof (@flush_step_spec max items st g Hincl HD) as Hs.
    destruct (flush_step max st g) as [st1 [waiting|]].
    + destruct Hs as (Hc & Hf & Ho & Hp).
      exists [], g, todo. cbn [app flat_map]. rewrite app_nil_r, Ho, Hp.
      repeat split; trivial. apply incl_refl.
    + destruct Hs as (Ho & Hd & Hp & Hdel).
      assert (Hincl1 : incl (fs_pending st1) items)
        by (intros x Hx; apply Hincl, Hp, Hx).
      specialize (IH st1 Hincl1 Hd).
      destruct (flush_loop max st1 todo) as [st' [waiting|]].
      * destruct IH as (done & g' & rest & -> & Ho' & Hc & Hf & Hp').
        exists (g :: done), g', rest. cbn [app flat_map].
        split; [reflexivity|].
        split; [rewrite Ho', Ho, app_assoc; reflexivity|].
        split; [exact Hc|]. split; [exact Hf|].
        intros x Hx. apply Hp, Hp', Hx.
      * destruct IH as (Ho' & Hp' & Hdel'). split; [|split].
        -- rewrite Ho', Ho, app_assoc. reflexivity.
        -- intros x Hx. apply Hp, Hp', Hx.
        -- intros p evs evs' [->|Hin] Hne.
           ++ intros H. apply Hp' in H. exact (Hdel Hne evs' H).
           ++ now apply Hdel' with (evs := evs).
Qed.

(** A flush that returns has appended to the FIFO, in the order of the
    pending paths, the merged event of every group except those it
    suppresses, and it suppresses exactly the merged events whose kind is
    not DELETE_FOLDER and whose path is, or lies below, a path holding a
    pending DELETE_FOLDER event; no non-empty group stays pending. *)
Lemma flush_returned (q : t) (now : Q) (q' : t) :
  flush q now = Returned q' ->
  output_queue q' = output_queue q ++ published (pending_events q)
  /\ (forall p evs, In (p, evs) (pending_events q') -> evs = [])
  /\ (pending_events q <> [] -> last_flush q' = now).
Proof.
  unfold flush, published.
  destruct (pending_events q) as [|g items'] eqn:E.
  - intros [= <-]. cbn [flat_map]. rewrite app_nil_r, E.
    repeat split; [intros ? ? [] | congruence].
  - set (items := g :: items') in *.
    pose proof (@flush_loop_spec (max_queue_size q) items items
                  (mkFlushState items (output_queue q) (stats q)
                     (collect_directory_deletes items []))
                  (incl_refl _) eq_refl) as Hs.
    destruct (flush_loop (max_queue_size q) _ items) as [st [waiting|]];
      [discriminate|].
    destruct Hs as (Ho & Hp & Hdel). intros [= <-].
    cbn [output_queue pending_events last_flush fs_output] in *.
    split; [exact Ho|]. split; [|reflexivity].
    intros p evs Hin. destruct evs as [|e l]; trivial.
    exfalso. apply (Hdel p (e :: l) (e :: l)).
    + apply Hp in Hin. exact Hin.
    + discriminate.
    + exact Hin.
Qed.

(** A flush that is suspended has appended the events published before
    the one it waits with; the FIFO is full and [last_flush] has not
    moved. *)
Lemma flush_suspended (q : t) (now : Q) (q' : t) (waiting : Event) :
  flush q now = Suspended q' waiting ->
  full (max_queue_size q') (output_queue q') = true
  /\ last_flush q' = last_flush q
  /\ exists before after,
       published (pending_events q) = before ++ waiting :: after
       /\ output_queue q' = output_queue q ++ before.
Proof.
  unfold flush, published.
  destruct (pending_events q) as [|g items'] eqn:E; [discriminate|].
  set (items := g :: items') in *.
  pose proof (@flush_loop_spec (max_queue_size q) items items
                (mkFlushState items (output_queue q) (stats q)
                   (collect_directory_deletes items []))
                (incl_refl _) eq_refl) as Hs.
  destruct (flush_loop (max_queue_size q) _ items) as [st [w|]];
    [|discriminate].
  destruct Hs as (done & g' & rest & Hd & Ho & Hc & Hf & _).
  intros [= <- <-].
  cbn [output_queue max_queue_size last_flush fs_output] in *.
  split; [exact Hf|]. split; [reflexivity|].
  exists (flat_map (contribution (directory_deletes_of items)) done),
    (flat_map (contribution (directory_deletes_of items)) rest).
  split; [|exact Ho].
  set (D := directory_deletes_of items) in *.
  rewrite Hd, flat_map_app. cbn [flat_map]. now rewrite Hc.
Qed.

(** A flush returns when the FIFO has room for what it publishes: always
    on an unbounded FIFO. *)
Lemma flush_returns_with_room (q : t) (now : Q) :
  has_room q (List.length (published (pending_events q))) ->
  exists q', flush q now = Returned q'.
Proof.
  intros Hroom. destruct (flush q now) as [q'|q' waiting] eqn:E; [eauto|].
  exfalso. pose proof E as E0.
  apply flush_suspended in E. destruct E as (Hf & _ & before & after & Hp & Ho).
  assert (Hm : max_queue_size q' = max_queue_size q).
  { unfold flush in E0. destruct (pending_events q); [discriminate|].
    destruct (flush_loop _ _ _) as [st [w|]]; [|discriminate].
    now injection E0 as <- _. }
  unfold full in Hf. apply andb_true_iff in Hf. destruct Hf as [H0 H1].
  apply Z.ltb_lt in H0. apply Z.leb_le in H1.
  rewrite Hm in *. rewrite Ho, length_app in H1.
  rewrite Hp, length_app in Hroom. cbn [List.length] in Hroom.
  destruct Hroom as [Hr|Hr]; lia.
Qed.

Lemma existsb_agree (A : Type) (f g : A -> bool) (l : list A) :
  (forall x, In x l -> f x = g x) -> existsb f l = existsb g l.
Proof.
  induction l as [|x l IH]; intros H; [reflexivity|]. cbn [existsb].
  rewrite (H x) by now left. rewrite IH; [reflexivity|].
  intros y Hy. apply H. now right.
Qed.

(** Where no path holding a DELETE_FOLDER merges to an event of another
    kind, the code suppresses what the specification says. *)
Lemma published_as_specified_agrees (pending : list (string * list Event)) :
  (forall p evs m inc,
     In (p, evs) pending -> _merge_events evs = Some (m, inc) ->
     In p (directory_deletes_of pending) -> type m = "DELETE_FOLDER") ->
  published pending = published_as_specified pending.
Proof.
  intros H. unfold published, published_as_specified.
  set (D := directory_deletes_of pending) in *.
  assert (Hg : forall g, In g pending ->
                         contribution D g = contribution_as_specified D g).
  { intros [p evs] Hin. unfold contribution, contribution_as_specified.
    cbn [fst snd]. destruct (_merge_events evs) as [[m inc]|] eqn:Hm; trivial.
    unfold suppressed, suppressed_as_specified.
    destruct (String.eqb (type m) "DELETE_FOLDER") eqn:Ht; trivial.
    cbn [negb andb].
    rewrite (@existsb_agree _
               (fun d => strict_ancestor d p || String.eqb p d)
               (fun d => strict_ancestor d p) D); trivial.
    intros d Hd. destruct (String.eqb p d) eqn:Ep; [|apply orb_false_r].
    apply String.eqb_eq in Ep. subst d.
    rewrite (H p evs m inc Hin Hm Hd) in Ht. discriminate Ht. }
  clearbody D. clear H.
  induction pending as [|g pending IH]; [reflexivity|]. cbn [flat_map].
  rewrite Hg by now left. rewrite IH; [reflexivity|].
  intros g' Hg'. apply Hg. now right.
Qed.

(** C1 (the code departs from the claim).  A file is deleted and a
    directory of the same name is created and removed within one window.
    The DELETE_FILE arrived first and wins the merge of the path, which
    itself holds the DELETE_FOLDER; the path has no strict ancestor among
    the deleted directories, so the claim has the merged event published.
    The flush filters it: nothing is published for the path and the
    deletion is lost. *)
Theorem flush_drops_delete_file_at_deleted_directory :
  let q := window_file_then_dir_deleted in
  map fst (pending_events q) = ["/w/d"]
  /\ map (fun g => map type (snd g)) (pending_events q)
     = [["DELETE_FILE"; "CREATE_FOLDER"; "DELETE_FOLDER"]]
  /\ directory_deletes_of (pending_events q) = ["/w/d"]
  /\ map (fun e => (type e, path e))
         (published_as_specified (pending_events q))
     = [("DELETE_FILE", "/w/d")]
  /\ exists q',
       flush q 6 = Returned q'
       /\ output_queue q' = []
       /\ pending_events q' = []
       /\ events_filtered (stats q') = 1%nat.
Proof.
  cbn zeta. repeat split; try (vm_compute; reflexivity).
  eexists. split; [vm_compute; reflexivity|].
  repeat split.
Qed.

(** Scenario S2: only the DELETE_FOLDER of [/w/dir] reaches the FIFO, and
    nothing stays pending; here the code and the specification agree. *)
Example flush_S2 :
  exists q',
    flush window_S2 6 = Returned q'
    /\ map (fun e => (type e, path e)) (output_queue q')
       = [("DELETE_FOLDER", "/w/dir")]
    /\ pending_events q' = []
    /\ published (pending_events window_S2)
       = published_as_specified (pending_events window_S2).
Proof.
  eexists. split; [vm_compute; reflexivity|].
  repeat split.
Qed.

(** Two paths on a FIFO of size one: the flush puts the first merged
    event and is suspended with the second, which is still pending, and
    [last_flush] keeps its value. *)
Example flush_on_full_fifo :
  exists q' waiting,
    flush window_two_files_small_fifo 6 = Suspended q' waiting
    /\ map path (output_queue q') = ["/w/a"]
    /\ path waiting = "/w/b"
    /\ map fst (pending_events q') = ["/w/b"]
    /\ last_flush q' = 0.
Proof.
  eexists. eexists. split; [vm_compute; reflexivity|].
  repeat split.
Qed.

End EventQueueProps.

Module MetadataManagerProps.
Import PyStr MetadataManager.

Section WithEnvironment.
Variable resolve : string -> option string.
Variable md5_hexdigest : string -> string.
Variable prepare_node_id : MetadataPaths -> option string.

Lemma first_inside_watch_some (watch : string)
    (cfg : list (string * option string)) (key O : string) :
  In (key, Some O) cfg ->
  O <> "" ->
  _is_path_inside_watch resolve watch O = true ->
  exists k p, first_inside_watch resolve watch cfg = Some (k, p).
Proof.
  intros Hin Hne Hins.
  induction cfg as [|[k v] rest IH]; [destruct Hin|].
  cbn [first_inside_watch].
  destruct Hin as [Heq|Hin].
  - inversion Heq; subst. rewrite Hins.
    destruct O; [congruence|]. cbn [truthy_str andb]. eauto.
  - destruct v as [p|]; [|now apply IH].
    destruct (truthy_str (Some p) && _is_path_inside_watch resolve watch p);
      [eauto | now apply IH].
Qed.

(** C6 (as amended). Construction of the metadata store fails with the
    configuration error whenever some non-empty override path of the
    user's configuration resolves to a string that has the resolved
    watched root as a prefix: the watched root itself, a path below it,
    or any path whose text begins with the text of the root. *)
Theorem init_rejects_override_inside_watch (watch_path remote_name : string)
    (cfg : list (string * option string)) (key O w r : string) :
  In (key, Some O) cfg ->
  O <> "" ->
  resolve watch_path = Some w ->
  resolve O = Some r ->
  startswith r w = true ->
  exists k p,
    init resolve md5_hexdigest prepare_node_id watch_path remote_name (Some cfg)
    = ValueError k p w.
Proof.
  intros Hin Hne Hw Hr Hpre.
  unfold init. rewrite Hw. unfold _generate_safe_paths.
  destruct cfg as [|c cfg']; [destruct Hin|].
  destruct (@first_inside_watch_some w (c :: cfg') key O Hin Hne)
    as (k & p & Hf).
  - unfold _is_path_inside_watch. now rewrite Hr.
  - rewrite Hf. eauto.
Qed.

End WithEnvironment.

(** Scenario S6: watched root [/w], override [metadata_dir=/w/.meta]. *)
Lemma init_rejects_override_inside_watch_witness :
  init resolve_plain md5_sample node_id_sample "/w" "10.0.0.2::data"
    (Some [("metadata_dir", Some "/w/.meta"); ("conflict_backup_dir", None);
           ("lock_file", None)])
  = ValueError "metadata_dir" "/w/.meta" "/w".
Proof.
  destruct (@init_rejects_override_inside_watch resolve_plain md5_sample
              node_id_sample "/w" "10.0.0.2::data"
              [("metadata_dir", Some "/w/.meta"); ("conflict_backup_dir", None);
               ("lock_file", None)]
              "metadata_dir" "/w/.meta" "/w" "/w/.meta")
    as (k & p & H).
  - now left.
  - discriminate.
  - reflexivity.
  - reflexivity.
  - reflexivity.
  - rewrite H. vm_compute in H. injection H as -> ->. reflexivity.
Defined.

(** C6, as first stated, fails: the override [/] resolves to a prefix (an
    ancestor) of the watched root [/w], and construction succeeds. *)
Lemma init_accepts_override_above_watch :
  startswith "/w" "/" = true
  /\ resolve_plain "/" = Some "/"
  /\ resolve_plain "/w" = Some "/w"
  /\ exists m,
       init resolve_plain md5_sample node_id_sample "/w" "10.0.0.2::data"
         (Some [("metadata_dir", Some "/")])
       = Ok m.
Proof.
  repeat split; try reflexivity.
  eexists. vm_compute. reflexivity.
Qed.

End MetadataManagerProps.

Module SyncEngineProps.
Import PyStr SyncEngine.

Section WithEnvironment.
Variable fs_exists : string -> bool.
Variable decode : string -> string.

(** *** Command assembly *)

(** On a delete event the command ends with the delete source and the
    destination, and [--delete] stands before them. *)
Lemma build_rsync_cmd_delete (self : t) (source : string)
    (remote : RemoteConfig) (event_type : string) :
  is_delete event_type = true ->
  exists front dest,
    _build_rsync_cmd fs_exists self source remote event_type
    = front ++ [delete_source fs_exists source; dest]
    /\ In "--delete" front.
Proof.
  intros Hd. unfold _build_rsync_cmd. rewrite Hd.
  set (c0 := ("rsync" :: split_ws (common_params (config self))) ++ ["--delete"]).
  assert (H0 : In "--delete" c0) by (apply in_or_app; right; now left).
  set (c1 := match auth_passwordfile (config self) with
             | Some pf =>
                 if auth_enabled (config self) && truthy_str (Some pf)
                 then c0 ++ [("--password-file=" ++ pf)%string] else c0
             | None => c0
             end).
  assert (H1 : In "--delete" c1).
  { subst c1. destruct (auth_passwordfile (config self)) as [pf|]; trivial.
    destruct (auth_enabled (config self) && truthy_str (Some pf)); trivial.
    apply in_or_app. now left. }
  set (c2 := if timeout_enabled (config self)
             then c1 ++ [("--timeout=" ++ str_of_Z (timeout (config self)))%string]
             else c1).
  assert (H2 : In "--delete" c2).
  { subst c2. destruct (timeout_enabled (config self)); trivial.
    apply in_or_app. now left. }
  set (c3 := if custom_port_enabled (config self)
             then c2 ++ [("--port=" ++ str_of_Z (custom_port (config self)))%string]
             else c2).
  assert (H3 : In "--delete" c3).
  { subst c3. destruct (custom_port_enabled (config self)); trivial.
    apply in_or_app. now left. }
  destruct (ssh_enabled (config self)).
  - eexists (c3 ++ ["-e"; "ssh"]), _. split; [reflexivity|].
    apply in_or_app. now left.
  - eexists c3, _. split; [reflexivity | exact H3].
Qed.

(** C3. For a delete event whose source no longer exists: if the parent
    directory exists, rsync is spawned once, with [--delete] and with the
    parent directory followed by a slash as its source; if the parent does
    not exist either, the result is a success with exit code 0 and nothing
    is spawned. *)
Theorem delete_of_missing_source (spawn : list string -> ProcResult) (self : t)
    (source : string) (remote : RemoteConfig) (event_type : string) :
  is_delete event_type = true ->
  path_exists fs_exists (PosixPath.parse source) = false ->
  (path_exists fs_exists (PosixPath.parent (PosixPath.parse source)) = true ->
   exists front dest,
     let cmd :=
       front ++ [(PosixPath.str (PosixPath.parent (PosixPath.parse source))
                    ++ "/")%string; dest] in
     _rsync_to_remote fs_exists decode spawn self source remote event_type
     = ([cmd], interpret decode event_type (spawn cmd))
     /\ In "--delete" front)
  /\ (path_exists fs_exists (PosixPath.parent (PosixPath.parse source)) = false ->
      _rsync_to_remote fs_exists decode spawn self source remote event_type
      = ([], mkOutcome true (Some 0%Z)
               (Some "Source already deleted, sync skipped") "")).
Proof.
  intros Hd Hs. unfold _rsync_to_remote. rewrite Hd, Hs. cbn [negb andb].
  split; intros Hp; rewrite Hp; cbn [negb]; [|reflexivity].
  destruct (@build_rsync_cmd_delete self source remote event_type Hd)
    as (front & dest & Hc & Hin).
  exists front, dest. cbn zeta. rewrite Hc.
  unfold delete_source. rewrite Hs, Hp. cbn [negb]. split; [reflexivity | exact Hin].
Qed.

(** *** Exit-code policy *)

Lemma interpret_success_iff (event_type : string) (r : ProcResult) :
  success (interpret decode event_type r) = true <->
  exists rc so se,
    r = Exited rc so se
    /\ (rc = 0%Z
        \/ (is_delete event_type = true /\ rc = 23%Z
            /\ contains "No such file or directory" (decode se) = true)).
Proof.
  destruct r as [rc so se| |msg]; cbn [interpret success].
  - destruct (rc =? 0)%Z eqn:E0; cbn [negb andb].
    + apply Z.eqb_eq in E0. split; [|reflexivity].
      intros _. exists rc, so, se. auto.
    + apply Z.eqb_neq in E0.
      destruct (is_delete event_type) eqn:Ed; cbn [andb].
      * destruct (rc =? 23)%Z eqn:E23.
        -- apply Z.eqb_eq in E23.
           destruct (contains "No such file or directory" (decode se)) eqn:Ec.
           ++ split; [|reflexivity]. intros _. exists rc, so, se. auto.
           ++ split; [discriminate|].
              intros (rc' & so' & se' & Heq & [H|(_ & _ & H)]);
                inversion Heq; subst; congruence.
        -- apply Z.eqb_neq in E23. split; [discriminate|].
           intros (rc' & so' & se' & Heq & [H|(_ & H & _)]);
             inversion Heq; subst; congruence.
      * split; [discriminate|].
        intros (rc' & so' & se' & Heq & [H|(H & _)]);
          inversion Heq; subst; congruence.
  - split; [discriminate | intros (? & ? & ? & H & _); discriminate].
  - split; [discriminate | intros (? & ? & ? & H & _); discriminate].
Qed.

Lemma sync_loop_results (timestamp : string)
    (spawn : nat -> list string -> ProcResult) (self : t)
    (file_path event_type : string) :
  forall (todo : list RemoteConfig) (index : nat) (st : LoopState),
    map rr_success
      (ls_results (sync_loop fs_exists decode timestamp spawn self file_path
                     event_type todo index st))
    = map rr_success (ls_results st)
      ++ map (fun ir =>
                success (snd (_rsync_to_remote fs_exists decode (spawn (fst ir))
                                self file_path (snd ir) event_type)))
             (combine (seq index (List.length todo)) todo).
Proof.
  induction todo as [|remote rest IH]; intros index st.
  - cbn. now rewrite app_nil_r.
  - cbn [sync_loop List.length seq combine map fst snd].
    destruct (_rsync_to_remote fs_exists decode (spawn index) self file_path
                remote event_type) as [spawned result] eqn:E.
    rewrite IH. cbn [ls_results snd]. rewrite map_app, <- app_assoc.
    reflexivity.
Qed.

Lemma forallb_map_id (l : list bool) (A : Type) (f : A -> bool) (xs : list A) :
  l = map f xs -> forallb (fun b => b) l = forallb f xs.
Proof. intros ->. induction xs; cbn; congruence. Qed.

Lemma combine_seq_nth (A : Type) (l : list A) :
  forall start i x,
    nth_error l i = Some x -> In ((start + i)%nat, x) (combine (seq start (List.length l)) l).
Proof.
  induction l as [|a l IH]; intros start i x H.
  - destruct i; discriminate.
  - destruct i as [|i]; cbn in *.
    + inversion H; subst. left. f_equal. lia.
    + right. replace (start + S i)%nat with (S start + i)%nat by lia.
      now apply IH.
Qed.

Lemma combine_seq_in (A : Type) (l : list A) :
  forall start j x,
    In (j, x) (combine (seq start (List.length l)) l) ->
    exists i, j = (start + i)%nat /\ nth_error l i = Some x.
Proof.
  induction l as [|a l IH]; intros start j x H; [destruct H|].
  cbn in H. destruct H as [H|H].
  - inversion H; subst. exists 0%nat. split; [lia | reflexivity].
  - destruct (IH (S start) j x H) as (i & -> & Hn).
    exists (S i). split; [lia | exact Hn].
Qed.

(** C4. An invocation outside the delete-of-missing short cut builds the
    rsync command and spawns it, and it succeeds exactly when the process
    exits with code 0, or, for a delete event, with code 23 and a stderr
    text that contains "No such file or directory" (so every other exit
    code, a timeout and a raised exception are failures); inside the
    short cut nothing is spawned and the result is a success.  The
    aggregate [all_success] is the conjunction of the per-remote success
    flags. *)
Theorem success_policy (timestamp : string)
    (spawn : nat -> list string -> ProcResult) (self : t)
    (ledger : option LedgerFile) (file_path event_type : string) :
  (forall (i : nat) (remote : RemoteConfig),
     let cmd := _build_rsync_cmd fs_exists self file_path remote event_type in
     let r :=
       _rsync_to_remote fs_exists decode (spawn i) self file_path remote
         event_type in
     let short_cut :=
       is_delete event_type
       && negb (path_exists fs_exists (PosixPath.parse file_path))
       && negb (path_exists fs_exists
                  (PosixPath.parent (PosixPath.parse file_path))) in
     (short_cut = false ->
      fst r = [cmd]
      /\ (success (snd r) = true <->
          exists rc so se,
            spawn i cmd = Exited rc so se
            /\ (rc = 0%Z
                \/ (is_delete event_type = true /\ rc = 23%Z
                    /\ contains "No such file or directory" (decode se)
                       = true))))
     /\ (short_cut = true -> fst r = [] /\ success (snd r) = true))
  /\ (all_success
        (snd (sync_file fs_exists decode timestamp spawn self ledger file_path
                event_type)) = true
      <-> forall (i : nat) (remote : RemoteConfig),
            nth_error (remotes self) i = Some remote ->
            success (snd (_rsync_to_remote fs_exists decode (spawn i) self
                            file_path remote event_type)) = true).
Proof.
  split.
  - intros i remote. cbn zeta. unfold _rsync_to_remote.
    split; intros H; rewrite H; cbn [fst snd].
    + split; [reflexivity | apply interpret_success_iff].
    + split; reflexivity.
  - unfold sync_file. cbn [snd all_success].
    pose proof (@sync_loop_results timestamp spawn self file_path event_type
                  (remotes self) 0%nat (mkLoopState [] [] ledger)) as HR.
    cbn [ls_results map app] in HR.
    set (rs := ls_results _) in *.
    assert (E : forallb rr_success rs = forallb (fun b => b) (map rr_success rs)).
    { clear. induction rs; cbn; congruence. }
    rewrite E, HR, forallb_forall. split.
    + intros H i remote Hn. apply (H _). apply in_map_iff.
      exists (i, remote). split; [reflexivity|].
      exact (@combine_seq_nth _ (remotes self) 0%nat i remote Hn).
    + intros H b Hb. apply in_map_iff in Hb.
      destruct Hb as ([j remote] & <- & Hin).
      apply combine_seq_in in Hin. destruct Hin as (i & -> & Hn).
      exact (H i remote Hn).
Qed.

End WithEnvironment.

(** Scenario S2: the source [/w/dir] is gone, its parent [/w] exists. *)
Lemma delete_of_missing_source_witness :
  (exists front dest,
     _rsync_to_remote fs_S1 decode_ascii (fun _ => Exited 0 "" "") engine_S1
       "/w/dir" (mkRemoteConfig "10.0.0.2" "data") "DELETE_FOLDER"
     = ([front ++ ["/w/"; dest]], mkOutcome true (Some 0%Z) (Some "") "")
     /\ In "--delete" front)
  /\ _rsync_to_remote fs_empty decode_ascii (fun _ => Raised "not spawned")
       engine_S1 "/w/dir" (mkRemoteConfig "10.0.0.2" "data") "DELETE_FOLDER"
     = ([], mkOutcome true (Some 0%Z)
              (Some "Source already deleted, sync skipped") "").
Proof.
  split.
  - destruct (@delete_of_missing_source fs_S1 decode_ascii
                (fun _ => Exited 0 "" "") engine_S1 "/w/dir"
                (mkRemoteConfig "10.0.0.2" "data") "DELETE_FOLDER"
                eq_refl eq_refl) as [H _].
    destruct (H eq_refl) as (front & dest & Heq & Hin).
    exists front, dest. split; [exact Heq | exact Hin].
  - destruct (@delete_of_missing_source fs_empty decode_ascii
                (fun _ => Raised "not spawned") engine_S1 "/w/dir"
                (mkRemoteConfig "10.0.0.2" "data") "DELETE_FOLDER"
                eq_refl eq_refl) as [_ H].
    exact (H eq_refl).
Defined.

(** Scenarios S1 and S2 evaluated: the command lines built. *)
Example build_cmd_S1 :
  _build_rsync_cmd fs_S1 engine_S1 "/w/a.txt" (mkRemoteConfig "10.0.0.2" "data")
    "CLOSE_WRITE"
  = ["rsync"; "-artuz"; "/w/a.txt"; "10.0.0.2::data/a.txt"]
  /\ _build_rsync_cmd fs_S1 engine_S1 "/w/dir" (mkRemoteConfig "10.0.0.2" "data")
       "DELETE_FOLDER"
     = ["rsync"; "-artuz"; "--delete"; "/w/"; "10.0.0.2::data/."].
Proof. split; vm_compute; reflexivity. Qed.

(** A delete whose rsync exits with 23 and "No such file or directory":
    the command is built and spawned and the result is a success, also
    in the aggregate over the single remote; the same exit on a write
    event is a failure. *)
Lemma success_policy_witness :
  let spawn := fun (_ : nat) (_ : list string) =>
    Exited 23 "" "rsync: link_stat failed: No such file or directory (2)" in
  fst (_rsync_to_remote fs_S1 decode_ascii (spawn 0%nat) engine_S1
         "/w/a.txt" (mkRemoteConfig "10.0.0.2" "data") "DELETE_FILE")
  = [["rsync"; "-artuz"; "--delete"; "/w/a.txt"; "10.0.0.2::data/a.txt"]]
  /\ success (snd (_rsync_to_remote fs_S1 decode_ascii (spawn 0%nat) engine_S1
                     "/w/a.txt" (mkRemoteConfig "10.0.0.2" "data")
                     "DELETE_FILE")) = true
  /\ all_success (snd (sync_file fs_S1 decode_ascii "2024-01-01 00:00:00" spawn
                         engine_S1 None "/w/a.txt" "DELETE_FILE")) = true
  /\ success (snd (_rsync_to_remote fs_S1 decode_ascii (spawn 0%nat) engine_S1
                     "/w/a.txt" (mkRemoteConfig "10.0.0.2" "data")
                     "CLOSE_WRITE")) = false.
Proof.
  intros spawn.
  destruct (@success_policy fs_S1 decode_ascii "2024-01-01 00:00:00" spawn
              engine_S1 None "/w/a.txt" "DELETE_FILE") as [H Hall].
  destruct (H 0%nat (mkRemoteConfig "10.0.0.2" "data")) as [Hrun _].
  destruct (Hrun eq_refl) as [Hcmd Hiff].
  assert (H1 : success (snd (_rsync_to_remote fs_S1 decode_ascii (spawn 0%nat)
                               engine_S1 "/w/a.txt"
                               (mkRemoteConfig "10.0.0.2" "data") "DELETE_FILE"))
               = true).
  { apply Hiff. do 3 eexists. split; [reflexivity|].
    right. repeat split; reflexivity. }
  split; [exact Hcmd|]. split; [exact H1|]. split.
  - apply Hall. intros i remote Hn.
    destruct i as [|i]; cbn in Hn.
    + inversion Hn; subst. exact H1.
    + destruct i; discriminate Hn.
  - destruct (@success_policy fs_S1 decode_ascii "2024-01-01 00:00:00" spawn
                engine_S1 None "/w/a.txt" "CLOSE_WRITE") as [H' _].
    destruct (H' 0%nat (mkRemoteConfig "10.0.0.2" "data")) as [Hrun' _].
    destruct (Hrun' eq_refl) as [_ Hiff'].
    destruct (success (snd (_rsync_to_remote fs_S1 decode_ascii (spawn 0%nat)
                              engine_S1 "/w/a.txt"
                              (mkRemoteConfig "10.0.0.2" "data") "CLOSE_WRITE")))
      eqn:E; [|reflexivity].
    destruct (proj1 Hiff' eq_refl) as (rc & so & se & Hs & [Hz|(Hd & _)]).
    + injection Hs as <- _ _. discriminate Hz.
    + discriminate Hd.
Defined.

End SyncEngineProps.

(** ** Facts about the string operations *)

Unset Implicit Arguments.

Module PyStrFacts.
Import PyStr.

Lemma append_assoc (a b c : string) :
  ((a ++ b) ++ c)%string = (a ++ (b ++ c))%string.
Proof. induction a as [|x a IH]; cbn; [reflexivity | now rewrite IH]. Qed.

Lemma append_nil_r (s : string) : (s ++ "")%string = s.
Proof. induction s as [|x s IH]; cbn; [reflexivity | now rewrite IH]. Qed.

Lemma prefix_nil (s : string) : String.prefix "" s = true.
Proof. now destruct s. Qed.

Lemma prefix_app (p s t : string) :
  String.prefix p s = true -> String.prefix p (s ++ t) = true.
Proof.
  revert s. induction p as [|a p IH]; intros s H; [apply prefix_nil|].
  destruct s as [|b s]; [discriminate|]. cbn in *.
  destruct (ascii_dec a b); [now apply IH | discriminate].
Qed.

Lemma prefix_self_app (p t : string) : String.prefix p (p ++ t) = true.
Proof.
  induction p as [|a p IH]; [apply prefix_nil|]. cbn.
  destruct (ascii_dec a a); [exact IH | congruence].
Qed.

Lemma prefix_NL_cons (c : ascii) (s : string) :
  String.prefix NL (String c s) = Ascii.eqb c LF.
Proof.
  unfold NL. cbn [String.prefix]. destruct (ascii_dec LF c) as [<-|Hn].
  - now rewrite prefix_nil, Ascii.eqb_refl.
  - symmetry. apply Ascii.eqb_neq. congruence.
Qed.

Lemma contains_NL_cons (c : ascii) (s : string) :
  contains NL (String c s) = Ascii.eqb c LF || contains NL s.
Proof. cbn [contains]. now rewrite prefix_NL_cons. Qed.

Lemma contains_NL_nil : contains NL "" = false.
Proof. reflexivity. Qed.

Lemma contains_NL_app (a b : string) :
  contains NL (a ++ b) = contains NL a || contains NL b.
Proof.
  induction a as [|c a IH]; [reflexivity|].
  change (String c a ++ b)%string with (String c (a ++ b)).
  now rewrite !contains_NL_cons, IH, orb_assoc.
Qed.

Lemma split_nonempty (sep : ascii) (s : string) : split sep s <> [].
Proof.
  destruct s as [|c s]; cbn; [discriminate|].
  destruct (Ascii.eqb c sep); [discriminate|].
  destruct (split sep s); discriminate.
Qed.

Lemma split_cons_sep (s : string) :
  split LF (String LF s) = "" :: split LF s.
Proof. reflexivity. Qed.

Lemma split_cons_other (c : ascii) (s : string) :
  Ascii.eqb c LF = false ->
  split LF (String c s)
  = String c (hd "" (split LF s)) :: tl (split LF s).
Proof.
  intros H. cbn [split]. rewrite H.
  destruct (split LF s) eqn:E; [now apply split_nonempty in E | reflexivity].
Qed.

Lemma split_lf_free (s : string) : contains NL s = false -> split LF s = [s].
Proof.
  induction s as [|c s IH]; intros H; [reflexivity|].
  rewrite contains_NL_cons in H. apply orb_false_iff in H. destruct H as [Hc Hs].
  rewrite (split_cons_other _ _ Hc), (IH Hs). reflexivity.
Qed.

(** Splitting distributes over a line break. *)
Lemma split_app_NL (a b : string) :
  split LF (a ++ String LF b) = split LF a ++ split LF b.
Proof.
  induction a as [|c a IH]; [reflexivity|].
  change (String c a ++ String LF b)%string with (String c (a ++ String LF b)).
  destruct (Ascii.eqb c LF) eqn:Hc.
  - apply Ascii.eqb_eq in Hc. subst c. rewrite !split_cons_sep, IH. reflexivity.
  - rewrite !(split_cons_other _ _ Hc), IH.
    destruct (split LF a) eqn:E; [now apply split_nonempty in E | reflexivity].
Qed.

Lemma join_cons2 (sep x y : string) (l : list string) :
  join sep (x :: y :: l) = (x ++ sep ++ join sep (y :: l))%string.
Proof. reflexivity. Qed.

Lemma split_join (l : list string) :
  l <> [] -> Forall lf_free l -> split LF (join NL l) = l.
Proof.
  induction l as [|x l IH]; [congruence|]. intros _ HF.
  inversion HF as [|? ? Hx Hl]; subst.
  destruct l as [|y l].
  - cbn [join]. now apply split_lf_free.
  - rewrite join_cons2. change (NL ++ join NL (y :: l))%string
      with (String LF (join NL (y :: l))).
    rewrite split_app_NL, (split_lf_free _ Hx), IH; [reflexivity | discriminate | exact Hl].
Qed.

Lemma first_line_app_NL (a b : string) :
  SyncEngine.first_line (a ++ String LF b) = SyncEngine.first_line a.
Proof.
  unfold SyncEngine.first_line, splitlines. rewrite split_app_NL.
  destruct (split LF a) eqn:E; [now apply split_nonempty in E | reflexivity].
Qed.

Lemma first_line_lf_free (a : string) :
  lf_free a -> SyncEngine.first_line a = a.
Proof.
  intros H. unfold SyncEngine.first_line, splitlines. now rewrite split_lf_free.
Qed.

(** A text with a line break keeps its first line when text is appended. *)
Lemma first_line_app (a b : string) :
  contains NL a = true ->
  SyncEngine.first_line (a ++ b) = SyncEngine.first_line a.
Proof.
  induction a as [|c a IH]; intros H; [discriminate|].
  rewrite contains_NL_cons in H.
  change (String c a ++ b)%string with (String c (a ++ b)).
  unfold SyncEngine.first_line, splitlines in *.
  destruct (Ascii.eqb c LF) eqn:Hc.
  - apply Ascii.eqb_eq in Hc. subst c. now rewrite !split_cons_sep.
  - cbn [orb] in H. rewrite !(split_cons_other _ _ Hc). cbn [hd].
    specialize (IH H).
    destruct (split LF (a ++ b)) eqn:E1; [now apply split_nonempty in E1|].
    destruct (split LF a) eqn:E2; [now apply split_nonempty in E2|].
    cbn [hd]. now rewrite IH.
Qed.

Lemma prefix_first_line (p s : string) :
  lf_free p -> String.prefix p s = true ->
  String.prefix p (SyncEngine.first_line s) = true.
Proof.
  revert s. induction p as [|a p IH]; intros s Hp H; [apply prefix_nil|].
  destruct s as [|b s]; [discriminate|].
  unfold lf_free in Hp. rewrite contains_NL_cons in Hp.
  apply orb_false_iff in Hp. destruct Hp as [Ha Hp].
  cbn in H. destruct (ascii_dec a b) as [<-|]; [|discriminate].
  unfold SyncEngine.first_line, splitlines. rewrite (split_cons_other _ _ Ha).
  cbn [prefix]. destruct (ascii_dec a a); [|congruence].
  specialize (IH s Hp H). unfold SyncEngine.first_line, splitlines in IH.
  destruct (split LF s) eqn:E; [now apply split_nonempty in E | exact IH].
Qed.

Lemma split_hd_lf_free (s : string) : lf_free (hd "" (split LF s)).
Proof.
  unfold lf_free. induction s as [|c s IH]; [reflexivity|].
  destruct (Ascii.eqb c LF) eqn:Hc.
  - apply Ascii.eqb_eq in Hc. subst c. reflexivity.
  - rewrite (split_cons_other _ _ Hc). cbn [hd].
    now rewrite contains_NL_cons, Hc, IH.
Qed.

Lemma rstrip_cons_nonspace (c : ascii) (s : string) :
  isspace c = false -> rstrip (String c s) = String c (rstrip s).
Proof. intros H. cbn [rstrip]. rewrite H. now destruct (rstrip s). Qed.

Lemma rstrip_app_nonempty (s t : string) :
  rstrip t <> "" -> rstrip (s ++ t) = (s ++ rstrip t)%string.
Proof.
  intros Ht. induction s as [|c s IH]; [reflexivity|].
  change (String c s ++ t)%string with (String c (s ++ t)).
  cbn [rstrip]. rewrite IH. cbn [append].
  destruct (s ++ rstrip t)%string eqn:E; [|reflexivity].
  destruct s; cbn in E; [contradiction | discriminate].
Qed.

End PyStrFacts.

(** ** The shebang line of the failure ledger *)

Module LedgerProps.
Import PyStr PyStrFacts SyncEngine.

Lemma first_line_header_app (x : string) :
  first_line (ledger_header ++ x) = "#!/bin/bash".
Proof. reflexivity. Qed.

Lemma list_insert_hd (i : nat) (x h : string) (l : list string) :
  hd "" (list_insert (S i) x (h :: l)) = h
  /\ exists l', list_insert (S i) x (h :: l) = h :: l' /\ l' <> [].
Proof.
  unfold list_insert. cbn [firstn skipn app hd]. split; [reflexivity|].
  eexists. split; [reflexivity|]. destruct (firstn i l); discriminate.
Qed.

Lemma first_line_join (h : string) (l : list string) :
  lf_free h -> first_line (join NL (h :: l)) = h.
Proof.
  intros Hh. destruct l as [|y l].
  - now apply first_line_lf_free.
  - rewrite join_cons2. change (NL ++ join NL (y :: l))%string
      with (String LF (join NL (y :: l))).
    now rewrite first_line_app_NL, first_line_lf_free.
Qed.

Lemma prefix_join (p h : string) (l : list string) :
  String.prefix p h = true -> String.prefix p (join NL (h :: l)) = true.
Proof.
  intros H. destruct l as [|y l]; [exact H|].
  rewrite join_cons2. now apply prefix_app.
Qed.

Section WithEnvironment.
Variable fs_exists : string -> bool.

(** The dispatcher's append: the ledger always begins with the shebang
    text, and its first line is the shebang unless an existing first line
    already began with it and went on. *)
Lemma log_failure_shebang (timestamp : string) (self : t) (file_path : string)
    (remote : RemoteConfig) (event_type : string) (ledger : option LedgerFile) :
  exists f,
    _log_failure fs_exists timestamp self file_path remote event_type ledger
    = Some f
    /\ startswith (content f) "#!/bin/bash" = true
    /\ (match ledger with
        | None => True
        | Some f0 => startswith (content f0) "#!/bin/bash" = false
                     \/ first_line (content f0) = "#!/bin/bash"
        end -> first_line (content f) = "#!/bin/bash").
Proof.
  unfold _log_failure. eexists. split; [reflexivity|].
  cbn [content].
  destruct ledger as [f0|]; cbn [content].
  - destruct (startswith (content f0) "#!/bin/bash") eqn:Hs; cbn [negb content].
    + destruct (contains "RETRY_COUNT=0" (content f0)) eqn:Hc; cbn [negb content].
      * split; [now apply prefix_app|].
        intros [H|H]; [discriminate|].
        rewrite first_line_app; [exact H|].
        destruct (contains NL (content f0)) eqn:E; trivial.
        rewrite (first_line_lf_free _ E) in H. rewrite H in Hc. discriminate Hc.
      * unfold splitlines.
        destruct (split LF (content f0)) as [|h l] eqn:E;
          [now apply split_nonempty in E|].
        assert (Hh : lf_free h).
        { pose proof (split_hd_lf_free (content f0)) as Hl. now rewrite E in Hl. }
        assert (Hp : String.prefix "#!/bin/bash" h = true).
        { pose proof (@prefix_first_line "#!/bin/bash" (content f0) eq_refl Hs) as Hl.
          unfold first_line, splitlines in Hl. now rewrite E in Hl. }
        destruct (list_insert_hd 1 "# FailLog retry script - generated by sersync" h l)
          as (_ & l1 & -> & _).
        destruct (list_insert_hd 2 "RETRY_COUNT=0" h l1) as (_ & l2 & -> & _).
        destruct (list_insert_hd 3 "FAILED_COUNT=0" h l2) as (_ & l3 & -> & _).
        destruct (list_insert_hd 4 "" h l3) as (_ & l4 & -> & Hne).
        destruct l4 as [|y l4]; [congruence|].
        rewrite join_cons2. change (NL ++ join NL (y :: l4))%string
          with (String LF (join NL (y :: l4))).
        split.
        -- unfold startswith. rewrite append_assoc. now apply prefix_app.
        -- intros [H|H]; [discriminate|].
           rewrite append_assoc.
           change (String LF (join NL (y :: l4)) ++ ?e)%string
             with (String LF (join NL (y :: l4) ++ e)).
           rewrite first_line_app_NL, (first_line_lf_free _ Hh).
           unfold first_line, splitlines in H. now rewrite E in H.
    + split; [reflexivity|]. intros _. reflexivity.
  - split; [reflexivity|]. intros _. reflexivity.
Qed.

Lemma generated_script_shebang (commands : list FailLogExecutor.FailedCommand) :
  first_line (FailLogExecutor._generate_script_with_commands commands)
  = "#!/bin/bash".
Proof.
  unfold FailLogExecutor._generate_script_with_commands.
  cbn [FailLogExecutor.generated_header app].
  now apply first_line_join.
Qed.

(** C10 (as amended). Every operation that creates or rewrites the failure
    ledger leaves a file that begins with [#!/bin/bash]: after the
    dispatcher's append the first line is exactly [#!/bin/bash] when the
    file was missing, did not begin with that text, or already had that
    first line (an existing first line that begins with [#!/bin/bash] and
    goes on is kept); after the executor's clearing and after its
    incremental regeneration the first line is exactly [#!/bin/bash]. *)
Theorem ledger_writes_keep_shebang (timestamp : string) (self : t)
    (file_path : string) (remote : RemoteConfig) (event_type : string)
    (ledger : option LedgerFile) (f : LedgerFile)
    (commands : list FailLogExecutor.FailedCommand) :
  (exists f',
     _log_failure fs_exists timestamp self file_path remote event_type ledger
     = Some f'
     /\ startswith (content f') "#!/bin/bash" = true
     /\ (match ledger with
         | None => True
         | Some f0 => startswith (content f0) "#!/bin/bash" = false
                      \/ first_line (content f0) = "#!/bin/bash"
         end -> first_line (content f') = "#!/bin/bash"))
  /\ first_line (content (FailLogExecutor._clear_script f)) = "#!/bin/bash"
  /\ first_line (FailLogExecutor._generate_script_with_commands commands)
     = "#!/bin/bash".
Proof.
  split; [apply log_failure_shebang|].
  split; [reflexivity | apply generated_script_shebang].
Qed.

End WithEnvironment.

(** A first failure on a missing ledger, then a second one. *)
Lemma ledger_writes_keep_shebang_witness :
  exists f1 f2,
    _log_failure fs_S1 "2024-01-01 00:00:00" engine_S1 "/w/a.txt"
      (mkRemoteConfig "10.0.0.2" "data") "CLOSE_WRITE" None = Some f1
    /\ first_line (content f1) = "#!/bin/bash"
    /\ _log_failure fs_S1 "2024-01-01 00:00:05" engine_S1 "/w/b.txt"
         (mkRemoteConfig "10.0.0.2" "data") "CLOSE_WRITE" (Some f1) = Some f2
    /\ first_line (content f2) = "#!/bin/bash".
Proof.
  destruct (ledger_writes_keep_shebang fs_S1 "2024-01-01 00:00:00" engine_S1
              "/w/a.txt" (mkRemoteConfig "10.0.0.2" "data") "CLOSE_WRITE" None
              (mkLedgerFile "" true) [])
    as ((f1 & E1 & _ & H1) & _ & _).
  destruct (ledger_writes_keep_shebang fs_S1 "2024-01-01 00:00:05" engine_S1
              "/w/b.txt" (mkRemoteConfig "10.0.0.2" "data") "CLOSE_WRITE"
              (Some f1) (mkLedgerFile "" true) [])
    as ((f2 & E2 & _ & H2) & _ & _).
  exists f1, f2. specialize (H1 I).
  repeat split; trivial. apply H2. now right.
Defined.

(** C10, as first stated, fails: the append keeps an interpreter line that
    begins with [#!/bin/bash] and goes on. *)
Lemma log_failure_keeps_longer_interpreter_line :
  match _log_failure fs_S1 "2024-01-01 00:00:00" engine_S1 "/w/a.txt"
          (mkRemoteConfig "10.0.0.2" "data") "CLOSE_WRITE"
          (Some ledger_with_option) with
  | Some f => first_line (content f) = ("#!/bin/bash -x")%string
              /\ first_line (content f) <> "#!/bin/bash"
  | None => False
  end.
Proof. vm_compute. split; [reflexivity | discriminate]. Qed.

End LedgerProps.

(** ** One tick of the failure-ledger executor *)

Module FailLogProps.
Import PyStr PyStrFacts FailLogExecutor.
Import SyncEngine(LedgerFile, mkLedgerFile, content, executable).

(** *** Lines and blanks *)


Lemma lstrip_cons_nonspace (c : ascii) (s : string) :
  isspace c = false -> lstrip (String c s) = String c s.
Proof. intros H. cbn [lstrip]. now rewrite H. Qed.

Lemma strip_cons_nonspace (c : ascii) (s : string) :
  isspace c = false -> strip (String c s) = String c (rstrip s).
Proof.
  intros H. unfold strip.
  now rewrite (lstrip_cons_nonspace _ _ H), (rstrip_cons_nonspace _ _ H).
Qed.

Lemma strip_cons_space (c : ascii) (s : string) :
  isspace c = true -> strip (String c s) = strip s.
Proof. intros H. unfold strip. cbn [lstrip]. now rewrite H. Qed.

(** A line whose first character is neither blank nor [r] is no command. *)
Lemma is_rsync_line_other (c : ascii) (s : string) :
  isspace c = false -> Ascii.eqb c "r" = false ->
  is_rsync_line (String c s) = false.
Proof.
  intros Hs Hr. unfold is_rsync_line, startswith.
  rewrite (strip_cons_nonspace _ _ Hs). cbn [String.prefix].
  destruct (ascii_dec "r" c) as [<-|]; [discriminate | reflexivity].
Qed.

Lemma is_rsync_line_space (s : string) :
  is_rsync_line (String " " s) = is_rsync_line s.
Proof. unfold is_rsync_line. now rewrite strip_cons_space. Qed.

Lemma uint_lf_free (u : Decimal.uint) :
  contains NL (NilEmpty.string_of_uint u) = false.
Proof.
  induction u; cbn [NilEmpty.string_of_uint];
    rewrite ?contains_NL_cons, ?IHu; reflexivity.
Qed.

Lemma str_of_Z_lf_free (z : Z) : contains NL (str_of_Z z) = false.
Proof.
  unfold str_of_Z, NilZero.string_of_int, NilZero.string_of_uint.
  destruct (Z.to_int z) as [u|u].
  - destruct u; try reflexivity; apply uint_lf_free.
  - rewrite contains_NL_cons. cbn [orb Ascii.eqb].
    destruct u; try reflexivity; apply uint_lf_free.
Qed.

(** *** What a well-formed command line gives *)

Lemma well_formed_command_wf (cmd : string) :
  well_formed_command cmd = true -> wf_command cmd.
Proof.
  unfold well_formed_command. intros H.
  apply andb_true_iff in H. destruct H as [H Hm].
  apply andb_true_iff in H. destruct H as [H _].
  apply andb_true_iff in H. destruct H as [H Hs].
  apply andb_true_iff in H. destruct H as [Hr Hl].
  apply negb_true_iff in Hm, Hl. apply String.eqb_eq in Hs.
  assert (Hne : cmd <> "") by (intros ->; discriminate Hr).
  assert (Hls : lstrip cmd = cmd).
  { destruct cmd as [|c cmd]; [reflexivity|].
    unfold startswith in Hr. cbn [String.prefix] in Hr.
    destruct (ascii_dec "r" c) as [<-|]; [reflexivity | discriminate]. }
  constructor; trivial.
  unfold strip in Hs. now rewrite Hls in Hs.
Qed.

Lemma rstrip_literal_app (p cmd : string) :
  wf_command cmd -> rstrip (p ++ cmd) = (p ++ cmd)%string.
Proof.
  intros W. rewrite rstrip_app_nonempty; rewrite (wf_rstrip W);
    [reflexivity | exact (wf_nonempty W)].
Qed.

(** *** (a) Nothing to retry *)

Lemma tick_missing (run1 run2 : string -> RunResult) :
  _check_and_execute run1 run2 None = None.
Proof. reflexivity. Qed.


(** The script a tick runs: the ledger with the footer appended. *)
Lemma tick_runs (run1 run2 : string -> RunResult) (f : LedgerFile) :
  _has_rsync_commands (content f) = true ->
  (12 < String.length (content f))%nat ->
  _check_and_execute run1 run2 (Some f)
  = let script := _add_result_check_to_script f in
    let (g, success) := _execute_script run1 script in
    if success then Some (_clear_script g)
    else Some (_perform_incremental_cleanup run2 g).
Proof.
  intros H Hl. unfold _check_and_execute. rewrite H.
  apply Nat.leb_gt in Hl. now rewrite Hl.
Qed.

(** *** (b) Every retry succeeded *)

Lemma tick_all_succeeded (run1 run2 : string -> RunResult) (f : LedgerFile)
    (attempts : list Attempt) :
  _has_rsync_commands (content f) = true ->
  (12 < String.length (content f))%nat ->
  run1 (content (_add_result_check_to_script f)) = shell_run attempts ->
  existsb att_failed attempts = false ->
  _check_and_execute run1 run2 (Some f)
  = Some (mkLedgerFile ("#!/bin/bash" ++ NL)%string true).
Proof.
  intros H Hl Hrun Hok. rewrite (tick_runs _ _ _ H Hl). cbn zeta.
  unfold _execute_script. cbn [content]. rewrite Hrun.
  unfold shell_run. rewrite Hok. reflexivity.
Qed.

(** *** (e) No FAILED line could be parsed *)

Lemma execute_script_failed (run : string -> RunResult) (f : LedgerFile) :
  run_failed (run (content f)) ->
  _execute_script run f = (mkLedgerFile (content f) true, false).
Proof.
  unfold _execute_script, run_failed. cbn [content].
  destruct (run (content f)) as [rc so se|]; intros H; [|reflexivity].
  apply Z.eqb_neq in H. now rewrite H.
Qed.

Lemma cleanup_failed (run : string -> RunResult) (f : LedgerFile) :
  run_failed (run (content f)) ->
  _perform_incremental_cleanup run f
  = match _parse_failed_commands_from_output (stdout_of (run (content f))) with
    | [] => mkLedgerFile (content f) true
    | failed => mkLedgerFile (_generate_script_with_commands failed) true
    end.
Proof.
  unfold _perform_incremental_cleanup, _execute_script_with_analysis,
    run_failed, stdout_of. cbn [content].
  destruct (run (content f)) as [rc so se|]; intros H; [|reflexivity].
  apply Z.eqb_neq in H. now rewrite H.
Qed.


(** *** The parser on the shell's output *)

Lemma parse_lines_cons (line : string) (rest : list string)
    (cur : option string) (failed : list FailedCommand) :
  parse_lines (line :: rest) cur failed
  = if startswith (strip line) "Retrying: " then
      parse_lines rest (Some (replace "Retrying: " "" (strip line))) failed
    else if startswith (strip line) "FAILED: " && truthy_str cur then
      match cur with
      | Some failed_cmd =>
          if existsb (String.eqb failed_cmd) (map command failed)
          then parse_lines rest None failed
          else parse_lines rest None
                 (failed ++ [mkFailedCommand failed_cmd (strip line)])
      | None => parse_lines rest None failed
      end
    else if startswith (strip line) "SUCCESS: " then
      parse_lines rest None failed
    else parse_lines rest cur failed.
Proof. reflexivity. Qed.

Lemma parse_lines_neutral (noise rest : list string) (cur : option string)
    (failed : list FailedCommand) :
  forallb neutral_line noise = true ->
  parse_lines (noise ++ rest) cur failed = parse_lines rest cur failed.
Proof.
  induction noise as [|l noise IH]; intros H; [reflexivity|].
  cbn [forallb] in H. apply andb_true_iff in H. destruct H as [Hl Hn].
  unfold neutral_line in Hl.
  apply andb_true_iff in Hl. destruct Hl as [Hl Hs].
  apply andb_true_iff in Hl. destruct Hl as [Hl Hf].
  apply andb_true_iff in Hl. destruct Hl as [_ Hr].
  apply negb_true_iff in Hs, Hf, Hr.
  cbn [app]. rewrite parse_lines_cons, Hr, Hf, Hs. cbn [andb]. now apply IH.
Qed.

Lemma replace_go_none (old new s : string) :
  contains old s = false -> replace_go old new 0 s = s.
Proof.
  induction s as [|c s IH]; intros H; [reflexivity|].
  cbn [contains] in H. apply orb_false_iff in H. destruct H as [Hp Hc].
  cbn [replace_go]. now rewrite Hp, IH.
Qed.

Lemma replace_go_skip (old new t : string) :
  forall s, replace_go old new (String.length s) (s ++ t)
            = match t with
              | EmptyString => EmptyString
              | _ => replace_go old new 0 t
              end.
Proof.
  induction s as [|c s IH]; cbn [String.length append].
  - now destruct t.
  - destruct t; cbn [replace_go]; exact IH.
Qed.

Lemma replace_retrying (cmd : string) :
  wf_command cmd -> replace "Retrying: " "" ("Retrying: " ++ cmd) = cmd.
Proof.
  intros W. unfold replace.
  change ("Retrying: " ++ cmd)%string with (String "R" ("etrying: " ++ cmd)).
  cbn [replace_go].
  change (String "R" ("etrying: " ++ cmd)) with ("Retrying: " ++ cmd)%string.
  rewrite prefix_self_app.
  change (String.length "Retrying: " - 1)%nat with (String.length "etrying: ").
  rewrite replace_go_skip. cbn [append].
  destruct cmd as [|c cmd]; [reflexivity|].
  apply replace_go_none, (wf_no_marker W).
Qed.

Lemma strip_literal_app (c : ascii) (p cmd : string) :
  isspace c = false -> wf_command cmd ->
  strip (String c p ++ cmd) = (String c p ++ cmd)%string.
Proof.
  intros Hc W. unfold strip.
  change (String c p ++ cmd)%string with (String c (p ++ cmd)).
  rewrite (lstrip_cons_nonspace _ _ Hc).
  change (String c (p ++ cmd)) with (String c p ++ cmd)%string.
  now apply rstrip_literal_app.
Qed.

Lemma parse_retrying (cmd : string) (rest : list string) (cur : option string)
    (failed : list FailedCommand) :
  wf_command cmd ->
  parse_lines (("Retrying: " ++ cmd)%string :: rest) cur failed
  = parse_lines rest (Some cmd) failed.
Proof.
  intros W. rewrite parse_lines_cons.
  rewrite (strip_literal_app "R" "etrying: " cmd eq_refl W).
  change (String "R" "etrying: ") with "Retrying: ".
  unfold startswith. rewrite prefix_self_app.
  now rewrite (replace_retrying _ W).
Qed.

Lemma parse_success_line (cmd : string) (rest : list string)
    (cur : option string) (failed : list FailedCommand) :
  wf_command cmd ->
  parse_lines (("SUCCESS: " ++ cmd)%string :: rest) cur failed
  = parse_lines rest None failed.
Proof.
  intros W. rewrite parse_lines_cons.
  rewrite (strip_literal_app "S" "UCCESS: " cmd eq_refl W).
  change (String "S" "UCCESS: ") with "SUCCESS: ".
  change (startswith ("SUCCESS: " ++ cmd) "Retrying: ") with false.
  change (startswith ("SUCCESS: " ++ cmd) "FAILED: ") with false.
  cbn [andb]. unfold startswith. now rewrite prefix_self_app.
Qed.

Lemma rstrip_app_last (s : string) (c : ascii) :
  isspace c = false ->
  rstrip (s ++ String c "") = (s ++ String c "")%string.
Proof.
  intros H. rewrite rstrip_app_nonempty; cbn [rstrip]; rewrite H;
    [reflexivity | discriminate].
Qed.

Lemma strip_failed_line (cmd code : string) :
  strip (failed_line cmd code) = failed_line cmd code.
Proof.
  unfold strip, failed_line.
  change (lstrip ("FAILED: " ++ cmd ++ " (exit code: " ++ code ++ ")"))
    with ("FAILED: " ++ cmd ++ " (exit code: " ++ code ++ ")")%string.
  rewrite <- !append_assoc. rewrite rstrip_app_last; reflexivity.
Qed.

Lemma parse_failed_line (cmd code : string) (rest : list string)
    (failed : list FailedCommand) :
  wf_command cmd ->
  parse_lines (failed_line cmd code :: rest) (Some cmd) failed
  = parse_lines rest None
      (if existsb (String.eqb cmd) (map command failed) then failed
       else failed ++ [mkFailedCommand cmd (failed_line cmd code)]).
Proof.
  intros W. rewrite parse_lines_cons, strip_failed_line.
  change (startswith (failed_line cmd code) "Retrying: ") with false.
  assert (Hf : startswith (failed_line cmd code) "FAILED: " = true)
    by apply prefix_self_app.
  rewrite Hf.
  assert (Ht : truthy_str (Some cmd) = true).
  { pose proof (wf_nonempty W). now destruct cmd. }
  rewrite Ht. cbn [andb].
  now destruct (existsb (String.eqb cmd) (map command failed)).
Qed.

Lemma well_formed_attempt_wf (a : Attempt) :
  well_formed_attempt a = true ->
  wf_command (att_command a) /\ forallb neutral_line (att_stdout a) = true.
Proof.
  unfold well_formed_attempt. intros H. apply andb_true_iff in H.
  destruct H as [H1 H2]. split; [now apply well_formed_command_wf | exact H2].
Qed.

(** The commands of the failed attempts, as the parser accumulates them. *)
Lemma parse_attempts (attempts : list Attempt) :
  forall (rest : list string) (failed : list FailedCommand),
    forallb well_formed_attempt attempts = true ->
    exists failed',
      parse_lines (flat_map attempt_lines attempts ++ rest) None failed
      = parse_lines rest None failed'
      /\ map command failed'
         = map command failed
           ++ dedup (map command failed)
                (map att_command (filter att_failed attempts)).
Proof.
  induction attempts as [|a attempts IH]; intros rest failed H.
  - exists failed. cbn. now rewrite app_nil_r.
  - cbn [forallb] in H. apply andb_true_iff in H. destruct H as [Ha Hrest].
    apply well_formed_attempt_wf in Ha. destruct Ha as [W Hn].
    cbn [flat_map]. unfold attempt_lines at 1.
    rewrite <- app_assoc. cbn [app].
    rewrite (parse_retrying _ _ _ _ W), <- app_assoc.
    rewrite (parse_lines_neutral _ _ _ _ Hn). cbn [app filter].
    destruct (att_failed a) eqn:Hfail.
    + rewrite (parse_failed_line _ _ _ _ W). cbn [map dedup].
      destruct (existsb (String.eqb (att_command a)) (map command failed)) eqn:E.
      * exact (IH rest failed Hrest).
      * destruct (IH rest
                    (failed ++ [mkFailedCommand (att_command a)
                                  (failed_line (att_command a)
                                     (str_of_Z (att_returncode a)))]) Hrest)
          as (failed' & Hp & Hm).
        exists failed'. split; [exact Hp|].
        rewrite Hm, map_app. cbn [map command]. now rewrite <- app_assoc.
    + rewrite (parse_success_line _ _ _ _ W). exact (IH rest failed Hrest).
Qed.

(** *** The footer's output *)

Ltac neutral_atom :=
  first
    [ reflexivity
    | rewrite ?contains_NL_app, ?str_of_Z_lf_free; reflexivity
    | cbn [append];
      rewrite strip_cons_nonspace by reflexivity;
      rewrite ?rstrip_cons_nonspace by reflexivity;
      reflexivity ].

Lemma summary_neutral (attempts : list Attempt) :
  forallb neutral_line (summary_lines attempts ++ [""]) = true.
Proof.
  unfold summary_lines. cbn zeta. cbn [app forallb].
  destruct (Z.of_nat (List.length (filter att_failed attempts)) =? 0)%Z;
    unfold neutral_line;
    repeat (apply andb_true_iff; split); neutral_atom.
Qed.

Lemma neutral_lf_free (l : string) : neutral_line l = true -> lf_free l.
Proof.
  unfold neutral_line, lf_free. intros H.
  apply andb_true_iff in H. destruct H as [H _].
  apply andb_true_iff in H. destruct H as [H _].
  apply andb_true_iff in H. destruct H as [H _].
  now apply negb_true_iff in H.
Qed.

Lemma forallb_neutral_lf_free (ls : list string) :
  forallb neutral_line ls = true -> Forall lf_free ls.
Proof.
  intros H. apply Forall_forall. intros l Hl.
  apply neutral_lf_free. rewrite forallb_forall in H. now apply H.
Qed.

Lemma attempt_lines_lf_free (a : Attempt) :
  well_formed_attempt a = true -> Forall lf_free (attempt_lines a).
Proof.
  intros H. apply well_formed_attempt_wf in H. destruct H as [W Hn].
  unfold attempt_lines. constructor.
  - unfold lf_free. now rewrite contains_NL_app, (wf_lf_free W).
  - apply Forall_app. split; [now apply forallb_neutral_lf_free|].
    constructor; [|constructor].
    unfold lf_free, failed_line. destruct (att_failed a);
      rewrite ?contains_NL_app, ?str_of_Z_lf_free, (wf_lf_free W); reflexivity.
Qed.

Lemma transcript_lf_free (attempts : list Attempt) :
  forallb well_formed_attempt attempts = true ->
  Forall lf_free (flat_map attempt_lines attempts).
Proof.
  induction attempts as [|a attempts IH]; intros H; [constructor|].
  cbn [forallb] in H. apply andb_true_iff in H. destruct H as [Ha Hr].
  cbn [flat_map]. apply Forall_app. split;
    [now apply attempt_lines_lf_free | now apply IH].
Qed.

(** What the parser makes of a run of well-formed attempts. *)
Lemma parse_shell_run (attempts : list Attempt) :
  forallb well_formed_attempt attempts = true ->
  map command
    (_parse_failed_commands_from_output (stdout_of (shell_run attempts)))
  = dedup [] (map att_command (filter att_failed attempts)).
Proof.
  intros H. unfold _parse_failed_commands_from_output, shell_run, stdout_of,
    splitlines.
  rewrite split_join.
  - destruct (parse_attempts attempts (summary_lines attempts ++ [""]) [] H)
      as (failed' & Hp & Hm).
    rewrite Hp. rewrite <- (app_nil_r (summary_lines attempts ++ [""])).
    rewrite (parse_lines_neutral _ _ _ _ (summary_neutral attempts)).
    exact Hm.
  - destruct (flat_map attempt_lines attempts); discriminate.
  - apply Forall_app. split; [now apply transcript_lf_free|].
    apply forallb_neutral_lf_free, summary_neutral.
Qed.

(** *** Repetitions *)

Lemma existsb_eqb_In (c : string) (l : list string) :
  existsb (String.eqb c) l = true <-> In c l.
Proof.
  rewrite existsb_exists. split.
  - intros (x & Hx & E). apply String.eqb_eq in E. now subst.
  - intros H. exists c. split; [exact H | apply String.eqb_refl].
Qed.

Lemma dedup_In (cmds : list string) :
  forall seen c, In c (dedup seen cmds) <-> In c cmds /\ ~ In c seen.
Proof.
  induction cmds as [|x cmds IH]; intros seen c; cbn [dedup].
  - split; [intros [] | intros [[] _]].
  - destruct (existsb (String.eqb x) seen) eqn:E.
    + apply existsb_eqb_In in E. rewrite IH. split.
      * intros [H1 H2]. split; [now right | exact H2].
      * intros [[->|H1] H2]; [contradiction | now split].
    + assert (Hx : ~ In x seen).
      { intros Hin. apply existsb_eqb_In in Hin. congruence. }
      cbn [In]. rewrite IH. split.
      * intros [<-|[H1 H2]]; [split; [now left | exact Hx]|].
        split; [now right|]. intros Hin. apply H2, in_or_app. now left.
      * intros [[->|H1] H2]; [now left|].
        destruct (string_dec x c) as [->|Hne]; [now left|]. right.
        split; [exact H1|]. intros Hin. apply in_app_or in Hin.
        destruct Hin as [Hin|[Hin|[]]]; congruence.
Qed.

(** *** The regenerated script *)

Lemma strip_wf (cmd : string) : wf_command cmd -> strip cmd = cmd.
Proof. intros W. unfold strip. now rewrite (wf_lstrip W), (wf_rstrip W). Qed.

Lemma is_rsync_line_wf (cmd : string) :
  wf_command cmd -> is_rsync_line cmd = true.
Proof. intros W. unfold is_rsync_line. rewrite (strip_wf _ W). exact (wf_rsync W). Qed.

Lemma generated_entry_filter (i : nat) (cmd : string) :
  wf_command cmd -> filter is_rsync_line (generated_entry i cmd) = [cmd].
Proof.
  intros W. unfold generated_entry. cbn [filter].
  rewrite (is_rsync_line_wf _ W).
  assert (E1 : forall s, is_rsync_line ("# Retry command " ++ s) = false)
    by (intros s; apply (is_rsync_line_other "#"); reflexivity).
  assert (E2 : forall s, is_rsync_line ("echo 'Retrying: " ++ s) = false)
    by (intros s; apply (is_rsync_line_other "e"); reflexivity).
  assert (E3 : forall s, is_rsync_line ("    echo 'SUCCESS: " ++ s) = false).
  { intros s. cbn [append]. rewrite !is_rsync_line_space.
    apply (is_rsync_line_other "e"); reflexivity. }
  assert (E4 : forall s, is_rsync_line ("    echo 'FAILED: " ++ s) = false).
  { intros s. cbn [append]. rewrite !is_rsync_line_space.
    apply (is_rsync_line_other "e"); reflexivity. }
  rewrite E1, E2, E3, E4. reflexivity.
Qed.

Lemma generated_entry_lf_free (i : nat) (cmd : string) :
  wf_command cmd -> Forall lf_free (generated_entry i cmd).
Proof.
  intros W. unfold generated_entry.
  repeat constructor; unfold lf_free;
    rewrite ?contains_NL_app, ?str_of_Z_lf_free, ?(wf_lf_free W); reflexivity.
Qed.

Lemma generated_entries_spec (cmds : list string) :
  forall i, Forall wf_command cmds ->
    filter is_rsync_line (generated_entries i cmds) = cmds
    /\ Forall lf_free (generated_entries i cmds).
Proof.
  induction cmds as [|cmd cmds IH]; intros i H; cbn [generated_entries].
  - split; [reflexivity | constructor].
  - inversion H as [|? ? W Hr]; subst. destruct (IH (S i) Hr) as [Hf Hl].
    split.
    + now rewrite filter_app, (generated_entry_filter _ _ W), Hf.
    + apply Forall_app. split; [now apply generated_entry_lf_free | exact Hl].
Qed.

Lemma map_strip_wf (cmds : list string) :
  Forall wf_command cmds -> map strip cmds = cmds.
Proof.
  induction 1 as [|cmd cmds W _ IH]; [reflexivity|].
  cbn [map]. now rewrite (strip_wf _ W), IH.
Qed.

(** The regenerated script holds exactly the commands it was given. *)
Lemma recorded_commands_generated (failed : list FailedCommand) :
  Forall wf_command (map command failed) ->
  recorded_commands (_generate_script_with_commands failed)
  = map command failed.
Proof.
  intros H. unfold recorded_commands, _generate_script_with_commands, splitlines.
  destruct (generated_entries_spec (map command failed) 0 H) as [Hf Hl].
  rewrite split_join.
  - rewrite filter_app, Hf. cbn [generated_header filter app].
    change (filter is_rsync_line generated_header) with (@nil string).
    now apply map_strip_wf.
  - discriminate.
  - apply Forall_app. split; [|exact Hl].
    repeat constructor.
Qed.

(** *** The footer adds no command *)

Lemma rstrip_blank (w : string) : blank w = true -> rstrip w = "".
Proof.
  induction w as [|c w IH]; [reflexivity|]. cbn [blank rstrip]. intros H.
  apply andb_true_iff in H. destruct H as [Hc Hw]. now rewrite (IH Hw), Hc.
Qed.

Lemma lstrip_blank (w : string) : blank w = true -> lstrip w = "".
Proof.
  induction w as [|c w IH]; [reflexivity|]. cbn [blank lstrip]. intros H.
  apply andb_true_iff in H. destruct H as [Hc Hw]. now rewrite Hc, (IH Hw).
Qed.

Lemma rstrip_decomposition (s : string) :
  exists w, s = (rstrip s ++ w)%string /\ blank w = true.
Proof.
  induction s as [|c s (w & E & Hw)]; [now exists ""|].
  cbn [rstrip]. destruct (rstrip s) as [|r rs] eqn:Er.
  - cbn [append] in E. subst s. destruct (isspace c) eqn:Hc.
    + exists (String c w). split; [reflexivity|]. cbn [blank]. now rewrite Hc, Hw.
    + exists w. split; [reflexivity | exact Hw].
  - exists w. split; [|exact Hw]. cbn [append]. f_equal. exact E.
Qed.

Lemma rstrip_app_blank (s w : string) :
  blank w = true -> rstrip (s ++ w) = rstrip s.
Proof.
  intros Hw. induction s as [|c s IH]; [now apply rstrip_blank|].
  cbn [append rstrip]. now rewrite IH.
Qed.

Lemma lstrip_app (x w : string) :
  lstrip (x ++ w) = if blank x then lstrip w else (lstrip x ++ w)%string.
Proof.
  induction x as [|c x IH]; [reflexivity|]. cbn [append lstrip blank].
  destruct (isspace c); [exact IH | reflexivity].
Qed.

Lemma strip_app_blank (x w : string) :
  blank w = true -> strip (x ++ w) = strip x.
Proof.
  intros Hw. unfold strip. rewrite lstrip_app.
  destruct (blank x) eqn:Hx.
  - now rewrite (lstrip_blank _ Hw), (lstrip_blank _ Hx).
  - now apply rstrip_app_blank.
Qed.

Lemma is_rsync_line_blank (l : string) :
  blank l = true -> is_rsync_line l = false.
Proof.
  intros H. unfold is_rsync_line, strip. now rewrite (lstrip_blank _ H).
Qed.

Lemma split_blank (w : string) :
  blank w = true -> Forall (fun l => blank l = true) (split LF w).
Proof.
  induction w as [|c w IH]; intros H; [repeat constructor|].
  cbn [blank] in H. apply andb_true_iff in H. destruct H as [Hc Hw].
  specialize (IH Hw). destruct (Ascii.eqb c LF) eqn:E.
  - apply Ascii.eqb_eq in E. subst c. rewrite split_cons_sep.
    constructor; [reflexivity | exact IH].
  - rewrite (split_cons_other _ _ E).
    destruct (split LF w) as [|h t] eqn:Es; [now apply split_nonempty in Es|].
    inversion IH; subst. cbn [hd tl]. constructor; [|assumption].
    cbn [blank]. now rewrite Hc.
Qed.

(** Appending blanks to a text lengthens its last line by blanks and adds
    blank lines. *)
Lemma split_app_blank (s w : string) :
  blank w = true ->
  exists pre x w0 bl,
    split LF s = pre ++ [x]
    /\ split LF (s ++ w) = pre ++ (x ++ w0)%string :: bl
    /\ blank w0 = true
    /\ Forall (fun l => blank l = true) bl.
Proof.
  intros Hw. induction s as [|c s (pre & x & w0 & bl & E1 & E2 & H0 & Hbl)].
  - pose proof (split_blank w Hw) as Hs.
    destruct (split LF w) as [|h t] eqn:Es; [now apply split_nonempty in Es|].
    inversion Hs; subst.
    exists [], "", h, t. cbn [append app]. rewrite Es. auto.
  - cbn [append]. destruct (Ascii.eqb c LF) eqn:E.
    + apply Ascii.eqb_eq in E. subst c. rewrite !split_cons_sep, E1, E2.
      exists ("" :: pre), x, w0, bl. auto.
    + rewrite !(split_cons_other _ _ E), E1, E2.
      destruct pre as [|p pre]; cbn [app hd tl].
      * exists [], (String c x), w0, bl. auto.
      * exists (String c p :: pre), x, w0, bl. auto.
Qed.

Lemma filter_blank (bl : list string) :
  Forall (fun l => blank l = true) bl -> filter is_rsync_line bl = [].
Proof.
  induction 1 as [|l bl Hl _ IH]; [reflexivity|].
  cbn [filter]. now rewrite (is_rsync_line_blank _ Hl).
Qed.

Lemma recorded_commands_app_blank (s w : string) :
  blank w = true -> recorded_commands (s ++ w) = recorded_commands s.
Proof.
  intros Hw. unfold recorded_commands, splitlines.
  destruct (split_app_blank s w Hw) as (pre & x & w0 & bl & E1 & E2 & H0 & Hbl).
  rewrite E1, E2, !filter_app. cbn [filter].
  rewrite (filter_blank _ Hbl).
  assert (Hx : is_rsync_line (x ++ w0) = is_rsync_line x)
    by (unfold is_rsync_line; now rewrite (strip_app_blank _ _ H0)).
  rewrite Hx.
  destruct (is_rsync_line x); rewrite !map_app; cbn [map];
    [now rewrite (strip_app_blank _ _ H0) | reflexivity].
Qed.

(** The script a tick runs holds the commands of the ledger, no more. *)
Lemma recorded_commands_with_footer (f : LedgerFile) :
  recorded_commands (content (_add_result_check_to_script f))
  = recorded_commands (content f).
Proof.
  unfold _add_result_check_to_script.
  destruct (contains result_check_marker (content f)); [reflexivity|].
  cbn [content].
  destruct (rstrip_decomposition (content f)) as (w & E & Hw).
  rewrite E at 2. rewrite (recorded_commands_app_blank _ _ Hw).
  assert (Hf : exists t, result_check = String LF t
                         /\ filter is_rsync_line (split LF t) = []).
  { eexists. split; vm_compute; reflexivity. }
  destruct Hf as (t & -> & Ht).
  unfold recorded_commands, splitlines.
  now rewrite split_app_NL, filter_app, Ht, app_nil_r.
Qed.

(** *** The tick *)

Lemma shell_run_failed (attempts : list Attempt) :
  existsb att_failed attempts = true -> run_failed (shell_run attempts).
Proof. intros H. unfold shell_run, run_failed. rewrite H. discriminate. Qed.

Lemma failed_commands_In (attempts : list Attempt) (c : string) :
  In c (dedup [] (map att_command (filter att_failed attempts))) <->
  exists a, In a attempts /\ att_command a = c /\ att_failed a = true.
Proof.
  rewrite dedup_In, in_map_iff. split.
  - intros [(a & E & Hin) _]. apply filter_In in Hin. destruct Hin as [Hin Hf].
    exists a. auto.
  - intros (a & Hin & E & Hf). split; [|intros []].
    exists a. split; [exact E|]. apply filter_In. auto.
Qed.

Lemma failed_commands_wf (attempts : list Attempt) :
  forallb well_formed_attempt attempts = true ->
  Forall wf_command (dedup [] (map att_command (filter att_failed attempts))).
Proof.
  intros H. apply Forall_forall. intros c Hc.
  apply failed_commands_In in Hc. destruct Hc as (a & Hin & <- & _).
  rewrite forallb_forall in H. specialize (H a Hin).
  now apply well_formed_attempt_wf in H.
Qed.

Lemma tick_some_failed (run1 run2 : string -> RunResult) (f : LedgerFile)
    (attempts : list Attempt) :
  _has_rsync_commands (content f) = true ->
  (12 < String.length (content f))%nat ->
  let script := content (_add_result_check_to_script f) in
  run_failed (run1 script) ->
  run2 script = shell_run attempts ->
  forallb well_formed_attempt attempts = true ->
  existsb att_failed attempts = true ->
  exists failed,
    _check_and_execute run1 run2 (Some f)
    = Some (mkLedgerFile (_generate_script_with_commands failed) true)
    /\ map command failed
       = dedup [] (map att_command (filter att_failed attempts))
    /\ recorded_commands (_generate_script_with_commands failed)
       = map command failed.
Proof.
  intros H Hl script H1 H2 Hwf Hsome.
  rewrite (tick_runs _ _ _ H Hl). cbn zeta.
  rewrite (execute_script_failed _ _ H1).
  rewrite cleanup_failed; cbn [content]; fold script; rewrite H2;
    [|now apply shell_run_failed].
  pose proof (parse_shell_run attempts Hwf) as Hp.
  destruct (_parse_failed_commands_from_output (stdout_of (shell_run attempts)))
    as [|x failed] eqn:E.
  - exfalso. apply existsb_exists in Hsome. destruct Hsome as (a & Hin & Hf).
    assert (Hc : In (att_command a)
                   (dedup [] (map att_command (filter att_failed attempts))))
      by (apply failed_commands_In; eauto).
    rewrite <- Hp in Hc. destruct Hc.
  - exists (x :: failed). split; [reflexivity|]. split; [exact Hp|].
    apply recorded_commands_generated. rewrite Hp.
    now apply failed_commands_wf.
Qed.

Lemma filter_all (A : Type) (p : A -> bool) (l : list A) :
  forallb p l = true -> filter p l = l.
Proof.
  induction l as [|x l IH]; cbn; [reflexivity|]. intros H.
  apply andb_true_iff in H. destruct H as [Hx Hl]. now rewrite Hx, IH.
Qed.

(** Scenario S4 evaluated: the first command succeeds, the second fails;
    the new ledger holds the second command only. *)
Example tick_S4 :
  option_map (fun g => recorded_commands (content g))
    (_check_and_execute (fun _ => shell_run second_fails)
       (fun _ => shell_run second_fails) ledger_S4)
  = Some [command_b]
  /\ recorded_commands (content ledger_file_S4) = [command_a; command_b].
Proof. split; vm_compute; reflexivity. Qed.

End FailLogProps.

(* ===================================================================== *)
(** ** Dicts as association lists *)
(* ===================================================================== *)

Module DictFacts.
Import PyStr.

Lemma dict_lookup_set_same (V : Type) (k : string) (v : V) d :
  dict_lookup k (dict_set k v d) = Some v.
Proof.
  induction d as [|[k' x] d IH]; cbn [dict_set dict_lookup].
  - now rewrite String.eqb_refl.
  - destruct (String.eqb k' k) eqn:E; cbn [dict_lookup]; rewrite E; auto.
Qed.

Lemma dict_lookup_set_other (V : Type) (k k' : string) (v : V) d :
  k <> k' -> dict_lookup k' (dict_set k v d) = dict_lookup k' d.
Proof.
  intros Hne.
  induction d as [|[k0 x] d IH]; cbn [dict_set dict_lookup].
  - destruct (String.eqb k k') eqn:E; auto.
    apply String.eqb_eq in E. contradiction.
  - destruct (String.eqb k0 k) eqn:E; cbn [dict_lookup].
    + apply String.eqb_eq in E. subst k0.
      destruct (String.eqb k k') eqn:E'; auto.
      apply String.eqb_eq in E'. contradiction.
    + destruct (String.eqb k0 k'); auto.
Qed.

Lemma dict_lookup_None (V : Type) (k : string) (d : list (string * V)) :
  dict_lookup k d = None <-> ~ In k (map fst d).
Proof.
  induction d as [|[k' x] d IH]; cbn [dict_lookup map fst In].
  - tauto.
  - destruct (String.eqb k' k) eqn:E.
    + apply String.eqb_eq in E. split; [discriminate | tauto].
    + apply String.eqb_neq in E. rewrite IH. tauto.
Qed.

Lemma dict_lookup_In (V : Type) (k : string) (v : V) d :
  dict_lookup k d = Some v -> In (k, v) d.
Proof.
  induction d as [|[k' x] d IH]; cbn [dict_lookup In]; [discriminate|].
  destruct (String.eqb k' k) eqn:E.
  - apply String.eqb_eq in E. intros [= ->]. subst. auto.
  - auto.
Qed.

Lemma fold_set_add_In (k : string) (l acc : list string) :
  In k (fold_left (fun a x => set_add string_dec x a) l acc)
  <-> In k l \/ In k acc.
Proof.
  revert acc. induction l as [|x l IH]; intros acc; cbn [fold_left In].
  - tauto.
  - rewrite IH. rewrite set_add_iff. intuition congruence.
Qed.

Lemma fold_set_add_NoDup (l acc : list string) :
  NoDup acc -> NoDup (fold_left (fun a x => set_add string_dec x a) l acc).
Proof.
  revert acc. induction l as [|x l IH]; intros acc H; cbn [fold_left]; auto.
  apply IH. now apply set_add_nodup.
Qed.

Lemma keys_union_In (V W : Type) (a : list (string * V))
    (b : list (string * W)) (k : string) :
  In k (keys_union a b) <-> In k (map fst a) \/ In k (map fst b).
Proof.
  unfold keys_union. rewrite fold_set_add_In, in_app_iff. cbn [In]. tauto.
Qed.

Lemma keys_union_NoDup (V W : Type) (a : list (string * V))
    (b : list (string * W)) :
  NoDup (keys_union a b).
Proof. apply fold_set_add_NoDup. constructor. Qed.

(** A loop whose body leaves the accumulator alone. *)
Lemma fold_left_idle (A B : Type) (f : A -> B -> A) (l : list B) (a : A) :
  (forall x y, f x y = x) -> fold_left f l a = a.
Proof.
  intros H. revert a. induction l as [|y l IH]; intros a; cbn [fold_left]; auto.
  now rewrite H.
Qed.

(** Appending under a key not yet present opens a new group at the end. *)
Lemma dict_append_fresh (V : Type) (k : string) (v : V) d :
  ~ In k (map fst d) -> EventQueue.dict_append k v d = d ++ [(k, [v])].
Proof.
  induction d as [|[k' vs] d IH]; cbn [EventQueue.dict_append map fst In app];
    intros H; auto.
  destruct (String.eqb k' k) eqn:E.
  - apply String.eqb_eq in E. tauto.
  - rewrite IH; tauto.
Qed.

(** Grouping a list whose keys are pairwise distinct gives singleton
    groups. *)
Lemma group_distinct (V : Type) (key : V -> string) (l : list V) d :
  NoDup (map key l) ->
  (forall x, In x l -> ~ In (key x) (map fst d)) ->
  fold_left (fun d x => EventQueue.dict_append (key x) x d) l d
  = d ++ map (fun x => (key x, [x])) l.
Proof.
  revert d. induction l as [|x l IH]; intros d Hnd Hfresh;
    cbn [fold_left map].
  - now rewrite app_nil_r.
  - cbn [map] in Hnd. inversion Hnd as [|? ? Hx Hnd']; subst.
    rewrite dict_append_fresh by (apply Hfresh; now left).
    rewrite IH; auto.
    + now rewrite <- app_assoc.
    + intros y Hy. rewrite map_app, in_app_iff. cbn [map fst In].
      intros [H|[H|[]]].
      * apply (Hfresh y); [now right | exact H].
      * apply Hx. rewrite H. now apply in_map.
Qed.

End DictFacts.

(* ===================================================================== *)
(** ** Conflict detection: what is reported, and by whom *)
(* ===================================================================== *)

Module ConflictDetectionProps.
Import PyStr ConflictDetector DictFacts.

Lemma detect_conflict_without_base (self : ConflictDetector.t)
    (l r : FileMetadata) :
  detect_conflict self l r None = None.
Proof.
  unfold detect_conflict, base_exists, base_absent.
  destruct (exists_ l), (exists_ r); cbn [negb andb]; auto.
  destruct (_files_identical self l r); reflexivity.
Qed.

Lemma files_identical_refl (self : ConflictDetector.t) (m : FileMetadata) :
  (0 <= time_tolerance self)%Z -> _files_identical self m m = true.
Proof.
  intros Htol. unfold _files_identical.
  rewrite Bool.eqb_reflx. cbn [negb].
  destruct (exists_ m); cbn [negb andb]; auto.
  assert (Hsz : opt_Z_neq (size m) (size m) = false).
  { unfold opt_Z_neq. destruct (size m) as [z|]; auto.
    now rewrite Z.eqb_refl. }
  rewrite Hsz.
  assert (Hgap : mtime_gap_exceeds self m m = false).
  { unfold mtime_gap_exceeds. destruct (mtime m) as [q|]; auto.
    assert (Hle : Qle_bool (Qabs (q - q)) (inject_Z (time_tolerance self))
                  = true).
    { apply Qle_bool_iff. apply Qabs_Qle_condition.
      assert (Hz : q - q == 0) by ring.
      rewrite Hz. split.
      - unfold Qle. cbn. lia.
      - unfold Qle. cbn. lia. }
    rewrite Hle. cbn [negb]. now rewrite Bool.andb_false_r. }
  rewrite Hgap. cbn [andb].
  destruct (enable_content_hash self); cbn [andb]; auto.
  destruct (content_hash m) as [h|]; cbn [truthy_str andb]; auto.
  destruct h; cbn [andb]; auto.
  apply String.eqb_refl.
Qed.

(** X1 (conflict_detector.py, [detect_conflict]).  Whatever the detector
    reports, it reports about the metadata it was given, it had a base
    version to compare with, and the type follows from which of the three
    versions exist: a deletion conflict needs an existing base and exactly
    one surviving side, a creation conflict a base that does not exist and
    two differing sides, a modification conflict an existing base that
    both sides differ from and that differ from one another.
    [NO_CONFLICT] and [MOVE_CONFLICT] are never reported. *)
Theorem detect_conflict_sound (self : ConflictDetector.t)
    (l r : FileMetadata) (base : option FileMetadata) (c : ConflictInfo) :
  detect_conflict self l r base = Some c ->
  local_meta c = l /\ remote_meta c = r /\ base_meta c = base /\
  exists b, base = Some b /\
    match conflict_type c with
    | REMOTE_DELETED_LOCAL_MODIFIED =>
        exists_ l = true /\ exists_ r = false /\ exists_ b = true
    | LOCAL_DELETED_REMOTE_MODIFIED =>
        exists_ l = false /\ exists_ r = true /\ exists_ b = true
    | BOTH_CREATED =>
        exists_ l = true /\ exists_ r = true /\ exists_ b = false /\
        _files_identical self l r = false
    | BOTH_MODIFIED =>
        exists_ l = true /\ exists_ r = true /\ exists_ b = true /\
        _files_identical self l r = false /\
        _files_identical self l b = false /\
        _files_identical self r b = false
    | NO_CONFLICT | MOVE_CONFLICT => False
    end.
Proof.
  destruct base as [b|];
    [|rewrite detect_conflict_without_base; discriminate].
  unfold detect_conflict, base_exists, base_absent.
  destruct (exists_ l) eqn:El, (exists_ r) eqn:Er, (exists_ b) eqn:Eb;
    cbn [negb andb]; try discriminate;
    try (intros [= <-]; cbn; do 3 (split; [reflexivity|]);
         exists b; repeat split; assumption).
  - destruct (_files_identical self l r) eqn:Elr; [discriminate|].
    destruct (_files_identical self l b) eqn:Elb; [discriminate|].
    destruct (_files_identical self r b) eqn:Erb; [discriminate|].
    cbn [negb andb]. intros [= <-]. cbn.
    do 3 (split; [reflexivity|]). exists b. repeat split; assumption.
  - destruct (_files_identical self l r) eqn:Elr; cbn [negb].
    + discriminate.
    + intros [= <-]. cbn.
      do 3 (split; [reflexivity|]). exists b. repeat split; assumption.
Qed.

Lemma detect_conflict_sound_witness :
  exists b, Some (small_file_at 5) = Some b /\
    exists_ (small_file_at 9) = true /\ exists_ (missing "/w/a.txt") = false /\
    exists_ b = true.
Proof.
  destruct (detect_conflict_sound default (small_file_at 9)
              (missing "/w/a.txt") (Some (small_file_at 5))
              (mkConflictInfo REMOTE_DELETED_LOCAL_MODIFIED (small_file_at 9)
                 (missing "/w/a.txt") (Some (small_file_at 5))
                 (Some "Remote deleted but local modified")) eq_refl)
    as (_ & _ & _ & b & Hb & H).
  exists b. split; [exact Hb | exact H].
Defined.

(** X2 (conflict_detector.py, [detect_conflict] over [_files_identical]).
    With a tolerance that is not negative, the same metadata on both
    sides is never a conflict, whatever the base version is. *)
Theorem detect_conflict_same_metadata (self : ConflictDetector.t)
    (m : FileMetadata) (base : option FileMetadata) :
  (0 <= time_tolerance self)%Z ->
  detect_conflict self m m base = None.
Proof.
  intros Htol. unfold detect_conflict.
  destruct (exists_ m) eqn:E; cbn [negb andb]; auto.
  rewrite (files_identical_refl self m Htol).
  cbn [negb]. now rewrite Bool.andb_false_r.
Qed.

Lemma detect_conflict_same_metadata_witness :
  detect_conflict default (small_file_at 7) (small_file_at 7)
    (Some (missing "/w/a.txt")) = None.
Proof.
  apply (detect_conflict_same_metadata default (small_file_at 7)
           (Some (missing "/w/a.txt"))).
  cbn. lia.
Defined.

Lemma batch_fold_lookup (F : string -> option ConflictInfo) (p : string)
    (ks : list string) (acc : list (string * ConflictInfo)) :
  dict_lookup p
    (fold_left
       (fun conflicts k =>
          match F k with
          | Some conflict => dict_set k conflict conflicts
          | None => conflicts
          end) ks acc)
  = if existsb (String.eqb p) ks
    then match F p with Some c => Some c | None => dict_lookup p acc end
    else dict_lookup p acc.
Proof.
  revert acc. induction ks as [|k ks IH]; intros acc;
    cbn [fold_left existsb]; auto.
  rewrite IH.
  destruct (String.eqb p k) eqn:E.
  - apply String.eqb_eq in E. subst k. cbn [orb].
    destruct (F p) as [c|] eqn:EF.
    + destruct (existsb (String.eqb p) ks);
        [reflexivity | apply dict_lookup_set_same].
    + now destruct (existsb (String.eqb p) ks).
  - cbn [orb]. apply String.eqb_neq in E.
    assert (Hacc : dict_lookup p
                     match F k with
                     | Some conflict => dict_set k conflict acc
                     | None => acc
                     end = dict_lookup p acc).
    { destruct (F k); auto. apply dict_lookup_set_other. congruence. }
    now rewrite Hacc.
Qed.

(** X3 (conflict_detector.py, [batch_detect_conflicts]).  For every path,
    the batch reports exactly what [detect_conflict] reports for that
    path, a side that does not list the path counting as a file that does
    not exist; a missing or empty base dict counts as no base version at
    all. *)
Theorem batch_detect_conflicts_lookup (self : ConflictDetector.t)
    (local_files remote_files : list (string * FileMetadata))
    (base_files : option (list (string * FileMetadata))) (p : string) :
  dict_lookup p
    (batch_detect_conflicts self local_files remote_files base_files)
  = detect_conflict self (get_or_missing local_files p)
      (get_or_missing remote_files p) (base_for base_files p).
Proof.
  unfold batch_detect_conflicts.
  rewrite (batch_fold_lookup
             (fun k => detect_conflict self (get_or_missing local_files k)
                         (get_or_missing remote_files k)
                         (base_for base_files k))).
  cbn [dict_lookup].
  destruct (existsb (String.eqb p) (keys_union local_files remote_files))
    eqn:E.
  - now destruct (detect_conflict _ _ _ _).
  - assert (Hnot : ~ In p (keys_union local_files remote_files)).
    { intros Hin.
      assert (Ht : existsb (String.eqb p)
                     (keys_union local_files remote_files) = true).
      { apply existsb_exists. exists p. split; auto. apply String.eqb_refl. }
      congruence. }
    rewrite keys_union_In in Hnot.
    unfold get_or_missing.
    replace (dict_lookup p local_files) with (@None FileMetadata)
      by (symmetry; apply dict_lookup_None; tauto).
    replace (dict_lookup p remote_files) with (@None FileMetadata)
      by (symmetry; apply dict_lookup_None; tauto).
    reflexivity.
Qed.

Section Coordinator.
Import Coordinator.
Variable timestamp : string.
Variable copy2 : string -> string -> bool.
Variable is_available : bool.
Variable sync : UnisonRun.

Lemma detect_conflicts_for_events_nil (self : Coordinator.t)
    (events : list SyncEvent) :
  _detect_conflicts_for_events self events = [].
Proof.
  unfold _detect_conflicts_for_events.
  apply fold_left_idle. intros conflicts [fp evs]. cbn [fst snd].
  destruct (first_from "local" evs); auto.
  destruct (first_from "remote" evs); auto.
  now rewrite detect_conflict_without_base.
Qed.

Lemma trigger_sync_counters (self : Coordinator.t) :
  let after := _trigger_sync is_available sync self in
  conflicts_resolved (stats after) = conflicts_resolved (stats self) /\
  conflicts_detected (stats after)
  = (conflicts_detected (stats self)
     + reported_by_unison is_available sync self)%Z.
Proof.
  cbn zeta. unfold _trigger_sync, reported_by_unison.
  destruct (enable_unison self); cbn [negb andb]; [|split; [reflexivity | lia]].
  destruct (unison_engine self); cbn [negb orb andb];
    [|split; [reflexivity | lia]].
  destruct is_available; cbn [negb]; [|split; [reflexivity | lia]].
  destruct sync as [[|] conflicts|]; cbn [with_stats stats];
    try (split; [reflexivity | cbn; lia]).
  destruct (conflicts >? 0)%Z; cbn [with_stats stats conflicts_resolved
    conflicts_detected]; split; try reflexivity; lia.
Qed.

(** X4 (coordinator.py, [_detect_conflicts_for_events],
    [_handle_buffered_events] and [_trigger_sync]).  The coordinator asks
    the detector without a base version, so no batch of buffered events
    ever yields a conflict from the detector: the resolver is never
    called and [conflicts_resolved] never moves.  A batch that is not
    empty triggers the Unison run when Unison is enabled, and
    [conflicts_detected] moves only by the conflicts a successful Unison
    run reports. *)
Theorem buffered_events_never_conflict (self : Coordinator.t)
    (events : list SyncEvent) :
  let handled :=
    _handle_buffered_events timestamp copy2 is_available sync self events in
  _detect_conflicts_for_events self events = [] /\
  handled
  = (match events with
     | [] => self
     | _ :: _ =>
         if enable_unison self then _trigger_sync is_available sync self
         else self
     end, []) /\
  conflicts_resolved (stats (fst handled)) = conflicts_resolved (stats self) /\
  conflicts_detected (stats (fst handled))
  = (conflicts_detected (stats self)
     + match events with
       | [] => 0
       | _ :: _ => reported_by_unison is_available sync self
       end)%Z.
Proof.
  cbn zeta.
  assert (H : _handle_buffered_events timestamp copy2 is_available sync self
                events
              = (match events with
                 | [] => self
                 | _ :: _ =>
                     if enable_unison self
                     then _trigger_sync is_available sync self else self
                 end, [])).
  { unfold _handle_buffered_events.
    destruct events as [|e events]; auto.
    now rewrite detect_conflicts_for_events_nil. }
  split; [apply detect_conflicts_for_events_nil|].
  split; [exact H|]. rewrite H. cbn [fst].
  destruct events as [|e events]; [split; [reflexivity | lia]|].
  destruct (enable_unison self) eqn:E.
  - apply trigger_sync_counters.
  - unfold reported_by_unison. rewrite E. cbn [andb]. split; [reflexivity | lia].
Qed.

End Coordinator.

End ConflictDetectionProps.

(* ===================================================================== *)
(** ** The bidirectional engine: changes and conflicts *)
(* ===================================================================== *)

Module BidirectionalSyncEngineProps.
Import PyStr BidirectionalSyncEngine DictFacts.

Section WithEnvironment.
Variable fs_exists : string -> bool.
Variable read_bytes : string -> option string.
Variable create_conflict_backup : string -> string -> bool.
Variable now : nat -> Q.
Variable transfer : FileChange -> option bool.
Variable watch_path : PosixPath.t.
Variable conflict_strategy : ConflictResolution.

Lemma detect_changes_fold (order : list string)
    (local_files remote_files : list (string * FileInfo))
    (acc : list FileChange) :
  map file_path
    (fold_left
       (fun changes p =>
          match change_for fs_exists watch_path local_files remote_files p
          with
          | Some (ct, src) =>
              changes ++ [mkFileChange p ct src (now (length changes))]
          | None => changes
          end)
       order acc)
  = map file_path acc
    ++ filter (changed fs_exists watch_path local_files remote_files) order.
Proof.
  revert acc. induction order as [|p order IH]; intros acc;
    cbn [fold_left filter].
  - now rewrite app_nil_r.
  - rewrite IH. unfold changed at 2.
    destruct (change_for fs_exists watch_path local_files remote_files p)
      as [[ct src]|].
    + rewrite map_app. cbn [map file_path]. now rewrite <- app_assoc.
    + reflexivity.
Qed.

Lemma detect_changes_over_paths (order : list string)
    (local_files remote_files : list (string * FileInfo)) :
  map file_path
    (detect_changes_over fs_exists now watch_path order local_files
       remote_files)
  = filter (changed fs_exists watch_path local_files remote_files) order.
Proof. unfold detect_changes_over. now rewrite detect_changes_fold. Qed.

Lemma detect_conflicts_distinct (changes : list FileChange) :
  NoDup (map file_path changes) -> _detect_conflicts changes = [].
Proof.
  intros Hnd. unfold _detect_conflicts, changes_by_file.
  rewrite (group_distinct FileChange file_path changes [] Hnd)
    by (intros x _ []).
  cbn [app]. induction changes as [|c changes IH]; cbn [map flat_map]; auto.
  cbn [snd length Nat.ltb Nat.leb app].
  apply IH. now inversion Hnd.
Qed.

Lemma detect_changes_NoDup
    (local_files remote_files : list (string * FileInfo)) :
  NoDup (map file_path
           (_detect_changes fs_exists now watch_path local_files
              remote_files)).
Proof.
  unfold _detect_changes. rewrite detect_changes_over_paths.
  apply NoDup_filter, keys_union_NoDup.
Qed.

(** X5 (bidirectional/sync_engine.py, [_detect_changes]).  Comparing two
    states yields at most one change per file, and only for files that one
    of the two states lists. *)
Theorem detect_changes_one_per_file
    (local_files remote_files : list (string * FileInfo)) :
  let changes :=
    _detect_changes fs_exists now watch_path local_files remote_files in
  NoDup (map file_path changes) /\
  forall c, In c changes ->
    In (file_path c) (map fst local_files)
    \/ In (file_path c) (map fst remote_files).
Proof.
  cbn zeta. split; [apply detect_changes_NoDup|].
  unfold _detect_changes. intros c Hc.
  apply (in_map file_path) in Hc.
  rewrite detect_changes_over_paths in Hc.
  apply filter_In in Hc. destruct Hc as [Hc _].
  now apply keys_union_In in Hc.
Qed.

(** X6 (bidirectional/sync_engine.py, [sync_bidirectional] steps 2 to 4).
    A conflict needs two changes of one file, and change detection yields
    at most one; and only the changes kept by conflict resolution are
    transferred.  So whatever the two states are, a bidirectional sync
    finds no conflict, keeps no change and transfers nothing. *)
Theorem sync_steps_transfer_nothing
    (local_files remote_files : list (string * FileInfo)) :
  sync_steps fs_exists read_bytes create_conflict_backup now transfer
    watch_path conflict_strategy local_files remote_files
  = (_detect_changes fs_exists now watch_path local_files remote_files,
     [], [], mkSyncResults 0 0 []).
Proof.
  unfold sync_steps.
  rewrite detect_conflicts_distinct by apply detect_changes_NoDup.
  reflexivity.
Qed.

End WithEnvironment.

End BidirectionalSyncEngineProps.

(* ===================================================================== *)
(** ** Conflict resolution: strategy applied and backups made *)
(* ===================================================================== *)

Module ConflictResolutionProps.
Import PyStr ConflictDetector ConflictResolver.

Section WithEnvironment.
Variable timestamp : string.
Variable copy2 : string -> string -> bool.

Lemma backup_file_some (self : ConflictResolver.t) (m : FileMetadata)
    (src p : string) :
  _backup_file timestamp copy2 self m src = Some p ->
  exists_ m = true /\
  p = PosixPath.str
        (PosixPath.joinpath (backup_dir self)
           (PosixPath.stem (PosixPath.parse (path m)) ++ "_" ++ src ++ "_"
              ++ timestamp ++ PosixPath.suffix (PosixPath.parse (path m)))) /\
  copy2 (PosixPath.str (PosixPath.parse (path m))) p = true.
Proof.
  unfold _backup_file.
  destruct (exists_ m); cbn [negb]; [|discriminate].
  destruct (copy2 _ _) eqn:E; [|discriminate].
  intros [= <-]. auto.
Qed.

Lemma backup_dict_In (side side' : string) (o : option string) (p : string) :
  In (side', p) (backup_dict side o) -> side' = side /\ o = Some p.
Proof.
  unfold backup_dict. destruct o as [q|]; [|intros []].
  destruct (truthy_str (Some q)); [|intros []].
  intros [[= <- <-]|[]]. auto.
Qed.

Lemma resolve_direct_strategy_used (self : ConflictResolver.t)
    (c : ConflictInfo) (s : ResolutionStrategy) :
  strategy_used (resolve_direct timestamp copy2 self c s)
  = match s with MANUAL => BACKUP_BOTH | _ => s end.
Proof.
  destruct s; cbn [resolve_direct]; try reflexivity.
  - unfold _resolve_keep_newer.
    repeat match goal with
           | |- context [if ?b then _ else _] => destruct b
           end; reflexivity.
  - unfold _resolve_keep_older.
    repeat match goal with
           | |- context [if ?b then _ else _] => destruct b
           end; reflexivity.
  - unfold _resolve_keep_larger.
    destruct (size (local_meta c)), (size (remote_meta c)); try reflexivity.
    repeat match goal with
           | |- context [if ?b then _ else _] => destruct b
           end; reflexivity.
Qed.

(** X7 (conflict_resolver.py, [resolve] and the [_resolve_*] methods).
    The result names the strategy that was applied: the requested one,
    or the resolver's default when none is requested; for [MANUAL] the
    callback's answer, and [BACKUP_BOTH] when there is no callback, the
    callback raises or answers [MANUAL].  [MANUAL] itself is never
    reported. *)
Theorem resolve_strategy_used (self : ConflictResolver.t) (c : ConflictInfo)
    (strategy : option ResolutionStrategy) :
  strategy_used (resolve timestamp copy2 self c strategy)
  = applied self c strategy /\
  strategy_used (resolve timestamp copy2 self c strategy) <> MANUAL.
Proof.
  assert (H : strategy_used (resolve timestamp copy2 self c strategy)
              = applied self c strategy).
  { unfold resolve, applied, chosen.
    destruct (match strategy with
              | Some s => s
              | None => default_strategy self
              end) eqn:E;
      try apply resolve_direct_strategy_used.
    unfold _resolve_manual.
    destruct (manual_callback self) as [cb|]; [|reflexivity].
    destruct (cb c) as [s|]; [|reflexivity].
    destruct s; try apply resolve_direct_strategy_used; reflexivity. }
  split; [exact H|].
  rewrite H. unfold applied.
  destruct (chosen self strategy); try discriminate.
  destruct (manual_callback self) as [cb|]; [|discriminate].
  destruct (cb c) as [[]|]; discriminate.
Qed.

Lemma backup_both_sound (self : ConflictResolver.t) (c : ConflictInfo)
    (side p : string) :
  In (side, p) (backup_paths (_resolve_backup_both timestamp copy2 self c)) ->
  exists m, side_meta c side = Some m /\
    _backup_file timestamp copy2 self m side = Some p.
Proof.
  unfold _resolve_backup_both. cbn [backup_paths].
  rewrite in_app_iff. intros [H|H].
  - destruct (exists_ (local_meta c)); [|destruct H].
    apply backup_dict_In in H. destruct H as [-> H].
    exists (local_meta c). auto.
  - destruct (exists_ (remote_meta c)); [|destruct H].
    apply backup_dict_In in H. destruct H as [-> H].
    exists (remote_meta c). auto.
Qed.

Lemma resolve_direct_backups (self : ConflictResolver.t) (c : ConflictInfo)
    (s : ResolutionStrategy) (side p : string) :
  In (side, p) (backup_paths (resolve_direct timestamp copy2 self c s)) ->
  (exists m, side_meta c side = Some m /\
     _backup_file timestamp copy2 self m side = Some p) /\
  match s with
  | KEEP_NEWER =>
      enable_backup self = true /\
      exists_ (local_meta c) = true /\ exists_ (remote_meta c) = true
  | KEEP_LOCAL => enable_backup self = true /\ side = "remote"
  | KEEP_REMOTE => enable_backup self = true /\ side = "local"
  | BACKUP_BOTH | MANUAL => True
  | KEEP_OLDER | KEEP_LARGER | SKIP => False
  end.
Proof.
  destruct s; cbn [resolve_direct].
  - unfold _resolve_keep_newer.
    destruct (exists_ (local_meta c)); cbn [negb backup_paths]; [|intros []].
    destruct (exists_ (remote_meta c)); cbn [negb backup_paths]; [|intros []].
    destruct (truthy_float (mtime (local_meta c))
              && truthy_float (mtime (remote_meta c)));
      cbn [backup_paths]; [|intros []].
    destruct (mtime_gt (mtime (local_meta c)) (mtime (remote_meta c)));
      cbn [backup_paths]; intros H; apply backup_dict_In in H;
      destruct H as [-> H];
      (destruct (enable_backup self); [|discriminate]).
    + split; [exists (remote_meta c)|]; auto.
    + split; [exists (local_meta c)|]; auto.
  - unfold _resolve_keep_older.
    repeat match goal with
           | |- context [if ?b then _ else _] => destruct b
           end; intros [].
  - unfold _resolve_keep_larger.
    destruct (size (local_meta c)), (size (remote_meta c));
      try (intros []).
    repeat match goal with
           | |- context [if ?b then _ else _] => destruct b
           end; intros [].
  - unfold _resolve_keep_local. cbn [backup_paths].
    intros H. apply backup_dict_In in H. destruct H as [-> H].
    destruct (enable_backup self); cbn [andb] in H; [|discriminate].
    destruct (exists_ (remote_meta c)); [|discriminate].
    split; [exists (remote_meta c)|]; auto.
  - unfold _resolve_keep_remote. cbn [backup_paths].
    intros H. apply backup_dict_In in H. destruct H as [-> H].
    destruct (enable_backup self); cbn [andb] in H; [|discriminate].
    destruct (exists_ (local_meta c)); [|discriminate].
    split; [exists (local_meta c)|]; auto.
  - intros H. split; [now apply backup_both_sound | exact I].
  - intros H. split; [now apply backup_both_sound | exact I].
  - intros [].
Qed.

Lemma resolve_as_direct (self : ConflictResolver.t) (c : ConflictInfo)
    (strategy : option ResolutionStrategy) :
  resolve timestamp copy2 self c strategy
  = resolve_direct timestamp copy2 self c (applied self c strategy).
Proof.
  unfold resolve, applied, chosen.
  destruct (match strategy with
            | Some s => s
            | None => default_strategy self
            end); try reflexivity.
  unfold _resolve_manual.
  destruct (manual_callback self) as [cb|]; [|reflexivity].
  destruct (cb c) as [[]|]; reflexivity.
Qed.

(** X8 (conflict_resolver.py, [resolve], [_resolve_*], [_backup_file]).
    Every backup listed in a result is the copy of a side of the conflict
    that exists, made under the name of that side, and the copy
    succeeded.  [KEEP_OLDER], [KEEP_LARGER] and [SKIP] list none, also
    with backups enabled; [KEEP_NEWER], [KEEP_LOCAL] and [KEEP_REMOTE]
    list one only with backups enabled ([KEEP_LOCAL] of the remote side,
    [KEEP_REMOTE] of the local side, [KEEP_NEWER] only when both sides
    exist). *)
Theorem resolve_backups_sound (self : ConflictResolver.t) (c : ConflictInfo)
    (strategy : option ResolutionStrategy) (side p : string) :
  In (side, p) (backup_paths (resolve timestamp copy2 self c strategy)) ->
  (exists m, side_meta c side = Some m /\ exists_ m = true /\
     copy2 (PosixPath.str (PosixPath.parse (path m))) p = true) /\
  match applied self c strategy with
  | KEEP_NEWER =>
      enable_backup self = true /\
      exists_ (local_meta c) = true /\ exists_ (remote_meta c) = true
  | KEEP_LOCAL => enable_backup self = true /\ side = "remote"
  | KEEP_REMOTE => enable_backup self = true /\ side = "local"
  | BACKUP_BOTH | MANUAL => True
  | KEEP_OLDER | KEEP_LARGER | SKIP => False
  end.
Proof.
  rewrite resolve_as_direct. intros H.
  apply resolve_direct_backups in H. destruct H as [(m & Hm & Hb) Hs].
  split; [|exact Hs].
  exists m. apply backup_file_some in Hb. tauto.
Qed.

(** X9 (conflict_resolver.py, [_backup_file]).  The name of a backup is
    built from the file's base name, the side and the second of the
    backup; the directory of the file does not enter.  Two files of the
    same base name backed up for the same side within one second are
    written to the same backup path. *)
Theorem backup_same_name_same_path (self : ConflictResolver.t)
    (m1 m2 : FileMetadata) (src p1 p2 : string) :
  PosixPath.name (PosixPath.parse (path m1))
  = PosixPath.name (PosixPath.parse (path m2)) ->
  _backup_file timestamp copy2 self m1 src = Some p1 ->
  _backup_file timestamp copy2 self m2 src = Some p2 ->
  p1 = p2.
Proof.
  intros Hname H1 H2.
  apply backup_file_some in H1. apply backup_file_some in H2.
  destruct H1 as (_ & -> & _). destruct H2 as (_ & -> & _).
  unfold PosixPath.stem, PosixPath.suffix. now rewrite Hname.
Qed.

End WithEnvironment.

Lemma resolve_backups_sound_witness :
  exists m,
    side_meta conflict_remote_newer "local" = Some m /\ exists_ m = true /\
    copy_ok (PosixPath.str (PosixPath.parse (path m)))
      "/var/sersync/bidirectional/conflicts/p_local_20240101_000000" = true.
Proof.
  apply (resolve_backups_sound "20240101_000000" copy_ok sample_resolver
           conflict_remote_newer None "local"
           "/var/sersync/bidirectional/conflicts/p_local_20240101_000000").
  vm_compute. left. reflexivity.
Defined.

Lemma backup_same_name_same_path_witness :
  exists p1 p2,
    _backup_file "20240101_000000" copy_ok sample_resolver
      (report_in "/w/a") "local" = Some p1 /\
    _backup_file "20240101_000000" copy_ok sample_resolver
      (report_in "/w/b") "local" = Some p2 /\
    p1 = p2.
Proof.
  eexists. eexists.
  split; [vm_compute; reflexivity|]. split; [vm_compute; reflexivity|].
  apply (backup_same_name_same_path "20240101_000000" copy_ok sample_resolver
           (report_in "/w/a") (report_in "/w/b") "local");
    vm_compute; reflexivity.
Defined.

End ConflictResolutionProps.

(* ===================================================================== *)
(** ** The metadata store: accepted paths and the sync state file *)
(* ===================================================================== *)

Module MetadataStateProps.
Import PyStr MetadataManager DictFacts.

Lemma dict_lookup_del_same (V : Type) (k : string) (d : list (string * V)) :
  dict_lookup k (EventQueue.dict_del k d) = None.
Proof.
  unfold EventQueue.dict_del.
  induction d as [|[k' v] d IH]; cbn [filter fst dict_lookup]; auto.
  destruct (String.eqb k' k) eqn:E; cbn [negb dict_lookup]; auto.
  now rewrite E.
Qed.

Lemma dict_lookup_del_other (V : Type) (k k' : string)
    (d : list (string * V)) :
  k <> k' ->
  dict_lookup k' (EventQueue.dict_del k d) = dict_lookup k' d.
Proof.
  intros Hne. unfold EventQueue.dict_del.
  induction d as [|[k0 v] d IH]; cbn [filter fst dict_lookup]; auto.
  destruct (String.eqb k0 k) eqn:E; cbn [negb dict_lookup].
  - apply String.eqb_eq in E. subst k0.
    destruct (String.eqb k k') eqn:E'; auto.
    apply String.eqb_eq in E'. contradiction.
  - now rewrite IH.
Qed.

Section Paths.
Variable resolve : string -> option string.
Variable md5_hexdigest : string -> string.

Lemma first_inside_watch_none (watch : string)
    (cfg : list (string * option string)) :
  first_inside_watch resolve watch cfg = None <->
  forall key p, In (key, Some p) cfg -> p <> "" ->
    _is_path_inside_watch resolve watch p = false.
Proof.
  induction cfg as [|[k v] cfg IH]; cbn [first_inside_watch In].
  - split; [intros _ ? ? [] | reflexivity].
  - destruct v as [p|].
    + destruct (truthy_str (Some p) && _is_path_inside_watch resolve watch p)
        eqn:E.
      * split; [discriminate|]. intros H. exfalso.
        apply andb_true_iff in E. destruct E as [Et Ei].
        rewrite (H k p) in Ei; [discriminate | now left |].
        intros ->. discriminate.
      * rewrite IH. split.
        -- intros H key q [[= <- <-]|Hin] Hq; [|now apply (H key q)].
           apply andb_false_iff in E. destruct E as [E|E]; [|exact E].
           destruct p; [congruence | discriminate].
        -- intros H key q Hin. apply (H key q). now right.
    + rewrite IH. split.
      * intros H key q [[=]|Hin]; now apply (H key q).
      * intros H key q Hin. apply (H key q). now right.
Qed.

(** X10 ([_generate_safe_paths], [_is_path_inside_watch]).  The paths of
    the metadata store are accepted exactly when no entry of the user's
    configuration holds a non-empty path that resolves inside the watched
    root; without a configuration, or with an empty one, they always
    are.  The only failure is the configuration error. *)
Theorem generate_safe_paths_accepts_iff (watch remote_name : string)
    (metadata_config : option (list (string * option string))) :
  ((exists paths,
      _generate_safe_paths resolve md5_hexdigest watch remote_name
        metadata_config = Ok paths)
   <-> forall cfg key p, metadata_config = Some cfg ->
         In (key, Some p) cfg -> p <> "" ->
         _is_path_inside_watch resolve watch p = false)
  /\ _generate_safe_paths resolve md5_hexdigest watch remote_name
       metadata_config <> OtherError.
Proof.
  unfold _generate_safe_paths.
  destruct metadata_config as [[|c cfg]|].
  - split; [|discriminate].
    split; [intros _ cfg key p [= <-] [] | eauto].
  - destruct (first_inside_watch resolve watch (c :: cfg)) as [[k q]|] eqn:E.
    + split; [|discriminate]. split.
      * intros [paths H]. discriminate.
      * intros H. exfalso.
        assert (Hn : first_inside_watch resolve watch (c :: cfg) = None).
        { apply first_inside_watch_none. intros key p. now apply H. }
        congruence.
    + split; [|discriminate]. split; [|eauto].
      intros _ cfg' key p [= <-].
      now apply first_inside_watch_none.
  - split; [|discriminate].
    split; [intros _ cfg key p [=] | eauto].
Qed.

(** X11 (core/engine.py [_setup_bidirectional_sync] with
    [_generate_safe_paths]).  The engine passes all three override keys
    as soon as a remote sets one of them, and a key that is present wins
    over the default also when its value is [None].  So when the
    configuration built for a remote is accepted, the three paths are
    the remote's own fields: with fewer than three of them set, the
    others are [None], not the defaults under /var/sersync. *)
Theorem partial_overrides_are_not_defaulted (watch remote_name : string)
    (metadata_dir conflict_backup_dir lock_file : option string)
    (paths : MetadataPaths) :
  truthy_str metadata_dir || truthy_str conflict_backup_dir
    || truthy_str lock_file = true ->
  _generate_safe_paths resolve md5_hexdigest watch remote_name
    (remote_metadata_config metadata_dir conflict_backup_dir lock_file)
  = Ok paths ->
  paths = mkMetadataPaths metadata_dir conflict_backup_dir lock_file.
Proof.
  intros Hset. unfold remote_metadata_config. rewrite Hset.
  unfold _generate_safe_paths.
  destruct (first_inside_watch resolve watch _) as [[k q]|]; [discriminate|].
  intros [= <-]. reflexivity.
Qed.

End Paths.

Lemma partial_overrides_are_not_defaulted_witness :
  exists paths,
    _generate_safe_paths resolve_plain md5_sample "/data/site" "backup"
      (remote_metadata_config None (Some "/backup/conflicts") None)
    = Ok paths /\
    paths = mkMetadataPaths None (Some "/backup/conflicts") None.
Proof.
  eexists. split; [vm_compute; reflexivity|].
  apply (partial_overrides_are_not_defaulted resolve_plain md5_sample
           "/data/site" "backup" None (Some "/backup/conflicts") None).
  - reflexivity.
  - reflexivity.
Defined.

Section State.
Variable self : MetadataManager.t.

(** X12 ([update_file_state], [get_file_state], [load_sync_state],
    [save_sync_state]).  After an update that could be written, the state
    file holds for the path exactly the given mtime, size and checksum,
    stamped with this node's id; every other path reads as before; and
    the version read back is one more than the version read before. *)
Theorem update_file_state_spec (now now' : string) (p q : string)
    (mt : Q) (sz : Z) (ck : option string) (disk : StateFile) :
  let disk' := update_file_state self true now p mt sz ck disk in
  get_file_state self now' p disk'
  = Some (mkFileState mt sz ck (node_id self) now) /\
  (q <> p -> get_file_state self now' q disk' = get_file_state self now q disk)
  /\ st_version (load_sync_state self now' disk')
     = (st_version (load_sync_state self now disk) + 1)%Z.
Proof.
  cbn zeta. unfold get_file_state, update_file_state, save_sync_state.
  cbn [load_sync_state _validate_state_format raw_node_id raw_version
       raw_files raw_last_updated st_files st_version].
  repeat split.
  - apply dict_lookup_set_same.
  - intros Hne. apply dict_lookup_set_other. congruence.
Qed.

(** X13 ([remove_file_state], [get_file_state]).  After a removal that
    could be written the path is no longer tracked and every other path
    reads as before; removing a path that is not tracked leaves the state
    file untouched, so the version does not move. *)
Theorem remove_file_state_spec (now now' : string) (p q : string)
    (disk : StateFile) :
  let disk' := remove_file_state self true now p disk in
  get_file_state self now' p disk' = None /\
  (q <> p -> get_file_state self now' q disk' = get_file_state self now' q disk)
  /\ (get_file_state self now p disk = None -> disk' = disk).
Proof.
  cbn zeta.
  assert (Hnow : forall n n' k, get_file_state self n k disk
                                = get_file_state self n' k disk).
  { intros n n' k. unfold get_file_state, load_sync_state.
    destruct disk as [| |raw]; auto.
    destruct (_validate_state_format raw); auto. }
  unfold remove_file_state.
  destruct (dict_lookup p (st_files (load_sync_state self now disk))) eqn:E.
  - unfold get_file_state at 1 2, save_sync_state.
    cbn [load_sync_state _validate_state_format raw_node_id raw_version
         raw_files raw_last_updated st_files].
    repeat split.
    + apply dict_lookup_del_same.
    + intros Hne. rewrite (Hnow now' now q).
      apply dict_lookup_del_other. congruence.
    + unfold get_file_state. rewrite E. discriminate.
  - repeat split.
    rewrite (Hnow now' now p). exact E.
Qed.

(** X14 ([load_sync_state], [update_file_state]).  A state file that is
    missing, cannot be read, or lacks one of the keys [node_id], [version]
    and [files] is replaced without an error: after the next update the
    file holds a state of this node at version 2 that tracks the updated
    path alone. *)
Theorem update_on_unusable_state_file (now : string) (p : string)
    (mt : Q) (sz : Z) (ck : option string) (disk : StateFile) :
  unusable disk = true ->
  update_file_state self true now p mt sz ck disk
  = Holding (mkRawState (Some (node_id self)) (Some 2%Z)
               (Some [(p, mkFileState mt sz ck (node_id self) now)])
               (Some now)).
Proof.
  unfold unusable, update_file_state, load_sync_state.
  destruct disk as [| |raw]; try reflexivity.
  destruct (_validate_state_format raw); [discriminate | reflexivity].
Qed.

End State.

Lemma update_on_unusable_state_file_witness :
  update_file_state manager_sample true "2024-01-01T00:00:00" "a.txt" 100 3
    None Unreadable
  = Holding (mkRawState (Some "node-1a2b3c4d") (Some 2%Z)
               (Some [("a.txt",
                       mkFileState 100 3 None "node-1a2b3c4d"
                         "2024-01-01T00:00:00")])
               (Some "2024-01-01T00:00:00")).
Proof.
  apply (update_on_unusable_state_file manager_sample "2024-01-01T00:00:00"
           "a.txt" 100 3 None Unreadable).
  reflexivity.
Defined.

End MetadataStateProps.

(* ===================================================================== *)
(** ** The event queue over whole runs *)
(* ===================================================================== *)

Module EventQueueRunProps.
Import PyStr EventQueue.

Lemma merge_events_result (evs : list Event) (m : Event) (inc : nat) :
  _merge_events evs = Some (m, inc) ->
  evs <> [] /\ inc = (length evs - 1)%nat /\
  exists e, In e evs /\ path m = path e /\ type m = type e.
Proof.
  destruct evs as [|x [|y l]].
  - cbn. discriminate.
  - cbn. intros [= <- <-]. repeat split; [discriminate|].
    exists x. cbn. auto.
  - intros H. split; [discriminate|].
    destruct (@EventQueueProps.sorted_desc_head (x :: y :: l))
      as (e & rest & Hs & b & a & Hl & _); [discriminate|].
    unfold _merge_events in H. rewrite Hs in H.
    injection H as <- <-. split; [reflexivity|].
    exists e. split; [|split; reflexivity].
    rewrite Hl. apply in_or_app. right. now left.
Qed.

Lemma pending_count_cons (g : string * list Event)
    (l : list (string * list Event)) :
  pending_count (g :: l) = (length (snd g) + pending_count l)%nat.
Proof. reflexivity. Qed.

Lemma dict_append_count (k : string) (e : Event)
    (d : list (string * list Event)) :
  pending_count (dict_append k e d) = S (pending_count d).
Proof.
  induction d as [|[k' evs] d IH]; cbn [dict_append]; auto.
  destruct (String.eqb k' k); rewrite !pending_count_cons; cbn [snd].
  - rewrite length_app. cbn [length]. lia.
  - rewrite IH. lia.
Qed.

Lemma dict_append_keys (k : string) (e : Event)
    (d : list (string * list Event)) :
  map fst (dict_append k e d)
  = if existsb (String.eqb k) (map fst d) then map fst d
    else map fst d ++ [k].
Proof.
  induction d as [|[k' evs] d IH]; cbn [dict_append map fst existsb app]; auto.
  rewrite (String.eqb_sym k k').
  destruct (String.eqb k' k); cbn [map fst orb]; auto.
  rewrite IH. now destruct (existsb (String.eqb k) (map fst d)).
Qed.

Lemma dict_append_In (k : string) (e : Event)
    (d : list (string * list Event)) (k' : string) (evs : list Event) :
  In (k', evs) (dict_append k e d) ->
  In (k', evs) d \/
  k' = k /\ (evs = [e] \/ exists old, In (k, old) d /\ evs = old ++ [e]).
Proof.
  induction d as [|[k0 old] d IH]; cbn [dict_append In].
  - intros [[= <- <-]|[]]. right. auto.
  - destruct (String.eqb k0 k) eqn:E.
    + apply String.eqb_eq in E. subst k0.
      intros [[= <- <-]|Hin]; [|auto].
      right. split; auto. right. exists old. auto.
    + intros [H|Hin]; [auto|].
      destruct (IH Hin) as [H|[-> [H|(o & Ho & ->)]]]; auto.
      right. split; auto. right. exists o. auto.
Qed.

Lemma dict_append_well_keyed (e : Event) (d : list (string * list Event)) :
  well_keyed d -> well_keyed (dict_append (path e) e d).
Proof.
  intros [Hnd Hg]. split.
  - rewrite dict_append_keys.
    destruct (existsb (String.eqb (path e)) (map fst d)) eqn:E; auto.
    apply NoDup_app; auto.
    + repeat constructor. intros [].
    + intros x Hx [Hk|[]]. subst x.
      assert (Ht : existsb (String.eqb (path e)) (map fst d) = true).
      { apply existsb_exists. exists (path e). split; auto.
        apply String.eqb_refl. }
      congruence.
  - intros k evs Hin. apply dict_append_In in Hin.
    destruct Hin as [Hin|[-> [->|(old & Hold & ->)]]].
    + now apply Hg.
    + split; [discriminate|]. intros x [<-|[]]. reflexivity.
    + destruct (Hg _ _ Hold) as [Hne Hp]. split.
      * destruct old; discriminate.
      * intros x Hx. apply in_app_or in Hx. destruct Hx as [Hx|[<-|[]]]; auto.
Qed.

Lemma well_keyed_nil : well_keyed [].
Proof. split; [constructor | intros ? ? []]. Qed.

Lemma contribution_paths (D : list string)
    (pending : list (string * list Event)) :
  (forall k evs, In (k, evs) pending -> forall e, In e evs -> path e = k) ->
  forall x, In x (map path (flat_map (contribution D) pending)) ->
            In x (map fst pending).
Proof.
  induction pending as [|[k evs] pending IH]; intros Hg x;
    cbn [flat_map map]; auto.
  rewrite map_app, in_app_iff. intros [Hx|Hx].
  - left. cbn [fst]. unfold contribution in Hx. cbn [fst snd] in Hx.
    destruct (_merge_events evs) as [[m inc]|] eqn:Hm; [|destruct Hx].
    destruct (suppressed D k m); [destruct Hx|].
    destruct Hx as [<-|[]].
    apply merge_events_result in Hm.
    destruct Hm as (_ & _ & e & He & -> & _).
    symmetry. apply (Hg k evs); auto. now left.
  - right. apply IH; auto. intros k' evs' Hin. apply (Hg k' evs'). now right.
Qed.

Lemma contribution_NoDup (D : list string)
    (pending : list (string * list Event)) :
  well_keyed pending ->
  NoDup (map path (flat_map (contribution D) pending)).
Proof.
  intros [Hnd Hg].
  assert (Hp : forall k evs, In (k, evs) pending ->
                             forall e, In e evs -> path e = k)
    by (intros k evs Hin; now apply (Hg k evs)).
  clear Hg.
  induction pending as [|[k evs] pending IH]; cbn [flat_map map];
    [constructor|].
  cbn [map fst] in Hnd. inversion Hnd as [|? ? Hk Hnd']; subst.
  rewrite map_app. apply NoDup_app.
  - unfold contribution. cbn [fst snd].
    destruct (_merge_events evs) as [[m inc]|]; [|constructor].
    destruct (suppressed D k m); repeat constructor. intros [].
  - apply IH; auto. intros k' evs' Hin. apply (Hp k' evs'). now right.
  - intros x Hx1 Hx2. apply Hk.
    assert (Hxk : x = k).
    { assert (Hx : In x (map path (flat_map (contribution D) [(k, evs)])))
        by (cbn [flat_map]; rewrite app_nil_r; exact Hx1).
      apply (contribution_paths D [(k, evs)]) in Hx.
      - destruct Hx as [<-|[]]. reflexivity.
      - intros k' evs' [[= <- <-]|[]]. apply (Hp k evs). now left. }
    subst x. apply (contribution_paths D pending); auto.
    intros k' evs' Hin. apply (Hp k' evs'). now right.
Qed.

Lemma pending_count_app (a b : list (string * list Event)) :
  pending_count (a ++ b) = (pending_count a + pending_count b)%nat.
Proof.
  induction a as [|g a IH]; [reflexivity|].
  change ((g :: a) ++ b) with (g :: (a ++ b)).
  rewrite !pending_count_cons, IH. lia.
Qed.

Lemma dict_del_head (k : string) (evs : list Event)
    (rest : list (string * list Event)) :
  ~ In k (map fst rest) -> dict_del k ((k, evs) :: rest) = rest.
Proof.
  intros H. unfold dict_del. cbn [filter fst].
  rewrite String.eqb_refl. cbn [negb].
  apply FailLogProps.filter_all. apply forallb_forall.
  intros [k' v'] Hin. cbn [fst]. apply negb_true_iff, String.eqb_neq.
  intros ->. apply H. apply in_map_iff. exists (k, v'). auto.
Qed.

(** The three ways one iteration of the flush loop can go on a group
    that is not empty: filtered, suspended on the full FIFO, published. *)
Lemma flush_step_cases (max : Z) (st : FlushState) (k : string)
    (evs : list Event) :
  evs <> [] ->
  exists m D',
    _merge_events evs = Some (m, (length evs - 1)%nat) /\
    (flush_step max st (k, evs)
     = (mkFlushState (dict_del k (fs_pending st)) (fs_output st)
          (mkStats (events_received (fs_stats st))
                   (events_merged (fs_stats st) + (length evs - 1))
                   (events_output (fs_stats st))
                   (events_filtered (fs_stats st) + 1)) D', None)
     \/ (full max (fs_output st) = true /\
         flush_step max st (k, evs)
         = (mkFlushState (fs_pending st) (fs_output st)
              (mkStats (events_received (fs_stats st))
                       (events_merged (fs_stats st) + (length evs - 1))
                       (events_output (fs_stats st))
                       (events_filtered (fs_stats st))) D', Some m))
     \/ (full max (fs_output st) = false /\
         flush_step max st (k, evs)
         = (mkFlushState (dict_del k (fs_pending st)) (fs_output st ++ [m])
              (mkStats (events_received (fs_stats st))
                       (events_merged (fs_stats st) + (length evs - 1))
                       (events_output (fs_stats st) + 1)
                       (events_filtered (fs_stats st))) D', None))).
Proof.
  intros Hne.
  destruct (@EventQueueProps.merge_events_some evs Hne) as (m & inc & Hm).
  destruct (merge_events_result evs m inc Hm) as (_ & -> & _).
  cbn [flush_step]. destruct evs as [|e l]; [congruence|]. rewrite Hm.
  destruct (_is_filtered_by_parent_delete (fs_pending st) k m
              (Some (fs_deletes st))) as [[|] D'].
  - exists m, D'. split; [reflexivity|]. left. reflexivity.
  - exists m, D'. split; [reflexivity|]. right.
    destruct (full max (fs_output st)); [left | right]; split; reflexivity.
Qed.

(** The flush loop on a well-keyed dict: it ends with nothing pending, or
    it is suspended at a group [g] with the groups from [g] on still
    pending; the counters in both cases. *)
Lemma flush_loop_books (max : Z) :
  forall (todo : list (string * list Event)) (out : list Event) (s : Stats)
         (D : list string),
    NoDup (map fst todo) ->
    (forall k evs, In (k, evs) todo -> evs <> []) ->
    match flush_loop max (mkFlushState todo out s D) todo with
    | (st', None) =>
        fs_pending st' = [] /\
        events_received (fs_stats st') = events_received s /\
        handled (fs_stats st') = (handled s + pending_count todo)%nat /\
        (events_output (fs_stats st') + length out
         = events_output s + length (fs_output st'))%nat
    | (st', Some waiting) =>
        exists done g rest,
          todo = done ++ g :: rest /\
          fs_pending st' = g :: rest /\
          _merge_events (snd g) = Some (waiting, (length (snd g) - 1)%nat) /\
          full max (fs_output st') = true /\
          events_received (fs_stats st') = events_received s /\
          handled (fs_stats st')
          = (handled s + pending_count done + (length (snd g) - 1))%nat /\
          (events_output (fs_stats st') + length out
           = events_output s + length (fs_output st'))%nat
    end.
Proof.
  induction todo as [|[k evs] todo IH]; intros out s D Hnd Hne;
    cbn [flush_loop].
  - cbn [fs_pending fs_output fs_stats].
    change (pending_count []) with 0%nat. repeat split; lia.
  - cbn [map fst] in Hnd. inversion Hnd as [|? ? Hk Hnd']; subst.
    assert (Hevs : evs <> []) by (apply (Hne k); now left).
    assert (Hlen : (1 <= length evs)%nat)
      by (destruct evs; [congruence | cbn; lia]).
    assert (Hne' : forall k' evs', In (k', evs') todo -> evs' <> [])
      by (intros k' evs' Hin; apply (Hne k'); now right).
    destruct (flush_step_cases max (mkFlushState ((k, evs) :: todo) out s D)
                k evs Hevs) as (m & D' & Hm & [E|[[F E]|[F E]]]);
      rewrite E; cbn [fs_pending fs_output fs_stats] in *.
    + rewrite (dict_del_head k evs todo Hk).
      specialize (IH out
                    (mkStats (events_received s)
                       (events_merged s + (length evs - 1))
                       (events_output s) (events_filtered s + 1)) D' Hnd' Hne').
      destruct (flush_loop max _ todo) as [st' [waiting|]].
      * destruct IH as (done & g & rest & -> & Hp & Hw & Hf & Hr & Hh & Ho).
        exists ((k, evs) :: done), g, rest.
        rewrite pending_count_cons. unfold handled in *.
        cbn [events_received events_merged events_output events_filtered
             snd app] in *.
        repeat split; trivial; lia.
      * destruct IH as (Hp & Hr & Hh & Ho).
        rewrite pending_count_cons. unfold handled in *.
        cbn [events_received events_merged events_output events_filtered
             snd] in *.
        repeat split; trivial; lia.
    + exists [], (k, evs), todo. cbn [app snd fs_pending fs_output fs_stats].
      change (pending_count []) with 0%nat. unfold handled.
      cbn [events_received events_merged events_output events_filtered].
      repeat split; trivial; lia.
    + rewrite (dict_del_head k evs todo Hk).
      specialize (IH (out ++ [m])
                    (mkStats (events_received s)
                       (events_merged s + (length evs - 1))
                       (events_output s + 1) (events_filtered s)) D' Hnd' Hne').
      destruct (flush_loop max _ todo) as [st' [waiting|]].
      * destruct IH as (done & g & rest & -> & Hp & Hw & Hf & Hr & Hh & Ho).
        exists ((k, evs) :: done), g, rest.
        rewrite pending_count_cons. unfold handled in *.
        rewrite length_app in Ho.
        cbn [events_received events_merged events_output events_filtered
             snd app length] in *.
        repeat split; trivial; lia.
      * destruct IH as (Hp & Hr & Hh & Ho).
        rewrite pending_count_cons. unfold handled in *.
        rewrite length_app in Ho.
        cbn [events_received events_merged events_output events_filtered
             snd length] in *.
        repeat split; trivial; lia.
Qed.

(** A queue whose books balance and whose pending dict is well keyed. *)
Lemma well_keyed_tail (done rest : list (string * list Event)) :
  well_keyed (done ++ rest) -> well_keyed rest.
Proof.
  intros [Hnd Hg]. split.
  - rewrite map_app in Hnd. now apply NoDup_app_remove_l in Hnd.
  - intros k evs Hin. apply (Hg k evs). apply in_or_app. now right.
Qed.

Lemma flush_sound (q : t) (now : Q) (delivered : list Event) :
  balanced q delivered -> well_keyed (pending_events q) ->
  match flush q now with
  | Returned q' =>
      balanced q' delivered /\ pending_events q' = []
      /\ max_queue_size q' = max_queue_size q
  | Suspended q' waiting =>
      suspended_books q' waiting delivered
      /\ well_keyed (pending_events q')
      /\ max_queue_size q' = max_queue_size q
  end.
Proof.
  intros [Hb Ho] Hwk. unfold flush.
  destruct (pending_events q) as [|g items'] eqn:E.
  - rewrite <- E. repeat split; trivial. now rewrite E.
  - set (items := g :: items') in *.
    destruct Hwk as [Hnd Hg].
    pose proof (flush_loop_books (max_queue_size q) items (output_queue q)
                  (stats q) (collect_directory_deletes items []) Hnd
                  (fun k evs Hin => proj1 (Hg k evs Hin))) as Hl.
    destruct (flush_loop (max_queue_size q) _ items) as [st' [waiting|]].
    + destruct Hl as (done & g' & rest & Hd & Hp & Hw & Hf & Hr & Hh & Hout).
      assert (Hwk' : well_keyed (g' :: rest)).
      { apply (well_keyed_tail done). rewrite <- Hd. now split. }
      split; [|split; [now rewrite Hp | reflexivity]].
      unfold suspended_books.
      cbn [max_queue_size output_queue stats pending_events].
      split; [exact Hf|]. split; [lia|].
      exists (snd g'). split.
      * rewrite Hp. left. destruct g' as [k' evs']. cbn [snd] in *.
        f_equal. destruct (merge_events_result evs' waiting _ Hw)
          as (_ & _ & e & He & Hpath & _).
        rewrite Hpath. symmetry.
        apply (proj2 (proj2 Hwk' k' evs' (or_introl eq_refl)) e He).
      * rewrite Hp, Hr, Hh, Hb. fold items. rewrite Hd.
        rewrite pending_count_app, !pending_count_cons.
        assert (Hlen : (1 <= length (snd g'))%nat).
        { destruct g' as [k' evs']. cbn [snd].
          destruct evs'; [|cbn; lia].
          exfalso. apply (proj1 (proj2 Hwk' k' [] (or_introl eq_refl))).
          reflexivity. }
        lia.
    + destruct Hl as (Hp & Hr & Hh & Hout).
      split; [|split; [exact Hp | reflexivity]].
      unfold balanced. cbn [stats pending_events output_queue].
      rewrite Hp. change (pending_count []) with 0%nat.
      fold items in Hb. split; lia.
Qed.

Lemma push_sound (q : t) (now : Q) (e : Event) (delivered : list Event) :
  balanced q delivered -> well_keyed (pending_events q) ->
  match push q now e with
  | Returned q' =>
      balanced q' delivered /\ well_keyed (pending_events q')
      /\ max_queue_size q' = max_queue_size q
  | Suspended q' waiting =>
      suspended_books q' waiting delivered
      /\ well_keyed (pending_events q')
      /\ max_queue_size q' = max_queue_size q
  end.
Proof.
  intros [Hb Ho] Hwk. unfold push.
  match goal with
  | |- match (if _ then flush ?q1 _ else _) with _ => _ end =>
      assert (H1 : balanced q1 delivered /\ well_keyed (pending_events q1));
      [|set (q1' := q1) in *]
  end.
  { split.
    - unfold balanced, handled in *.
      cbn [stats pending_events output_queue events_received events_merged
           events_output events_filtered].
      rewrite dict_append_count. split; lia.
    - cbn [pending_events].
      apply (dict_append_well_keyed (set_timestamp e now)). exact Hwk. }
  destruct H1 as [Hb1 Hwk1].
  destruct (Qle_bool (window_size q) (now - last_flush q)).
  - pose proof (flush_sound q1' now delivered Hb1 Hwk1) as Hf.
    destruct (flush q1' now) as [q'|q' waiting].
    + destruct Hf as (H1 & H2 & H3). split; [exact H1|].
      split; [rewrite H2; apply well_keyed_nil | exact H3].
    + exact Hf.
  - split; [exact Hb1|]. split; [exact Hwk1 | reflexivity].
Qed.

Lemma step_op_sound (q : t) (delivered : list Event) (op : Op) :
  balanced q delivered -> well_keyed (pending_events q) ->
  match step_op (q, delivered) op with
  | (Returned q', delivered') =>
      balanced q' delivered' /\ well_keyed (pending_events q')
      /\ max_queue_size q' = max_queue_size q
  | (Suspended q' waiting, delivered') =>
      suspended_books q' waiting delivered'
      /\ well_keyed (pending_events q')
      /\ max_queue_size q' = max_queue_size q
  end.
Proof.
  intros Hb Hwk. destruct op as [now e|now|]; cbn [step_op fst snd].
  - pose proof (push_sound q now e delivered Hb Hwk) as H.
    now destruct (push q now e).
  - pose proof (flush_sound q now delivered Hb Hwk) as H.
    destruct (flush q now) as [q'|q' waiting]; [|exact H].
    destruct H as (H1 & H2 & H3). split; [exact H1|].
    split; [rewrite H2; apply well_keyed_nil | exact H3].
  - unfold get. destruct (output_queue q) as [|e rest] eqn:E.
    + cbn [fst snd]. split; [exact Hb|]. split; [exact Hwk | reflexivity].
    + destruct Hb as [Hb Ho]. cbn [fst snd]. unfold balanced.
      cbn [stats pending_events output_queue max_queue_size].
      rewrite E in Ho. rewrite length_app. cbn [length] in *.
      split; [split; [exact Hb | lia]|].
      split; [exact Hwk | reflexivity].
Qed.

Lemma run_from_sound (ops : list Op) :
  forall (q : t) (delivered : list Event),
    balanced q delivered -> well_keyed (pending_events q) ->
    match run_from ops (q, delivered) with
    | (Returned q', delivered') =>
        balanced q' delivered' /\ well_keyed (pending_events q')
        /\ max_queue_size q' = max_queue_size q
    | (Suspended q' waiting, delivered') =>
        suspended_books q' waiting delivered'
        /\ well_keyed (pending_events q')
        /\ max_queue_size q' = max_queue_size q
    end.
Proof.
  induction ops as [|op ops IH]; intros q delivered Hb Hwk; cbn [run_from].
  - cbn [fst snd]. auto.
  - pose proof (step_op_sound q delivered op Hb Hwk) as Hs.
    destruct (step_op (q, delivered) op) as [[q1|q1 waiting] delivered1].
    + destruct Hs as (Hb1 & Hwk1 & Hm1).
      specialize (IH q1 delivered1 Hb1 Hwk1).
      destruct (run_from ops (q1, delivered1)) as [[q'|q' w] d'];
        destruct IH as (H1 & H2 & H3);
        (split; [exact H1|]); (split; [exact H2 | congruence]).
    + exact Hs.
Qed.

Lemma init_sound (window : Q) (size : Z) (t0 : Q) :
  balanced (init window size t0) [] /\
  well_keyed (pending_events (init window size t0)).
Proof. split; [split; reflexivity | apply well_keyed_nil]. Qed.

(** X15 (event_queue.py: [push], [flush], [_merge_events], [get]).  On
    every run of a queue from its construction, whatever the order of
    pushes, flushes and deliveries, as long as no put has found the FIFO
    full: each event received is still pending or is accounted for
    exactly once, as merged away, published or filtered; and each event
    published is in the FIFO or was delivered.  When a put finds the FIFO
    full, the flush is suspended with the books out of balance by the
    events of the waiting group that were already counted as merged
    while the group is still pending. *)
Theorem run_keeps_the_books (window : Q) (size : Z) (t0 : Q)
    (ops : list Op) :
  match run ops (init window size t0) with
  | (Returned q, delivered) => balanced q delivered
  | (Suspended q waiting, delivered) => suspended_books q waiting delivered
  end.
Proof.
  unfold run. destruct (init_sound window size t0) as [Hb Hwk].
  pose proof (run_from_sound ops (init window size t0) [] Hb Hwk) as H.
  destruct (run_from ops (init window size t0, [])) as [[q|q w] d];
    apply H.
Qed.

Lemma NoDup_prefix (A : Type) (a b : list A) : NoDup (a ++ b) -> NoDup a.
Proof. intros H. now apply NoDup_app_remove_r in H. Qed.

(** X16 (event_queue.py: [push], [flush]).  On every run of a queue the
    pending dict files each event under its own path and holds no empty
    group.  Hence a flush that returns leaves nothing pending and has
    published at most one event per path; a flush that finds the FIFO
    full is suspended with the FIFO full, [last_flush] unmoved, the path
    of the waiting event still pending, and at most one event per path
    among those published and the waiting one. *)
Theorem flush_after_any_run (window : Q) (size : Z) (t0 : Q)
    (ops : list Op) (now : Q) :
  match run ops (init window size t0) with
  | (Returned q, _) =>
      well_keyed (pending_events q) /\
      match flush q now with
      | Returned q' =>
          pending_events q' = [] /\
          exists out,
            output_queue q' = output_queue q ++ out /\ NoDup (map path out)
      | Suspended q' waiting =>
          full (max_queue_size q') (output_queue q') = true /\
          last_flush q' = last_flush q /\
          (exists evs, In (path waiting, evs) (pending_events q')) /\
          exists out,
            output_queue q' = output_queue q ++ out /\
            NoDup (map path (out ++ [waiting]))
      end
  | (Suspended q _, _) => well_keyed (pending_events q)
  end.
Proof.
  unfold run. destruct (init_sound window size t0) as [Hb Hwk].
  pose proof (run_from_sound ops (init window size t0) [] Hb Hwk) as H.
  destruct (run_from ops (init window size t0, [])) as [[q|q w] d];
    [|apply H].
  destruct H as (Hbq & Hwkq & _). split; [exact Hwkq|].
  pose proof (flush_sound q now d Hbq Hwkq) as Hs.
  pose proof (contribution_NoDup
                (directory_deletes_of (pending_events q)) (pending_events q)
                Hwkq) as Hnd.
  destruct (flush q now) as [q'|q' waiting] eqn:E.
  - destruct Hs as (_ & Hp & _). split; [exact Hp|].
    apply EventQueueProps.flush_returned in E. destruct E as (Ho & _).
    exists (published (pending_events q)). split; [exact Ho | exact Hnd].
  - destruct Hs as ((Hf & _ & evs & Hin & _) & _ & _).
    apply EventQueueProps.flush_suspended in E.
    destruct E as (_ & Hl & before & after & Hp & Ho).
    split; [exact Hf|]. split; [exact Hl|]. split; [now exists evs|].
    exists before. split; [exact Ho|].
    fold (published (pending_events q)) in Hnd. rewrite Hp in Hnd.
    change (before ++ waiting :: after)
      with (before ++ [waiting] ++ after) in Hnd.
    rewrite app_assoc, map_app in Hnd. now apply NoDup_prefix in Hnd.
Qed.

(** On an unbounded FIFO no call is ever suspended. *)
Lemma unbounded_flush_returns (q : t) (now : Q) :
  (max_queue_size q <= 0)%Z -> exists q', flush q now = Returned q'.
Proof. intros H. apply EventQueueProps.flush_returns_with_room. now left. Qed.

End EventQueueRunProps.

(* ===================================================================== *)
(** ** The dispatcher: bookkeeping of one [sync_file] *)
(* ===================================================================== *)

Module SyncFileProps.
Import PyStr SyncEngine.

Section WithEnvironment.
Variable fs_exists : string -> bool.
Variable decode : string -> string.
Variable timestamp : string.
Variable spawn : nat -> list string -> ProcResult.
Variable self : SyncEngine.t.
Variable file_path event_type : string.

Lemma sync_loop_remotes (todo : list RemoteConfig) :
  forall (index : nat) (st : LoopState),
    map rr_remote (ls_results (sync_loop fs_exists decode timestamp spawn self file_path event_type todo index st))
    = map rr_remote (ls_results st)
      ++ map (fun r => (ip r ++ "::" ++ name r)%string) todo.
Proof.
  induction todo as [|remote rest IH]; intros index st.
  - cbn. now rewrite app_nil_r.
  - cbn [sync_loop map].
    destruct (_rsync_to_remote fs_exists decode (spawn index) self file_path
                remote event_type) as [spawned result].
    rewrite IH. cbn [ls_results]. rewrite map_app, <- app_assoc.
    reflexivity.
Qed.

Lemma sync_loop_spawned (todo : list RemoteConfig) :
  forall (index : nat) (st : LoopState),
    (length (ls_spawned (sync_loop fs_exists decode timestamp spawn self file_path event_type todo index st))
     <= length (ls_spawned st) + length todo)%nat.
Proof.
  induction todo as [|remote rest IH]; intros index st.
  - cbn. lia.
  - cbn [sync_loop length].
    destruct (_rsync_to_remote fs_exists decode (spawn index) self file_path
                remote event_type) as [spawned result] eqn:E.
    eapply Nat.le_trans; [apply IH|]. cbn [ls_spawned].
    rewrite length_app.
    assert (length spawned <= 1)%nat.
    { unfold _rsync_to_remote in E.
      destruct (is_delete event_type && _ && _); inversion E; cbn; lia. }
    lia.
Qed.

Lemma sync_loop_ledger_kept (todo : list RemoteConfig) :
  forall (index : nat) (st : LoopState),
    (forallb rr_success (ls_results (sync_loop fs_exists decode timestamp spawn self file_path event_type todo index st)) = true ->
     ls_ledger (sync_loop fs_exists decode timestamp spawn self file_path event_type todo index st) = ls_ledger st) /\
    (ls_ledger (sync_loop fs_exists decode timestamp spawn self file_path event_type todo index st) = None ->
     forallb rr_success (ls_results st) = true ->
     forallb rr_success (ls_results (sync_loop fs_exists decode timestamp spawn self file_path event_type todo index st)) = true).
Proof.
  induction todo as [|remote rest IH]; intros index st.
  - cbn. auto.
  - cbn [sync_loop].
    destruct (_rsync_to_remote fs_exists decode (spawn index) self file_path
                remote event_type) as [spawned result].
    match goal with
    | |- context [sync_loop _ _ _ _ _ _ _ rest (S index) ?s] =>
        destruct (IH (S index) s) as [IH1 IH2];
        assert (Hs : forallb rr_success (ls_results (sync_loop fs_exists decode timestamp spawn self file_path event_type rest (S index) s))
                     = true ->
                     forallb rr_success (ls_results s) = true)
    end.
    { intros H.
      assert (Hm := sync_loop_remotes rest (S index)).
      clear - H. revert H.
      generalize (S index).
      match goal with
      | |- forall n, forallb _ (ls_results (sync_loop _ _ _ _ _ _ _ _ n ?s))
                     = true -> _ => generalize s
      end.
      induction rest as [|r rest IHr]; intros s n H; [exact H|].
      cbn [sync_loop] in H.
      destruct (_rsync_to_remote fs_exists decode (spawn n) self file_path r
                  event_type) as [sp res].
      apply IHr in H. cbn [ls_results] in H.
      rewrite forallb_app in H. now apply andb_true_iff in H. }
    cbn [ls_results ls_ledger] in *. split.
    + intros H. rewrite (IH1 H).
      apply Hs in H. rewrite forallb_app in H.
      apply andb_true_iff in H. destruct H as [_ H].
      cbn [forallb rr_success] in H. rewrite andb_true_r in H.
      now rewrite H.
    + intros Hn Hst. apply IH2; [exact Hn|].
      rewrite forallb_app, Hst. cbn [forallb rr_success andb].
      rewrite andb_true_r.
      destruct (success result) eqn:Es; [reflexivity|].
      exfalso.
      assert (Hsome : forall todo' n s f,
                 ls_ledger s = Some f ->
                 ls_ledger (sync_loop fs_exists decode timestamp spawn self file_path event_type todo' n s) <> None).
      { clear. induction todo' as [|r todo' IHt]; intros n s f Hf.
        - cbn. congruence.
        - cbn [sync_loop].
          destruct (_rsync_to_remote fs_exists decode (spawn n) self file_path
                      r event_type) as [sp res].
          destruct (success res).
          + apply (IHt _ _ f). exact Hf.
          + unfold _log_failure. eapply IHt. reflexivity. }
      unfold _log_failure in Hn.
      eapply Hsome; [|exact Hn]. reflexivity.
Qed.

(** X17 (core/sync_engine.py, [sync_file]).  One call serves every
    configured remote once and in order, spawning at most one process per
    remote; each attempt is counted exactly once, as a success or as a
    failure; the ledger is left as it was when every remote succeeded,
    and exists afterwards when one failed. *)
Theorem sync_file_bookkeeping (ledger : option LedgerFile) :
  let r := sync_file fs_exists decode timestamp spawn self ledger file_path
             event_type in
  let self' := fst (fst (fst r)) in
  let ledger' := snd (fst (fst r)) in
  let spawned := snd (fst r) in
  let result := snd r in
  map rr_remote (results result)
  = map (fun r => (ip r ++ "::" ++ name r)%string) (remotes self) /\
  (length spawned <= length (remotes self))%nat /\
  total_syncs (stats self')
  = (total_syncs (stats self) + length (remotes self))%nat /\
  (success_syncs (stats self') + failed_syncs (stats self'))%nat
  = (success_syncs (stats self) + failed_syncs (stats self)
     + length (remotes self))%nat /\
  (all_success result = true -> ledger' = ledger) /\
  (all_success result = false -> ledger' <> None).
Proof.
  cbn zeta. unfold sync_file. cbn [fst snd results all_success stats
    total_syncs success_syncs failed_syncs].
  set (st0 := mkLoopState [] [] ledger).
  pose proof (sync_loop_remotes (remotes self) 0 st0) as Hr.
  pose proof (sync_loop_spawned (remotes self) 0 st0) as Hs.
  destruct (sync_loop_ledger_kept (remotes self) 0 st0) as [Hk Hn].
  cbn [ls_results ls_spawned ls_ledger st0 map app length] in *.
  set (st := sync_loop fs_exists decode timestamp spawn self file_path event_type (remotes self) 0 st0) in *.
  repeat split; auto.
  - assert (Hl : length (ls_results st) = length (remotes self)).
    { rewrite <- (length_map rr_remote), Hr. apply length_map. }
    unfold count.
    assert (Hp : forall l,
               (length (filter rr_success l)
                + length (filter (fun r => negb (rr_success r)) l))%nat
               = length l).
    { induction l as [|x l IHl]; auto. cbn [filter].
      destruct (rr_success x); cbn [negb length]; lia. }
    specialize (Hp (ls_results st)). lia.
  - intros Hf Hnone. rewrite Hn in Hf; [discriminate | exact Hnone | reflexivity].
Qed.

End WithEnvironment.

End SyncFileProps.

(* ===================================================================== *)
(** ** The ledger between its writer and its reader *)
(* ===================================================================== *)

Module LedgerRoundTripProps.
Import PyStr PyStrFacts SyncEngine FailLogExecutor FailLogProps.








Section WithEnvironment.
Variable fs_exists : string -> bool.




End WithEnvironment.


End LedgerRoundTripProps.

(* ===================================================================== *)
(** ** The parser of retry output, on any output *)
(* ===================================================================== *)

Module ParserProps.
Import PyStr FailLogExecutor FailLogProps.

Lemma truthy_str_some (o : option string) :
  truthy_str o = true -> exists c, o = Some c /\ c <> "".
Proof.
  destruct o as [[|a s]|]; cbn; try discriminate.
  intros _. eexists. split; [reflexivity | discriminate].
Qed.

Lemma parse_lines_sound (all : list string) :
  forall (lines : list string) (cur : option string)
         (acc : list FailedCommand),
    incl lines all ->
    NoDup (map command acc) ->
    (forall fc, In fc acc ->
       command fc <> "" /\ announced all (command fc) /\
       exists line, In line all /\ reports_failure line = true /\
                    output_line fc = strip line) ->
    (forall c, cur = Some c -> announced all c) ->
    NoDup (map command (parse_lines lines cur acc)) /\
    forall fc, In fc (parse_lines lines cur acc) ->
      command fc <> "" /\ announced all (command fc) /\
      exists line, In line all /\ reports_failure line = true /\
                   output_line fc = strip line.
Proof.
  induction lines as [|line rest IH]; intros cur acc Hincl Hnd Hacc Hcur.
  - cbn [parse_lines]. auto.
  - assert (Hrest : incl rest all)
      by (intros x Hx; apply Hincl; now right).
    assert (Hline : In line all) by (apply Hincl; now left).
    rewrite parse_lines_cons.
    destruct (startswith (strip line) "Retrying: ") eqn:Er.
    + apply IH; auto. intros c [= <-]. exists line. auto.
    + destruct (startswith (strip line) "FAILED: " && truthy_str cur) eqn:Ef.
      * apply andb_true_iff in Ef. destruct Ef as [Ef Et].
        apply truthy_str_some in Et. destruct Et as (c & -> & Hc).
        destruct (existsb (String.eqb c) (map command acc)) eqn:Ex.
        -- apply IH; auto. discriminate.
        -- apply IH; auto; [| |discriminate].
           ++ rewrite map_app. cbn [map command]. apply NoDup_app; auto.
              ** repeat constructor. intros [].
              ** intros x Hx [<-|[]].
                 apply existsb_eqb_In in Hx. congruence.
           ++ intros fc Hin. apply in_app_or in Hin.
              destruct Hin as [Hin|[<-|[]]]; [now apply Hacc|].
              cbn [command output_line]. split; [exact Hc|].
              split; [now apply Hcur|].
              exists line. auto.
      * destruct (startswith (strip line) "SUCCESS: ").
        -- apply IH; auto. discriminate.
        -- apply IH; auto.
Qed.

Lemma parse_lines_no_failure (lines : list string) :
  forall (cur : option string) (acc : list FailedCommand),
    forallb (fun l => negb (reports_failure l)) lines = true ->
    parse_lines lines cur acc = acc.
Proof.
  induction lines as [|line rest IH]; intros cur acc H; [reflexivity|].
  cbn [forallb] in H. apply andb_true_iff in H. destruct H as [Hl Hr].
  apply negb_true_iff in Hl. unfold reports_failure in Hl.
  rewrite parse_lines_cons, Hl. cbn [andb].
  destruct (startswith (strip line) "Retrying: "); [now apply IH|].
  destruct (startswith (strip line) "SUCCESS: "); now apply IH.
Qed.

(** X19 (faillog_executor.py, [_parse_failed_commands_from_output]).  On
    any output whatever, the parsed failures name pairwise different,
    non-empty commands; each command is what a [Retrying: ] line of the
    output announced, and is paired with a [FAILED: ] line of the output.
    An output without a [FAILED: ] line yields no failure at all. *)
Theorem parsed_failures_sound (output : string) :
  let failed := _parse_failed_commands_from_output output in
  NoDup (map command failed) /\
  (forall fc, In fc failed ->
     command fc <> "" /\ announced (splitlines output) (command fc) /\
     exists line, In line (splitlines output) /\
                  reports_failure line = true /\
                  output_line fc = strip line) /\
  (forallb (fun l => negb (reports_failure l)) (splitlines output) = true ->
   failed = []).
Proof.
  cbn zeta. unfold _parse_failed_commands_from_output.
  destruct (parse_lines_sound (splitlines output) (splitlines output) None [])
    as [Hnd Hg].
  - apply incl_refl.
  - constructor.
  - intros fc [].
  - discriminate.
  - split; [exact Hnd|]. split; [exact Hg|].
    apply parse_lines_no_failure.
Qed.

End ParserProps.

(* ===================================================================== *)
(** ** The footer of the ledger script *)
(* ===================================================================== *)

Module FooterProps.
Import PyStr PyStrFacts SyncEngine FailLogExecutor FailLogProps.

Lemma prefix_app_LF (m : string) :
  lf_free m ->
  forall s t, String.prefix m (s ++ String LF t) = String.prefix m s.
Proof.
  unfold lf_free.
  induction m as [|a m IH]; intros Hm s t; [now destruct s|].
  rewrite contains_NL_cons in Hm. apply orb_false_iff in Hm.
  destruct Hm as [Ha Hm].
  destruct s as [|b s]; cbn [append String.prefix].
  - destruct (ascii_dec a LF) as [->|_]; [|reflexivity].
    now rewrite Ascii.eqb_refl in Ha.
  - destruct (ascii_dec a b); [|reflexivity]. now apply IH.
Qed.

Lemma contains_app_LF (m : string) :
  lf_free m ->
  forall s t,
    contains m (s ++ String LF t) = contains m s || contains m (String LF t).
Proof.
  intros Hm s t. induction s as [|b s IH].
  - cbn [append]. change (contains m "") with (String.prefix m "" || false).
    destruct m as [|a m]; [reflexivity|]. reflexivity.
  - change (String b s ++ String LF t)%string
      with (String b (s ++ String LF t)).
    change (contains m (String b (s ++ String LF t)))
      with (String.prefix m (String b (s ++ String LF t))
            || contains m (s ++ String LF t)).
    change (contains m (String b s))
      with (String.prefix m (String b s) || contains m s).
    rewrite IH.
    change (String b (s ++ String LF t))
      with (String b s ++ String LF t)%string.
    rewrite (prefix_app_LF m Hm). now rewrite orb_assoc.
Qed.

Lemma contains_app_l (m s t : string) :
  contains m s = true -> contains m (s ++ t) = true.
Proof.
  induction s as [|b s IH].
  - cbn [contains]. rewrite orb_false_r. intros H.
    destruct m; [|discriminate]. now destruct t.
  - change (contains m (String b s))
      with (String.prefix m (String b s) || contains m s).
    change (contains m (String b s ++ t))
      with (String.prefix m (String b s ++ t) || contains m (s ++ t)).
    intros H. apply orb_true_iff in H. destruct H as [H|H].
    + now rewrite (prefix_app _ _ t H).
    + rewrite (IH H). apply orb_true_r.
Qed.

(** X20 (faillog_executor.py, [_add_result_check_to_script]).  The guard
    against a second footer looks for the summary echo followed by a
    blank, a text the footer does not hold.  So on a ledger without that
    text the guard does not fire after a footer was added either: adding
    the footer again leaves the ledger with two footers. *)
Theorem footer_is_added_again (f : LedgerFile) :
  contains result_check_marker (content f) = false ->
  let g := _add_result_check_to_script f in
  contains result_check_marker (content g) = false /\
  content (_add_result_check_to_script g)
  = (rstrip (content f) ++ rstrip result_check ++ result_check)%string.
Proof.
  intros Hc. cbn zeta.
  assert (Hg : content (_add_result_check_to_script f)
               = (rstrip (content f) ++ result_check)%string).
  { unfold _add_result_check_to_script. now rewrite Hc. }
  assert (Hm : lf_free result_check_marker) by (vm_compute; reflexivity).
  assert (Hrc : exists t, result_check = String LF t
                          /\ contains result_check_marker (String LF t) = false).
  { eexists. split; vm_compute; reflexivity. }
  assert (Hr : contains result_check_marker (rstrip (content f)) = false).
  { destruct (rstrip_decomposition (content f)) as (w & E & _).
    destruct (contains result_check_marker (rstrip (content f))) eqn:E';
      [|reflexivity].
    apply (contains_app_l _ _ w) in E'. rewrite <- E in E'. congruence. }
  assert (Hno : contains result_check_marker
                  (content (_add_result_check_to_script f)) = false).
  { rewrite Hg. destruct Hrc as (t & -> & Ht).
    now rewrite (contains_app_LF _ Hm), Hr, Ht. }
  split; [exact Hno|].
  unfold _add_result_check_to_script at 1. rewrite Hno. cbn [content].
  rewrite Hg.
  rewrite rstrip_app_nonempty by (vm_compute; discriminate).
  now rewrite append_assoc.
Qed.

Lemma footer_is_added_again_witness :
  content (_add_result_check_to_script
             (_add_result_check_to_script ledger_file_S4))
  = (rstrip (content ledger_file_S4) ++ rstrip result_check
       ++ result_check)%string.
Proof.
  apply (footer_is_added_again ledger_file_S4).
  vm_compute. reflexivity.
Defined.

End FooterProps.

(* ===================================================================== *)
(** ** From a recorded failure to its retry *)
(* ===================================================================== *)

Module RetryLoopProps.
Import PyStr PyStrFacts SyncEngine FailLogExecutor FailLogProps.

Lemma length_app_string (a b : string) :
  String.length (a ++ b) = (String.length a + String.length b)%nat.
Proof. induction a as [|c a IH]; cbn; [reflexivity | now rewrite IH]. Qed.

Lemma existsb_filter_nil (A : Type) (p : A -> bool) (l : list A) :
  existsb p l = negb (match filter p l with [] => true | _ => false end).
Proof.
  induction l as [|x l IH]; [reflexivity|]. cbn [existsb filter].
  destruct (p x); [reflexivity | exact IH].
Qed.

(** On a script that begins with a character that is no blank, the
    executor sees a command exactly when the script holds a command
    line. *)
Lemma has_rsync_commands_recorded (c : ascii) (s : string) :
  isspace c = false ->
  _has_rsync_commands (String c s)
  = negb (match recorded_commands (String c s) with
          | [] => true
          | _ => false
          end).
Proof.
  intros Hc. unfold _has_rsync_commands.
  assert (Hs : strip (String c s) = rstrip (String c s)).
  { unfold strip. now rewrite (lstrip_cons_nonspace c s Hc). }
  rewrite Hs.
  destruct (rstrip_decomposition (String c s)) as (w & E & Hw).
  rewrite E at 2. rewrite (recorded_commands_app_blank _ _ Hw).
  unfold recorded_commands. rewrite existsb_filter_nil.
  now destruct (filter is_rsync_line (splitlines (rstrip (String c s)))).
Qed.

Lemma dedup_fresh (cmds : list string) :
  forall seen,
    NoDup cmds -> (forall c, In c cmds -> ~ In c seen) ->
    dedup seen cmds = cmds.
Proof.
  induction cmds as [|c cmds IH]; intros seen Hnd Hfresh; [reflexivity|].
  inversion Hnd as [|? ? Hc Hnd']; subst. cbn [dedup].
  destruct (existsb (String.eqb c) seen) eqn:E.
  - apply existsb_eqb_In in E. exfalso. apply (Hfresh c); [now left | exact E].
  - f_equal. apply IH; auto.
    intros x Hx Hin. apply in_app_or in Hin.
    destruct Hin as [Hin|[<-|[]]]; [|contradiction].
    apply (Hfresh x); [now right | exact Hin].
Qed.

Lemma generated_script_runs (failed : list FailedCommand) :
  failed <> [] ->
  Forall wf_command (map command failed) ->
  _has_rsync_commands (_generate_script_with_commands failed) = true /\
  (12 < String.length (_generate_script_with_commands failed))%nat.
Proof.
  intros Hne Hwf. split.
  - pose proof (recorded_commands_generated failed Hwf) as Hr.
    unfold _generate_script_with_commands, generated_header in *.
    cbn [app] in *. rewrite join_cons2 in *. cbn [append] in *.
    rewrite has_rsync_commands_recorded by reflexivity.
    rewrite Hr. destruct failed; [congruence | reflexivity].
  - unfold _generate_script_with_commands, generated_header.
    cbn [app]. rewrite !join_cons2. rewrite !length_app_string.
    cbn [String.length NL]. lia.
Qed.

(** X21 (faillog_executor.py: [_check_and_execute],
    [_perform_incremental_cleanup], [_generate_script_with_commands]).
    A regenerated ledger is stable under failure: when the shell retries
    its commands and every one of them fails again, in the first run and
    in the analysed one, the tick writes back the very same script; the
    commands stay recorded until they succeed. *)
Theorem persistent_failures_keep_the_ledger
    (run1 run2 : string -> RunResult) (failed : list FailedCommand)
    (x : bool) (attempts1 attempts2 : list Attempt) :
  failed <> [] ->
  forallb well_formed_command (map command failed) = true ->
  NoDup (map command failed) ->
  let f := mkLedgerFile (_generate_script_with_commands failed) x in
  let script := content (_add_result_check_to_script f) in
  shell_runs script attempts1 (run1 script) ->
  shell_runs script attempts2 (run2 script) ->
  forallb (fun a => forallb neutral_line (att_stdout a)) attempts2 = true ->
  existsb att_failed attempts1 = true ->
  forallb att_failed attempts2 = true ->
  _check_and_execute run1 run2 (Some f)
  = Some (mkLedgerFile (_generate_script_with_commands failed) true).
Proof.
  intros Hne Hwfb Hnd f script [_ Hrun1] [Hcmds Hrun2] Hneutral Hf1 Hall.
  assert (Hwf : Forall wf_command (map command failed)).
  { apply Forall_forall. intros c Hc.
    apply well_formed_command_wf.
    rewrite forallb_forall in Hwfb. now apply Hwfb. }
  destruct (generated_script_runs failed Hne Hwf) as [Hhas Hlen].
  assert (Hrec : map att_command attempts2 = map command failed).
  { rewrite Hcmds. unfold script.
    rewrite (recorded_commands_with_footer f).
    now apply recorded_commands_generated. }
  assert (Hwfa : forallb well_formed_attempt attempts2 = true).
  { apply forallb_forall. intros a Ha. unfold well_formed_attempt.
    rewrite forallb_forall in Hneutral. rewrite (Hneutral a Ha).
    rewrite andb_true_r.
    rewrite forallb_forall in Hwfb. apply Hwfb.
    rewrite <- Hrec. now apply in_map. }
  assert (Hex : existsb att_failed attempts2 = true).
  { destruct attempts2 as [|a l].
    - destruct failed; [congruence | discriminate].
    - cbn [forallb] in Hall. apply andb_true_iff in Hall.
      cbn [existsb]. now rewrite (proj1 Hall). }
  destruct (tick_some_failed run1 run2 f attempts2 Hhas Hlen)
    as (failed' & Ht & Hm & _); trivial.
  { fold script. rewrite Hrun1. now apply shell_run_failed. }
  rewrite Ht. f_equal. f_equal.
  unfold _generate_script_with_commands. rewrite Hm.
  rewrite (filter_all _ _ _ Hall), Hrec.
  rewrite dedup_fresh; auto.
Qed.

Lemma persistent_failures_keep_the_ledger_witness :
  let failed :=
    [mkFailedCommand command_a ""; mkFailedCommand command_b ""] in
  _check_and_execute (fun _ => shell_run both_fail)
    (fun _ => shell_run both_fail)
    (Some (mkLedgerFile (_generate_script_with_commands failed) false))
  = Some (mkLedgerFile (_generate_script_with_commands failed) true).
Proof.
  cbn zeta.
  apply (persistent_failures_keep_the_ledger (fun _ => shell_run both_fail)
           (fun _ => shell_run both_fail)
           [mkFailedCommand command_a ""; mkFailedCommand command_b ""]
           false both_fail both_fail).
  - discriminate.
  - vm_compute. reflexivity.
  - repeat constructor; cbn; intuition discriminate.
  - split; vm_compute; reflexivity.
  - split; vm_compute; reflexivity.
  - vm_compute. reflexivity.
  - vm_compute. reflexivity.
  - vm_compute. reflexivity.
Defined.

End RetryLoopProps.

(* ===================================================================== *)
(** ** The file filter *)
(* ===================================================================== *)

Module FilterProps.
Import PyStr PyStrFacts FileFilter.

Lemma match_lits_end (l s : string) :
  match_here (map Lit (list_ascii_of_string l) ++ [EndAnchor]) s = true
  <-> is_like l s.
Proof.
  unfold is_like. revert s. induction l as [|c l IH]; intros s.
  - cbn [list_ascii_of_string map app match_here]. rewrite andb_true_r.
    rewrite orb_true_iff, !String.eqb_eq. reflexivity.
  - cbn [list_ascii_of_string map app match_here].
    destruct s as [|c' s].
    + split; [discriminate | intros [H|H]; discriminate].
    + rewrite andb_true_iff, Ascii.eqb_eq, IH. cbn [append]. split.
      * intros [-> [->| ->]]; auto.
      * intros [[= -> ->]|[= -> ->]]; auto.
Qed.

Lemma match_star_unfold (p : list Token) (s : string) :
  match_here (AnyStar :: p) s
  = match_here p s
    || match s with
       | String c s' => negb (Ascii.eqb c LF) && match_here (AnyStar :: p) s'
       | EmptyString => false
       end.
Proof. destruct s; reflexivity. Qed.

Lemma match_star (p : list Token) (s : string) :
  match_here (AnyStar :: p) s = true
  <-> exists x rest, s = (x ++ rest)%string /\ lf_free x
                     /\ match_here p rest = true.
Proof.
  unfold lf_free. induction s as [|c s IH]; rewrite match_star_unfold.
  - rewrite orb_false_r. split.
    + intros H. exists "", "". auto.
    + intros (x & rest & E & _ & H).
      destruct x; [|discriminate]. cbn in E. now subst rest.
  - rewrite orb_true_iff, andb_true_iff, negb_true_iff, IH. split.
    + intros [H|[Hc (x & rest & -> & Hx & H)]].
      * exists "", (String c s). auto.
      * exists (String c x), rest. cbn [append]. repeat split; auto.
        now rewrite contains_NL_cons, Hc, Hx.
    + intros (x & rest & E & Hx & H). destruct x as [|a x].
      * cbn in E. subst rest. now left.
      * cbn [append] in E. injection E as <- ->. right.
        rewrite contains_NL_cons in Hx. apply orb_false_iff in Hx.
        destruct Hx as [Ha Hx]. split; [exact Ha|].
        exists x, rest. auto.
Qed.

Lemma match_star_lits_end (l s : string) :
  match_here (AnyStar :: map Lit (list_ascii_of_string l) ++ [EndAnchor]) s
  = true
  <-> ends_like l s.
Proof.
  rewrite match_star. unfold ends_like. split.
  - intros (x & rest & -> & Hx & H). apply match_lits_end in H.
    exists x. split; [exact Hx|]. destruct H as [->| ->]; auto.
  - intros (x & Hx & [->| ->]).
    + exists x, l. repeat split; auto. apply match_lits_end. now left.
    + exists x, (l ++ NL)%string. repeat split; auto.
      apply match_lits_end. now right.
Qed.

(** The twelve default patterns all compile, to these token lists. *)
Lemma default_temp_patterns_compiled :
  default_temp_patterns
  = map (fun l => AnyStar :: map Lit (list_ascii_of_string l) ++ [EndAnchor])
      [".swp"; ".swo"; "~"; ".tmp"; ".temp"; ".bak"]
    ++ map (fun l => map Lit (list_ascii_of_string l) ++ [EndAnchor])
         [".DS_Store"; "Thumbs.db"; "desktop.ini"]
    ++ map (fun l => AnyStar :: map Lit (list_ascii_of_string l)
                       ++ [EndAnchor])
         [".crdownload"; ".part"; ".filepart"].
Proof. vm_compute. reflexivity. Qed.

Lemma default_patterns_match (n : string) :
  existsb (fun p => match_here p n) default_temp_patterns = true
  <-> temp_name n.
Proof.
  rewrite default_temp_patterns_compiled, !existsb_app, !orb_true_iff.
  rewrite !existsb_exists. unfold temp_name, temp_suffixes, temp_names.
  split.
  - intros [(p & Hin & Hm)|[(p & Hin & Hm)|(p & Hin & Hm)]];
      apply in_map_iff in Hin; destruct Hin as (l & <- & Hl).
    + apply match_star_lits_end in Hm. left. exists l. split; [|exact Hm].
      cbn [In] in *. tauto.
    + apply match_lits_end in Hm. right. exists l. auto.
    + apply match_star_lits_end in Hm. left. exists l. split; [|exact Hm].
      cbn [In] in *. tauto.
  - intros [(l & Hl & Hm)|(w & Hw & Hm)].
    + apply match_star_lits_end in Hm.
      assert (Hcase : In l [".swp"; ".swo"; "~"; ".tmp"; ".temp"; ".bak"]
                      \/ In l [".crdownload"; ".part"; ".filepart"])
        by (cbn [In] in *; tauto).
      destruct Hcase as [H|H]; [left | right; right];
        eexists; (split; [apply in_map_iff; exists l; split;
                          [reflexivity | exact H] | exact Hm]).
    + apply match_lits_end in Hm. right. left.
      eexists. split; [apply in_map_iff; exists w; split;
                       [reflexivity | exact Hw] | exact Hm].
Qed.

Section WithRegex.
Variable Regex : Type.
Variable re_compile : string -> option Regex.
Variable re_match : Regex -> string -> bool.

(** X23 (core/filter.py: [DEFAULT_TEMP_PATTERNS], [_is_temp_file],
    [should_ignore]).  With the automatic filter on, a path counts as a
    temporary file exactly when its last component ends with one of
    [.swp .swo ~ .tmp .temp .bak .crdownload .part .filepart] after a
    part without line break, or is one of [.DS_Store], [Thumbs.db],
    [desktop.ini]; in both cases one line break may follow.  Such a path
    is ignored whether or not the user's filter is enabled and whatever
    its patterns are. *)
Theorem temporary_files_are_ignored (config_enabled : bool)
    (config_patterns : list string) (file_path : string) :
  let f := init re_compile config_enabled config_patterns true in
  (_is_temp_file f file_path = true <-> temp_name (filename file_path)) /\
  (temp_name (filename file_path) ->
   should_ignore re_match f file_path = true).
Proof.
  cbn zeta.
  assert (H : _is_temp_file (init re_compile config_enabled config_patterns
                               true) file_path = true
              <-> temp_name (filename file_path)).
  { unfold _is_temp_file, init. cbn [temp_patterns].
    apply default_patterns_match. }
  split; [exact H|].
  intros Ht. apply H in Ht. unfold should_ignore. now rewrite Ht.
Qed.

Lemma add_patterns_keep (f : FileFilter.t Regex) (added : list string) :
  enabled (fold_left (add_pattern re_compile) added f) = enabled f /\
  temp_patterns (fold_left (add_pattern re_compile) added f)
  = temp_patterns f.
Proof.
  revert f. induction added as [|s added IH]; intros f; cbn [fold_left]; auto.
  destruct (IH (add_pattern re_compile f s)) as [-> ->].
  unfold add_pattern. destruct (re_compile s); auto.
Qed.

(** X24 (core/filter.py: [__init__], [add_pattern], [should_ignore]).
    While the user's filter is disabled its patterns are never
    consulted: neither those of the configuration, which are not even
    compiled, nor any added later through [add_pattern].  Only the
    temporary-file patterns decide. *)
Theorem disabled_filter_ignores_user_patterns
    (config_patterns added : list string) (auto : bool)
    (file_path : string) :
  let f := init re_compile false config_patterns auto in
  patterns f = [] /\
  should_ignore re_match (fold_left (add_pattern re_compile) added f)
    file_path
  = _is_temp_file f file_path.
Proof.
  cbn zeta. split; [reflexivity|].
  destruct (add_patterns_keep (init re_compile false config_patterns auto)
              added) as [He Ht].
  unfold should_ignore, _is_temp_file. rewrite He, Ht. cbn [enabled andb].
  now destruct (existsb _ _).
Qed.

End WithRegex.

Lemma temporary_files_are_ignored_witness :
  should_ignore sample_match (init sample_compile false [] true)
    "/w/notes.txt.swp" = true.
Proof.
  apply (temporary_files_are_ignored string sample_compile sample_match
           false [] "/w/notes.txt.swp").
  left. exists ".swp". split; [now left|].
  exists "notes.txt". split; [reflexivity | left; reflexivity].
Defined.

End FilterProps.

(* ===================================================================== *)
(** ** The monitor's event handler *)
(* ===================================================================== *)

Module MonitorProps.
Import PyStr FileMonitor.

Lemma buffer_get_set (c c' : Z) (v : string * bool) (b : MoveBuffer) :
  buffer_get c' (buffer_set c v b)
  = if (c =? c')%Z then Some v else buffer_get c' b.
Proof.
  induction b as [|[k x] b IH]; cbn [buffer_set buffer_get].
  - reflexivity.
  - destruct (k =? c)%Z eqn:E; cbn [buffer_get].
    + apply Z.eqb_eq in E. subst k. now destruct (c =? c')%Z.
    + rewrite IH. destruct (k =? c')%Z eqn:E'; [|reflexivity].
      apply Z.eqb_eq in E'. subst k. rewrite Z.eqb_sym in E. now rewrite E.
Qed.

Lemma buffer_get_del (c c' : Z) (b : MoveBuffer) :
  buffer_get c' (buffer_del c b)
  = if (c =? c')%Z then None else buffer_get c' b.
Proof.
  unfold buffer_del.
  induction b as [|[k x] b IH]; cbn [filter fst buffer_get].
  - now destruct (c =? c')%Z.
  - destruct (k =? c)%Z eqn:E; cbn [negb buffer_get].
    + apply Z.eqb_eq in E. subst k. rewrite IH.
      now destruct (c =? c')%Z.
    + rewrite IH. destruct (k =? c')%Z eqn:E'; [|reflexivity].
      apply Z.eqb_eq in E'. subst k. rewrite Z.eqb_sym in E. now rewrite E.
Qed.

Lemma process_fold_out (config : InotifyConfig) (es : list RawEvent) :
  forall (b : MoveBuffer) (out : list EventQueue.Event),
    fold_left
      (fun st event =>
         let (b', calls) := process config (fst st) event in
         (b', snd st ++ calls))
      es (b, out)
    = (fst (process_all config b es), out ++ snd (process_all config b es)).
Proof.
  unfold process_all.
  induction es as [|e es IH]; intros b out; cbn [fold_left fst snd].
  - now rewrite app_nil_r.
  - destruct (process config b e) as [b1 o1]. cbn [app].
    rewrite (IH b1 (out ++ o1)), (IH b1 o1). cbn [fst snd].
    now rewrite app_assoc.
Qed.

Lemma process_all_cons (config : InotifyConfig) (b : MoveBuffer)
    (e : RawEvent) (es : list RawEvent) :
  process_all config b (e :: es)
  = (fst (process_all config (fst (process config b e)) es),
     snd (process config b e)
     ++ snd (process_all config (fst (process config b e)) es)).
Proof.
  unfold process_all at 1. cbn [fold_left fst snd app].
  destruct (process config b e) as [b1 out1]. cbn [fst snd].
  apply process_fold_out.
Qed.

Lemma process_all_app (config : InotifyConfig) (es1 es2 : list RawEvent) :
  forall b,
    process_all config b (es1 ++ es2)
    = (fst (process_all config (fst (process_all config b es1)) es2),
       snd (process_all config b es1)
       ++ snd (process_all config (fst (process_all config b es1)) es2)).
Proof.
  induction es1 as [|e es1 IH]; intros b.
  - cbn [app].
    change (process_all config b []) with (b, @nil EventQueue.Event).
    cbn [fst snd app]. now destruct (process_all config b es2).
  - change ((e :: es1) ++ es2) with (e :: (es1 ++ es2)).
    rewrite !process_all_cons, IH. cbn [fst snd]. now rewrite app_assoc.
Qed.

(** Two buffers that agree on every cookie but [c] stay so, and yield the
    same calls, under an event that is no half of the move [c]. *)
Lemma process_agree (config : InotifyConfig) (c : Z) (b1 b2 : MoveBuffer)
    (e : RawEvent) :
  moves_cookie c e = false ->
  (forall c', c' <> c -> buffer_get c' b1 = buffer_get c' b2) ->
  snd (process config b1 e) = snd (process config b2 e) /\
  (forall c', c' <> c ->
     buffer_get c' (fst (process config b1 e))
     = buffer_get c' (fst (process config b2 e))) /\
  buffer_get c (fst (process config b1 e)) = buffer_get c b1.
Proof.
  intros Hm Hag. unfold process, moves_cookie in *.
  destruct (kind e).
  1-5: repeat match goal with
              | |- context [if ?x then _ else _] => destruct x
              end; cbn [fst snd]; auto.
  - (* IN_MOVED_FROM *)
    destruct (negb (move_from config)); cbn [fst snd]; auto.
    repeat split; auto.
    + intros c' Hc. rewrite !buffer_get_set.
      destruct (cookie e =? c')%Z; auto.
    + rewrite buffer_get_set. now rewrite Hm.
  - (* IN_MOVED_TO *)
    destruct (negb (move_to config)); cbn [fst snd]; auto.
    assert (Hne : cookie e <> c) by (now apply Z.eqb_neq).
    rewrite (Hag (cookie e) Hne).
    destruct (buffer_get (cookie e) b2) as [mv|]; cbn [fst snd];
      repeat split; auto.
    + intros c' Hc. rewrite !buffer_get_del.
      destruct (cookie e =? c')%Z; auto.
    + rewrite buffer_get_del. now rewrite Hm.
Qed.

Lemma process_all_agree (config : InotifyConfig) (c : Z)
    (es : list RawEvent) :
  forall b1 b2,
    forallb (fun e => negb (moves_cookie c e)) es = true ->
    (forall c', c' <> c -> buffer_get c' b1 = buffer_get c' b2) ->
    snd (process_all config b1 es) = snd (process_all config b2 es) /\
    buffer_get c (fst (process_all config b1 es)) = buffer_get c b1.
Proof.
  induction es as [|e es IH]; intros b1 b2 Hes Hag.
  - unfold process_all. cbn. auto.
  - cbn [forallb] in Hes. apply andb_true_iff in Hes.
    destruct Hes as [He Hes]. apply negb_true_iff in He.
    destruct (process_agree config c b1 b2 e He Hag) as (Ho & Hag' & Hc).
    rewrite !process_all_cons. cbn [fst snd].
    destruct (IH _ _ Hes Hag') as [Ho' Hc'].
    rewrite Ho, Ho', Hc', Hc. auto.
Qed.

(** X25 (core/monitor.py: [process_IN_MOVED_FROM], [process_IN_MOVED_TO]).
    With both move switches on, a moved-from event and the moved-to event
    of the same cookie are reported as one MOVE from the old to the new
    path, when the second arrives; the events in between are reported as
    if the pair were not there; and the cookie is forgotten
    afterwards. *)
Theorem moved_pair_becomes_one_move (config : InotifyConfig)
    (buffer : MoveBuffer) (c : Z) (src dst : string) (d d' : bool)
    (mid : list RawEvent) :
  move_from config = true ->
  move_to config = true ->
  forallb (fun e => negb (moves_cookie c e)) mid = true ->
  let r :=
    process_all config buffer
      (mkRawEvent IN_MOVED_FROM d src c :: mid
       ++ [mkRawEvent IN_MOVED_TO d' dst c]) in
  snd r = snd (process_all config buffer mid) ++ [call_move src dst d'] /\
  buffer_get c (fst r) = None.
Proof.
  intros Hf Ht Hmid. cbn zeta.
  rewrite process_all_cons.
  assert (Hstart : process config buffer (mkRawEvent IN_MOVED_FROM d src c)
                   = (buffer_set c (src, d) buffer, [])).
  { unfold process. cbn [kind]. rewrite Hf. reflexivity. }
  rewrite Hstart. cbn [fst snd app].
  rewrite process_all_app. cbn [fst snd].
  destruct (process_all_agree config c mid (buffer_set c (src, d) buffer)
              buffer Hmid) as [Ho Hc].
  { intros c' Hne. rewrite buffer_get_set.
    destruct (c =? c')%Z eqn:E; [|reflexivity].
    apply Z.eqb_eq in E. congruence. }
  rewrite buffer_get_set, Z.eqb_refl in Hc.
  rewrite Ho.
  set (B := fst (process_all config (buffer_set c (src, d) buffer) mid)) in *.
  assert (Hstop : process_all config B [mkRawEvent IN_MOVED_TO d' dst c]
                  = (buffer_del c B, [call_move src dst d'])).
  { rewrite process_all_cons.
    change (process_all config ?b []) with (b, @nil EventQueue.Event).
    unfold process. cbn [kind cookie pathname dir]. rewrite Ht. cbn [negb].
    rewrite Hc. reflexivity. }
  rewrite Hstop. cbn [fst snd]. split; [reflexivity|].
  rewrite buffer_get_del. now rewrite Z.eqb_refl.
Qed.

Lemma moved_pair_becomes_one_move_witness :
  snd (process_all default_config []
         [mkRawEvent IN_MOVED_FROM false "/w/a.txt" 7;
          mkRawEvent IN_CLOSE_WRITE false "/w/b.txt" 0;
          mkRawEvent IN_MOVED_TO false "/w/c.txt" 7])
  = snd (process_all default_config []
           [mkRawEvent IN_CLOSE_WRITE false "/w/b.txt" 0])
    ++ [call_move "/w/a.txt" "/w/c.txt" false].
Proof.
  apply (moved_pair_becomes_one_move default_config [] 7 "/w/a.txt" "/w/c.txt"
           false false [mkRawEvent IN_CLOSE_WRITE false "/w/b.txt" 0]);
    reflexivity.
Defined.

Lemma process_permitted (config : InotifyConfig) (b : MoveBuffer)
    (e : RawEvent) :
  (b <> [] -> move_from config = true) ->
  (fst (process config b e) <> [] -> move_from config = true) /\
  forall x, In x (snd (process config b e)) -> permitted config x = true.
Proof.
  intros Hb. unfold process.
  destruct (kind e).
  - (* IN_DELETE *)
    destruct (delete config) eqn:E; cbn [negb fst snd];
      (split; [exact Hb|]); [|intros x []].
    intros x [<-|[]]. unfold permitted. cbn [call EventQueue.type].
    destruct (dir e); cbn; exact E.
  - (* IN_CREATE *)
    destruct (dir e && create_folder config) eqn:E1; cbn [fst snd].
    + split; [exact Hb|]. intros x [<-|[]]. unfold permitted.
      apply andb_true_iff in E1. destruct E1 as [_ E1].
      cbn. now rewrite E1.
    + destruct (negb (dir e) && create_file config) eqn:E2; cbn [fst snd];
        (split; [exact Hb|]); [|intros x []].
      intros x [<-|[]]. unfold permitted.
      apply andb_true_iff in E2. destruct E2 as [_ E2].
      cbn. now rewrite E2.
  - (* IN_CLOSE_WRITE *)
    destruct (close_write config && negb (dir e)) eqn:E; cbn [fst snd];
      (split; [exact Hb|]); [|intros x []].
    intros x [<-|[]]. unfold permitted.
    apply andb_true_iff in E. destruct E as [E _]. cbn. exact E.
  - (* IN_MODIFY *)
    destruct (modify config && negb (dir e)) eqn:E; cbn [fst snd];
      (split; [exact Hb|]); [|intros x []].
    intros x [<-|[]]. unfold permitted.
    apply andb_true_iff in E. destruct E as [E _]. cbn. exact E.
  - (* IN_ATTRIB *)
    destruct (attrib config) eqn:E; cbn [fst snd];
      (split; [exact Hb|]); [|intros x []].
    intros x [<-|[]]. unfold permitted. cbn. exact E.
  - (* IN_MOVED_FROM *)
    destruct (move_from config) eqn:E; cbn [negb fst snd].
    + split; [reflexivity | intros x []].
    + split; [exact Hb | intros x []].
  - (* IN_MOVED_TO *)
    destruct (move_to config) eqn:E; cbn [negb fst snd];
      [|split; [exact Hb | intros x []]].
    destruct (buffer_get (cookie e) b) as [mv|] eqn:Eg; cbn [fst snd].
    + assert (Hmf : move_from config = true)
        by (apply Hb; intros ->; discriminate).
      split; [intros _; exact Hmf|].
      intros x [<-|[]]. unfold permitted. cbn. now rewrite Hmf, E.
    + split; [exact Hb|]. intros x [<-|[]]. unfold permitted.
      destruct (dir e); cbn; rewrite E; now rewrite orb_true_r.
Qed.

(** X26 (core/monitor.py, the [process_IN_*] methods).  Every call the
    handler makes carries one of the eight event types of the pipeline,
    and one the configuration allows: a deletion only with [delete], a
    CLOSE_WRITE, MODIFY or ATTRIB only with its switch, a MOVE only with
    both move switches, a creation only with its creation switch or, for
    a file or directory moved in, with [move_to]. *)
Theorem handler_reports_what_is_configured (config : InotifyConfig)
    (events : list RawEvent) (x : EventQueue.Event) :
  In x (snd (process_all config [] events)) -> permitted config x = true.
Proof.
  assert (H : forall es b,
             (b <> [] -> move_from config = true) ->
             forall x, In x (snd (process_all config b es)) ->
                       permitted config x = true).
  { induction es as [|e es IH]; intros b Hb y.
    - unfold process_all. cbn. intros [].
    - rewrite process_all_cons. cbn [snd].
      destruct (process_permitted config b e Hb) as [Hb' Hp].
      intros Hy. apply in_app_or in Hy. destruct Hy as [Hy|Hy].
      + now apply Hp.
      + now apply (IH _ Hb'). }
  apply H. congruence.
Qed.

Lemma handler_reports_what_is_configured_witness :
  permitted default_config (call "CREATE_FILE" "/w/in.txt") = true.
Proof.
  apply (handler_reports_what_is_configured default_config
           [mkRawEvent IN_MOVED_TO false "/w/in.txt" 3]).
  now left.
Defined.

End MonitorProps.

(* ===================================================================== *)
(** ** From the monitor through the filter to the queue *)
(* ===================================================================== *)

Module EngineEntryProps.
Import PyStr FileMonitor SersyncEngine.

Section WithRegex.
Variable Regex : Type.
Variable re_match : Regex -> string -> bool.

(** X27 (core/monitor.py [process_IN_MOVED_FROM] and
    [process_IN_MOVED_TO], core/engine.py [_on_file_event],
    core/filter.py [should_ignore]).  The filter sees the source path of
    a move only.  A file written under a temporary name and then renamed
    into place, whatever its final name, reaches the engine as one MOVE
    from the temporary name and is dropped there: the event queue stays
    as it was and one more file counts as filtered. *)
Theorem renamed_temporary_file_is_not_queued (self : SersyncEngine.t Regex)
    (clock : nat -> Q) (k : nat) (config : InotifyConfig)
    (buffer : MoveBuffer) (c : Z) (src dst : string) (d d' : bool) :
  move_from config = true ->
  move_to config = true ->
  FileFilter.temp_patterns (file_filter self)
  = FileFilter.default_temp_patterns ->
  FileFilter.temp_name (FileFilter.filename src) ->
  on_file_events re_match self clock k
    (snd (process_all config buffer
            [mkRawEvent IN_MOVED_FROM d src c;
             mkRawEvent IN_MOVED_TO d' dst c]))
  = mk (file_filter self) (event_queue self) (files_filtered self + 1)%Z.
Proof.
  intros Hf Ht Hpat Htemp.
  assert (Hcalls : snd (process_all config buffer
                          [mkRawEvent IN_MOVED_FROM d src c;
                           mkRawEvent IN_MOVED_TO d' dst c])
                   = [call_move src dst d']).
  { assert (H1 : process config buffer (mkRawEvent IN_MOVED_FROM d src c)
                 = (buffer_set c (src, d) buffer, [])).
    { unfold process. cbn [kind]. now rewrite Hf. }
    assert (H2 : process config (buffer_set c (src, d) buffer)
                   (mkRawEvent IN_MOVED_TO d' dst c)
                 = (buffer_del c (buffer_set c (src, d) buffer),
                    [call_move src dst d'])).
    { unfold process. cbn [kind cookie pathname dir]. rewrite Ht.
      cbn [negb]. rewrite MonitorProps.buffer_get_set, Z.eqb_refl.
      reflexivity. }
    rewrite MonitorProps.process_all_cons, H1. cbn [fst snd app].
    rewrite MonitorProps.process_all_cons, H2. reflexivity. }
  rewrite Hcalls. cbn [on_file_events]. unfold _on_file_event.
  cbn [call_move EventQueue.path].
  assert (Hig : FileFilter.should_ignore re_match (file_filter self) src
                = true).
  { unfold FileFilter.should_ignore, FileFilter._is_temp_file.
    rewrite Hpat.
    apply FilterProps.default_patterns_match in Htemp. now rewrite Htemp. }
  now rewrite Hig.
Qed.

End WithRegex.

Lemma renamed_temporary_file_is_not_queued_witness :
  let self :=
    mk (FileFilter.init FileFilter.sample_compile false [] true)
       (EventQueue.init 5 10000 0) 0 in
  on_file_events FileFilter.sample_match self (fun _ => 1%Q) 0
    (snd (process_all default_config []
            [mkRawEvent IN_MOVED_FROM false "/w/.report.txt.tmp" 9;
             mkRawEvent IN_MOVED_TO false "/w/report.txt" 9]))
  = mk (FileFilter.init FileFilter.sample_compile false [] true)
       (EventQueue.init 5 10000 0) 1.
Proof.
  cbn zeta.
  apply (renamed_temporary_file_is_not_queued string FileFilter.sample_match
           (mk (FileFilter.init FileFilter.sample_compile false [] true)
               (EventQueue.init 5 10000 0) 0)
           (fun _ => 1%Q) 0 default_config [] 9 "/w/.report.txt.tmp"
           "/w/report.txt" false false).
  - reflexivity.
  - reflexivity.
  - reflexivity.
  - left. exists ".tmp". split; [cbn; tauto|].
    exists ".report.txt". split; [reflexivity | left; reflexivity].
Defined.

End EngineEntryProps.

(* ===================================================================== *)
(** ** Cleaning up conflict backups *)
(* ===================================================================== *)

Module BackupCleanupProps.
Import PyStr MetadataManager.

Lemma backup_gt_false (x y : Q * string) :
  backup_gt y x = false -> fst y <= fst x.
Proof.
  unfold backup_gt. intros H. apply orb_false_iff in H. destruct H as [H _].
  apply negb_false_iff in H. now apply Qle_bool_iff.
Qed.

Lemma backup_gt_true (x y : Q * string) :
  backup_gt y x = true -> fst x <= fst y.
Proof.
  unfold backup_gt. intros H. apply orb_true_iff in H. destruct H as [H|H].
  - apply negb_true_iff in H.
    destruct (Qlt_le_dec (fst x) (fst y)) as [Hl|Hl].
    + now apply Qlt_le_weak.
    + apply Qle_bool_iff in Hl. congruence.
  - apply andb_true_iff in H. destruct H as [H _].
    apply Qeq_bool_iff in H. rewrite H. apply Qle_refl.
Qed.

Lemma insert_backup_perm (x : Q * string) (l : list (Q * string)) :
  Permutation (x :: l) (insert_backup x l).
Proof.
  induction l as [|y l IH]; cbn [insert_backup]; [reflexivity|].
  destruct (backup_gt y x); [|reflexivity].
  rewrite perm_swap. now constructor.
Qed.

Lemma sort_backups_perm (l : list (Q * string)) :
  Permutation l (sort_backups l).
Proof.
  induction l as [|x l IH]; cbn [sort_backups fold_right]; [reflexivity|].
  rewrite <- insert_backup_perm. now constructor.
Qed.

Lemma insert_backup_sorted (x : Q * string) (l : list (Q * string)) :
  StronglySorted (fun a b => fst b <= fst a) l ->
  StronglySorted (fun a b => fst b <= fst a) (insert_backup x l).
Proof.
  induction l as [|y l IH]; intros Hs; cbn [insert_backup].
  - repeat constructor.
  - inversion Hs as [|? ? Hl Hy]; subst.
    destruct (backup_gt y x) eqn:E.
    + constructor; [now apply IH|].
      apply Forall_forall. intros z Hz.
      apply (Permutation_in _ (Permutation_sym (insert_backup_perm x l)))
        in Hz.
      destruct Hz as [<-|Hz].
      * now apply backup_gt_true.
      * rewrite Forall_forall in Hy. now apply Hy.
    + constructor; [exact Hs|].
      apply backup_gt_false in E.
      constructor; [exact E|].
      apply Forall_forall. intros z Hz.
      rewrite Forall_forall in Hy. apply Qle_trans with (fst y); auto.
Qed.

Lemma sort_backups_sorted (l : list (Q * string)) :
  StronglySorted (fun a b => fst b <= fst a) (sort_backups l).
Proof.
  induction l as [|x l IH]; cbn [sort_backups fold_right].
  - constructor.
  - now apply insert_backup_sorted.
Qed.

Lemma unlink_all_In (unlink_ok : string -> bool) (victims : list string)
    (p : string) :
  In p (unlink_all unlink_ok victims) -> In p victims.
Proof.
  induction victims as [|v victims IH]; cbn [unlink_all]; [intros []|].
  destruct (unlink_ok v); [|intros []].
  intros [<-|H]; [now left | right; auto].
Qed.

Lemma unlink_all_every (unlink_ok : string -> bool) (victims : list string) :
  (forall p, unlink_ok p = true) -> unlink_all unlink_ok victims = victims.
Proof.
  intros H. induction victims as [|v victims IH]; cbn [unlink_all]; auto.
  now rewrite H, IH.
Qed.

Lemma sorted_split_before (l1 l2 : list (Q * string)) (x : Q * string) :
  StronglySorted (fun a b => fst b <= fst a) (l1 ++ x :: l2) ->
  Forall (fun k => fst x <= fst k) l1.
Proof.
  induction l1 as [|y l1 IH]; cbn [app]; intros Hs; [constructor|].
  inversion Hs as [|? ? Hl Hy]; subst. constructor.
  - rewrite Forall_forall in Hy. apply Hy. apply in_or_app. right. now left.
  - now apply IH.
Qed.

(** X28 (metadata_manager.py, [cleanup_old_backups]).  For a limit that
    is not negative, the cleanup never removes one of the newest
    backups: whenever a file is removed, at least [max_backups] other
    backups of the directory are at least as new and stay.  When every
    removal goes through, exactly the backups beyond the limit are
    removed. *)
Theorem cleanup_keeps_the_newest (backup_files : list (Q * string))
    (unlink_ok : string -> bool) (max_backups : Z) :
  (0 <= max_backups)%Z ->
  let removed := cleanup_old_backups (Some backup_files) unlink_ok max_backups in
  (forall p, In p removed ->
     exists m newer others,
       Permutation backup_files (newer ++ (m, p) :: others) /\
       (Z.to_nat max_backups <= length newer)%nat /\
       Forall (fun k => m <= fst k) newer) /\
  ((forall p, unlink_ok p = true) ->
   length removed = (length backup_files - Z.to_nat max_backups)%nat).
Proof.
  intros Hmax. cbn zeta. unfold cleanup_old_backups, slice_from.
  apply Z.leb_le in Hmax. rewrite Hmax.
  set (n := Z.to_nat max_backups).
  set (sorted := sort_backups backup_files).
  split.
  - intros p Hp. apply unlink_all_In in Hp.
    apply in_map_iff in Hp. destruct Hp as ([m q] & Hq & Hin).
    cbn [snd] in Hq. subst q.
    apply in_split in Hin. destruct Hin as (l1 & l2 & Hsplit).
    exists m, (firstn n sorted ++ l1), l2.
    assert (Hsorted : sorted = (firstn n sorted ++ l1) ++ (m, p) :: l2).
    { rewrite <- app_assoc, <- Hsplit. symmetry. apply firstn_skipn. }
    split; [|split].
    + rewrite <- Hsorted. apply sort_backups_perm.
    + rewrite length_app, firstn_length_le; [lia|].
      assert (Hlen : length (skipn n sorted) <> 0%nat)
        by (rewrite Hsplit, length_app; cbn [length]; lia).
      rewrite length_skipn in Hlen. lia.
    + apply (sorted_split_before _ l2 (m, p)).
      rewrite <- Hsorted. apply sort_backups_sorted.
  - intros Hok. rewrite (unlink_all_every _ _ Hok).
    rewrite length_map, length_skipn.
    unfold sorted.
    now rewrite <- (Permutation_length (sort_backups_perm backup_files)).
Qed.

Lemma cleanup_keeps_the_newest_witness :
  cleanup_old_backups (Some backups_sample) unlink_fine 2
  = ["a.txt.conflict.1.n"] /\
  length (cleanup_old_backups (Some backups_sample) unlink_fine 2)
  = (length backups_sample - Z.to_nat 2)%nat.
Proof.
  split; [vm_compute; reflexivity|].
  apply (cleanup_keeps_the_newest backups_sample unlink_fine 2); [lia|].
  reflexivity.
Defined.

End BackupCleanupProps.

(* ===================================================================== *)
(** ** The counters of the engine and of the dispatcher *)
(* ===================================================================== *)

Module EngineCounterProps.
Import PyStr SyncEngine SersyncEngine.

Lemma count_partition (l : list RemoteResult) :
  (length (filter rr_success l)
   + length (filter (fun r => negb (rr_success r)) l))%nat
  = length l.
Proof.
  induction l as [|x l IH]; auto. cbn [filter].
  destruct (rr_success x); cbn [negb length]; lia.
Qed.

Lemma all_success_no_failure (l : list RemoteResult) :
  forallb rr_success l = true ->
  filter (fun r => negb (rr_success r)) l = [].
Proof.
  induction l as [|x l IH]; auto. cbn [forallb filter].
  intros H. apply andb_true_iff in H. destruct H as [Hx Hl].
  rewrite Hx. cbn [negb]. auto.
Qed.

(** What holds of the counters after any number of events. *)
Lemma process_event_invariant (decode : string -> string) (step : Step)
    (c : Counters) (se : SyncEngine.t) (ledger : option LedgerFile)
    (k : nat) :
  sync_failed c = Z.of_nat (failed_syncs (stats se)) ->
  (sync_success c <= Z.of_nat (success_syncs (stats se)))%Z ->
  total_syncs (stats se) = (k * length (remotes se))%nat ->
  (0 <= files_synced c <= Z.of_nat k)%Z ->
  let r := _process_event (step_fs step) decode (step_timestamp step)
             (step_spawn step) c se ledger (step_event step) in
  let c' := fst (fst r) in
  let se' := snd (fst r) in
  remotes se' = remotes se /\
  sync_failed c' = Z.of_nat (failed_syncs (stats se')) /\
  (sync_success c' <= Z.of_nat (success_syncs (stats se')))%Z /\
  total_syncs (stats se') = (S k * length (remotes se'))%nat /\
  (0 <= files_synced c' <= Z.of_nat (S k))%Z.
Proof.
  intros Hf Hs Ht Hn. cbn zeta.
  unfold _process_event, sync_file.
  cbn [fst snd all_success results stats remotes total_syncs success_syncs
       failed_syncs].
  set (st := sync_loop _ _ _ _ _ _ _ _ _ _).
  assert (Hlen : length (ls_results st) = length (remotes se)).
  { pose proof (SyncFileProps.sync_loop_remotes (step_fs step) decode
                  (step_timestamp step) (step_spawn step) se
                  (EventQueue.path (step_event step))
                  (EventQueue.type (step_event step)) (remotes se) 0
                  (mkLoopState [] [] ledger)) as H.
    fold st in H. cbn [ls_results map app] in H.
    rewrite <- (length_map rr_remote), H. apply length_map. }
  pose proof (count_partition (ls_results st)) as Hp.
  unfold count.
  destruct (forallb rr_success (ls_results st)) eqn:E;
    cbn [fst snd files_synced sync_success sync_failed].
  - rewrite (all_success_no_failure _ E) in *. cbn [length] in *.
    repeat split; try lia.
  - repeat split; try lia.
Qed.

(** X29 (core/engine.py [_process_event] over core/sync_engine.py
    [sync_file]).  Starting from zero, after any sequence of events: the
    engine's failure counter equals the dispatcher's; the engine's
    success counter is at most the dispatcher's, because an event with a
    failed remote adds nothing to it although the dispatcher counts the
    remotes that succeeded; the dispatcher's total is the number of
    events times the number of remotes; and no more files count as
    synced than events were processed. *)
Theorem engine_and_dispatcher_counters (decode : string -> string)
    (steps : list Step) (config : RsyncConfig) (remote_list : list RemoteConfig)
    (watch : PosixPath.t) (fail_log : string) (ledger : option LedgerFile) :
  let r :=
    process_events decode steps
      (mkCounters 0 0 0,
       SyncEngine.mk config remote_list watch fail_log (mkStats 0 0 0 0),
       ledger) in
  let c := fst (fst r) in
  let se := snd (fst r) in
  sync_failed c = Z.of_nat (failed_syncs (stats se)) /\
  (sync_success c <= Z.of_nat (success_syncs (stats se)))%Z /\
  total_syncs (stats se) = (length steps * length remote_list)%nat /\
  (0 <= files_synced c <= Z.of_nat (length steps))%Z.
Proof.
  cbn zeta. unfold process_events.
  assert (H : forall steps k c se ledger,
             remotes se = remote_list ->
             sync_failed c = Z.of_nat (failed_syncs (stats se)) ->
             (sync_success c <= Z.of_nat (success_syncs (stats se)))%Z ->
             total_syncs (stats se) = (k * length (remotes se))%nat ->
             (0 <= files_synced c <= Z.of_nat k)%Z ->
             let r :=
               fold_left
                 (fun s step =>
                    _process_event (step_fs step) decode (step_timestamp step)
                      (step_spawn step) (fst (fst s)) (snd (fst s)) (snd s)
                      (step_event step))
                 steps (c, se, ledger) in
             sync_failed (fst (fst r))
             = Z.of_nat (failed_syncs (stats (snd (fst r)))) /\
             (sync_success (fst (fst r))
              <= Z.of_nat (success_syncs (stats (snd (fst r)))))%Z /\
             total_syncs (stats (snd (fst r)))
             = ((k + length steps) * length remote_list)%nat /\
             (0 <= files_synced (fst (fst r))
              <= Z.of_nat (k + length steps))%Z).
  { clear. induction steps as [|step steps IH];
      intros k c se ledger Hr Hf Hs Ht Hn; cbn [fold_left length].
    - cbn [fst snd]. rewrite Nat.add_0_r, <- Hr. auto.
    - cbn [fst snd].
      destruct (process_event_invariant decode step c se ledger k Hf Hs Ht Hn)
        as (Hr' & Hf' & Hs' & Ht' & Hn').
      cbn zeta in *.
      destruct (_process_event (step_fs step) decode (step_timestamp step)
                  (step_spawn step) c se ledger (step_event step))
        as [[c' se'] ledger'] eqn:E.
      cbn [fst snd] in *.
      replace (k + S (length steps))%nat with (S k + length steps)%nat by lia.
      apply IH; auto. congruence. }
  apply (H steps 0%nat); cbn; auto; lia.
Qed.

End EngineCounterProps.

(* ===================================================================== *)
(** ** Full synchronisation *)
(* ===================================================================== *)

Module FullSyncProps.
Import PyStr PyStrFacts SyncEngine.

Lemma full_dir_cmd_ends (self : SyncEngine.t) (remote : RemoteConfig)
    (filters : option (list string)) :
  exists front root,
    full_dir_cmd self remote filters
    = front ++ [(PosixPath.str (watch_path self) ++ "/")%string; root] /\
    root = (if ssh_enabled (config self)
            then ip remote ++ ":" ++ name remote ++ "/"
            else match auth_users (config self) with
                 | Some u => if truthy_str (Some u) then u ++ "@" else ""
                 | None => ""
                 end ++ ip remote ++ "::" ++ name remote ++ "/")%string.
Proof.
  unfold full_dir_cmd.
  destruct (ssh_enabled (config self)); eexists; eexists;
    (split; [reflexivity|]); reflexivity.
Qed.

Lemma build_rsync_cmd_ends (fs_exists : string -> bool) (self : SyncEngine.t)
    (source : string) (remote : RemoteConfig) (event_type : string) :
  exists front src,
    _build_rsync_cmd fs_exists self source remote event_type
    = front
      ++ [src;
          ((if ssh_enabled (config self)
            then ip remote ++ ":" ++ name remote ++ "/"
            else match auth_users (config self) with
                 | Some u => if truthy_str (Some u) then u ++ "@" else ""
                 | None => ""
                 end ++ ip remote ++ "::" ++ name remote ++ "/")
           ++ relative_path self src)%string] /\
    src = if is_delete event_type then delete_source fs_exists source
          else source.
Proof.
  unfold _build_rsync_cmd.
  destruct (ssh_enabled (config self)); eexists; eexists;
    (split; [|reflexivity]); rewrite ?append_assoc; cbn [append];
    reflexivity.
Qed.

(** X30 (core/sync_engine.py: [sync_full_directory], [_rsync_full_dir],
    with [_build_rsync_cmd]).  A full synchronisation reports one result
    per remote, in order.  Its command copies the watched root, written
    with a trailing slash, to the root of the remote module; the
    destination of a per-file command is that root followed by the path
    of the file relative to the watched root.  A remote succeeds exactly
    when its process exits with code 0, and [all_success] holds exactly
    when every remote does. *)
Theorem full_sync_policy (fs_exists : string -> bool)
    (decode : string -> string) (spawn : nat -> list string -> FullResult)
    (self : SyncEngine.t) (filters : option (list string))
    (source event_type : string) (remote : RemoteConfig) :
  map fr_remote (fst (sync_full_directory decode spawn self filters))
  = map (fun r => (ip r ++ "::" ++ name r)%string) (remotes self) /\
  (exists root front1 front2 src,
     full_dir_cmd self remote filters
     = front1 ++ [(PosixPath.str (watch_path self) ++ "/")%string; root] /\
     _build_rsync_cmd fs_exists self source remote event_type
     = front2 ++ [src; (root ++ relative_path self src)%string]) /\
  (snd (sync_full_directory decode spawn self filters) = true <->
   forall i r, In (i, r) (numbered (remotes self)) ->
     exists so se,
       spawn i (full_dir_cmd self r filters) = FullExited 0 so se).
Proof.
  split; [|split].
  - unfold sync_full_directory, numbered. cbn [fst].
    rewrite map_map. cbn [fr_remote].
    generalize 0%nat.
    induction (remotes self) as [|r l IH]; intros n; [reflexivity|].
    cbn [length seq combine map snd]. now rewrite IH.
  - destruct (full_dir_cmd_ends self remote filters)
      as (front1 & root & H1 & Hroot).
    destruct (build_rsync_cmd_ends fs_exists self source remote event_type)
      as (front2 & src & H2 & _).
    exists root, front1, front2, src. split; [exact H1|].
    rewrite H2, Hroot. reflexivity.
  - unfold sync_full_directory. cbn [snd].
    rewrite forallb_forall. split.
    + intros H i r Hin.
      specialize (H _ (in_map _ _ _ Hin)). cbn [fr_success fst snd] in H.
      unfold _rsync_full_dir in H.
      destruct (spawn i (full_dir_cmd self r filters)) as [rc so se|msg];
        [|discriminate].
      cbn [success] in H. apply Z.eqb_eq in H. subst rc. eauto.
    + intros H x Hx. apply in_map_iff in Hx.
      destruct Hx as ([i r] & <- & Hin). cbn [fr_success fst snd].
      destruct (H i r Hin) as (so & se & Hs).
      unfold _rsync_full_dir. now rewrite Hs.
Qed.

End FullSyncProps.

(* ===================================================================== *)
(** ** The shell on the ledger *)
(* ===================================================================== *)

Module BashProps.
Import PyStr PyStrFacts FailLogExecutor FailLogProps RetryScript Bash.
Import SyncEngine(LedgerFile, mkLedgerFile, content, executable).

(** *** Characters and quotes *)

Lemma prefix_decompose (p s : string) :
  String.prefix p s = true -> exists t, s = (p ++ t)%string.
Proof.
  revert s. induction p as [|a p IH]; intros s H; [now exists s|].
  destruct s as [|b s]; [discriminate|]. cbn [String.prefix] in H.
  destruct (ascii_dec a b) as [<-|]; [|discriminate].
  destruct (IH s H) as [t ->]. now exists t.
Qed.

Lemma contains_char_cons (d c : ascii) (s : string) :
  contains (String d "") (String c s)
  = Ascii.eqb c d || contains (String d "") s.
Proof.
  cbn [contains String.prefix].
  destruct (ascii_dec d c) as [<-|Hn].
  - now rewrite prefix_nil, Ascii.eqb_refl.
  - replace (Ascii.eqb c d) with false; [reflexivity|].
    symmetry. apply Ascii.eqb_neq. congruence.
Qed.

Lemma contains_char_app (d : ascii) (a b : string) :
  contains (String d "") (a ++ b)
  = contains (String d "") a || contains (String d "") b.
Proof.
  induction a as [|c a IH]; [reflexivity|].
  change (String c a ++ b)%string with (String c (a ++ b)).
  now rewrite !contains_char_cons, IH, orb_assoc.
Qed.

Lemma snoc_app (s t : string) (c : ascii) :
  (snoc s c ++ t)%string = (s ++ String c t)%string.
Proof. unfold snoc. now rewrite append_assoc. Qed.

(** Inside single quotes every character but the quote stands for
    itself. *)
Lemma scan_single_app (vs : Vars) (st : Z) (t : string) :
  contains "'" t = false ->
  forall (done : list string) (cur rest : string),
    scan vs st (mkScan (Text Single) done cur) (t ++ rest)
    = scan vs st (mkScan (Text Single) done (cur ++ t)) rest.
Proof.
  induction t as [|c t IH]; intros Hq done cur rest.
  - now rewrite append_nil_r.
  - rewrite contains_char_cons in Hq. apply orb_false_iff in Hq.
    destruct Hq as [Hc Ht].
    change (String c t ++ rest)%string with (String c (t ++ rest)).
    cbn [scan scan_char mode finished current text_char].
    change SQ with "'"%char. rewrite Hc.
    rewrite (IH Ht). now rewrite snoc_app.
Qed.

Lemma words_single_quoted (vs : Vars) (st : Z) (t : string) :
  contains "'" t = false ->
  words vs st ("'" ++ t ++ "'") = Some [t].
Proof.
  intros Hq. unfold words.
  change ("'" ++ t ++ "'")%string with (String "'" (t ++ "'")).
  cbn [scan scan_char mode finished current text_char blank_char].
  change (blank_char "'") with false. cbn iota.
  change (Ascii.eqb "'" SQ) with true. cbn iota.
  rewrite (scan_single_app vs st t Hq). reflexivity.
Qed.

(** *** Plain words *)

Lemma plain_not_space (c : ascii) :
  plain_char c = true -> isspace c = false /\ blank_char c = false.
Proof.
  destruct c as [[|] [|] [|] [|] [|] [|] [|] [|]]; vm_compute;
    intros H; try discriminate H; split; reflexivity.
Qed.

Lemma plain_no_meta (c : ascii) :
  plain_char c = true ->
  Ascii.eqb c SQ = false /\ Ascii.eqb c DQ = false /\ Ascii.eqb c "$" = false.
Proof.
  destruct c as [[|] [|] [|] [|] [|] [|] [|] [|]]; vm_compute;
    intros H; try discriminate H; repeat split; reflexivity.
Qed.

(** Scanning plain text from inside or outside a word gives the words
    that splitting at blanks gives. *)
Lemma scan_plain (vs : Vars) (st : Z) (s : string) :
  plain_text s = true ->
  forall done,
    scan vs st (mkScan Gap done "") s
    = Some (done ++ match fst (split_ws_go s) with
                    | EmptyString => snd (split_ws_go s)
                    | w => w :: snd (split_ws_go s)
                    end)
    /\ forall cur,
         scan vs st (mkScan (Text Bare) done cur) s
         = Some (done ++ (cur ++ fst (split_ws_go s))%string
                   :: snd (split_ws_go s)).
Proof.
  unfold plain_text.
  induction s as [|c s IH]; intros Hp done.
  - cbn. rewrite app_nil_r. split; [reflexivity|].
    intros cur. now rewrite append_nil_r.
  - cbn [all_chars] in Hp. apply andb_true_iff in Hp. destruct Hp as [Hc Hs].
    specialize (IH Hs).
    cbn [scan scan_char mode finished current text_char split_ws_go].
    destruct (split_ws_go s) as [w ws] eqn:E. cbn [fst snd] in IH.
    apply orb_true_iff in Hc. destruct Hc as [Hc|Hc].
    + destruct (plain_not_space c Hc) as [Hsp Hbl].
      destruct (plain_no_meta c Hc) as (Hq & Hd & Hdol).
      rewrite Hsp, Hbl, Hq, Hd, Hdol, Hc. cbn [fst snd].
      split.
      * destruct (IH done) as [_ H]. rewrite H. reflexivity.
      * intros cur. destruct (IH done) as [_ H]. rewrite H.
        now rewrite snoc_app.
    + apply Ascii.eqb_eq in Hc. subst c.
      change (isspace " ") with true. change (blank_char " ") with true.
      cbn [fst snd]. split.
      * destruct (IH done) as [H _]. rewrite H. now destruct w.
      * intros cur. destruct (IH (done ++ [cur])) as [H _]. rewrite H.
        rewrite append_nil_r, <- app_assoc. now destruct w.
Qed.

Lemma words_plain (vs : Vars) (st : Z) (s : string) :
  plain_text s = true -> words vs st s = Some (split_ws s).
Proof.
  intros Hp. unfold words, split_ws.
  destruct (scan_plain vs st s Hp []) as [H _]. rewrite H.
  now destruct (split_ws_go s) as [[|c w] ws].
Qed.

(** *** The lines of an entry *)

Section WithPrograms.
Variable program : nat -> list string -> Z * list string.

Lemma plain_command_facts (cmd : string) :
  plain_command cmd = true ->
  wf_command cmd /\ contains "'" cmd = false /\ plain_text cmd = true
  /\ exists c t, cmd = ("rsync " ++ String c t)%string.
Proof.
  unfold plain_command. intros H. apply andb_true_iff in H.
  destruct H as [Hwf Hp]. split; [now apply well_formed_command_wf|].
  split; [|split; [exact Hp|]].
  - unfold well_formed_command in Hwf.
    apply andb_true_iff in Hwf. destruct Hwf as [Hwf _].
    apply andb_true_iff in Hwf. destruct Hwf as [_ Hq].
    now apply negb_true_iff in Hq.
  - pose proof (well_formed_command_wf cmd Hwf) as W.
    destruct (prefix_decompose _ _ (wf_rsync W)) as [[|c t] E]; [|eauto].
    pose proof (wf_rstrip W) as Hr. rewrite E in Hr. discriminate Hr.
Qed.

Lemma step_comment (frame_sh : Shell) (c : string) :
  filler c = true -> step_line program Outside frame_sh c = Reading Outside frame_sh.
Proof.
  unfold filler, step_line, classify. intros H.
  apply andb_true_iff in H. destruct H as [H _].
  apply andb_true_iff in H. destruct H as [H _].
  destruct (skip_blanks c) as [|a t]; [reflexivity|]. now rewrite H.
Qed.

Lemma step_echo_retrying (sh : Shell) (cmd : string) :
  contains "'" cmd = false ->
  step_line program Outside sh ("echo 'Retrying: " ++ cmd ++ "'")
  = Reading Outside
      (mkShell (vars sh) 0 (written sh ++ [("Retrying: " ++ cmd)%string])
               (started sh)).
Proof.
  intros Hq. unfold step_line.
  change (classify ("echo 'Retrying: " ++ cmd ++ "'"))
    with (Some (Echo ("'" ++ ("Retrying: " ++ cmd) ++ "'"))).
  cbn [exec_simple]. rewrite words_single_quoted; [reflexivity|].
  rewrite contains_char_app, Hq. reflexivity.
Qed.

Lemma step_run (sh : Shell) (cmd : string) :
  plain_command cmd = true ->
  step_line program Outside sh cmd
  = Reading Outside
      (mkShell (vars sh) (fst (program (started sh) (split_ws cmd)) mod 256)
               (written sh ++ snd (program (started sh) (split_ws cmd)))
               (S (started sh))).
Proof.
  intros Hp.
  destruct (plain_command_facts cmd Hp) as (_ & _ & Hpl & c & t & E).
  unfold step_line.
  assert (Hc : classify cmd = Some (Run cmd))
    by (rewrite E; vm_compute; reflexivity).
  rewrite Hc. cbn [exec_simple]. rewrite (words_plain _ _ cmd Hpl).
  now destruct (program (started sh) (split_ws cmd)).
Qed.

Lemma words_failed (n m rc st : Z) (cmd : string) :
  contains "'" cmd = false ->
  words (counters n m (Some rc)) st
    ("'FAILED: " ++ cmd ++ " (exit code: '$RETRY_RESULT')'")
  = Some [failed_line cmd (str_of_Z rc)].
Proof.
  intros Hq. unfold words.
  assert (E : ("'FAILED: " ++ cmd ++ " (exit code: '$RETRY_RESULT')'")%string
              = String "'" (("FAILED: " ++ cmd ++ " (exit code: ")
                              ++ "'$RETRY_RESULT')'"))
    by (rewrite !append_assoc; reflexivity).
  rewrite E.
  cbn [scan scan_char mode finished current text_char].
  change (blank_char "'") with false. cbn iota.
  change (Ascii.eqb "'" SQ) with true. cbn iota.
  rewrite scan_single_app
    by (rewrite !contains_char_app, Hq; reflexivity).
  unfold failed_line. rewrite <- !append_assoc. reflexivity.
Qed.

Lemma steps_cons (l : string) (rest : list string) (frame : Frame)
    (sh : Shell) :
  steps program (l :: rest) frame sh
  = match step_line program frame sh l with
    | Reading frame' sh' => steps program rest frame' sh'
    | other => other
    end.
Proof. reflexivity. Qed.

Lemma step_assign_result (n m : Z) (r : option Z) (st : Z)
    (out : list string) (k : nat) :
  step_line program Outside (mkShell (counters n m r) st out k)
    "RETRY_RESULT=$?"
  = Reading Outside (mkShell (counters n m (Some st)) 0 out k).
Proof. destruct r; reflexivity. Qed.

Lemma step_if_result (n m rc st : Z) (out : list string) (k : nat) :
  step_line program Outside (mkShell (counters n m (Some rc)) st out k)
    "if [ $RETRY_RESULT -eq 0 ]; then"
  = Reading (Inside (rc =? 0)%Z false [] false)
      (mkShell (counters n m (Some rc)) (if (rc =? 0)%Z then 0 else 1) out k).
Proof. reflexivity. Qed.

Lemma step_echo_success (holds : bool) (sh : Shell) (cmd : string) :
  contains "'" cmd = false ->
  step_line program (Inside holds false [] false) sh
    ("    echo 'SUCCESS: " ++ cmd ++ "'")
  = Reading
      (Inside holds false
         (if holds then [Echo ("'" ++ ("SUCCESS: " ++ cmd) ++ "'")] else [])
         true) sh.
Proof.
  intros Hq. unfold step_line.
  change (classify ("    echo 'SUCCESS: " ++ cmd ++ "'"))
    with (Some (Echo ("'" ++ ("SUCCESS: " ++ cmd) ++ "'"))).
  cbn [scans]. rewrite words_single_quoted
    by (rewrite contains_char_app, Hq; reflexivity).
  now destruct holds.
Qed.

Lemma step_else (holds : bool) (body : list Stmt) (sh : Shell) :
  step_line program (Inside holds false body true) sh "else"
  = Reading (Inside holds true body false) sh.
Proof. reflexivity. Qed.

Lemma step_echo_failed (holds : bool) (body : list Stmt) (n m rc st : Z)
    (out : list string) (k : nat) (cmd : string) :
  contains "'" cmd = false ->
  step_line program (Inside holds true body false)
    (mkShell (counters n m (Some rc)) st out k)
    ("    echo 'FAILED: " ++ cmd ++ " (exit code: '$RETRY_RESULT')'")
  = Reading
      (Inside holds true
         (if holds then body
          else body
               ++ [Echo ("'FAILED: " ++ cmd
                           ++ " (exit code: '$RETRY_RESULT')'")])
         true)
      (mkShell (counters n m (Some rc)) st out k).
Proof.
  intros Hq. unfold step_line.
  change (classify
            ("    echo 'FAILED: " ++ cmd ++ " (exit code: '$RETRY_RESULT')'"))
    with (Some (Echo ("'FAILED: " ++ cmd
                        ++ " (exit code: '$RETRY_RESULT')'"))).
  cbn [scans vars status]. rewrite (words_failed n m rc st cmd Hq).
  now destruct holds.
Qed.

Lemma step_count_failed (holds : bool) (body : list Stmt) (n m rc st : Z)
    (out : list string) (k : nat) :
  step_line program (Inside holds true body true)
    (mkShell (counters n m (Some rc)) st out k)
    "    FAILED_COUNT=$((FAILED_COUNT + 1))"
  = Reading
      (Inside holds true
         (if holds then body
          else body ++ [Assign "FAILED_COUNT" "$((FAILED_COUNT + 1))"])
         true)
      (mkShell (counters n m (Some rc)) st out k).
Proof. now destruct holds. Qed.

Lemma step_fi (holds : bool) (body : list Stmt) (sh : Shell) :
  step_line program (Inside holds true body true) sh "fi"
  = match exec_body program body sh with
    | Some (Next sh') => Reading Outside sh'
    | Some (Stop code sh') => Ended code sh'
    | None => Unknown
    end.
Proof.
  unfold step_line. change (classify "fi") with (Some Fi). cbn iota.
  now rewrite orb_true_r.
Qed.

Lemma step_count_retry (n m : Z) (r : option Z) (st : Z)
    (out : list string) (k : nat) :
  step_line program Outside (mkShell (counters n m r) st out k)
    "RETRY_COUNT=$((RETRY_COUNT + 1))"
  = Reading Outside (mkShell (counters (n + 1) m r) 0 out k).
Proof. destruct r; reflexivity. Qed.

Lemma body_success (sh : Shell) (cmd : string) :
  contains "'" cmd = false ->
  exec_body program [Echo ("'" ++ ("SUCCESS: " ++ cmd) ++ "'")] sh
  = Some (Next (mkShell (vars sh) 0
                        (written sh ++ [("SUCCESS: " ++ cmd)%string])
                        (started sh))).
Proof.
  intros Hq. cbn [exec_body exec_simple].
  rewrite words_single_quoted
    by (rewrite contains_char_app, Hq; reflexivity).
  reflexivity.
Qed.

Lemma body_failed (n m rc st : Z) (out : list string) (k : nat)
    (cmd : string) :
  contains "'" cmd = false ->
  exec_body program
    [Echo ("'FAILED: " ++ cmd ++ " (exit code: '$RETRY_RESULT')'");
     Assign "FAILED_COUNT" "$((FAILED_COUNT + 1))"]
    (mkShell (counters n m (Some rc)) st out k)
  = Some (Next (mkShell (counters n (m + 1) (Some rc)) 0
                        (out ++ [failed_line cmd (str_of_Z rc)]) k)).
Proof.
  intros Hq. cbn [exec_body exec_simple vars status written started].
  rewrite (words_failed n m rc st cmd Hq).
  reflexivity.
Qed.

(** One entry: the command is announced, run and reported, and the
    counters move. *)
Lemma steps_entry (cmd : string) (n m : Z) (r : option Z) (st : Z)
    (out : list string) (k : nat) (rest : list string) :
  plain_command cmd = true ->
  let rc := (fst (program k (split_ws cmd)) mod 256)%Z in
  let lines := snd (program k (split_ws cmd)) in
  steps program (entry_core cmd ++ rest) Outside
    (mkShell (counters n m r) st out k)
  = steps program rest Outside
      (mkShell (counters (n + 1) (if (rc =? 0)%Z then m else m + 1) (Some rc))
               0 (out ++ attempt_lines (mkAttempt cmd rc lines)) (S k)).
Proof.
  intros Hp rc lines.
  destruct (plain_command_facts cmd Hp) as (_ & Hq & _).
  unfold entry_core. cbn [app].
  rewrite steps_cons, (step_echo_retrying _ cmd Hq).
  cbn [vars written started].
  rewrite steps_cons, (step_run _ cmd Hp).
  cbn [vars written started]. fold rc lines.
  rewrite steps_cons, step_assign_result.
  rewrite steps_cons, step_if_result.
  rewrite steps_cons, (step_echo_success _ _ cmd Hq).
  rewrite steps_cons, step_else.
  rewrite steps_cons, (step_echo_failed _ _ _ _ _ _ _ _ cmd Hq).
  rewrite steps_cons, step_count_failed.
  rewrite steps_cons, step_fi.
  unfold attempt_lines, att_failed.
  cbn [att_command att_returncode att_stdout].
  destruct (rc =? 0)%Z eqn:E; cbn [negb app].
  - rewrite (body_success _ cmd Hq). cbn [vars written started].
    rewrite steps_cons, step_count_retry.
    rewrite <- !app_assoc. reflexivity.
  - rewrite (body_failed _ _ _ _ _ _ cmd Hq).
    rewrite steps_cons, step_count_retry.
    rewrite <- !app_assoc. reflexivity.
Qed.

(** *** The whole script *)

Lemma steps_top (top : list string) (rest : list string) (sh : Shell) :
  forallb filler top = true ->
  steps program (top ++ rest) Outside sh = steps program rest Outside sh.
Proof.
  induction top as [|l top IH]; intros H; [reflexivity|].
  cbn [forallb] in H. apply andb_true_iff in H. destruct H as [Hl Ht].
  cbn [app]. rewrite steps_cons, (step_comment sh l Hl). now apply IH.
Qed.

Lemma steps_init (rest : list string) :
  steps program (counters_init ++ rest) Outside (mkShell [] 0 [] 0)
  = steps program rest Outside (mkShell (counters 0 0 None) 0 [] 0).
Proof. reflexivity. Qed.

Lemma filter_failed_cons (a : Attempt) (l : list Attempt) :
  Z.of_nat (length (filter att_failed (a :: l)))
  = ((if (att_returncode a =? 0)%Z then 0 else 1)
     + Z.of_nat (length (filter att_failed l)))%Z.
Proof.
  cbn [filter]. unfold att_failed at 1.
  destruct (att_returncode a =? 0)%Z; cbn [negb length]; lia.
Qed.

Lemma steps_items (items : list Item) :
  forallb plain_item items = true ->
  forall (n m : Z) (r : option Z) (st : Z) (out : list string) (k : nat)
         (rest : list string),
  exists st' r',
    steps program (flat_map item_lines items ++ rest) Outside
      (mkShell (counters n m r) st out k)
    = steps program rest Outside
        (mkShell
           (counters
              (n + Z.of_nat (length (commands items)))
              (m + Z.of_nat
                     (length (filter att_failed
                                (attempts_of program k (commands items)))))
              r')
           st'
           (out ++ flat_map attempt_lines
                     (attempts_of program k (commands items)))
           (k + length (commands items))).
Proof.
  induction items as [|[line|cmd] items IH]; intros H n m r st out k rest.
  - exists st, r. cbn [flat_map commands attempts_of filter length app].
    rewrite !Z.add_0_r, app_nil_r, Nat.add_0_r. reflexivity.
  - cbn [forallb plain_item] in H. apply andb_true_iff in H.
    destruct H as [Hl Hi].
    destruct (IH Hi n m r st out k rest) as (st' & r' & E).
    exists st', r'. cbn [flat_map item_lines commands app].
    now rewrite steps_cons, (step_comment _ line Hl).
  - cbn [forallb plain_item] in H. apply andb_true_iff in H.
    destruct H as [Hc Hi].
    cbn [flat_map item_lines commands attempts_of]. rewrite <- app_assoc.
    rewrite (steps_entry cmd n m r st out k _ Hc). cbn zeta.
    set (rc := (fst (program k (split_ws cmd)) mod 256)%Z).
    set (lines := snd (program k (split_ws cmd))).
    destruct (IH Hi (n + 1)%Z (if (rc =? 0)%Z then m else (m + 1)%Z)
                (Some rc) 0%Z
                (out ++ attempt_lines (mkAttempt cmd rc lines)) (S k) rest)
      as (st' & r' & E).
    exists st', r'. rewrite E. f_equal. f_equal.
    + rewrite filter_failed_cons. cbn [att_returncode length flat_map].
      f_equal; [lia | destruct (rc =? 0)%Z; lia].
    + cbn [flat_map]. now rewrite app_assoc.
    + cbn [length]. lia.
Qed.

Lemma steps_footer (n m : Z) (r : option Z) (st : Z) (out : list string)
    (k : nat) :
  steps program footer_lines Outside (mkShell (counters n m r) st out k)
  = Ended (if (m =? 0)%Z then 0 else 1)
      (mkShell (counters n m r) 0 (out ++ summary n m) k).
Proof.
  replace (out ++ summary n m)
    with (((((out ++ ["=== FailLog Retry Summary ==="])
               ++ [("Total retry attempts: " ++ str_of_Z n)%string])
              ++ [("Failed attempts: " ++ str_of_Z m)%string])
             ++ [("Successful attempts: " ++ str_of_Z (n - m))%string])
            ++ [if (m =? 0)%Z
                then "All retries successful - clearing failLog"
                else "Some retries failed - will regenerate script with only failed commands"])
    by (unfold summary; rewrite <- !app_assoc; reflexivity).
  destruct r; destruct m; reflexivity.
Qed.

End WithPrograms.

(** *** The text of a plain ledger *)

Lemma join_app (a b : list string) :
  a <> [] -> b <> [] ->
  join NL (a ++ b) = (join NL a ++ NL ++ join NL b)%string.
Proof.
  induction a as [|x a IH]; [congruence|]. intros _ Hb.
  destruct a as [|y a].
  - destruct b as [|z b]; [congruence|]. reflexivity.
  - change ((x :: y :: a) ++ b) with (x :: y :: (a ++ b)).
    rewrite !join_cons2.
    change (y :: a ++ b) with ((y :: a) ++ b).
    rewrite IH by (discriminate || exact Hb).
    now rewrite !append_assoc.
Qed.

Lemma newlines_blank (k : nat) : blank (newlines k) = true.
Proof. induction k as [|k IH]; [reflexivity|]. cbn [newlines blank]. exact IH. Qed.

Lemma plain_text_without (d : ascii) (s : string) :
  plain_char d || Ascii.eqb d " " = false ->
  plain_text s = true -> contains (String d "") s = false.
Proof.
  intros Hd. unfold plain_text.
  induction s as [|c s IH]; intros H; [reflexivity|].
  cbn [all_chars] in H. apply andb_true_iff in H. destruct H as [Hc Hs].
  rewrite contains_char_cons, (IH Hs), orb_false_r.
  destruct (Ascii.eqb c d) eqn:E; [|reflexivity].
  apply Ascii.eqb_eq in E. subst c. congruence.
Qed.

Lemma contains_char_join (d : ascii) (lines : list string) :
  Ascii.eqb LF d = false ->
  Forall (fun l => contains (String d "") l = false) lines ->
  contains (String d "") (join NL lines) = false.
Proof.
  intros Hd. induction 1 as [|l lines Hl _ IH]; [reflexivity|].
  destruct lines as [|l' lines]; [exact Hl|].
  rewrite join_cons2, !contains_char_app, Hl, IH.
  unfold NL. rewrite contains_char_cons, Hd. reflexivity.
Qed.

Lemma contains_needs_char (d : ascii) (sub s : string) :
  contains (String d "") sub = true ->
  contains (String d "") s = false ->
  contains sub s = false.
Proof.
  intros Hsub Hs.
  destruct (contains sub s) eqn:E; [|reflexivity]. exfalso.
  assert (H : contains (String d "") s = true); [|congruence].
  clear Hs. induction s as [|c s IH].
  - cbn [contains] in E. rewrite orb_false_r in E.
    destruct sub; [discriminate Hsub | discriminate E].
  - change (contains sub (String c s))
      with (String.prefix sub (String c s) || contains sub s) in E.
    apply orb_true_iff in E. destruct E as [E|E].
    + destruct (prefix_decompose _ _ E) as [t ->].
      rewrite contains_char_app, Hsub. reflexivity.
    + rewrite contains_char_cons, (IH E). apply orb_true_r.
Qed.

Lemma filler_not_rsync (l : string) :
  filler l = true -> is_rsync_line l = false.
Proof.
  unfold filler. intros H.
  apply andb_true_iff in H. destruct H as [H _].
  apply andb_true_iff in H. destruct H as [H _].
  induction l as [|c l IH]; [reflexivity|].
  cbn [skip_blanks] in H. destruct (blank_char c) eqn:B.
  - assert (Hs : isspace c = true).
    { unfold blank_char in B. apply orb_true_iff in B.
      destruct B as [B|B]; apply Ascii.eqb_eq in B; subst c; reflexivity. }
    unfold is_rsync_line. rewrite (strip_cons_space c l Hs). now apply IH.
  - apply Ascii.eqb_eq in H. subst c.
    apply is_rsync_line_other; reflexivity.
Qed.

Lemma filler_facts (l : string) :
  filler l = true -> lf_free l /\ contains FailLogExecutor.DQ l = false.
Proof.
  unfold filler. intros H.
  apply andb_true_iff in H. destruct H as [H Hd].
  apply andb_true_iff in H. destruct H as [_ Hn].
  apply negb_true_iff in Hd, Hn. now split.
Qed.

Lemma plain_command_chars (cmd : string) :
  plain_command cmd = true -> contains FailLogExecutor.DQ cmd = false.
Proof.
  intros H. apply (plain_text_without (ascii_of_nat 34)); [reflexivity|].
  unfold plain_command in H. apply andb_true_iff in H. apply H.
Qed.

(** The lines of an entry: one command line, no line break and no double
    quote. *)
Lemma entry_core_facts (cmd : string) :
  plain_command cmd = true ->
  filter is_rsync_line (entry_core cmd) = [cmd]
  /\ Forall lf_free (entry_core cmd)
  /\ Forall (fun l => contains FailLogExecutor.DQ l = false) (entry_core cmd).
Proof.
  intros Hp. pose proof (plain_command_chars cmd Hp) as Hd.
  destruct (plain_command_facts cmd Hp) as (W & _).
  pose proof (generated_entry_filter 0 cmd W) as Hf.
  pose proof (generated_entry_lf_free 0 cmd W) as Hl.
  assert (E : generated_entry 0 cmd
              = "# Retry command 1 (previously failed)"
                :: entry_core cmd ++ [""]) by reflexivity.
  rewrite E in Hf, Hl. split; [|split].
  - cbn [filter] in Hf.
    change (is_rsync_line "# Retry command 1 (previously failed)")
      with false in Hf.
    rewrite filter_app in Hf. cbn [filter] in Hf.
    change (is_rsync_line "") with false in Hf.
    now rewrite app_nil_r in Hf.
  - apply Forall_inv_tail in Hl. apply Forall_app in Hl. apply Hl.
  - unfold entry_core, FailLogExecutor.DQ in *.
    repeat constructor; rewrite ?contains_char_app, ?Hd; reflexivity.
Qed.

Lemma items_facts (items : list Item) :
  forallb plain_item items = true ->
  filter is_rsync_line (flat_map item_lines items) = commands items
  /\ Forall lf_free (flat_map item_lines items)
  /\ Forall (fun l => contains FailLogExecutor.DQ l = false) (flat_map item_lines items)
  /\ Forall wf_command (commands items).
Proof.
  induction items as [|[line|cmd] items IH]; intros H.
  - repeat split; constructor.
  - cbn [forallb plain_item] in H. apply andb_true_iff in H.
    destruct H as [Hl Hi]. destruct (IH Hi) as (Hf & Hn & Hd & Hw).
    destruct (filler_facts line Hl) as [Hln Hld].
    cbn [flat_map item_lines commands app filter].
    rewrite (filler_not_rsync line Hl).
    repeat split; trivial; constructor; trivial.
  - cbn [forallb plain_item] in H. apply andb_true_iff in H.
    destruct H as [Hc Hi]. destruct (IH Hi) as (Hf & Hn & Hd & Hw).
    destruct (entry_core_facts cmd Hc) as (Hcf & Hcn & Hcd).
    destruct (plain_command_facts cmd Hc) as (W & _).
    cbn [flat_map item_lines commands].
    rewrite filter_app, Hcf, Hf.
    repeat split; trivial; try (apply Forall_app; split; trivial).
    constructor; trivial.
Qed.

Lemma top_facts (top : list string) :
  forallb filler top = true ->
  filter is_rsync_line top = []
  /\ Forall lf_free top
  /\ Forall (fun l => contains FailLogExecutor.DQ l = false) top.
Proof.
  induction top as [|l top IH]; intros H; [repeat split; constructor|].
  cbn [forallb] in H. apply andb_true_iff in H. destruct H as [Hl Ht].
  destruct (IH Ht) as (Hf & Hn & Hd).
  destruct (filler_facts l Hl) as [Hln Hld].
  cbn [filter]. rewrite (filler_not_rsync l Hl).
  repeat split; trivial; constructor; trivial.
Qed.

(** The script lines of a plain ledger. *)
Lemma script_lines_facts (top : list string) (items : list Item) :
  forallb filler top = true ->
  forallb plain_item items = true ->
  let lines := script_lines ("#!/bin/bash" :: top) items in
  filter is_rsync_line lines = commands items
  /\ Forall lf_free lines
  /\ Forall (fun l => contains FailLogExecutor.DQ l = false) lines
  /\ Forall wf_command (commands items).
Proof.
  intros Ht Hi. cbn zeta. unfold script_lines, counters_init.
  destruct (top_facts top Ht) as (Tf & Tn & Td).
  destruct (items_facts items Hi) as (If & In' & Id & Iw).
  split; [|split; [|split]]; trivial.
  - cbn [app filter].
    change (is_rsync_line "#!/bin/bash") with false. cbn iota.
    rewrite filter_app, Tf. cbn [app filter].
    change (is_rsync_line "RETRY_COUNT=0") with false.
    change (is_rsync_line "FAILED_COUNT=0") with false. cbn iota.
    exact If.
  - constructor; [reflexivity|]. apply Forall_app. split; trivial.
    repeat (constructor; [reflexivity|]). exact In'.
  - constructor; [reflexivity|]. apply Forall_app. split; trivial.
    repeat (constructor; [reflexivity|]). exact Id.
Qed.

Lemma script_lines_last (top : list string) (items : list Item) :
  ends_with_entry items ->
  exists front,
    front <> [] /\
    script_lines ("#!/bin/bash" :: top) items
    = front ++ ["RETRY_COUNT=$((RETRY_COUNT + 1))"].
Proof.
  intros (its & cmd & ->). unfold script_lines.
  rewrite flat_map_app. cbn [flat_map item_lines]. rewrite app_nil_r.
  exists (("#!/bin/bash" :: top) ++ counters_init
            ++ flat_map item_lines its
            ++ removelast (entry_core cmd)).
  split; [discriminate|].
  rewrite <- !app_assoc. do 3 apply f_equal. reflexivity.
Qed.

Lemma rstrip_ledger_text (top : list string) (items : list Item) (k : nat) :
  ends_with_entry items ->
  rstrip (ledger_text ("#!/bin/bash" :: top) items k)
  = join NL (script_lines ("#!/bin/bash" :: top) items).
Proof.
  intros He. unfold ledger_text.
  rewrite (rstrip_app_blank _ _ (newlines_blank k)).
  destruct (script_lines_last top items He) as (front & Hne & ->).
  rewrite join_app by (exact Hne || discriminate).
  rewrite rstrip_app_nonempty by (vm_compute; discriminate).
  rewrite rstrip_app_nonempty by (vm_compute; discriminate).
  reflexivity.
Qed.

Lemma ledger_text_no_marker (top : list string) (items : list Item)
    (k : nat) :
  forallb filler top = true ->
  forallb plain_item items = true ->
  contains result_check_marker (ledger_text ("#!/bin/bash" :: top) items k)
  = false.
Proof.
  intros Ht Hi.
  destruct (script_lines_facts top items Ht Hi) as (_ & _ & Hd & _).
  apply (contains_needs_char (ascii_of_nat 34)); [reflexivity|].
  unfold ledger_text. rewrite contains_char_app.
  rewrite (contains_char_join (ascii_of_nat 34)); [|reflexivity | exact Hd].
  clear. induction k as [|k IH]; [reflexivity|].
  cbn [newlines]. rewrite contains_char_cons. exact IH.
Qed.

Lemma recorded_ledger_text (top : list string) (items : list Item)
    (k : nat) :
  forallb filler top = true ->
  forallb plain_item items = true ->
  recorded_commands (ledger_text ("#!/bin/bash" :: top) items k)
  = commands items.
Proof.
  intros Ht Hi.
  destruct (script_lines_facts top items Ht Hi) as (Hf & Hn & _ & Hw).
  unfold ledger_text.
  rewrite (recorded_commands_app_blank _ _ (newlines_blank k)).
  unfold recorded_commands, splitlines.
  rewrite split_join; [|discriminate | exact Hn].
  rewrite Hf. now apply map_strip_wf.
Qed.

(** *** The shell on a plain ledger *)

Lemma attempts_of_commands (program : nat -> list string -> Z * list string)
    (cmds : list string) :
  forall k, map att_command (attempts_of program k cmds) = cmds.
Proof.
  induction cmds as [|c cmds IH]; intros k; [reflexivity|].
  cbn [attempts_of map att_command]. now rewrite IH.
Qed.

Lemma attempts_of_length (program : nat -> list string -> Z * list string)
    (cmds : list string) (k : nat) :
  length (attempts_of program k cmds) = length cmds.
Proof.
  rewrite <- (attempts_of_commands program cmds k) at 2.
  now rewrite length_map.
Qed.

Lemma failed_count_zero (attempts : list Attempt) :
  (Z.of_nat (length (filter att_failed attempts)) =? 0)%Z
  = negb (existsb att_failed attempts).
Proof.
  rewrite RetryLoopProps.existsb_filter_nil, negb_involutive.
  now destruct (filter att_failed attempts).
Qed.

(** On a plain ledger with the footer appended, the shell announces,
    runs and reports every command in turn, writes the summary, and
    exits with 0 when no command failed and with 1 otherwise. *)
Lemma bash_plain_ledger (program : nat -> list string -> Z * list string)
    (f : LedgerFile) (top : list string) (items : list Item) (k : nat) :
  plain_ledger (content f) top items k ->
  ends_with_entry items ->
  let attempts := attempts_of program 0 (commands items) in
  bash program (content (_add_result_check_to_script f))
  = Some ((if existsb att_failed attempts then 1 else 0)%Z,
          stdout_of (shell_run attempts)).
Proof.
  intros [Htext Htop Hitems] Hlast attempts.
  unfold _add_result_check_to_script.
  rewrite Htext, (ledger_text_no_marker top items k Htop Hitems).
  cbn [content].
  rewrite (rstrip_ledger_text top items k Hlast).
  destruct (script_lines_facts top items Htop Hitems) as (_ & Hn & _ & _).
  assert (Hrc : result_check = String LF (join NL footer_lines))
    by reflexivity.
  unfold bash. rewrite Hrc, split_app_NL.
  rewrite split_join; [|discriminate | exact Hn].
  change (split LF (join NL footer_lines)) with footer_lines.
  unfold script_lines.
  change ((("#!/bin/bash" :: top) ++ counters_init
             ++ flat_map item_lines items) ++ footer_lines)
    with ("#!/bin/bash"
            :: ((top ++ counters_init ++ flat_map item_lines items)
                  ++ footer_lines)).
  rewrite <- !app_assoc.
  rewrite steps_cons, (step_comment program _ "#!/bin/bash" eq_refl).
  rewrite (steps_top program top _ _ Htop), steps_init.
  destruct (steps_items program items Hitems 0 0 None 0 [] 0%nat footer_lines)
    as (st' & r' & E).
  rewrite E, steps_footer. cbn [written].
  rewrite !Z.add_0_l, failed_count_zero. fold attempts.
  f_equal. f_equal.
  - now destruct (existsb att_failed attempts).
  - unfold shell_run, stdout_of. cbn [app].
    rewrite <- app_assoc. do 3 f_equal.
    rewrite <- (attempts_of_length program (commands items) 0).
    reflexivity.
Qed.




End BashProps.


(* ===================================================================== *)
(** ** One tick of the executor *)
(* ===================================================================== *)

Module ExecutorTickProps.
Import PyStr PyStrFacts FailLogExecutor FailLogProps RetryScript.
Import SyncEngine(LedgerFile, mkLedgerFile, content, executable).




Lemma commands_app (a b : list Item) :
  commands (a ++ b) = commands a ++ commands b.
Proof.
  induction a as [|[line|cmd] a IH]; cbn [app commands]; [reflexivity|exact IH|].
  now rewrite IH.
Qed.

(** A plain ledger with an entry is one the tick runs. *)
Lemma plain_ledger_runs (f : LedgerFile) (top : list string)
    (items : list Item) (k : nat) :
  plain_ledger (content f) top items k ->
  ends_with_entry items ->
  recorded_commands (content f) = commands items
  /\ _has_rsync_commands (content f) = true
  /\ (12 < String.length (content f))%nat.
Proof.
  intros [Htext Htop Hitems] (front & cmd & Hlast).
  pose proof (BashProps.recorded_ledger_text top items k Htop Hitems) as Hr.
  rewrite <- Htext in Hr.
  assert (Hshape : exists s, content f = ("#!/bin/bash" ++ NL ++ s)%string).
  { rewrite Htext. unfold ledger_text, script_lines, counters_init.
    destruct top as [|l top]; cbn [app]; rewrite join_cons2, !append_assoc;
      eexists; reflexivity. }
  destruct Hshape as [s Hs]. split; [exact Hr|]. split.
  - rewrite Hs in *. cbn [append] in *.
    rewrite RetryLoopProps.has_rsync_commands_recorded by reflexivity.
    rewrite Hr, Hlast, commands_app. cbn [commands].
    now destruct (commands front).
  - rewrite Hs, !RetryLoopProps.length_app_string.
    assert (Hpos : (1 <= String.length s)%nat); [|cbn [String.length NL]; lia].
    destruct s as [|c s]; [|cbn; lia].
    exfalso. rewrite Hs in Hr. rewrite Hlast, commands_app in Hr.
    cbn [commands] in Hr.
    assert (Hnil : recorded_commands ("#!/bin/bash" ++ NL ++ "") = [])
      by reflexivity.
    rewrite Hnil in Hr. now destruct (commands front).
Qed.

(** *** The regenerated ledger is a plain ledger *)















End ExecutorTickProps.

(** ** A recorded failure and the next tick ([_log_failure], then
       [_check_and_execute]) *)

Module RecordedRetryProps.
Import PyStr PyStrFacts SyncEngine FailLogExecutor FailLogProps RetryScript.














Section WithEnvironment.
Variable fs_exists : string -> bool.


End WithEnvironment.

(** On a plain ledger the run of the shell as described is a run in the
    sense of [shell_runs]. *)
Lemma described_run_shell_runs
    (program : nat -> list string -> Z * list string) (f : LedgerFile)
    (top : list string) (items : list Item) (k : nat) :
  plain_ledger (content f) top items k ->
  ends_with_entry items ->
  let script := content (_add_result_check_to_script f) in
  shell_runs script (attempts_of program 0 (commands items))
    (described_run program script).
Proof.
  intros Hpl Hlast script. split.
  - rewrite BashProps.attempts_of_commands. unfold script.
    rewrite (FailLogProps.recorded_commands_with_footer f).
    symmetry. apply (ExecutorTickProps.plain_ledger_runs f top items k Hpl Hlast).
  - unfold described_run, script.
    now rewrite (BashProps.bash_plain_ledger program f top items k Hpl Hlast).
Qed.

(** A ledger that kept its footer is outside [found_ledger]: the entry
    recorded after the footer is never reached.  The shell runs the two
    earlier commands, leaves at the first footer with exit code 0, and
    the tick clears the ledger with the third command unretried. *)
Example kept_footer_loses_command :
  recorded ledger_kept_footer = [command_a; command_b; command_c]
  /\ Bash.bash only_third_fails (script_of ledger_kept_footer)
     = Some (0%Z,
             stdout_of (shell_run [mkAttempt command_a 0 [];
                                   mkAttempt command_b 0 []]))
  /\ _check_and_execute (described_run only_third_fails)
       (described_run only_third_fails) ledger_kept_footer
     = Some (mkLedgerFile ("#!/bin/bash" ++ NL)%string true)
  /\ ~ shell_runs (script_of ledger_kept_footer)
         [mkAttempt command_a 0 []; mkAttempt command_b 0 []]
         (described_run only_third_fails (script_of ledger_kept_footer)).
Proof.
  split; [vm_compute; reflexivity|].
  split; [vm_compute; reflexivity|].
  split; [vm_compute; reflexivity|].
  intros [H _]. vm_compute in H. discriminate H.
Qed.


End RecordedRetryProps.
